(* ===== verification/_CoqProject ===== *)
-Q . S2P
Prelude.v
Errno.v
UserIface.v
Address.v
FrameAllocator.v
Machine.v
PageTable.v
UserMem.v
MapArea.v
MemorySet.v
Space.v
AddressSpace.v
Mmap.v
SpaceLife.v
Cow.v
Fork.v
Demand.v
UserCopy.v
UserCopySafe.v
Pipe.v
FdTable.v
IdAlloc.v
Sched.v
Futex.v
Sync.v
Creds.v
Signals.v
Family.v
Msg.v
Shm.v
ShmSpace.v
ShmWorld.v
ShmSafe.v
EfsCache.v
EfsBitmap.v
EfsInode.v
EfsEntry.v
EfsFs.v
EfsOps.v
EfsDir.v
EfsMake.v
