(* ===== verification/Prelude.v ===== *)
(** * Verification of the rCore-lab kernel

    A development beside the sources of the kernel (os/), its architecture crate
    (arch/) and its file system (easy-fs/).  The parts of the kernel that decide
    what programs see of memory, processes and files are translated into Rocq
    functions, and theorems state what these functions do.  Names follow the
    source: [PageTable_map] is [PageTable::map], [sys_kill] is [sys_kill].

    ** The program and its parts

    Physical memory is handed out in frames by one allocator.  Page tables map
    the pages of a process to frames; an address space is a page table and a list
    of areas that own the frames, shared after a fork until one side writes.
    System calls reach user memory by walking the page table of the caller, and
    resolve lazy and shared pages as a fault would.  Tasks wait in the ready queue,
    in futex queues, or in the queues of mutexes, condition variables and
    semaphores; signals take them out again.  Processes hold files through
    descriptors, and pipes, message queues and shared memory connect them.
    easy-fs keeps files on a block device behind a cache.

    ** How code is modelled

    The kernel is built in release mode for riscv64 and runs on one processor with
    interrupts off, so an operation runs alone up to the point where it gives way
    to other tasks.  A [usize] is a [Z] with its wrap-around written out.  Code
    that changes state is a function in the monad [M S]: it takes a state of type
    [S] and returns a value and a state, or panics ([unwrap] on nothing, an index
    out of range, a failed assertion).  [wp] is total: a statement about it
    includes that the code does not panic.  Loops that are not structural carry
    fuel and answer [OutOfFuel] when it runs out; the theorems about them include
    that it does not.  Error numbers are returned as the source returns them.
    Where a call waits ([suspend_current_and_run_next]), its model takes a schedule
    that lists what the other tasks do meanwhile, and the theorems hold for every
    schedule.  Log messages and counters used only for diagnosis are left out.

    What one component promises to another is a class: [FrameAllocator] and
    [FrameAllocatorSpec] (instance [StackFrameAllocator]), [BlockStore] and
    [BlockStoreSpec] (instances the bare blocks and the block cache), [UserMemory]
    and [UserMemorySpec].  Code outside the repository is a class as well:
    [BlockDevice] with [BlockDeviceSpec] is the device under easy-fs, and [FileOps]
    and [FileTrait] are the methods that the memory code and the descriptor calls
    use of files of any kind.

    ** Files, and the code they model

    Prelude.v: machine integers, outcomes, the monad and its rules, loops, lists.
    Errno.v: syscall/errno.rs.  UserIface.v: the interface to user memory.

    Memory.
    - Address.v: arch/src/riscv64/mm/address.rs.
    - FrameAllocator.v: os/src/mm/frame_allocator.rs, the allocator.
    - Machine.v: the state of the memory code (allocator, contents of physical
      memory, reference counts of frames, kernel page table), [frame_alloc] and the
      [Arc]s of frames.
    - PageTable.v: arch/src/riscv64/mm/page_table.rs, entries and tables.
    - UserMem.v: the same file and os/src/syscall/user_mem.rs, translation of user
      pointers into slices of physical pages, strings, buffers and copy loops.
    - MapArea.v, MemorySet.v: os/src/mm/memory_set.rs.
    - Space.v, AddressSpace.v, Mmap.v, SpaceLife.v: the invariant of an address
      space, and what its operations do under it.
    - Cow.v, Fork.v, Demand.v: copy on write, fork, demand paging.
    - UserCopy.v, UserCopySafe.v: os/src/syscall/user_mem.rs, the copy routines and
      what they give on an address space.

    Tasks and processes.
    - IdAlloc.v: os/src/task/id.rs.
    - Sched.v: os/src/task/manager.rs, processor.rs, task.rs and the blocking
      primitives of mod.rs.
    - Futex.v: os/src/task/futex.rs.  Sync.v: os/src/sync.
    - Creds.v: identities, capabilities, process groups, priorities and limits of
      os/src/syscall/process.rs.
    - Signals.v: sending, delivery and return of signals in os/src/task/mod.rs,
      os/src/task/process.rs and os/src/syscall/process.rs.

    Files and communication.
    - Pipe.v: os/src/fs/pipe.rs.
    - FdTable.v: descriptor tables of os/src/task/process.rs and the calls on them in
      os/src/syscall/fs.rs.
    - Msg.v, Shm.v: os/src/syscall/ipc.rs.  ShmSpace.v, ShmWorld.v, ShmSafe.v:
      shared segments in one address space and in several.

    easy-fs.
    - EfsCache.v: block_dev.rs and block_cache.rs.  EfsBitmap.v: bitmap.rs.
    - EfsInode.v, EfsEntry.v: layout.rs.  EfsFs.v: efs.rs and vfs.rs.
    - EfsOps.v, EfsDir.v, EfsMake.v: what the operations do to files and
      directories, and making and opening a file system.

    ** What the theorems show

    Frames and page tables.  No frame is handed out twice
    ([frame_ownership_exclusive]).  A page table behaves as a finite map from pages
    to entries and returns its nodes when dropped ([page_table_refines_map]).

    Address spaces.  munmap and mprotect change exactly the pages they should
    ([munmap_exact], [mprotect_exact]); a fault on a lazy or shared page is resolved
    exactly when it may be, without changing what the program sees
    ([demand_fault_exact], [cow_fault_exact]); a space gives back every frame
    ([space_returns_all_frames]); and after a fork each process reads what it would
    read had every page been copied ([fork_is_copy]).

    User memory.  Checked buffers are exactly the user's bytes ([user_buffer_exact],
    [user_buffer_iter_exact]); a copy in or out is a plain read or write of the
    caller's memory and touches no other process ([copy_from_user_exact],
    [copy_to_user_private]).

    Tasks.  A task is in exactly one place ([futex_tasks_in_one_place],
    [futex_wake_exact]); one task at a time is in a critical section
    ([mutex_exclusion]); permits are counted ([semaphore_counts]); ids are unique and
    stacks disjoint ([ids_unique], [ustacks_disjoint]).

    Processes.  Ids and capabilities cannot be raised without privilege
    ([unprivileged_ids_confined], [capabilities_shrink]).  A signal handler returns to
    where it was called ([signal_roundtrip]), and kill reaches exactly the processes
    it names ([kill_exact]).

    Files and communication.  A pipe is a queue ([pipe_refines_queue],
    [pipe_poll_exact], [pipe_read_wakes]) and closes with its last descriptor
    ([pipe_closes_with_last_descriptor]); each descriptor call has exactly its effect
    ([descriptor_calls_exact]); message queues stay well formed and msgrcv takes the
    message it should ([msg_queues_typed], [sys_msgrcv_exact]); a shared page is one
    frame in every process ([shm_is_shared]).

    easy-fs.  The cache is transparent and loses no write ([cache_transparent]);
    writing, clearing, creating and finding do to the files what they should and to
    no other file ([efs_write_exact], [efs_clear_exact], [efs_create_find],
    [efs_make_open]).

    Where the code does not do what it means to, a theorem shows it:
    [mprotect_defeats_cow], [signal_breaks_mutex], [sigkill_waits_for_handler],
    [sigsuspend_undelivered], [flock_outlives_owner], [shmat_reaches_kernel_half],
    [getgroups_unchecked_pointer], [efs_alloc_past_end].

    ** Bounds and fuel

    A walk over a user range takes a step per page: [page_fuel len] is
    [len / 4096 + 2], enough for a range that starts and ends inside pages.  The
    loops over the ring of a pipe take two steps, up to the end of the buffer and
    from its start; a blocking write takes one step per turn of the schedule and two
    more for a slice; easy-fs loops take one per block of the file (at most [MAX_BLOCKS]),
    the scan for a free bit one per bit of a word; the futex scan takes one per
    waiter; the coverage test of mprotect one per page of the range.  Sizes of files
    and counts of inodes are bounded by the [u32] fields of the disk format, a
    premise ([geometry]) where it matters.  Signals are numbered 1 to 64.

    ** Not modelled

    - exec with its stack image, auxiliary vector and thread-local storage, the
      parsing of ELF files (a third-party crate), and wait.
    - Path resolution, mounts, procfs and terminals: opening a file by path is
      represented by its last step, the installation of a descriptor.
    - The adapters to third-party ext4 and FAT32 libraries, sockets over a
      third-party TCP/IP stack, and device drivers: what they do is decided by code
      that is not in the repository.
    - Trap entry and exit, context switches in assembly, boot, timers and interval
      timers, console output and logging.
    - The cells of os/src/sync/up.rs: the models give an operation its state for
      itself, which is what the cells provide on one processor.
    - The LoongArch port, the unused copies of the memory module under os/src/mm, the
      heap statistics, user programs and the image tool.
    - The dispatch of system calls by number, and calls that answer constants. *)

From stdpp Require Import base gmap list numbers list_numbers option fin_maps sets.

Declare Scope rust_scope.
Delimit Scope rust_scope with rust.
Open Scope Z_scope.

(** ** Machine integers

    A [usize], [u64] or [u32] value is a [Z] in the range of its width.  The
    kernel is built in release mode ([MODE := release] in os/Makefile, no
    [overflow-checks]), so [+], [-], [*] and [<<] wrap. *)

Definition USIZE : Z := 2 ^ 64.
Definition U32 : Z := 2 ^ 32.

Definition wrap64 (z : Z) : Z := z mod USIZE.
Definition wrap32 (z : Z) : Z := z mod U32.

Notation "a +w b" := (wrap64 (a + b)) (at level 50, left associativity) : rust_scope.
Notation "a -w b" := (wrap64 (a - b)) (at level 50, left associativity) : rust_scope.
Notation "a *w b" := (wrap64 (a * b)) (at level 40, left associativity) : rust_scope.
Notation "a <<w b" := (wrap64 (Z.shiftl a b)) (at level 45, left associativity) : rust_scope.
Open Scope rust_scope.

Definition is_usize (z : Z) : Prop := 0 <= z < USIZE.
Definition is_u32 (z : Z) : Prop := 0 <= z < U32.

Definition checked_add (a b : Z) : option Z :=
  if a + b <? USIZE then Some (a + b) else None.
Definition saturating_sub (a b : Z) : Z := Z.max 0 (a - b).
Definition saturating_add (a b : Z) : Z := Z.min (USIZE - 1) (a + b).
Definition saturating_mul (a b : Z) : Z := Z.min (USIZE - 1) (a * b).

(** [!mask] on a [usize]. *)
Definition not64 (z : Z) : Z := Z.ldiff (USIZE - 1) z.

(** ** Panics and state

    A Rust operation that may panic returns an [outcome]; one that also
    updates state of type [S] is an [M S A]. *)

Inductive outcome (A : Type) : Type :=
| Ret (a : A)
| Panic.
Arguments Ret {A} a.
Arguments Panic {A}.

Definition M (S A : Type) : Type := S → outcome (A * S).

Definition m_ret {S A} (a : A) : M S A := λ s, Ret (a, s).
Definition m_bind {S A B} (f : A → M S B) (m : M S A) : M S B := λ s,
  match m s with
  | Ret (a, s') => f a s'
  | Panic => Panic
  end.
Definition m_get {S} : M S S := λ s, Ret (s, s).
Definition m_put {S} (s : S) : M S unit := λ _, Ret (tt, s).
Definition m_modify {S} (f : S → S) : M S unit := λ s, Ret (tt, f s).
Definition m_panic {S A} : M S A := λ _, Panic.
Definition m_assert {S} (b : bool) : M S unit := if b then m_ret tt else m_panic.
Definition m_unwrap {S A} (o : option A) : M S A :=
  match o with Some a => m_ret a | None => m_panic end.

Notation "'let!' x ':=' m 'in' k" := (m_bind (λ x, k) m)
  (at level 10, x pattern, m at level 200, k at level 200,
   format "'[v' 'let!'  x  ':='  m  'in' '/' k ']'") : rust_scope.
Notation "m ;;; k" := (m_bind (λ _, k) m)
  (at level 100, right associativity) : rust_scope.

(** [for x in l { f x }] *)
Fixpoint m_for {S A} (l : list A) (f : A → M S unit) : M S unit :=
  match l with
  | [] => m_ret tt
  | x :: l' => f x ;;; m_for l' f
  end.

(** [for x in l { (b, ...) = f b x }]: a loop that updates local variables. *)
Fixpoint m_fold {S A B} (f : B → A → M S B) (l : list A) (b : B) : M S B :=
  match l with
  | [] => m_ret b
  | x :: l' => let! b := f b x in m_fold f l' b
  end.

(** Total weakest precondition: the operation returns (it does not panic) and
    its result and final state satisfy [Q]. *)
Definition wp {S A} (m : M S A) (Q : A → S → Prop) (s : S) : Prop :=
  match m s with
  | Ret (a, s') => Q a s'
  | Panic => False
  end.

Section wp.
Context {S A B : Type}.
Implicit Types (s : S).

Lemma wp_ret (a : A) (Q : A → S → Prop) s : Q a s → wp (m_ret a) Q s.
Proof. done. Qed.

Lemma wp_bind (f : A → M S B) (m : M S A) (Q : B → S → Prop) s :
  wp m (λ a, wp (f a) Q) s → wp (m_bind f m) Q s.
Proof. unfold wp, m_bind. destruct (m s) as [[a s']|]; done. Qed.

Lemma wp_bind_assoc {C} (f : B → M S C) (g : A → M S B) (m : M S A) (Q : C → S → Prop) s :
  wp (m_bind (λ a, m_bind f (g a)) m) Q s → wp (m_bind f (m_bind g m)) Q s.
Proof. unfold wp, m_bind. by destruct (m s) as [[a s']|]. Qed.

Lemma wp_mono (m : M S A) (P Q : A → S → Prop) s :
  wp m P s → (∀ a s', P a s' → Q a s') → wp m Q s.
Proof. unfold wp. destruct (m s) as [[a s']|]; naive_solver. Qed.

Lemma wp_get (Q : S → S → Prop) s : Q s s → wp m_get Q s.
Proof. done. Qed.

Lemma wp_modify (g : S → S) (Q : unit → S → Prop) s : Q tt (g s) → wp (m_modify g) Q s.
Proof. done. Qed.

Lemma wp_assert (b : bool) (Q : unit → S → Prop) s :
  b = true → Q tt s → wp (m_assert b) Q s.
Proof. by intros ->. Qed.

Lemma wp_unwrap (a : A) o (Q : A → S → Prop) s :
  o = Some a → Q a s → wp (m_unwrap o) Q s.
Proof. by intros ->. Qed.

Lemma wp_det (m : M S A) (Q : A → S → Prop) s :
  wp m Q s → ∃ a s', m s = Ret (a, s') ∧ Q a s'.
Proof. unfold wp. destruct (m s) as [[a s']|]; naive_solver. Qed.

End wp.

(** A loop keeps an invariant indexed by the elements already visited. *)
Lemma wp_for_gen {S A} (f : A → M S unit) (I : list A → S → Prop) todo :
  ∀ visited s,
  I visited s →
  (∀ before x after s', visited ++ todo = before ++ x :: after → I before s' →
     wp (f x) (λ _ s'', I (before ++ [x]) s'') s') →
  wp (m_for todo f) (λ _ s', I (visited ++ todo) s') s.
Proof.
  induction todo as [|x todo IH]; intros visited s HI Hstep.
  - simpl. by rewrite app_nil_r.
  - simpl. apply wp_bind. eapply wp_mono; [by eapply Hstep|].
    intros [] s' HI'. rewrite (cons_middle x visited todo), app_assoc in *.
    apply IH; done.
Qed.

Lemma wp_for {S A} (l : list A) (f : A → M S unit) (I : list A → S → Prop) s :
  I [] s →
  (∀ before x after s', l = before ++ x :: after → I before s' →
     wp (f x) (λ _ s'', I (before ++ [x]) s'') s') →
  wp (m_for l f) (λ _ s', I l s') s.
Proof. intros. by apply (wp_for_gen f I l []). Qed.

Lemma wp_fold {S A B} (f : B → A → M S B) (I : list A → B → S → Prop) todo : ∀ visited b s,
  I visited b s →
  (∀ before x after b' s', visited ++ todo = before ++ x :: after → I before b' s' →
     wp (f b' x) (λ b'' s'', I (before ++ [x]) b'' s'') s') →
  wp (m_fold f todo b) (λ b' s', I (visited ++ todo) b' s') s.
Proof.
  induction todo as [|x todo IH]; intros visited b s HI Hstep.
  - simpl. by rewrite app_nil_r.
  - simpl. apply wp_bind. eapply wp_mono; [by eapply Hstep|].
    intros b' s' HI'. rewrite (cons_middle x visited todo), app_assoc in *.
    apply IH; done.
Qed.

(** ** Integer and bit lemmas *)

Lemma wrap64_small z : is_usize z → wrap64 z = z.
Proof. apply Z.mod_small. Qed.

Lemma wrap64_range z : is_usize (wrap64 z).
Proof. by apply Z.mod_pos_bound. Qed.

Lemma wrap32_small z : is_u32 z → wrap32 z = z.
Proof. apply Z.mod_small. Qed.

Lemma wrap32_range z : is_u32 (wrap32 z).
Proof. by apply Z.mod_pos_bound. Qed.

(** [v & ((1 << k) - 1)] *)
Lemma land_mask v k : 0 <= k → Z.land v (Z.shiftl 1 k - 1) = v mod 2 ^ k.
Proof.
  intros Hk. rewrite Z.shiftl_1_l. rewrite <- Z.land_ones by done.
  by rewrite Z.ones_equiv.
Qed.

Lemma testbit_small b n i : 0 <= b < 2 ^ n → n <= i → Z.testbit b i = false.
Proof.
  intros [Hb0 Hb] Hi.
  destruct (Z.eq_dec b 0) as [->|Hne]; [apply Z.testbit_0_l|].
  destruct (decide (0 <= n)) as [Hn|Hn];
    [|rewrite Z.pow_neg_r in Hb by lia; lia].
  apply Z.bits_above_log2; [done|].
  apply Z.log2_lt_pow2; [lia|].
  apply Z.lt_le_trans with (2 ^ n); [done|]. apply Z.pow_le_mono_r; lia.
Qed.

Lemma lor_shiftl_add a b n :
  0 <= n → 0 <= b < 2 ^ n → Z.lor (Z.shiftl a n) b = a * 2 ^ n + b.
Proof.
  intros Hn Hb. rewrite Z.shiftl_mul_pow2 by done.
  assert (Z.land (a * 2 ^ n) b = 0) as Hdisj.
  { apply Z.bits_inj'. intros i Hi. rewrite Z.land_spec, Z.bits_0.
    destruct (decide (i < n)).
    - by rewrite Z.mul_pow2_bits_low by lia.
    - rewrite (testbit_small b n i) by lia. by rewrite andb_false_r. }
  rewrite <- Z.lxor_lor by done. symmetry. by apply Z.add_nocarry_lxor.
Qed.

Lemma shiftr_add_small a b n :
  0 <= n → 0 <= b < 2 ^ n → Z.shiftr (a * 2 ^ n + b) n = a.
Proof.
  intros Hn Hb. rewrite Z.shiftr_div_pow2 by done.
  rewrite Z.div_add_l by lia. rewrite Z.div_small by done. lia.
Qed.

Lemma mod_add_small a b n : 0 <= b < 2 ^ n → (a * 2 ^ n + b) mod 2 ^ n = b.
Proof.
  intros Hb. rewrite Z.add_comm, Z.mod_add by lia. by apply Z.mod_small.
Qed.

(** ** Flag sets ([bitflags!]) *)

(** [self.contains(f)] *)
Definition contains (bits f : Z) : bool := Z.land bits f =? f.

(** A one-bit flag is contained iff its bit is set. *)
Lemma contains_bit bits i : 0 <= i → contains bits (Z.shiftl 1 i) = Z.testbit bits i.
Proof.
  intros Hi. unfold contains. apply eq_true_iff_eq. rewrite Z.eqb_eq. split.
  - intros H. apply (f_equal (λ z, Z.testbit z i)) in H.
    rewrite Z.land_spec, Z.shiftl_spec, Z.sub_diag in H by done.
    by rewrite andb_true_r in H.
  - intros H. apply Z.bits_inj'. intros j Hj. rewrite Z.land_spec.
    destruct (decide (i = j)) as [->|Hne]; [by rewrite H|].
    rewrite Z.shiftl_1_l, Z.pow2_bits_false by done. apply andb_false_r.
Qed.

(** ** Lists used as vectors

    A [Vec] or [VecDeque] is a list in index order; [pop]/[pop_back] takes the
    last element. *)

Definition pop_back {A} (l : list A) : option (A * list A) :=
  match last l with
  | Some x => Some (x, take (length l - 1) l)
  | None => None
  end.

Lemma pop_back_snoc {A} (l : list A) x : pop_back (l ++ [x]) = Some (x, l).
Proof.
  unfold pop_back. rewrite last_snoc, length_app. simpl.
  by rewrite Nat.add_sub, take_app_length.
Qed.

Lemma pop_back_nil {A} : pop_back ([] : list A) = None.
Proof. done. Qed.

Lemma pop_back_Some {A} (l l' : list A) x : pop_back l = Some (x, l') → l = l' ++ [x].
Proof.
  destruct l as [|y l0 _] using rev_ind; [done|].
  rewrite pop_back_snoc. naive_solver.
Qed.

Lemma pop_back_None {A} (l : list A) : pop_back l = None → l = [].
Proof. destruct l as [|y l0 _] using rev_ind; [done|]. by rewrite pop_back_snoc. Qed.

(** ** Loops with fuel

    The result of a [while] or [loop] run with a bound on its iterations. *)
Inductive looped (A : Type) : Type :=
| Finished (a : A)
| OutOfFuel.
Arguments Finished {A} a.
Arguments OutOfFuel {A}.

(** ** [Result] and error numbers *)

Inductive result (A E : Type) : Type :=
| Ok (a : A)
| Err (e : E).
Arguments Ok {A E} a.
Arguments Err {A E} e.

(** ** [mapM] over a concatenation *)

Lemma mapM_app_opt {A B} (f : A → option B) (l k : list A) :
  mapM f (l ++ k) = (x ← mapM f l; y ← mapM f k; Some (x ++ y)).
Proof.
  induction l as [|a l IH]; simpl; [by destruct (mapM f k)|].
  destruct (f a); simpl; [|done]. rewrite IH.
  destruct (mapM f l); simpl; [|done]. by destruct (mapM f k).
Qed.

Lemma mapM_all {A B} (f : A → option B) (g : A → B) (l : list A) :
  (∀ x, x ∈ l → f x = Some (g x)) → mapM f l = Some (g <$> l).
Proof.
  intros H. apply mapM_Some, Forall2_fmap_r, Forall_Forall2_diag, Forall_forall. done.
Qed.

(** ** Slices *)

(** [dst[off .. off + src.len()].copy_from_slice(src)] *)
Definition splice {A} (off : nat) (src dst : list A) : list A :=
  take off dst ++ src ++ drop (off + length src) dst.

Section splice.
Context {A : Type}.
Implicit Types (src dst l : list A).
#[local] Open Scope nat_scope.

Lemma splice_length off src dst : off + length src <= length dst → length (splice off src dst) = length dst.
Proof. intros H. unfold splice. rewrite !length_app, length_take, length_drop. lia. Qed.

Lemma splice_lookup off src dst i : off + length src <= length dst →
  splice off src dst !! i = if decide (off <= i < off + length src) then src !! (i - off) else dst !! i.
Proof.
  intros H. unfold splice. case_decide as Hi.
  - rewrite lookup_app_r, length_take by (rewrite length_take; lia).
    rewrite lookup_app_l by lia. f_equal. lia.
  - destruct (decide (i < off)).
    + rewrite lookup_app_l by (rewrite length_take; lia). by rewrite lookup_take_lt.
    + rewrite lookup_app_r, length_take by (rewrite length_take; lia).
      rewrite lookup_app_r, lookup_drop by lia. f_equal. lia.
Qed.

Lemma splice_nil off dst : splice off [] dst = dst.
Proof. unfold splice. simpl. by rewrite Nat.add_0_r, take_drop. Qed.

(** Two adjacent slices written one after the other. *)
Lemma splice_app off src1 src2 dst : off + length src1 + length src2 <= length dst →
  splice (off + length src1) src2 (splice off src1 dst) = splice off (src1 ++ src2) dst.
Proof.
  intros H. apply list_eq. intros i. rewrite splice_lookup by (rewrite splice_length; lia).
  rewrite !splice_lookup, length_app by (rewrite ?length_app; lia).
  repeat case_decide; try lia; try done.
  - rewrite lookup_app_r by lia. f_equal. lia.
  - by rewrite lookup_app_l by lia.
Qed.

(** What a slice reads after a write: itself, or what was there before. *)
Lemma splice_read off src dst : off + length src <= length dst →
  take (length src) (drop off (splice off src dst)) = src.
Proof.
  intros H. unfold splice. rewrite drop_app_length' by (rewrite length_take; lia). by rewrite take_app_length.
Qed.

Lemma splice_read_ne off src dst off' n : off + length src <= length dst →
  off' + n <= off ∨ off + length src <= off' →
  take n (drop off' (splice off src dst)) = take n (drop off' dst).
Proof.
  intros H Hd. apply list_eq. intros i. destruct (decide (i < n)).
  - rewrite !lookup_take_lt, !lookup_drop, splice_lookup by done. rewrite decide_False; [done|lia].
  - by rewrite !lookup_take_ge by lia.
Qed.

Lemma take_add n m l : take (n + m) l = take n l ++ take m (drop n l).
Proof. revert n. induction l as [|x l IH]; intros [|n]; simpl; rewrite ?take_nil; try done. by rewrite IH. Qed.
End splice.

Lemma splice_app_l {A} off (src l k : list A) : (off + length src <= length l)%nat →
  splice off src (l ++ k) = splice off src l ++ k.
Proof. intros H. unfold splice. rewrite take_app_le, drop_app_le by lia. by rewrite <- !app_assoc. Qed.

(** ** Lists of chunks of equal length *)

Section chunks.
#[local] Open Scope nat_scope.
Context {A : Type} {inh : Inhabited A} (n : nat).
Implicit Types (bs : list (list A)).

Lemma length_chunks bs : Forall (λ b, length b = n) bs → length (concat bs) = n * length bs.
Proof. induction 1 as [|b bs Hb _ IH]; simpl; [lia|]. rewrite length_app, IH, Hb. lia. Qed.

Lemma chunk_read bs i o m : Forall (λ b, length b = n) bs → i < length bs → o + m <= n →
  take m (drop (n * i + o) (concat bs)) = take m (drop o (bs !!! i)).
Proof.
  intros H. revert i. induction H as [|b bs Hb _ IH]; intros i Hi Ho; simpl in Hi; [lia|].
  destruct i as [|i]; simpl.
  - rewrite Nat.mul_0_r. simpl. rewrite drop_app_le by lia. rewrite take_app_le; [done|]. rewrite length_drop. lia.
  - replace (n * S i + o) with (length b + (n * i + o)) by lia. rewrite drop_app_add. apply IH; lia.
Qed.

Lemma chunk_write bs i o src : Forall (λ b, length b = n) bs → i < length bs → o + length src <= n →
  concat (<[i := splice o src (bs !!! i)]> bs) = splice (n * i + o) src (concat bs).
Proof.
  intros H. revert i. induction H as [|b bs Hb _ IH]; intros i Hi Ho; simpl in Hi; [lia|].
  destruct i as [|i]; simpl.
  - rewrite Nat.mul_0_r. unfold splice. simpl. rewrite take_app_le, drop_app_le by lia. by rewrite <- !app_assoc.
  - rewrite IH by lia. unfold splice. replace (n * S i + o) with (length b + (n * i + o)) by lia.
    rewrite take_app_add, <- (Nat.add_assoc (length b)), drop_app_add. by rewrite <- !app_assoc.
Qed.
End chunks.

(** ** Filters and prefixes *)

Lemma filter_ext_in {A} (P Q : A → Prop) `{∀ x, Decision (P x), ∀ x, Decision (Q x)} (l : list A) :
  (∀ x, x ∈ l → P x ↔ Q x) → filter P l = filter Q l.
Proof.
  induction l as [|x l IH]; intros Heq; [done|]. rewrite !filter_cons.
  rewrite IH by (intros y Hy; apply Heq; by right). by rewrite (decide_ext (P x) (Q x)) by (apply Heq; by left).
Qed.

Lemma filter_all_in {A} (P : A → Prop) `{∀ x, Decision (P x)} (l : list A) : (∀ x, x ∈ l → P x) → filter P l = l.
Proof.
  induction l as [|x l IH]; intros HP; [done|]. rewrite filter_cons, decide_True by (apply HP; by left).
  rewrite IH; [done|]. intros y Hy. apply HP. by right.
Qed.

Lemma take_app_exact {A} n (l k : list A) : length l = n → take n (l ++ k) = l.
Proof. intros <-. apply take_app_length. Qed.

(** ** Little-endian words *)

Definition is_byte (b : Z) : Prop := 0 <= b < 256.

Fixpoint le_get (bs : list Z) : Z :=
  match bs with [] => 0 | b :: bs => b + 256 * le_get bs end.
Fixpoint le_put (n : nat) (v : Z) : list Z :=
  match n with O => [] | S n => v mod 256 :: le_put n (v / 256) end.

Lemma le_put_length n v : length (le_put n v) = n.
Proof. revert v. induction n as [|n IH]; intros v; simpl; [done|]. by rewrite IH. Qed.

Lemma le_put_bytes n v : Forall is_byte (le_put n v).
Proof.
  revert v. induction n as [|n IH]; intros v; simpl; constructor; [|by apply IH]. by apply Z.mod_pos_bound.
Qed.

Lemma le_get_put n v : le_get (le_put n v) = v mod 256 ^ Z.of_nat n.
Proof.
  revert v. induction n as [|n IH]; intros v; simpl; [by rewrite Z.mod_1_r|].
  rewrite IH. replace (256 ^ Z.of_nat (S n)) with (256 * 256 ^ Z.of_nat n)
    by (rewrite Nat2Z.inj_succ, Z.pow_succ_r by lia; done).
  rewrite Z.rem_mul_r by (try lia; apply Z.pow_pos_nonneg; lia). lia.
Qed.

Lemma le_get_range bs : Forall is_byte bs → 0 <= le_get bs < 256 ^ Z.of_nat (length bs).
Proof.
  induction 1 as [|b bs Hb _ IH]; simpl; [lia|]. unfold is_byte in Hb.
  rewrite Nat2Z.inj_succ, Z.pow_succ_r by lia. lia.
Qed.

Lemma le_put_get bs : Forall is_byte bs → le_put (length bs) (le_get bs) = bs.
Proof.
  induction 1 as [|b bs Hb _ IH]; simpl; [done|]. unfold is_byte in Hb.
  replace (b + 256 * le_get bs) with (le_get bs * 256 + b) by lia.
  rewrite Z.add_comm, Z.mod_add, Z.mod_small, Z.div_add, Z.div_small by lia. by rewrite Z.add_0_l, IH.
Qed.

(** ** Case analysis on boolean comparisons

    Each comparison of the goal is decided; branches that arithmetic refutes
    are closed. *)
Ltac zcase :=
  repeat (match goal with
  | |- context [?a <? ?b] => destruct (Z.ltb_spec a b)
  | |- context [?a <=? ?b] => destruct (Z.leb_spec a b)
  | |- context [?a =? ?b] => destruct (Z.eqb_spec a b)
  end; try (exfalso; lia); simpl).
