(* ===== verification/Errno.v ===== *)
(** * Error numbers (os/src/syscall/errno.rs) *)

From stdpp Require Import numbers.
From S2P Require Import Prelude.

Abbreviation EPERM := (1).
Abbreviation ENOENT := (2).
Abbreviation ESRCH := (3).
Abbreviation EINTR := (4).
Abbreviation EIO := (5).
Abbreviation E2BIG := (7).
Abbreviation ENOEXEC := (8).
Abbreviation EBADF := (9).
Abbreviation ECHILD := (10).
Abbreviation EAGAIN := (11).
Abbreviation ENOMEM := (12).
Abbreviation EACCES := (13).
Abbreviation EFAULT := (14).
Abbreviation EBUSY := (16).
Abbreviation EEXIST := (17).
Abbreviation EXDEV := (18).
Abbreviation ENODEV := (19).
Abbreviation ENOTDIR := (20).
Abbreviation EISDIR := (21).
Abbreviation EINVAL := (22).
Abbreviation ENFILE := (23).
Abbreviation EMFILE := (24).
Abbreviation ENOTTY := (25).
Abbreviation EFBIG := (27).
Abbreviation EPIPE := (32).
Abbreviation ERANGE := (34).
Abbreviation ENAMETOOLONG := (36).
Abbreviation ESPIPE := (29).
Abbreviation EROFS := (30).
Abbreviation ENOSPC := (28).
Abbreviation ENOSYS := (38).
Abbreviation ENOTEMPTY := (39).
Abbreviation ELOOP := (40).
Abbreviation ENOMSG := (42).
Abbreviation ENODATA := (61).
Abbreviation ENOTSUP := (95).
Abbreviation ETIMEDOUT := (110).

(** A system call reports an error as the negated number. *)
Definition errno (code : Z) : Z := - code.
