(* ===== verification/UserIface.v ===== *)
(** * What a system call needs of user memory

    The system calls that do not depend on how memory is mapped are modelled
    over this interface: a read and a write that may fail.  UserCopySafe.v shows
    what the kernel's copy routines give on an address space. *)

From stdpp Require Import base list numbers list_numbers option.
From S2P Require Import Prelude.

(** Casts to [i32] and [i64]. *)
Definition wrap_i32 (z : Z) : Z := (z + 2 ^ 31) mod 2 ^ 32 - 2 ^ 31.
Definition wrap_i64 (z : Z) : Z := (z + 2 ^ 63) mod 2 ^ 64 - 2 ^ 63.

(** [x & m != 0] *)
Definition any_bit (x m : Z) : bool := negb (Z.land x m =? 0).

(** [read_from_user] and [copy_from_user], [copy_to_user], and
    [ensure_user_writable]; they fail on addresses the process cannot access. *)
Class UserMemory (U : Type) : Type := {
  user_read : U → Z → nat → option (list Z);
  user_write : U → Z → list Z → bool * U;
  user_writable : U → Z → nat → bool;
}.

(** What a read of user memory gives: as many bytes as asked for. *)
Class UserMemorySpec (U : Type) {UM : UserMemory U} : Prop := {
  user_read_bytes : ∀ u addr n b, user_read u addr n = Some b → length b = n ∧ Forall is_byte b;
}.

(** A memory of consecutive bytes, for the examples. *)
#[export] Instance flat_memory : UserMemory (list Z) := {|
  user_read u addr n :=
    if (0 <=? addr) && (addr + Z.of_nat n <=? Z.of_nat (length u))
    then Some ((λ b, b mod 256) <$> take n (drop (Z.to_nat addr) u)) else None;
  user_write u addr b :=
    if (0 <=? addr) && (addr + Z.of_nat (length b) <=? Z.of_nat (length u))
    then (true, splice (Z.to_nat addr) b u) else (false, u);
  user_writable u addr n := (0 <=? addr) && (addr + Z.of_nat n <=? Z.of_nat (length u));
|}.

#[export] Instance flat_memory_spec : UserMemorySpec (list Z).
Proof.
  constructor. intros u addr n b. cbn. case_match eqn:E; [|done]. apply andb_true_iff in E as [E1%Z.leb_le E2%Z.leb_le].
  intros [= <-]. split.
  - rewrite length_fmap, length_take, length_drop. lia.
  - apply Forall_fmap, Forall_true. intros x. unfold is_byte, compose. apply Z.mod_pos_bound. lia.
Qed.

