(* ===== verification/Address.v ===== *)
(** * Addresses and page numbers (arch/src/riscv64/mm/address.rs)

    The newtypes [PhysAddr], [VirtAddr], [PhysPageNum] and [VirtPageNum] wrap
    one [usize] and are represented by it.  The file holds the conversions
    between them, the decomposition of a page number into the three Sv39
    table indices, and the half-open page ranges [VPNRange] with their
    iterator. *)

From stdpp Require Import base list numbers list_numbers option.
From S2P Require Import Prelude.

Definition PAGE_SIZE : Z := 0x1000.
Definition PAGE_SIZE_BITS : Z := 0xc.
Abbreviation PA_WIDTH_SV39 := (56)%Z.
Abbreviation VA_WIDTH_SV39 := (39)%Z.
Abbreviation PPN_WIDTH_SV39 := (PA_WIDTH_SV39 - PAGE_SIZE_BITS)%Z.
Abbreviation VPN_WIDTH_SV39 := (VA_WIDTH_SV39 - PAGE_SIZE_BITS)%Z.
(** entry.rs *)
Definition VIRT_ADDR_START : Z := 0xFFFFFFC000000000.
(** board.rs *)
Definition MEMORY_END : Z := 0xC0000000.

Definition PhysAddr_from_usize (v : Z) : Z :=
  let stripped :=
    if Z.land v VIRT_ADDR_START =? VIRT_ADDR_START
    then Z.land v (not64 VIRT_ADDR_START) else v in
  Z.land stripped (Z.shiftl 1 PA_WIDTH_SV39 - 1).

Definition PhysPageNum_from_usize (v : Z) : Z :=
  Z.land v (Z.shiftl 1 PPN_WIDTH_SV39 - 1).

Definition VirtAddr_from_usize (v : Z) : Z :=
  Z.land v (Z.shiftl 1 VA_WIDTH_SV39 - 1).

Definition VirtPageNum_from_usize (v : Z) : Z :=
  Z.land v (Z.shiftl 1 VPN_WIDTH_SV39 - 1).

(** Sign extension of a 39-bit virtual address. *)
Definition usize_from_VirtAddr (v : Z) : Z :=
  if Z.shiftl 1 (VA_WIDTH_SV39 - 1) <=? v
  then Z.lor v (not64 (Z.shiftl 1 VA_WIDTH_SV39 - 1)) else v.

Definition VirtAddr_floor (v : Z) : Z := v / PAGE_SIZE.
Definition VirtAddr_ceil (v : Z) : Z := (v -w 1 +w PAGE_SIZE) / PAGE_SIZE.
Definition VirtAddr_page_offset (v : Z) : Z := Z.land v (PAGE_SIZE - 1).
Definition VirtAddr_aligned (v : Z) : bool := VirtAddr_page_offset v =? 0.

(** [assert_eq!(v.page_offset(), 0)] before the conversion. *)
Definition VirtPageNum_from_VirtAddr (v : Z) : outcome Z :=
  if VirtAddr_page_offset v =? 0 then Ret (VirtAddr_floor v) else Panic.
Definition VirtAddr_from_VirtPageNum (v : Z) : Z := v <<w PAGE_SIZE_BITS.

Definition PhysAddr_floor (v : Z) : Z := v / PAGE_SIZE.
Definition PhysAddr_ceil (v : Z) : Z := (v -w 1 +w PAGE_SIZE) / PAGE_SIZE.
Definition PhysAddr_page_offset (v : Z) : Z := Z.land v (PAGE_SIZE - 1).
Definition PhysAddr_aligned (v : Z) : bool := PhysAddr_page_offset v =? 0.
Definition PhysPageNum_from_PhysAddr (v : Z) : outcome Z :=
  if PhysAddr_page_offset v =? 0 then Ret (PhysAddr_floor v) else Panic.
Definition PhysAddr_from_PhysPageNum (v : Z) : Z := v <<w PAGE_SIZE_BITS.

(** The loop [for i in (0..3).rev()]: the last index is the low 9 bits. *)
Fixpoint indexes_loop (n : nat) (vpn : Z) (idx : list Z) : list Z :=
  match n with
  | O => idx
  | S i => indexes_loop i (Z.shiftr vpn 9) (<[i := Z.land vpn 511]> idx)
  end.
Definition VirtPageNum_indexes (vpn : Z) : list Z := indexes_loop 3 vpn [0; 0; 0].

(** [VirtPageNum::step] *)
Definition VirtPageNum_step (vpn : Z) : Z := vpn +w 1.

Record VPNRange : Type := mkVPNRange { vr_start : Z; vr_end : Z }.

#[export] Instance VPNRange_eq_dec : EqDecision VPNRange.
Proof. solve_decision. Defined.

Definition VPNRange_new (start end_ : Z) : VPNRange :=
  if start <=? end_ then mkVPNRange start end_ else mkVPNRange start start.

(** [Iterator::next] *)
Definition VPNRange_next (r : VPNRange) : option (Z * VPNRange) :=
  if vr_end r <=? vr_start r then None
  else Some (vr_start r, mkVPNRange (VirtPageNum_step (vr_start r)) (vr_end r)).

(** The pages a [for] loop over the range visits. *)
Fixpoint VPNRange_collect (fuel : nat) (r : VPNRange) : list Z :=
  match fuel with
  | O => []
  | S fuel =>
      match VPNRange_next r with
      | None => []
      | Some (v, r') => v :: VPNRange_collect fuel r'
      end
  end.
Definition VPNRange_iter (r : VPNRange) : list Z :=
  VPNRange_collect (Z.to_nat (vr_end r - vr_start r)) r.

(** ** Lemmas *)

Lemma VirtAddr_from_usize_mod v : VirtAddr_from_usize v = v mod 2 ^ 39.
Proof. unfold VirtAddr_from_usize. by rewrite land_mask. Qed.

Lemma VirtPageNum_from_usize_mod v : VirtPageNum_from_usize v = v mod 2 ^ 27.
Proof. unfold VirtPageNum_from_usize. by rewrite land_mask. Qed.

Lemma PhysPageNum_from_usize_mod v : PhysPageNum_from_usize v = v mod 2 ^ 44.
Proof. unfold PhysPageNum_from_usize. by rewrite land_mask. Qed.

Lemma PhysPageNum_from_usize_small v : 0 <= v < 2 ^ 44 → PhysPageNum_from_usize v = v.
Proof. intros. rewrite PhysPageNum_from_usize_mod. by apply Z.mod_small. Qed.

Lemma PhysAddr_from_usize_small v : 0 <= v < 2 ^ 56 → PhysAddr_from_usize v = v.
Proof.
  intros Hv. unfold PhysAddr_from_usize.
  destruct (Z.eqb_spec (Z.land v VIRT_ADDR_START) VIRT_ADDR_START) as [Heq|_].
  - apply (f_equal (λ z, Z.testbit z 63)) in Heq. rewrite Z.land_spec, (testbit_small v 56) in Heq by lia.
    by vm_compute in Heq.
  - rewrite land_mask by done. by apply Z.mod_small.
Qed.

Lemma page_offset_mod v : VirtAddr_page_offset v = v mod PAGE_SIZE.
Proof. unfold VirtAddr_page_offset. by apply (land_mask v 12). Qed.

Lemma page_offset_range v : 0 <= VirtAddr_page_offset v < PAGE_SIZE.
Proof. rewrite page_offset_mod. by apply Z.mod_pos_bound. Qed.

Lemma VirtAddr_floor_offset v : v = VirtAddr_floor v * PAGE_SIZE + VirtAddr_page_offset v.
Proof. rewrite page_offset_mod. unfold VirtAddr_floor. rewrite (Z.div_mod v PAGE_SIZE) at 1; [|done]. lia. Qed.

Lemma VirtAddr_from_usize_range v : 0 <= VirtAddr_from_usize v < 2 ^ 39.
Proof. rewrite VirtAddr_from_usize_mod. by apply Z.mod_pos_bound. Qed.

Lemma VirtAddr_floor_range v : 0 <= v < 2 ^ 39 → 0 <= VirtAddr_floor v < 2 ^ 27.
Proof.
  intros Hv. unfold VirtAddr_floor, PAGE_SIZE. split.
  - apply Z.div_pos; lia.
  - apply Z.div_lt_upper_bound; lia.
Qed.

Lemma usize_from_VirtAddr_low v : v < 2 ^ 38 → usize_from_VirtAddr v = v.
Proof.
  intros Hv. unfold usize_from_VirtAddr.
  destruct (Z.leb_spec (Z.shiftl 1 (VA_WIDTH_SV39 - 1)) v) as [H|H]; [|done].
  change (Z.shiftl 1 (VA_WIDTH_SV39 - 1)) with (2 ^ 38) in H. lia.
Qed.

Lemma usize_from_VirtAddr_high v :
  2 ^ 38 <= v < 2 ^ 39 → usize_from_VirtAddr v = USIZE - 2 ^ 39 + v.
Proof.
  intros Hv. unfold usize_from_VirtAddr.
  destruct (Z.leb_spec (Z.shiftl 1 (VA_WIDTH_SV39 - 1)) v) as [H|H];
    change (Z.shiftl 1 (VA_WIDTH_SV39 - 1)) with (2 ^ 38) in H; [|lia].
  change (not64 (Z.shiftl 1 VA_WIDTH_SV39 - 1)) with (Z.shiftl (2 ^ 25 - 1) 39).
  rewrite Z.lor_comm, lor_shiftl_add by lia. unfold USIZE. lia.
Qed.

(** A page number is determined by its three indices. *)
Lemma VirtPageNum_indexes_eq vpn :
  VirtPageNum_indexes vpn =
    [(vpn / 2 ^ 18) mod 512; (vpn / 2 ^ 9) mod 512; vpn mod 512].
Proof.
  unfold VirtPageNum_indexes. simpl.
  change 511 with (Z.shiftl 1 9 - 1). rewrite !land_mask by done.
  rewrite Z.shiftr_shiftr by done. by rewrite !Z.shiftr_div_pow2 by done.
Qed.

Lemma VPNRange_collect_seqZ fuel r :
  is_usize (vr_end r) → 0 <= vr_start r →
  (Z.to_nat (vr_end r - vr_start r) <= fuel)%nat →
  VPNRange_collect fuel r = seqZ (vr_start r) (vr_end r - vr_start r).
Proof.
  revert r. induction fuel as [|fuel IH]; intros [s e]; simpl; intros He Hs Hf.
  - rewrite seqZ_nil; [done|lia].
  - unfold VPNRange_next. simpl. destruct (Z.leb_spec e s).
    + rewrite seqZ_nil; [done|lia].
    + unfold VirtPageNum_step. rewrite wrap64_small by (unfold is_usize in *; lia).
      rewrite IH; simpl; [|done|lia|lia].
      rewrite (seqZ_cons s) by lia. f_equal. f_equal; lia.
Qed.

Lemma VPNRange_iter_seqZ r :
  is_usize (vr_end r) → 0 <= vr_start r →
  VPNRange_iter r = seqZ (vr_start r) (vr_end r - vr_start r).
Proof. intros. by apply VPNRange_collect_seqZ. Qed.

(** ** Properties *)

(** Converting a canonical Sv39 address (one whose bits 63..38 are all
    equal) to a [VirtAddr] and back is the identity, and so is converting any
    39-bit [VirtAddr] to [usize] and back: the mask on the way in and the sign
    extension on the way out are inverse to each other. *)
Theorem sv39_roundtrip v a :
  is_usize v → v < 2 ^ 38 ∨ USIZE - 2 ^ 38 <= v →
  0 <= a < 2 ^ 39 →
  usize_from_VirtAddr (VirtAddr_from_usize v) = v ∧
  VirtAddr_from_usize (usize_from_VirtAddr a) = a.
Proof.
  intros [Hv0 Hv1] Hcanon Ha. rewrite !VirtAddr_from_usize_mod. split.
  - destruct Hcanon as [Hlo|Hhi].
    + rewrite Z.mod_small by lia. apply usize_from_VirtAddr_low. lia.
    + assert (v mod 2 ^ 39 = v - (USIZE - 2 ^ 39)) as ->.
      { replace v with ((v - (USIZE - 2 ^ 39)) + (2 ^ 25 - 1) * 2 ^ 39) at 1
          by (unfold USIZE; lia).
        rewrite Z.mod_add by done. apply Z.mod_small. unfold USIZE in *. lia. }
      rewrite usize_from_VirtAddr_high; unfold USIZE in *; lia.
  - destruct (decide (a < 2 ^ 38)).
    + rewrite usize_from_VirtAddr_low by done. by apply Z.mod_small.
    + rewrite usize_from_VirtAddr_high by lia.
      replace (USIZE - 2 ^ 39 + a) with (a + (2 ^ 25 - 1) * 2 ^ 39) by (unfold USIZE; lia).
      rewrite Z.mod_add by done. by apply Z.mod_small.
Qed.

Lemma sv39_roundtrip_witness :
  usize_from_VirtAddr (VirtAddr_from_usize 0xFFFFFFC080200000) = 0xFFFFFFC080200000 ∧
  VirtAddr_from_usize (usize_from_VirtAddr 0x4000000000) = 0x4000000000.
Proof.
  apply sv39_roundtrip; [split; [discriminate|reflexivity]| |split; [discriminate|reflexivity]].
  right. discriminate.
Defined.

(** The three table indices of a 27-bit page number are 9-bit values that
    recompose to it, most significant first; so distinct page numbers have
    distinct index triples. *)
Theorem indexes_decompose vpn :
  0 <= vpn < 2 ^ 27 →
  ∃ i j k, VirtPageNum_indexes vpn = [i; j; k] ∧
    0 <= i < 512 ∧ 0 <= j < 512 ∧ 0 <= k < 512 ∧
    vpn = i * 2 ^ 18 + j * 2 ^ 9 + k ∧
    (∀ vpn', 0 <= vpn' < 2 ^ 27 → VirtPageNum_indexes vpn' = [i; j; k] → vpn' = vpn).
Proof.
  intros Hv.
  assert (∀ v, 0 <= v < 2 ^ 27 →
    v = ((v / 2 ^ 18) mod 512) * 2 ^ 18 + ((v / 2 ^ 9) mod 512) * 2 ^ 9 + v mod 512) as Hrec.
  { intros v Hr. Z.div_mod_to_equations. lia. }
  do 3 eexists. split; [apply VirtPageNum_indexes_eq|].
  do 3 (split; [by apply Z.mod_pos_bound|]).
  split; [by apply Hrec|].
  intros v' Hv'. rewrite VirtPageNum_indexes_eq. intros [= H1 H2 H3].
  rewrite (Hrec v'), (Hrec vpn) by done. by rewrite H1, H2, H3.
Qed.

Lemma indexes_decompose_witness :
  ∃ i j k, VirtPageNum_indexes 0x4080201 = [i; j; k] ∧
    0 <= i < 512 ∧ 0 <= j < 512 ∧ 0 <= k < 512 ∧
    0x4080201 = i * 2 ^ 18 + j * 2 ^ 9 + k ∧
    (∀ vpn', 0 <= vpn' < 2 ^ 27 → VirtPageNum_indexes vpn' = [i; j; k] → vpn' = 0x4080201).
Proof. apply indexes_decompose. split; [discriminate|reflexivity]. Defined.

(** For a byte range [start, end) with [start < end] below 2^63, the pages
    [floor(start) .. ceil(end)] a [VPNRange] visits are consecutive, each once,
    and are exactly the pages that hold a byte of the range; a malformed range
    (start page after end page) is empty instead of a panic. *)
Theorem VPNRange_covers_bytes start end_ p :
  0 <= start < end_ → end_ < 2 ^ 63 →
  let l := VPNRange_iter (VPNRange_new (VirtAddr_floor start) (VirtAddr_ceil end_)) in
  l = seqZ (VirtAddr_floor start) (VirtAddr_ceil end_ - VirtAddr_floor start) ∧
  (p ∈ l ↔ ∃ b, start <= b < end_ ∧ VirtAddr_floor b = p) ∧
  (∀ s e, e < s → VPNRange_iter (VPNRange_new s e) = []).
Proof.
  intros Hs He. simpl.
  assert (VirtAddr_ceil end_ = (end_ + 4095) / 4096) as Hceil.
  { unfold VirtAddr_ceil, PAGE_SIZE.
    rewrite (wrap64_small (end_ - 1)), wrap64_small by (unfold is_usize, USIZE; lia).
    f_equal. lia. }
  assert (VirtAddr_floor start < VirtAddr_ceil end_) as Hlt.
  { rewrite Hceil. unfold VirtAddr_floor, PAGE_SIZE. Z.div_mod_to_equations. lia. }
  assert (VPNRange_new (VirtAddr_floor start) (VirtAddr_ceil end_) =
          mkVPNRange (VirtAddr_floor start) (VirtAddr_ceil end_)) as ->.
  { unfold VPNRange_new. by destruct (Z.leb_spec (VirtAddr_floor start) (VirtAddr_ceil end_)); [|lia]. }
  assert (0 <= VirtAddr_floor start) by (unfold VirtAddr_floor, PAGE_SIZE; apply Z.div_pos; lia).
  rewrite VPNRange_iter_seqZ; simpl; [|rewrite Hceil; unfold is_usize, USIZE; split;
    [apply Z.div_pos; lia|apply Z.div_lt_upper_bound; lia]|done].
  split_and!; [done| |].
  - rewrite elem_of_seqZ. unfold VirtAddr_floor, PAGE_SIZE in *. rewrite Hceil. split.
    + intros Hp. exists (Z.max start (p * 4096)). Z.div_mod_to_equations. lia.
    + intros (b & Hb & <-). Z.div_mod_to_equations. lia.
  - intros s e Hse. unfold VPNRange_new. destruct (Z.leb_spec s e); [lia|].
    unfold VPNRange_iter. simpl. by rewrite Z.sub_diag.
Qed.

Lemma VPNRange_covers_bytes_witness :
  let l := VPNRange_iter (VPNRange_new (VirtAddr_floor 0x1ff8) (VirtAddr_ceil 0x3001)) in
  l = seqZ (VirtAddr_floor 0x1ff8) (VirtAddr_ceil 0x3001 - VirtAddr_floor 0x1ff8) ∧
  (3 ∈ l ↔ ∃ b, 0x1ff8 <= b < 0x3001 ∧ VirtAddr_floor b = 3) ∧
  (∀ s e, e < s → VPNRange_iter (VPNRange_new s e) = []).
Proof. apply VPNRange_covers_bytes; [split; [discriminate|reflexivity]|reflexivity]. Defined.
