(* ===== verification/FrameAllocator.v ===== *)
(** * Physical frame allocator (os/src/mm/frame_allocator.rs)

    The trait [FrameAllocator] is a class of operations; [FrameAllocatorSpec]
    states what an implementation promises to its clients (the page tables and
    the address spaces).  [StackFrameAllocator] is the implementation the
    kernel uses: a bump pointer [current .. end) and a stack of returned
    frames. *)

From stdpp Require Import base list numbers list_numbers option sets gmap relations.
From S2P Require Import Prelude Address.

(** ** The trait and its contract *)

Class FrameAllocator (A : Type) : Type := {
  fa_new : A;
  fa_alloc : A → option Z * A;
  fa_alloc_more : A → Z → option (list Z) * A;
  fa_dealloc : A → Z → outcome A;
}.

(** The first frame number past the end of memory, [MEMORY_END / PAGE_SIZE]. *)
Abbreviation FRAME_END := (0xC0000).

(** [owned a p]: frame [p] has been handed out by [a] and not returned;
    [avail a]: how many more frames [a] can hand out. *)
Class FrameAllocatorSpec (A : Type) {FA : FrameAllocator A}
    (inv : A → Prop) (owned : A → Z → Prop) (avail : A → nat) : Prop := {
  spec_owned_range a p : inv a → owned a p → 0 <= p < FRAME_END;
  spec_alloc_some a p a' : inv a → fa_alloc a = (Some p, a') →
    inv a' ∧ ¬ owned a p ∧ (∀ q, owned a' q ↔ q = p ∨ owned a q) ∧ avail a = S (avail a');
  spec_alloc_none a a' : inv a → fa_alloc a = (None, a') → a' = a ∧ avail a = 0%nat;
  spec_dealloc a p : inv a → owned a p →
    ∃ a', fa_dealloc a p = Ret a' ∧ inv a' ∧ (∀ q, owned a' q ↔ q ≠ p ∧ owned a q) ∧
      avail a' = S (avail a);
  spec_double_free a p a' : inv a → owned a p → fa_dealloc a p = Ret a' →
    fa_dealloc a' p = Panic;
}.

(** ** The implementation *)

Record StackFrameAllocator : Type := mkSFA {
  current : Z;
  end_ : Z;
  recycled : list Z;
}.

Definition StackFrameAllocator_new : StackFrameAllocator := mkSFA 0 0 [].

Definition StackFrameAllocator_init (a : StackFrameAllocator) (l r : Z) : StackFrameAllocator :=
  mkSFA l r (recycled a).

Definition StackFrameAllocator_alloc (a : StackFrameAllocator) : option Z * StackFrameAllocator :=
  match pop_back (recycled a) with
  | Some (ppn, rest) =>
      (Some (PhysPageNum_from_usize ppn), mkSFA (current a) (end_ a) rest)
  | None =>
      if current a =? end_ a then (None, a)
      else
        let current' := current a +w 1 in
        (Some (PhysPageNum_from_usize (current' -w 1)), mkSFA current' (end_ a) (recycled a))
  end.

Definition StackFrameAllocator_alloc_more (a : StackFrameAllocator) (pages : Z)
    : option (list Z) * StackFrameAllocator :=
  if end_ a <=? current a +w pages then (None, a)
  else
    let current' := current a +w pages in
    let arr := seqZ 1 (pages +w 1 - 1) in
    (Some ((λ x, PhysPageNum_from_usize (current' -w x)) <$> arr),
     mkSFA current' (end_ a) (recycled a)).

Definition StackFrameAllocator_dealloc (a : StackFrameAllocator) (ppn : Z)
    : outcome StackFrameAllocator :=
  if (current a <=? ppn) || existsb (λ v, v =? ppn) (recycled a) then Panic
  else Ret (mkSFA (current a) (end_ a) (recycled a ++ [ppn])).

#[export] Instance StackFrameAllocator_ops : FrameAllocator StackFrameAllocator := {
  fa_new := StackFrameAllocator_new;
  fa_alloc := StackFrameAllocator_alloc;
  fa_alloc_more := StackFrameAllocator_alloc_more;
  fa_dealloc := StackFrameAllocator_dealloc;
}.

(** [init_frame_allocator]: the frames between [ekernel] (a linker symbol)
    and [MEMORY_END]. *)
Definition init_frame_allocator (ekernel : Z) : StackFrameAllocator :=
  StackFrameAllocator_init StackFrameAllocator_new
    (PhysAddr_ceil (PhysAddr_from_usize ekernel))
    (PhysAddr_floor (PhysAddr_from_usize MEMORY_END)).

(** [(current, end, recycled_len, available_estimate)] *)
Definition frame_allocator_stats (a : StackFrameAllocator) : Z * Z * Z * Z :=
  let recycled_len := Z.of_nat (length (recycled a)) in
  (current a, end_ a, recycled_len,
   saturating_add (saturating_sub (end_ a) (current a)) recycled_len).

(** ** Invariant

    [l] is the first managed frame (the argument of [init]). *)

Record sfa_inv (l : Z) (a : StackFrameAllocator) : Prop := {
  inv_base : 0 <= l <= current a;
  inv_end : current a <= end_ a <= FRAME_END;
  inv_nodup : NoDup (recycled a);
  inv_recycled p : p ∈ recycled a → l <= p < current a;
}.

Definition sfa_owned (l : Z) (a : StackFrameAllocator) (p : Z) : Prop :=
  l <= p < current a ∧ p ∉ recycled a.

Definition sfa_avail (a : StackFrameAllocator) : nat :=
  Z.to_nat (end_ a - current a) + length (recycled a).

Lemma existsb_eqb p l : existsb (λ v, v =? p) l = bool_decide (p ∈ l).
Proof.
  apply eq_true_iff_eq. rewrite bool_decide_eq_true, existsb_exists.
  split; [intros (x & Hx & ->%Z.eqb_eq)|]; [by apply list_elem_of_In|].
  intros Hp. exists p. split; [by apply list_elem_of_In|apply Z.eqb_refl].
Qed.

Section stack_frame_allocator.
Context (l : Z).
Implicit Types (a : StackFrameAllocator) (p q : Z).

Lemma sfa_alloc_fresh a : sfa_inv l a → recycled a = [] → current a ≠ end_ a →
  StackFrameAllocator_alloc a =
    (Some (current a), mkSFA (current a + 1) (end_ a) []).
Proof.
  intros [Hb He _ _] Hr Hne. unfold StackFrameAllocator_alloc. rewrite Hr. simpl.
  destruct (Z.eqb_spec (current a) (end_ a)); [done|].
  rewrite (wrap64_small (current a + 1)) by (unfold is_usize, USIZE; lia).
  rewrite wrap64_small by (unfold is_usize, USIZE; lia).
  rewrite PhysPageNum_from_usize_small by lia. do 2 f_equal. lia.
Qed.

Lemma sfa_alloc_recycled a rest p : sfa_inv l a → recycled a = rest ++ [p] →
  StackFrameAllocator_alloc a = (Some p, mkSFA (current a) (end_ a) rest).
Proof.
  intros [Hb He _ Hrec] Hr. unfold StackFrameAllocator_alloc. rewrite Hr, pop_back_snoc.
  rewrite PhysPageNum_from_usize_small; [done|].
  specialize (Hrec p). rewrite Hr in Hrec. set_unfold. naive_solver lia.
Qed.

(** Every call of [alloc] is one of three cases. *)
Lemma sfa_alloc_cases a : sfa_inv l a →
  (recycled a = [] ∧ current a = end_ a ∧ StackFrameAllocator_alloc a = (None, a)) ∨
  (recycled a = [] ∧ current a < end_ a ∧ StackFrameAllocator_alloc a =
     (Some (current a), mkSFA (current a + 1) (end_ a) [])) ∨
  (∃ rest p, recycled a = rest ++ [p] ∧
     StackFrameAllocator_alloc a = (Some p, mkSFA (current a) (end_ a) rest)).
Proof.
  intros Hinv. destruct (recycled a) as [|p rest _] eqn:Hr using rev_ind.
  - destruct (Z.eq_dec (current a) (end_ a)) as [Heq|Hne].
    + left. split_and!; try done. unfold StackFrameAllocator_alloc. rewrite Hr. simpl.
      by apply Z.eqb_eq in Heq as ->.
    + right; left. split_and!; [done|destruct Hinv; lia|by apply sfa_alloc_fresh].
  - right; right. exists rest, p. split; [done|]. by apply sfa_alloc_recycled.
Qed.

Lemma sfa_dealloc_owned a p : sfa_inv l a → sfa_owned l a p →
  StackFrameAllocator_dealloc a p = Ret (mkSFA (current a) (end_ a) (recycled a ++ [p])).
Proof.
  intros Hinv [Hp Hnr]. unfold StackFrameAllocator_dealloc. rewrite existsb_eqb.
  rewrite bool_decide_eq_false_2 by done.
  by destruct (Z.leb_spec (current a) p); [lia|].
Qed.

#[export] Instance sfa_spec :
  FrameAllocatorSpec StackFrameAllocator (sfa_inv l) (sfa_owned l) sfa_avail.
Proof.
  split.
  - intros a p [] [Hp _]. lia.
  - intros a p a' Hinv. simpl. pose proof (sfa_alloc_cases a Hinv) as Hc.
    destruct Hinv as [Hb He Hnd Hrec].
    destruct Hc as [(_&_&->)|[(Hr&Hlt&->)|(rest&q&Hr&->)]]; [done|..]; intros [= <- <-].
    + split_and!.
      * split; simpl; [lia|lia|constructor|set_solver].
      * intros [Hp _]. lia.
      * intros x. unfold sfa_owned. simpl. rewrite Hr. set_unfold. lia.
      * unfold sfa_avail. simpl. rewrite Hr. simpl. lia.
    + rewrite Hr in Hnd, Hrec. apply NoDup_app in Hnd as (Hnd & Hdis & _).
      assert (q ∉ rest) by set_solver.
      split_and!.
      * split; simpl; [done..|]. intros x Hx. apply Hrec. set_solver.
      * intros [_ Hn]. rewrite Hr in Hn. set_solver.
      * intros x. unfold sfa_owned. simpl. rewrite Hr.
        pose proof (Hrec q ltac:(set_solver)).
        destruct (decide (x = q)); set_solver.
      * unfold sfa_avail. simpl. rewrite Hr, length_app. simpl. lia.
  - intros a a' Hinv. simpl.
    destruct (sfa_alloc_cases a Hinv) as [(Hr&Hc&->)|[(_&_&->)|(?&?&_&->)]]; [|done..].
    intros [= <-]. split; [done|]. unfold sfa_avail. rewrite Hr. simpl. lia.
  - intros a p Hinv Hown. eexists. split; [by apply sfa_dealloc_owned|].
    destruct Hinv as [Hb He Hnd Hrec]. destruct Hown as [Hp Hnr]. split_and!.
    + split; simpl; [done..| |].
      * apply NoDup_app. split_and!; [done|set_solver|apply NoDup_singleton].
      * set_solver.
    + intros x. unfold sfa_owned. simpl. set_solver.
    + unfold sfa_avail. simpl. rewrite length_app. simpl. lia.
  - intros a p a' Hinv Hown. simpl. rewrite sfa_dealloc_owned by done. intros [= <-].
    unfold StackFrameAllocator_dealloc. simpl. rewrite existsb_eqb.
    rewrite bool_decide_eq_true_2 by set_solver. by rewrite orb_true_r.
Qed.
End stack_frame_allocator.

Lemma sfa_alloc_more_spec l a pages : sfa_inv l a → 0 <= pages < 2 ^ 44 →
  if decide (current a + pages < end_ a)
  then StackFrameAllocator_alloc_more a pages =
         (Some ((λ x, current a + pages - x) <$> seqZ 1 pages),
          mkSFA (current a + pages) (end_ a) (recycled a))
  else StackFrameAllocator_alloc_more a pages = (None, a).
Proof.
  intros [Hb He _ _] Hp. unfold StackFrameAllocator_alloc_more.
  rewrite !(wrap64_small (current a + pages)) by (unfold is_usize, USIZE; lia).
  rewrite (wrap64_small (pages + 1)) by (unfold is_usize, USIZE; lia).
  case_decide; destruct (Z.leb_spec (end_ a) (current a + pages)); try lia; [|done].
  replace (pages + 1 - 1) with pages by lia. do 2 f_equal.
  apply list_fmap_ext. intros i x Hx%list_elem_of_lookup_2%elem_of_seqZ.
  rewrite wrap64_small by (unfold is_usize, USIZE; lia).
  apply PhysPageNum_from_usize_small. lia.
Qed.

Lemma alloc_more_frames c pages p :
  p ∈ ((λ x, c + pages - x) <$> seqZ 1 pages) ↔ c <= p < c + pages.
Proof.
  rewrite list_elem_of_fmap. split.
  - intros (x & -> & Hx%elem_of_seqZ). lia.
  - intros Hp. exists (c + pages - p). split; [lia|]. apply elem_of_seqZ. lia.
Qed.

Lemma sfa_alloc_more_inv l a pages ps a' : sfa_inv l a → 0 <= pages < 2 ^ 44 →
  StackFrameAllocator_alloc_more a pages = (Some ps, a') →
  sfa_inv l a' ∧ NoDup ps ∧ length ps = Z.to_nat pages ∧
  (∀ p, p ∈ ps → ¬ sfa_owned l a p) ∧
  (∀ q, sfa_owned l a' q ↔ q ∈ ps ∨ sfa_owned l a q).
Proof.
  intros Hinv Hp Ha. pose proof (sfa_alloc_more_spec l a pages Hinv Hp) as Hs.
  case_decide as Hfit; rewrite Ha in Hs; simplify_eq.
  destruct Hinv as [Hb He Hnd Hrec]. split_and!.
  - split; simpl; [lia|lia|done|]. intros p Hin. specialize (Hrec p Hin). lia.
  - apply NoDup_fmap_2; [|apply NoDup_seqZ]. intros x y. lia.
  - by rewrite length_fmap, length_seqZ.
  - intros p Hin%alloc_more_frames [? _]. lia.
  - intros q. rewrite alloc_more_frames. unfold sfa_owned. simpl.
    split.
    + intros [Hq Hn]. destruct (decide (q < current a)); [right; split; [lia|done]|left; lia].
    + intros [Hq|[Hq Hn]]; split; [lia| |lia|done]. intros Hin%Hrec. lia.
Qed.

(** ** Clients of the allocator

    The kernel as the allocator sees it: requests and returns in any order,
    [held] being the frames some [FrameTracker] (or a page table node)
    currently owns. *)
Inductive frame_step : StackFrameAllocator * gset Z → StackFrameAllocator * gset Z → Prop :=
| step_alloc a held p a' :
    StackFrameAllocator_alloc a = (Some p, a') → frame_step (a, held) (a', {[p]} ∪ held)
| step_alloc_fail a held a' :
    StackFrameAllocator_alloc a = (None, a') → frame_step (a, held) (a', held)
| step_alloc_more a held pages ps a' :
    0 <= pages < 2 ^ 44 → StackFrameAllocator_alloc_more a pages = (Some ps, a') →
    frame_step (a, held) (a', list_to_set ps ∪ held)
| step_alloc_more_fail a held pages a' :
    0 <= pages < 2 ^ 44 → StackFrameAllocator_alloc_more a pages = (None, a') →
    frame_step (a, held) (a', held)
| step_dealloc a held p a' :
    p ∈ held → StackFrameAllocator_dealloc a p = Ret a' → frame_step (a, held) (a', held ∖ {[p]}).

Definition frame_state_ok (l r : Z) (s : StackFrameAllocator * gset Z) : Prop :=
  sfa_inv l s.1 ∧ end_ s.1 = r ∧ ∀ p, p ∈ s.2 ↔ sfa_owned l s.1 p.

Lemma frame_step_ok l r s s' : frame_state_ok l r s → frame_step s s' → frame_state_ok l r s'.
Proof.
  intros (Hinv & Hend & Hheld) Hstep. destruct Hstep; simpl in *.
  - destruct (spec_alloc_some (FA:=StackFrameAllocator_ops) a p a' Hinv H) as (Hinv' & _ & Hown & _).
    split_and!; [done| |intros q; simpl; by rewrite Hown, elem_of_union, elem_of_singleton, Hheld].
    destruct (sfa_alloc_cases l a Hinv) as [(_&_&E)|[(_&_&E)|(?&?&_&E)]]; rewrite E in H; by simplify_eq.
  - apply (spec_alloc_none (FA:=StackFrameAllocator_ops) a a' Hinv) in H as [-> _]. done.
  - destruct (sfa_alloc_more_inv l a pages ps a' Hinv H H0) as (Hinv' & _ & _ & _ & Hown).
    split_and!; [done| |intros q; simpl; by rewrite Hown, elem_of_union, elem_of_list_to_set, Hheld].
    pose proof (sfa_alloc_more_spec l a pages Hinv H) as Hs. case_decide; rewrite H0 in Hs; by simplify_eq.
  - pose proof (sfa_alloc_more_spec l a pages Hinv H) as Hs.
    case_decide; rewrite H0 in Hs; by simplify_eq.
  - destruct (spec_dealloc (FA:=StackFrameAllocator_ops) a p Hinv (proj1 (Hheld p) H)) as (a'' & Hd & Hinv' & Hown & _).
    simpl in Hd. rewrite H0 in Hd. simplify_eq.
    split_and!; [done| |intros q; simpl; rewrite Hown, elem_of_difference, elem_of_singleton, Hheld; tauto].
    unfold StackFrameAllocator_dealloc in H0. case_match; by simplify_eq.
Qed.

Lemma frame_reachable_ok l r s :
  0 <= l <= r → r <= FRAME_END →
  rtc frame_step (StackFrameAllocator_init StackFrameAllocator_new l r, ∅) s →
  frame_state_ok l r s.
Proof.
  intros Hl Hr Hrtc. remember (_, ∅) as s0 eqn:Hs0.
  assert (frame_state_ok l r s0) as H0.
  { subst. split_and!; [split; simpl; [lia|lia|constructor|set_solver]|done|].
    intros p. unfold sfa_owned. simpl. set_unfold. lia. }
  clear Hs0. induction Hrtc; [done|]. eauto using frame_step_ok.
Qed.

(** The owned frames are [current - l] minus the returned ones. *)
Lemma frame_state_size l r a held : frame_state_ok l r (a, held) →
  Z.of_nat (size held) + Z.of_nat (length (recycled a)) = current a - l.
Proof.
  intros ([Hb He Hnd Hrec] & Hend & Hheld). simpl in *.
  assert (held ∪ list_to_set (recycled a) = list_to_set (seqZ l (current a - l))) as Hun.
  { apply set_eq. intros p. rewrite elem_of_union, !elem_of_list_to_set, elem_of_seqZ, Hheld.
    unfold sfa_owned. split.
    - intros [[? _]|Hp%Hrec]; lia.
    - intros Hp. destruct (decide (p ∈ recycled a)); [by right|left; split; [lia|done]]. }
  apply (f_equal size) in Hun.
  rewrite size_union in Hun by (intros p; rewrite elem_of_list_to_set, Hheld; by intros [_ ?]).
  rewrite !size_list_to_set in Hun by (done || apply NoDup_seqZ).
  rewrite length_seqZ in Hun. lia.
Qed.

(** ** Properties *)

(** [C25] Exclusive ownership of physical frames: whatever sequence of [alloc],
    [alloc_more] and [dealloc] requests the kernel makes after
    [init_frame_allocator] on [[l, r)], the next frame [alloc] returns is in
    [[l, r)] and is held by nobody; a request of [alloc_more] returns frames
    that are pairwise distinct and held by nobody; returning a held frame never
    panics; and returning it a second time always does. *)
Theorem frame_ownership_exclusive l r a held :
  0 <= l <= r → r <= FRAME_END →
  rtc frame_step (StackFrameAllocator_init StackFrameAllocator_new l r, ∅) (a, held) →
  (∀ p a', StackFrameAllocator_alloc a = (Some p, a') → l <= p < r ∧ p ∉ held) ∧
  (∀ pages ps a', 0 <= pages < 2 ^ 44 →
     StackFrameAllocator_alloc_more a pages = (Some ps, a') →
     NoDup ps ∧ length ps = Z.to_nat pages ∧ ∀ p, p ∈ ps → l <= p < r ∧ p ∉ held) ∧
  (∀ p, p ∈ held → ∃ a', StackFrameAllocator_dealloc a p = Ret a' ∧
     StackFrameAllocator_dealloc a' p = Panic).
Proof.
  intros Hl Hr Hreach. pose proof (frame_reachable_ok l r _ Hl Hr Hreach) as (Hinv & Hend & Hheld).
  simpl in *. split_and!.
  - intros p a' Ha. destruct (spec_alloc_some (FA:=StackFrameAllocator_ops) a p a' Hinv Ha) as (Hinv' & Hno & Hown & _).
    rewrite Hheld. split; [|done].
    destruct (frame_step_ok l r (a, held) _ (conj Hinv (conj Hend Hheld))
      (step_alloc _ _ _ _ Ha)) as ([_ He' _ _] & Hend' & _).
    destruct (proj2 (Hown p) (or_introl eq_refl)) as [Hp _]. simpl in *. lia.
  - intros pages ps a' Hp Ha.
    destruct (sfa_alloc_more_inv l a pages ps a' Hinv Hp Ha) as (_ & Hnd & Hlen & Hfresh & _).
    split_and!; [done..|]. intros p Hin. rewrite Hheld. split; [|by apply Hfresh].
    pose proof (sfa_alloc_more_spec l a pages Hinv Hp) as Hs.
    case_decide; rewrite Ha in Hs; simplify_eq. apply alloc_more_frames in Hin.
    destruct Hinv. lia.
  - intros p Hp%Hheld. destruct (spec_dealloc (FA:=StackFrameAllocator_ops) a p Hinv Hp) as (a' & Hd & _).
    exists a'. split; [done|]. by apply (spec_double_free (FA:=StackFrameAllocator_ops) a p a' Hinv Hp).
Qed.

Lemma frame_ownership_exclusive_witness :
  let a := mkSFA 0x80203 0x80210 [0x80201] in
  let held : gset Z := {[0x80200; 0x80202]} in
  (∀ p a', StackFrameAllocator_alloc a = (Some p, a') → 0x80200 <= p < 0x80210 ∧ p ∉ held) ∧
  (∀ pages ps a', 0 <= pages < 2 ^ 44 →
     StackFrameAllocator_alloc_more a pages = (Some ps, a') →
     NoDup ps ∧ length ps = Z.to_nat pages ∧ ∀ p, p ∈ ps → 0x80200 <= p < 0x80210 ∧ p ∉ held) ∧
  (∀ p, p ∈ held → ∃ a', StackFrameAllocator_dealloc a p = Ret a' ∧
     StackFrameAllocator_dealloc a' p = Panic).
Proof.
  apply frame_ownership_exclusive; [split; discriminate|discriminate|].
  eapply rtc_l; [by eapply (step_alloc _ _ 0x80200)|].
  eapply rtc_l; [by eapply (step_alloc _ _ 0x80201)|].
  eapply rtc_l; [by eapply (step_alloc_more _ _ 1 [0x80202])|].
  eapply rtc_l; [eapply (step_dealloc _ _ 0x80201); [set_solver|reflexivity]|].
  match goal with |- rtc _ ?x ?y => replace x with y by (vm_compute; reflexivity) end.
  apply rtc_refl.
Defined.

(** Frame accounting: after any such sequence of requests, the
    [available_estimate] of [frame_allocator_stats] is exactly the number of
    managed frames that nobody holds, and [alloc] fails only when it is zero. *)
Theorem frame_stats_exact l r a held :
  0 <= l <= r → r <= FRAME_END →
  rtc frame_step (StackFrameAllocator_init StackFrameAllocator_new l r, ∅) (a, held) →
  frame_allocator_stats a =
    (current a, r, Z.of_nat (length (recycled a)), (r - l) - Z.of_nat (size held)) ∧
  ((StackFrameAllocator_alloc a).1 = None ↔ Z.of_nat (size held) = r - l).
Proof.
  intros Hl Hr Hreach. pose proof (frame_reachable_ok l r _ Hl Hr Hreach) as Hok.
  pose proof (frame_state_size l r a held Hok) as Hsize.
  destruct Hok as (Hinv & Hend & Hheld). simpl in *.
  pose proof Hinv as [Hb He _ _]. split.
  - unfold frame_allocator_stats, saturating_add, saturating_sub. rewrite Hend in *.
    f_equal. unfold USIZE. lia.
  - destruct (sfa_alloc_cases l a Hinv) as [(Hrec&Hcur&->)|[(Hrec&Hcur&->)|(rest&p&Hrec&->)]];
      rewrite Hrec in Hsize; simpl in *.
    + split; [lia|done].
    + split; [done|lia].
    + rewrite length_app in Hsize. simpl in Hsize. split; [done|lia].
Qed.

Lemma frame_stats_exact_witness :
  let a := mkSFA 0x80202 0x80202 [] in
  let held : gset Z := {[0x80200; 0x80201]} in
  frame_allocator_stats a =
    (current a, 0x80202, Z.of_nat (length (recycled a)),
     (0x80202 - 0x80200) - Z.of_nat (size held)) ∧
  ((StackFrameAllocator_alloc a).1 = None ↔ Z.of_nat (size held) = 0x80202 - 0x80200).
Proof.
  apply frame_stats_exact; [split; discriminate|discriminate|].
  eapply rtc_l; [by eapply (step_alloc _ _ 0x80200)|].
  eapply rtc_l; [by eapply (step_alloc _ _ 0x80201)|].
  match goal with |- rtc _ ?x ?y => replace x with y by (vm_compute; reflexivity) end.
  apply rtc_refl.
Defined.

(** [alloc_more] refuses a request that exactly fills the managed range, even
    though [alloc] would serve the same number of single-frame requests. *)
Lemma alloc_more_refuses_exact_fit l a pages :
  sfa_inv l a → 0 <= pages → current a + pages = end_ a →
  StackFrameAllocator_alloc_more a pages = (None, a).
Proof.
  intros Hinv Hp Hfit. pose proof Hinv as [Hb He _ _].
  pose proof (sfa_alloc_more_spec l a pages Hinv ltac:(lia)) as Hs.
  by case_decide; [lia|].
Qed.

(** [dealloc] accepts a frame below the managed range: its validity check has
    no lower bound. *)
Lemma dealloc_accepts_foreign_frame :
  StackFrameAllocator_dealloc (mkSFA 0x80203 0x80210 []) 0x80000 =
    Ret (mkSFA 0x80203 0x80210 [0x80000]).
Proof. reflexivity. Qed.
