(* ===== verification/Machine.v ===== *)
(** * Physical memory and frame handles

    The state every memory-management operation works on: the frame allocator
    behind [FRAME_ALLOCATOR], the contents of physical memory, the strong
    counts of the [Arc<FrameTracker>]s the address spaces share, and the token
    of the kernel page table (0 until [KERNEL_PT_READY]).

    A physical page is 512 64-bit words.  The same page is a page-table node
    through [get_pte_array] and 4096 bytes through [get_bytes_array]; byte [k]
    is byte [k mod 8] (little endian) of word [k / 8]. *)

From stdpp Require Import base gmap list numbers list_numbers option fin_maps.
From S2P Require Import Prelude Address FrameAllocator.

(** ** Physical memory *)

Abbreviation pmem := (gmap Z (gmap Z Z)).

Definition pm_page (m : pmem) (ppn : Z) : gmap Z Z := default ∅ (m !! ppn).
Definition pm_word (m : pmem) (ppn i : Z) : Z := default 0 (pm_page m ppn !! i).
Definition pm_write (m : pmem) (ppn i w : Z) : pmem := <[ppn := <[i := w]> (pm_page m ppn)]> m.
(** [ppn.get_bytes_array().fill(0)] *)
Definition pm_zero (m : pmem) (ppn : Z) : pmem := <[ppn := ∅]> m.
(** [dst.get_bytes_array().copy_from_slice(src.get_bytes_array())] *)
Definition pm_copy (m : pmem) (dst src : Z) : pmem := <[dst := pm_page m src]> m.

Definition byte_of_word (w k : Z) : Z := Z.land (Z.shiftr w (8 * k)) 255.
Definition word_set_byte (w k b : Z) : Z :=
  Z.lor (Z.ldiff w (Z.shiftl 255 (8 * k))) (Z.shiftl b (8 * k)).
Definition pm_byte (m : pmem) (ppn k : Z) : Z := byte_of_word (pm_word m ppn (k / 8)) (k mod 8).
Definition pm_write_byte (m : pmem) (ppn k b : Z) : pmem :=
  pm_write m ppn (k / 8) (word_set_byte (pm_word m ppn (k / 8)) (k mod 8) b).
(** [page[off .. off + data.len()].copy_from_slice(data)] *)
Fixpoint pm_write_bytes (m : pmem) (ppn off : Z) (data : list Z) : pmem :=
  match data with
  | [] => m
  | b :: data' => pm_write_bytes (pm_write_byte m ppn off b) ppn (off + 1) data'
  end.

Lemma pm_word_write_eq m p i w : pm_word (pm_write m p i w) p i = w.
Proof. unfold pm_word, pm_write, pm_page. by simplify_map_eq. Qed.

Lemma pm_word_write_ne m p i w p' i' : (p', i') ≠ (p, i) →
  pm_word (pm_write m p i w) p' i' = pm_word m p' i'.
Proof.
  intros Hne. unfold pm_word, pm_write, pm_page.
  destruct (decide (p = p')) as [->|]; [|by simplify_map_eq].
  rewrite lookup_insert_eq. simpl. rewrite lookup_insert_ne; [done|congruence].
Qed.

Lemma pm_page_write_ne m p i w q : q ≠ p → pm_page (pm_write m p i w) q = pm_page m q.
Proof. intros. unfold pm_page, pm_write. by simplify_map_eq. Qed.

Lemma pm_page_zero_ne m p q : q ≠ p → pm_page (pm_zero m p) q = pm_page m q.
Proof. intros. unfold pm_page, pm_zero. by simplify_map_eq. Qed.

Lemma pm_page_copy_ne m d s q : q ≠ d → pm_page (pm_copy m d s) q = pm_page m q.
Proof. intros. unfold pm_page, pm_copy. by simplify_map_eq. Qed.

Lemma pm_page_copy_eq m d s : pm_page (pm_copy m d s) d = pm_page m s.
Proof. unfold pm_page, pm_copy. by simplify_map_eq. Qed.

Lemma pm_word_zero_eq m p i : pm_word (pm_zero m p) p i = 0.
Proof. unfold pm_word, pm_zero, pm_page. by simplify_map_eq. Qed.

Lemma pm_word_page m m' p i : pm_page m p = pm_page m' p → pm_word m p i = pm_word m' p i.
Proof. unfold pm_word. by intros ->. Qed.

Lemma pm_page_write_bytes_ne data m p off q :
  q ≠ p → pm_page (pm_write_bytes m p off data) q = pm_page m q.
Proof.
  intros Hne. revert m off. induction data as [|b data IH]; intros m off; simpl; [done|].
  rewrite IH. by apply pm_page_write_ne.
Qed.

Create Rewrite HintDb pmem.
#[export] Hint Rewrite pm_page_write_ne pm_page_zero_ne pm_page_copy_ne pm_page_copy_eq
  pm_page_write_bytes_ne using (congruence || done) : pmem.

(** ** Bytes of a page *)

Lemma byte_word_set_eq w k b : 0 <= k → 0 <= b < 256 → byte_of_word (word_set_byte w k b) k = b.
Proof.
  intros Hk Hb. unfold byte_of_word, word_set_byte. apply Z.bits_inj'. intros i Hi.
  change 255 with (Z.ones 8). rewrite Z.land_spec, Z.shiftr_spec, Z.lor_spec, Z.ldiff_spec by done.
  rewrite !Z.shiftl_spec by lia. replace (i + 8 * k - 8 * k) with i by lia.
  destruct (decide (i < 8)).
  - rewrite Z.ones_spec_low by lia. simpl. by rewrite andb_false_r, andb_true_r.
  - rewrite Z.ones_spec_high, andb_false_r by lia. by rewrite (testbit_small b 8) by lia.
Qed.

Lemma byte_word_set_ne w k k' b :
  0 <= k → 0 <= k' → k ≠ k' → 0 <= b < 256 →
  byte_of_word (word_set_byte w k b) k' = byte_of_word w k'.
Proof.
  intros Hk Hk' Hne Hb. unfold byte_of_word, word_set_byte. apply Z.bits_inj'. intros i Hi.
  change 255 with (Z.ones 8). rewrite !Z.land_spec.
  destruct (decide (i < 8)); [|by rewrite (Z.ones_spec_high 8 i), !andb_false_r by lia].
  f_equal. rewrite !Z.shiftr_spec, Z.lor_spec, Z.ldiff_spec by done.
  destruct (decide (k < k')).
  - rewrite !Z.shiftl_spec by lia. rewrite (Z.ones_spec_high 8) by lia.
    rewrite (testbit_small b 8) by lia. by rewrite andb_true_r, orb_false_r.
  - rewrite !Z.shiftl_spec_low by lia. by rewrite andb_true_r, orb_false_r.
Qed.

Lemma pm_byte_write_eq m p k b : 0 <= k → 0 <= b < 256 → pm_byte (pm_write_byte m p k b) p k = b.
Proof.
  intros Hk Hb. unfold pm_byte, pm_write_byte. rewrite pm_word_write_eq.
  apply byte_word_set_eq; [|done]. by apply Z.mod_pos_bound.
Qed.

Lemma pm_byte_write_ne m p k b p' k' : 0 <= k → 0 <= k' → 0 <= b < 256 → (p', k') ≠ (p, k) →
  pm_byte (pm_write_byte m p k b) p' k' = pm_byte m p' k'.
Proof.
  intros Hk Hk' Hb Hne. unfold pm_byte, pm_write_byte.
  destruct (decide ((p', k' / 8) = (p, k / 8))) as [Heq|Hneq];
    [|by rewrite pm_word_write_ne].
  injection Heq as -> Hdiv. rewrite Hdiv, pm_word_write_eq.
  apply byte_word_set_ne; try done; try by apply Z.mod_pos_bound.
  intros Hmod. apply Hne. f_equal.
  rewrite (Z.div_mod k' 8), (Z.div_mod k 8) by done. congruence.
Qed.

Lemma pm_byte_write_bytes data : ∀ m p off k,
  0 <= off → 0 <= k → Forall (λ b, 0 <= b < 256) data →
  pm_byte (pm_write_bytes m p off data) p k =
    if decide (off <= k < off + Z.of_nat (length data))
    then default 0 (data !! Z.to_nat (k - off)) else pm_byte m p k.
Proof.
  induction data as [|b data IH]; intros m p off k Hoff Hk Hb; simpl.
  - case_decide; [lia|done].
  - apply Forall_cons in Hb as [Hb Hdata]. rewrite IH by (done || lia).
    destruct (decide (k = off)) as [->|Hne].
    + rewrite decide_False by lia. rewrite decide_True by lia.
      rewrite Z.sub_diag. simpl. by apply pm_byte_write_eq.
    + case_decide; case_decide; try lia.
      * replace (Z.to_nat (k - off)) with (S (Z.to_nat (k - (off + 1)))) by lia. done.
      * apply pm_byte_write_ne; try done. congruence.
Qed.

(** ** The machine *)

Section machine.
Context {A : Type} {FA : FrameAllocator A}.

Record machine : Type := mkMachine {
  falloc : A;
  mem : pmem;
  arcs : gmap Z Z;
  kernel_token : Z;
}.

Definition set_mem (f : pmem → pmem) (s : machine) : machine :=
  mkMachine (falloc s) (f (mem s)) (arcs s) (kernel_token s).
Definition set_falloc (a : A) (s : machine) : machine :=
  mkMachine a (mem s) (arcs s) (kernel_token s).
Definition set_arcs (f : gmap Z Z → gmap Z Z) (s : machine) : machine :=
  mkMachine (falloc s) (mem s) (f (arcs s)) (kernel_token s).

Definition read_word (ppn i : Z) : M machine Z := λ s, Ret (pm_word (mem s) ppn i, s).
Definition write_word (ppn i w : Z) : M machine unit := m_modify (set_mem (λ m, pm_write m ppn i w)).
Definition fill_zero (ppn : Z) : M machine unit := m_modify (set_mem (λ m, pm_zero m ppn)).
Definition copy_page (dst src : Z) : M machine unit := m_modify (set_mem (λ m, pm_copy m dst src)).

(** [FrameTracker::new]: the page is cleared byte by byte. *)
Definition FrameTracker_new (ppn : Z) : M machine Z :=
  fill_zero ppn ;;; m_ret ppn.

Definition frame_alloc : M machine (option Z) := λ s,
  match fa_alloc (falloc s) with
  | (Some ppn, a') =>
      match FrameTracker_new ppn (set_falloc a' s) with
      | Ret (ppn, s') => Ret (Some ppn, s')
      | Panic => Panic
      end
  | (None, a') => Ret (None, set_falloc a' s)
  end.

Definition frame_alloc_more (num : Z) : M machine (option (list Z)) := λ s,
  match fa_alloc_more (falloc s) num with
  | (Some frames, a') =>
      (m_for frames (λ t, FrameTracker_new t ;;; m_ret tt) ;;; m_ret (Some frames)) (set_falloc a' s)
  | (None, a') => Ret (None, set_falloc a' s)
  end.

(** Also [Drop for FrameTracker]. *)
Definition frame_dealloc (ppn : Z) : M machine unit := λ s,
  match fa_dealloc (falloc s) ppn with
  | Ret a' => Ret (tt, set_falloc a' s)
  | Panic => Panic
  end.

(** [Arc::new(frame)], [Arc::clone], and dropping an [Arc<FrameTracker>]: the
    last reference returns the frame. *)
Definition arc_new (ppn : Z) : M machine unit := m_modify (set_arcs (<[ppn := 1]>)).
Definition arc_clone (ppn : Z) : M machine unit :=
  m_modify (set_arcs (alter (Z.add 1) ppn)).
Definition arc_strong_count (ppn : Z) : M machine Z := λ s, Ret (default 0 (arcs s !! ppn), s).
Definition arc_drop (ppn : Z) : M machine unit := λ s,
  match arcs s !! ppn with
  | None => Panic
  | Some n =>
      if n =? 1 then (m_modify (set_arcs (delete ppn)) ;;; frame_dealloc ppn) s
      else Ret (tt, set_arcs (<[ppn := n - 1]>) s)
  end.
End machine.

Arguments machine A : clear implicits.

(** The machine the kernel runs: [FrameAllocatorImpl = StackFrameAllocator]. *)
Definition kmachine : Type := machine StackFrameAllocator.

(** [frame_alloc] under the allocator's contract. *)
Section frame_alloc_spec.
Context {A : Type} {FA : FrameAllocator A} {inv : A → Prop} {owned : A → Z → Prop} {avail : A → nat}.
Context `{HFS : !FrameAllocatorSpec A inv owned avail}.
Implicit Types (s : machine A).

Lemma wp_frame_alloc (Q : option Z → machine A → Prop) s :
  inv (falloc s) →
  (avail (falloc s) = 0%nat → Q None s) →
  (∀ p a', inv a' → ¬ owned (falloc s) p → 0 <= p < FRAME_END →
     (∀ q, owned a' q ↔ q = p ∨ owned (falloc s) q) →
     avail (falloc s) = S (avail a') →
     Q (Some p) (mkMachine a' (pm_zero (mem s) p) (arcs s) (kernel_token s))) →
  wp frame_alloc Q s.
Proof.
  intros Hinv Hnone Hsome. unfold wp, frame_alloc.
  destruct (fa_alloc (falloc s)) as [[p|] a'] eqn:Ha; simpl.
  - destruct (spec_alloc_some _ _ _ Hinv Ha) as (Hinv' & Hno & Hown & Hav).
    apply Hsome; try done. apply (spec_owned_range a'); [done|]. apply Hown. by left.
  - destruct (spec_alloc_none _ _ Hinv Ha) as [-> Hav]. unfold set_falloc. destruct s. by apply Hnone.
Qed.

Lemma wp_frame_dealloc (Q : unit → machine A → Prop) s p :
  inv (falloc s) → owned (falloc s) p →
  (∀ a', inv a' → (∀ q, owned a' q ↔ q ≠ p ∧ owned (falloc s) q) →
     avail a' = S (avail (falloc s)) → Q tt (set_falloc a' s)) →
  wp (frame_dealloc p) Q s.
Proof.
  intros Hinv Hown HQ. unfold wp, frame_dealloc.
  destruct (spec_dealloc _ _ Hinv Hown) as (a' & -> & Hinv' & Hown' & Hav). by apply HQ.
Qed.
End frame_alloc_spec.
