(* ===== verification/PageTable.v ===== *)
(** * Sv39 page tables (arch/src/riscv64/mm/page_table.rs, arch/src/pagetable.rs)

    Entries, the three-level walk with and without allocation of intermediate
    nodes, mapping, unmapping, permission changes and translation; and the
    helpers that give the kernel access to user memory through a page table.
    A [&mut PageTableEntry] is the location (node frame, index) it points to,
    so writes through it act on the shared physical memory. *)

From stdpp Require Import base gmap list numbers list_numbers option fin_maps sets.
From S2P Require Import Prelude Address FrameAllocator Machine.

(** ** Entries *)

Definition PTE_V : Z := Z.shiftl 1 0.
Definition PTE_R : Z := Z.shiftl 1 1.
Definition PTE_W : Z := Z.shiftl 1 2.
Definition PTE_X : Z := Z.shiftl 1 3.
Definition PTE_U : Z := Z.shiftl 1 4.

Definition PageTableEntry_new (ppn flags : Z) : Z := Z.lor (ppn <<w 10) flags.
Definition PageTableEntry_empty : Z := 0.
Definition PageTableEntry_ppn (bits : Z) : Z :=
  PhysPageNum_from_usize (Z.land (Z.shiftr bits 10) (Z.shiftl 1 44 - 1)).
(** [PTEFlags::from_bits(bits as u8).unwrap()]: all eight bits are flags. *)
Definition PageTableEntry_flags (bits : Z) : Z := Z.land bits 255.
Definition PageTableEntry_is_valid (bits : Z) : bool :=
  negb (Z.land (PageTableEntry_flags bits) PTE_V =? 0).
Definition PageTableEntry_readable (bits : Z) : bool :=
  negb (Z.land (PageTableEntry_flags bits) PTE_R =? 0).
Definition PageTableEntry_writable (bits : Z) : bool :=
  negb (Z.land (PageTableEntry_flags bits) PTE_W =? 0).
Definition PageTableEntry_executable (bits : Z) : bool :=
  negb (Z.land (PageTableEntry_flags bits) PTE_X =? 0).

(** ** Walks that do not allocate *)

Record PageTable : Type := mkPageTable { root_ppn : Z; pt_frames : list Z }.

Definition PageTable_from_token (satp : Z) : PageTable :=
  mkPageTable (PhysPageNum_from_usize (Z.land satp (Z.shiftl 1 44 - 1))) [].

Definition PageTable_token (pt : PageTable) : Z := Z.lor (Z.shiftl 8 60) (root_ppn pt).

Fixpoint find_pte_loop (m : pmem) (i : nat) (idxs : list Z) (ppn : Z) : option (Z * Z) :=
  match idxs with
  | [] => None
  | idx :: rest =>
      if (i =? 2)%nat then Some (ppn, idx)
      else
        let pte := pm_word m ppn idx in
        if negb (PageTableEntry_is_valid pte) then None
        else find_pte_loop m (S i) rest (PageTableEntry_ppn pte)
  end.
Definition PageTable_find_pte (m : pmem) (pt : PageTable) (vpn : Z) : option (Z * Z) :=
  find_pte_loop m 0 (VirtPageNum_indexes vpn) (root_ppn pt).

Fixpoint find_leaf_pte_loop (m : pmem) (level : nat) (idxs : list Z) (ppn : Z) : option (Z * nat) :=
  match idxs with
  | [] => None
  | idx :: rest =>
      let pte := pm_word m ppn idx in
      if negb (PageTableEntry_is_valid pte) then None
      else if (level =? 2)%nat || PageTableEntry_readable pte || PageTableEntry_writable pte
              || PageTableEntry_executable pte
      then Some (pte, level)
      else find_leaf_pte_loop m (S level) rest (PageTableEntry_ppn pte)
  end.
Definition PageTable_find_leaf_pte (m : pmem) (pt : PageTable) (vpn : Z) : option (Z * nat) :=
  find_leaf_pte_loop m 0 (VirtPageNum_indexes vpn) (root_ppn pt).

Definition PageTable_translate (m : pmem) (pt : PageTable) (vpn : Z) : option Z :=
  fst <$> PageTable_find_leaf_pte m pt vpn.

Definition PageTable_translate_va (m : pmem) (pt : PageTable) (va : Z) : option Z :=
  let vpn := VirtAddr_floor va in
  let va_usize := usize_from_VirtAddr va in
  (λ '(pte, level),
     let page_bits := match level with 0%nat => 30 | 1%nat => 21 | _ => 12 end in
     let page_mask := Z.shiftl 1 page_bits - 1 in
     let pa_base := Z.land (PageTableEntry_ppn pte <<w 12) (not64 page_mask) in
     PhysAddr_from_usize (Z.lor pa_base (Z.land va_usize page_mask)))
  <$> PageTable_find_leaf_pte m pt vpn.

(** ** Operations that change the table *)

Section ops.
Context {A : Type} {FA : FrameAllocator A}.

(** [ArchInterface::frame_alloc]: panics when memory is exhausted; the tracker
    is forgotten, so the frame stays allocated. *)
Definition alloc_frame : M (machine A) Z :=
  let! frame := frame_alloc in m_unwrap frame.
Definition dealloc_frame (ppn : Z) : M (machine A) unit := frame_dealloc ppn.

Definition kernel_root_ppn_if_ready (ppn_mask : Z) (s : machine A) : option Z :=
  if kernel_token s =? 0 then None else Some (Z.land (kernel_token s) ppn_mask).

Definition clone_kernel_root_mappings (dst_root : Z) : M (machine A) unit :=
  let! s := m_get in
  match kernel_root_ppn_if_ready (Z.shiftl 1 44 - 1) s with
  | None => m_ret tt
  | Some kernel_root_raw =>
      let kernel_root := PhysPageNum_from_usize kernel_root_raw in
      m_for (seqZ 0x100 (512 - 0x100)) (λ i,
        let! dst := read_word dst_root i in
        let! src := read_word kernel_root i in
        if negb (PageTableEntry_is_valid dst) && PageTableEntry_is_valid src
        then write_word dst_root i src else m_ret tt)
  end.

Definition PageTable_new : M (machine A) PageTable :=
  let! root := alloc_frame in
  fill_zero root ;;;
  clone_kernel_root_mappings root ;;;
  m_ret (mkPageTable root [root]).

(** [Drop for PageTable] *)
Definition PageTable_drop (pt : PageTable) : M (machine A) unit :=
  m_for (pt_frames pt) dealloc_frame.

Fixpoint find_pte_create_loop (i : nat) (idxs : list Z) (ppn : Z) (pt : PageTable)
    : M (machine A) (option (Z * Z) * PageTable) :=
  match idxs with
  | [] => m_ret (None, pt)
  | idx :: rest =>
      if (i =? 2)%nat then m_ret (Some (ppn, idx), pt)
      else
        let! pte := read_word ppn idx in
        let! (pte, pt) :=
          if negb (PageTableEntry_is_valid pte) then
            let! frame := alloc_frame in
            fill_zero frame ;;;
            write_word ppn idx (PageTableEntry_new frame PTE_V) ;;;
            m_ret (PageTableEntry_new frame PTE_V,
                   mkPageTable (root_ppn pt) (pt_frames pt ++ [frame]))
          else m_ret (pte, pt) in
        find_pte_create_loop (S i) rest (PageTableEntry_ppn pte) pt
  end.
Definition PageTable_find_pte_create (pt : PageTable) (vpn : Z)
    : M (machine A) (option (Z * Z) * PageTable) :=
  find_pte_create_loop 0 (VirtPageNum_indexes vpn) (root_ppn pt) pt.

Definition max_user_ppn : Z := PhysAddr_floor (PhysAddr_from_usize MEMORY_END).

Definition PageTable_map (pt : PageTable) (vpn ppn flags : Z) : M (machine A) PageTable :=
  if contains flags PTE_U && (max_user_ppn <=? ppn) then m_ret pt
  else
    let! (loc, pt) := PageTable_find_pte_create pt vpn in
    let! (n, i) := m_unwrap loc in
    let! pte := read_word n i in
    (if PageTableEntry_is_valid pte then write_word n i PageTableEntry_empty else m_ret tt) ;;;
    write_word n i (PageTableEntry_new ppn (Z.lor flags PTE_V)) ;;;
    m_ret pt.

Definition PageTable_unmap (pt : PageTable) (vpn : Z) : M (machine A) bool :=
  let! s := m_get in
  match PageTable_find_pte (mem s) pt vpn with
  | None => m_ret false
  | Some (n, i) =>
      let! pte := read_word n i in
      if negb (PageTableEntry_is_valid pte) then m_ret false
      else write_word n i PageTableEntry_empty ;;; m_ret true
  end.

Definition PageTable_change_pte_flags (pt : PageTable) (vpn flags : Z) : M (machine A) bool :=
  let! s := m_get in
  match PageTable_find_pte (mem s) pt vpn with
  | None => m_ret false
  | Some (n, i) =>
      let! pte := read_word n i in
      if PageTableEntry_is_valid pte then
        write_word n i (PageTableEntry_new (PageTableEntry_ppn pte) flags) ;;; m_ret true
      else m_ret false
  end.
End ops.

(** ** Entries: encoding and decoding *)

#[global] Arguments PageTableEntry_new : simpl never.
#[global] Arguments PageTableEntry_ppn : simpl never.
#[global] Arguments PageTableEntry_flags : simpl never.
#[global] Arguments PageTableEntry_is_valid : simpl never.

Lemma flag_test bits i :
  0 <= i < 8 → negb (Z.land (PageTableEntry_flags bits) (Z.shiftl 1 i) =? 0) = Z.testbit bits i.
Proof.
  intros Hi. unfold PageTableEntry_flags. change 255 with (Z.ones 8).
  destruct (Z.testbit bits i) eqn:Hb.
  - apply negb_true_iff, Z.eqb_neq. intros H.
    apply (f_equal (λ z, Z.testbit z i)) in H.
    rewrite !Z.land_spec, Hb, Z.ones_spec_low, Z.shiftl_1_l, Z.pow2_bits_true, Z.bits_0 in H by lia.
    done.
  - apply negb_false_iff, Z.eqb_eq. apply Z.bits_inj'. intros j Hj.
    rewrite !Z.land_spec, Z.bits_0, Z.shiftl_1_l.
    destruct (decide (i = j)) as [->|Hne]; [by rewrite Hb|].
    rewrite Z.pow2_bits_false by done. apply andb_false_r.
Qed.

Lemma is_valid_bit e : PageTableEntry_is_valid e = Z.testbit e 0.
Proof. by apply (flag_test e 0). Qed.
Lemma readable_bit e : PageTableEntry_readable e = Z.testbit e 1.
Proof. by apply (flag_test e 1). Qed.
Lemma writable_bit e : PageTableEntry_writable e = Z.testbit e 2.
Proof. by apply (flag_test e 2). Qed.
Lemma executable_bit e : PageTableEntry_executable e = Z.testbit e 3.
Proof. by apply (flag_test e 3). Qed.

Lemma PTE_new_eq ppn flags : 0 <= ppn < 2 ^ 44 → 0 <= flags < 256 →
  PageTableEntry_new ppn flags = ppn * 2 ^ 10 + flags.
Proof.
  intros Hp Hf. unfold PageTableEntry_new.
  rewrite wrap64_small by (rewrite Z.shiftl_mul_pow2 by done; unfold is_usize, USIZE; lia).
  apply lor_shiftl_add; lia.
Qed.

Lemma PTE_new_ppn ppn flags : 0 <= ppn < 2 ^ 44 → 0 <= flags < 256 →
  PageTableEntry_ppn (PageTableEntry_new ppn flags) = ppn.
Proof.
  intros Hp Hf. rewrite PTE_new_eq by done. unfold PageTableEntry_ppn.
  rewrite shiftr_add_small by lia. rewrite land_mask by done.
  rewrite Z.mod_small by done. by apply PhysPageNum_from_usize_small.
Qed.

Lemma PTE_new_flags ppn flags : 0 <= ppn < 2 ^ 44 → 0 <= flags < 256 →
  PageTableEntry_flags (PageTableEntry_new ppn flags) = flags.
Proof.
  intros Hp Hf. rewrite PTE_new_eq by done. unfold PageTableEntry_flags.
  rewrite (land_mask _ 8) by done. rewrite <- (Z.mod_small flags 256) at 2 by lia.
  change (2 ^ 8) with 256. replace (ppn * 2 ^ 10 + flags) with (flags + (ppn * 4) * 256) by lia.
  by apply Z.mod_add.
Qed.

Lemma PTE_flags_bit e i : 0 <= i < 8 → Z.testbit (PageTableEntry_flags e) i = Z.testbit e i.
Proof.
  intros Hi. unfold PageTableEntry_flags. change 255 with (Z.ones 8).
  by rewrite Z.land_spec, Z.ones_spec_low, andb_true_r by lia.
Qed.

Lemma PTE_new_bit ppn flags i : 0 <= ppn < 2 ^ 44 → 0 <= flags < 256 → 0 <= i < 8 →
  Z.testbit (PageTableEntry_new ppn flags) i = Z.testbit flags i.
Proof. intros. by rewrite <- PTE_flags_bit, PTE_new_flags by done. Qed.

Lemma PTE_ppn_range e : 0 <= PageTableEntry_ppn e < 2 ^ 44.
Proof. unfold PageTableEntry_ppn. rewrite PhysPageNum_from_usize_mod. by apply Z.mod_pos_bound. Qed.

Lemma PTE_flags_range e : 0 <= PageTableEntry_flags e < 256.
Proof. unfold PageTableEntry_flags. rewrite (land_mask _ 8) by done. by apply Z.mod_pos_bound. Qed.

Lemma lor_flag_range flags i : 0 <= flags < 256 → 0 <= i < 8 → 0 <= Z.lor flags (Z.shiftl 1 i) < 256.
Proof.
  intros Hf Hi. rewrite Z.shiftl_1_l. split; [apply Z.lor_nonneg; split; [lia|apply Z.pow_nonneg; lia]|].
  destruct (Z.eq_dec (Z.lor flags (2 ^ i)) 0) as [->|Hne]; [done|].
  assert (0 <= 2 ^ i) by (apply Z.pow_nonneg; lia).
  assert (0 <= Z.lor flags (2 ^ i)) by (apply Z.lor_nonneg; lia).
  change 256 with (2 ^ 8). apply Z.log2_lt_pow2; [lia|].
  rewrite Z.log2_lor by lia. apply Z.max_lub_lt.
  - destruct (Z.eq_dec flags 0) as [->|]; [done|]. apply Z.log2_lt_pow2; lia.
  - rewrite Z.log2_pow2 by lia. lia.
Qed.

Lemma PTE_new_valid ppn flags : 0 <= ppn < 2 ^ 44 → 0 <= flags < 256 →
  PageTableEntry_is_valid (PageTableEntry_new ppn (Z.lor flags PTE_V)) = true.
Proof.
  intros Hp Hf. rewrite is_valid_bit, PTE_new_bit by (try done; by apply (lor_flag_range _ 0)).
  rewrite Z.lor_spec. by apply orb_true_r.
Qed.

Lemma PTE_new_V_valid ppn : 0 <= ppn < 2 ^ 44 →
  PageTableEntry_is_valid (PageTableEntry_new ppn PTE_V) = true.
Proof. intros. by apply (PTE_new_valid ppn 0). Qed.

#[export] Hint Resolve PTE_ppn_range PTE_flags_range : core.

(** ** The walk, one table at a time *)

(** The child node an entry points to. *)
Definition sub (m : pmem) (n idx : Z) : option Z :=
  let e := pm_word m n idx in
  if PageTableEntry_is_valid e then Some (PageTableEntry_ppn e) else None.

Definition vpn0 (vpn : Z) : Z := (vpn / 2 ^ 18) mod 512.
Definition vpn1 (vpn : Z) : Z := (vpn / 2 ^ 9) mod 512.
Definition vpn2 (vpn : Z) : Z := vpn mod 512.

Lemma find_pte_sub m pt vpn :
  PageTable_find_pte m pt vpn =
    (n1 ← sub m (root_ppn pt) (vpn0 vpn); n2 ← sub m n1 (vpn1 vpn); Some (n2, vpn2 vpn)).
Proof.
  unfold PageTable_find_pte, sub. rewrite VirtPageNum_indexes_eq. simpl.
  fold (vpn0 vpn) (vpn1 vpn) (vpn2 vpn).
  destruct (PageTableEntry_is_valid _); simpl; [|done].
  by destruct (PageTableEntry_is_valid _).
Qed.

(** A page number of the low (user) half of the address space. *)
Definition user_vpn (vpn : Z) : Prop := 0 <= vpn < 2 ^ 26.

Lemma vpn_inj v w : user_vpn v → user_vpn w →
  vpn0 v = vpn0 w → vpn1 v = vpn1 w → vpn2 v = vpn2 w → v = w.
Proof. unfold user_vpn, vpn0, vpn1, vpn2. intros. Z.div_mod_to_equations. lia. Qed.

Lemma vpn0_user v : user_vpn v → 0 <= vpn0 v < 256.
Proof. unfold user_vpn, vpn0. intros. Z.div_mod_to_equations. lia. Qed.
Lemma vpn1_range v : 0 <= vpn1 v < 512.
Proof. by apply Z.mod_pos_bound. Qed.
Lemma vpn2_range v : 0 <= vpn2 v < 512.
Proof. by apply Z.mod_pos_bound. Qed.

(** ** Well-formed tables

    [lbl] says which frame is which node of the table: it is a function, so no
    frame plays two roles and no node is shared between two positions. *)

Inductive node : Type :=
| Root
| Mid (i : Z)
| Leaf (i j : Z).

#[export] Instance node_eq_dec : EqDecision node.
Proof. solve_decision. Defined.

(** The position of the child reached through entry [idx]; the upper half of
    the root holds the kernel's shared entries and is not part of the tree. *)
Definition child (pos : node) (idx : Z) : option node :=
  match pos with
  | Root => if idx <? 256 then Some (Mid idx) else None
  | Mid i => Some (Leaf i idx)
  | Leaf _ _ => None
  end.

Record pt_tree (m : pmem) (pt : PageTable) (lbl : gmap Z node) : Prop := {
  wf_root n : lbl !! n = Some Root ↔ n = root_ppn pt;
  wf_child n pos idx c :
    lbl !! n = Some pos → 0 <= idx < 512 → child pos idx = Some c →
    PageTableEntry_is_valid (pm_word m n idx) = true →
    PageTableEntry_flags (pm_word m n idx) = PTE_V ∧
    lbl !! PageTableEntry_ppn (pm_word m n idx) = Some c;
}.

(** The owner of the table also holds its nodes; a table rebuilt from a token
    does not. *)
Record pt_wf (m : pmem) (pt : PageTable) (lbl : gmap Z node) : Prop := {
  wf_tree :> pt_tree m pt lbl;
  wf_frames n : n ∈ pt_frames pt ↔ is_Some (lbl !! n);
  wf_nodup : NoDup (pt_frames pt);
}.

Section walk.
Context (m : pmem) (pt : PageTable) (lbl : gmap Z node) (Hwf : pt_tree m pt lbl).

Lemma sub_label n pos idx c n' :
  lbl !! n = Some pos → 0 <= idx < 512 → child pos idx = Some c →
  sub m n idx = Some n' → lbl !! n' = Some c.
Proof.
  intros Hn Hidx Hc. unfold sub. case_match eqn:Hv; [|done]. intros [= <-].
  by destruct (wf_child _ _ _ Hwf n pos idx c Hn Hidx Hc Hv).
Qed.

Lemma root_label : lbl !! root_ppn pt = Some Root.
Proof. by apply (wf_root _ _ _ Hwf). Qed.

Lemma sub_root_label vpn n1 :
  user_vpn vpn → sub m (root_ppn pt) (vpn0 vpn) = Some n1 → lbl !! n1 = Some (Mid (vpn0 vpn)).
Proof.
  intros Hu%vpn0_user. apply (sub_label _ Root); [apply root_label|lia|].
  simpl. by destruct (Z.ltb_spec (vpn0 vpn) 256); [|lia].
Qed.

Lemma sub_mid_label vpn n1 n2 i :
  lbl !! n1 = Some (Mid i) → sub m n1 (vpn1 vpn) = Some n2 →
  lbl !! n2 = Some (Leaf i (vpn1 vpn)).
Proof. intros Hn1. apply (sub_label _ (Mid i)); [done|apply vpn1_range|done]. Qed.

(** The entry a walk ends at lies in the leaf node of its own position. *)
Lemma find_pte_label vpn n k : user_vpn vpn → PageTable_find_pte m pt vpn = Some (n, k) →
  lbl !! n = Some (Leaf (vpn0 vpn) (vpn1 vpn)) ∧ k = vpn2 vpn.
Proof.
  intros Hu. rewrite find_pte_sub.
  destruct (sub m (root_ppn pt) (vpn0 vpn)) as [n1|] eqn:H1; [|done]. simpl.
  destruct (sub m n1 (vpn1 vpn)) as [n2|] eqn:H2; [|done]. simpl. intros [= <- <-].
  split; [|done]. eapply sub_mid_label; [|done]. by eapply sub_root_label.
Qed.

Lemma find_pte_inj v w n k : user_vpn v → user_vpn w →
  PageTable_find_pte m pt v = Some (n, k) → PageTable_find_pte m pt w = Some (n, k) → v = w.
Proof.
  intros Hv Hw Hfv%find_pte_label Hfw%find_pte_label; [|done..].
  destruct Hfv as [Hlv Hkv], Hfw as [Hlw Hkw]. rewrite Hlv in Hlw. simplify_eq.
  by apply vpn_inj.
Qed.

(** Interior entries are never leaves, so translation reads the entry
    [find_pte] finds. *)
Lemma interior_not_leaf n pos idx c :
  lbl !! n = Some pos → 0 <= idx < 512 → child pos idx = Some c →
  PageTableEntry_is_valid (pm_word m n idx) = true →
  PageTableEntry_readable (pm_word m n idx) = false ∧
  PageTableEntry_writable (pm_word m n idx) = false ∧
  PageTableEntry_executable (pm_word m n idx) = false.
Proof.
  intros Hn Hidx Hc Hv. destruct (wf_child _ _ _ Hwf n pos idx c Hn Hidx Hc Hv) as [Hf _].
  rewrite readable_bit, writable_bit, executable_bit.
  rewrite <- (PTE_flags_bit _ 1), <- (PTE_flags_bit _ 2), <- (PTE_flags_bit _ 3) by lia.
  by rewrite Hf.
Qed.

Lemma find_leaf_pte_eq vpn : user_vpn vpn →
  PageTable_find_leaf_pte m pt vpn =
    ('(n, k) ← PageTable_find_pte m pt vpn;
     let e := pm_word m n k in if PageTableEntry_is_valid e then Some (e, 2%nat) else None).
Proof.
  intros Hu. rewrite find_pte_sub. unfold PageTable_find_leaf_pte.
  rewrite VirtPageNum_indexes_eq. fold (vpn0 vpn) (vpn1 vpn) (vpn2 vpn). simpl.
  assert (child Root (vpn0 vpn) = Some (Mid (vpn0 vpn))) as Hc0.
  { apply vpn0_user in Hu. simpl. by destruct (Z.ltb_spec (vpn0 vpn) 256); [|lia]. }
  pose proof (vpn0_user vpn Hu). pose proof (vpn1_range vpn).
  unfold sub.
  destruct (PageTableEntry_is_valid (pm_word m (root_ppn pt) (vpn0 vpn))) eqn:Hv0; simpl; [|done].
  destruct (interior_not_leaf (root_ppn pt) Root (vpn0 vpn) _ root_label ltac:(lia) Hc0 Hv0) as (-> & -> & ->). simpl.
  set (n1 := PageTableEntry_ppn (pm_word m (root_ppn pt) (vpn0 vpn))).
  assert (lbl !! n1 = Some (Mid (vpn0 vpn))) as Hn1.
  { apply sub_root_label; [done|]. unfold sub. by rewrite Hv0. }
  destruct (PageTableEntry_is_valid (pm_word m n1 (vpn1 vpn))) eqn:Hv1; simpl; [|done].
  destruct (interior_not_leaf n1 (Mid (vpn0 vpn)) (vpn1 vpn) _ Hn1 (vpn1_range vpn) eq_refl Hv1) as (-> & -> & ->).
  simpl. clearbody n1. set (e := pm_word m _ (vpn2 vpn)). by destruct (PageTableEntry_is_valid e).
Qed.

Lemma translate_find_pte vpn : user_vpn vpn →
  PageTable_translate m pt vpn =
    ('(n, k) ← PageTable_find_pte m pt vpn;
     let e := pm_word m n k in if PageTableEntry_is_valid e then Some e else None).
Proof.
  intros Hu. unfold PageTable_translate. rewrite find_leaf_pte_eq by done.
  destruct (PageTable_find_pte m pt vpn) as [[n k]|]; simpl; [|done]. by case_match.
Qed.

(** Translation of an address: the frame of its page and its offset. *)
Lemma translate_va_eq va : 0 <= va < 2 ^ 38 →
  PageTable_translate_va m pt va =
    (λ e, PageTableEntry_ppn e * PAGE_SIZE + va mod PAGE_SIZE)
      <$> PageTable_translate m pt (VirtAddr_floor va).
Proof.
  intros Hva. assert (user_vpn (VirtAddr_floor va)) as Hu.
  { unfold user_vpn, VirtAddr_floor, PAGE_SIZE. split; [apply Z.div_pos|apply Z.div_lt_upper_bound]; lia. }
  unfold PageTable_translate_va, PageTable_translate. rewrite usize_from_VirtAddr_low by lia.
  rewrite find_leaf_pte_eq by done.
  destruct (PageTable_find_pte m pt (VirtAddr_floor va)) as [[n k]|]; simpl; [|done].
  destruct (PageTableEntry_is_valid (pm_word m n k)); simpl; [|done]. f_equal.
  pose proof (PTE_ppn_range (pm_word m n k)) as Hr. set (p := PageTableEntry_ppn _) in *.
  assert (p <<w 12 = Z.shiftl p 12) as ->.
  { apply wrap64_small. rewrite Z.shiftl_mul_pow2 by done. unfold is_usize, USIZE. lia. }
  change (Z.shiftl 1 12 - 1) with (Z.ones 12).
  assert (Z.land (Z.shiftl p 12) (not64 (Z.ones 12)) = Z.shiftl p 12) as ->.
  { apply Z.bits_inj'. intros i Hi. rewrite Z.land_spec. unfold not64, USIZE.
    rewrite Z.ldiff_spec. change (2 ^ 64 - 1) with (Z.ones 64). rewrite Z.shiftl_spec by done.
    destruct (decide (i < 12)); [by rewrite (Z.testbit_neg_r p) by lia|].
    rewrite (Z.ones_spec_high 12) by lia. rewrite andb_true_r.
    destruct (decide (i < 64)); [rewrite Z.ones_spec_low by lia; apply andb_true_r|].
    rewrite Z.ones_spec_high by lia. rewrite andb_false_r. symmetry. apply (testbit_small p 44); lia. }
  rewrite Z.land_ones by done. change (2 ^ 12) with PAGE_SIZE.
  pose proof (Z.mod_pos_bound va PAGE_SIZE eq_refl).
  rewrite lor_shiftl_add by (unfold PAGE_SIZE in *; lia). change (2 ^ 12) with PAGE_SIZE.
  apply PhysAddr_from_usize_small. unfold PAGE_SIZE in *. lia.
Qed.

(** Translation reads the nodes of the table only. *)
Lemma pt_tree_ext m' : (∀ n, is_Some (lbl !! n) → pm_page m' n = pm_page m n) → pt_tree m' pt lbl.
Proof.
  intros Hext. destruct Hwf as [Hroot Hchild]. split; [done|]. intros n pos idx c Hn.
  rewrite (pm_word_page m' m) by (apply Hext; by rewrite Hn). by apply Hchild.
Qed.

Lemma translate_ext m' vpn : (∀ n, is_Some (lbl !! n) → pm_page m' n = pm_page m n) →
  user_vpn vpn → PageTable_translate m' pt vpn = PageTable_translate m pt vpn.
Proof.
  intros Hext Hu. assert (∀ n i, is_Some (lbl !! n) → pm_word m' n i = pm_word m n i) as Hw.
  { intros n i Hn. by apply pm_word_page, Hext. }
  unfold PageTable_translate, PageTable_find_leaf_pte. rewrite VirtPageNum_indexes_eq.
  fold (vpn0 vpn) (vpn1 vpn) (vpn2 vpn). simpl.
  rewrite (Hw (root_ppn pt)) by (by rewrite root_label).
  assert (child Root (vpn0 vpn) = Some (Mid (vpn0 vpn))) as Hc0.
  { apply vpn0_user in Hu. simpl. by destruct (Z.ltb_spec (vpn0 vpn) 256); [|lia]. }
  pose proof (vpn0_user vpn Hu).
  destruct (PageTableEntry_is_valid (pm_word m (root_ppn pt) (vpn0 vpn))) eqn:Hv0; simpl; [|done].
  assert (0 <= vpn0 vpn < 512) as Hr0 by lia.
  destruct (wf_child _ _ _ Hwf _ _ _ _ root_label Hr0 Hc0 Hv0) as [_ Hn1].
  case_match; [done|]. rewrite Hw by (by rewrite Hn1).
  destruct (PageTableEntry_is_valid (pm_word m _ (vpn1 vpn))) eqn:Hv1; simpl; [|done].
  destruct (wf_child _ _ _ Hwf _ _ _ (Leaf (vpn0 vpn) (vpn1 vpn)) Hn1 (vpn1_range vpn) eq_refl Hv1) as [_ Hn2].
  case_match; [done|]. rewrite Hw by (by rewrite Hn2). done.
Qed.
End walk.

(** A walk only ends at a valid entry. *)
Lemma translate_is_valid m pt vpn e :
  PageTable_translate m pt vpn = Some e → PageTableEntry_is_valid e = true.
Proof.
  unfold PageTable_translate, PageTable_find_leaf_pte.
  generalize (VirtPageNum_indexes vpn) as idxs, (root_ppn pt) as ppn, 0%nat as level.
  induction idxs as [|idx idxs IH]; intros ppn level; simpl; [done|].
  destruct (PageTableEntry_is_valid (pm_word m ppn idx)) eqn:Hv; simpl; [|done].
  case_match; [|apply IH]. simpl. by intros [= <-].
Qed.

Lemma from_token_root pt : 0 <= root_ppn pt < 2 ^ 44 →
  root_ppn (PageTable_from_token (PageTable_token pt)) = root_ppn pt.
Proof.
  intros Hr. unfold PageTable_from_token, PageTable_token. simpl.
  rewrite land_mask by done. rewrite Z.lor_comm, PhysPageNum_from_usize_mod, Z.mod_mod by done.
  change (Z.shiftl 8 60) with (Z.shiftl (2 ^ 19) 44). rewrite Z.lor_comm, lor_shiftl_add by lia.
  rewrite Z.add_comm, Z.mod_add by done. by apply Z.mod_small.
Qed.

(** Walking from the token finds the same entries. *)
Lemma from_token_translate m pt vpn : 0 <= root_ppn pt < 2 ^ 44 →
  PageTable_translate m (PageTable_from_token (PageTable_token pt)) vpn = PageTable_translate m pt vpn.
Proof.
  intros Hr. unfold PageTable_translate, PageTable_find_leaf_pte. by rewrite from_token_root.
Qed.

(** ** Writing an entry of a leaf node *)

Lemma sub_ext m m' n idx : pm_word m n idx = pm_word m' n idx → sub m n idx = sub m' n idx.
Proof. unfold sub. by intros ->. Qed.

Section leaf_write.
Context (m : pmem) (pt : PageTable) (lbl : gmap Z node) (Hwf : pt_wf m pt lbl).
Context (n k w : Z) (i j : Z) (Hn : lbl !! n = Some (Leaf i j)).

Lemma leaf_write_word q pos idx c : lbl !! q = Some pos → child pos idx = Some c →
  pm_word (pm_write m n k w) q idx = pm_word m q idx.
Proof.
  intros Hq Hc. apply pm_word_write_ne. intros [= -> ->]. rewrite Hn in Hq. by simplify_eq.
Qed.

Lemma leaf_write_wf : pt_wf (pm_write m n k w) pt lbl.
Proof.
  destruct Hwf as [[Hroot Hchild] Hfr Hnd]. split; [split; [done|]|done..].
  intros q pos idx c Hq Hidx Hc. rewrite (leaf_write_word q pos idx c) by done. by apply (Hchild q pos idx c).
Qed.

Lemma leaf_write_find_pte vpn : user_vpn vpn →
  PageTable_find_pte (pm_write m n k w) pt vpn = PageTable_find_pte m pt vpn.
Proof.
  intros Hu. rewrite !find_pte_sub. pose proof (vpn0_user vpn Hu).
  rewrite (sub_ext (pm_write m n k w) m).
  2:{ apply (leaf_write_word _ Root _ (Mid (vpn0 vpn))); [apply (root_label m pt lbl Hwf)|].
      simpl. by destruct (Z.ltb_spec (vpn0 vpn) 256); [|lia]. }
  destruct (sub m (root_ppn pt) (vpn0 vpn)) as [n1|] eqn:H1; [simpl|done].
  rewrite (sub_ext (pm_write m n k w) m); [done|].
  eapply leaf_write_word; [by eapply (sub_root_label m pt lbl Hwf)|done].
Qed.

Lemma leaf_write_translate vpn : user_vpn vpn →
  PageTable_translate (pm_write m n k w) pt vpn =
    if decide (PageTable_find_pte m pt vpn = Some (n, k))
    then if PageTableEntry_is_valid w then Some w else None
    else PageTable_translate m pt vpn.
Proof.
  intros Hu. rewrite (translate_find_pte _ _ _ leaf_write_wf), (translate_find_pte _ _ _ Hwf) by done.
  rewrite leaf_write_find_pte by done.
  destruct (PageTable_find_pte m pt vpn) as [[n' k']|] eqn:Hf; simpl; [|done].
  case_decide as Hd.
  - simplify_eq. by rewrite pm_word_write_eq.
  - rewrite pm_word_write_ne; [done|]. congruence.
Qed.
End leaf_write.

(** ** Adding a node *)

Section add_node.
Context (m : pmem) (pt : PageTable) (lbl : gmap Z node) (Hwf : pt_wf m pt lbl).
Context (n idx p : Z) (pos c : node).
Context (Hn : lbl !! n = Some pos) (Hidx : 0 <= idx < 512) (Hc : child pos idx = Some c).
Context (Hinvalid : PageTableEntry_is_valid (pm_word m n idx) = false).
Context (Hp : lbl !! p = None) (Hprange : 0 <= p < 2 ^ 44).

Definition add_node_mem : pmem := pm_write (pm_zero m p) n idx (PageTableEntry_new p PTE_V).
Definition add_node_pt : PageTable := mkPageTable (root_ppn pt) (pt_frames pt ++ [p]).

Lemma add_node_word q x :
  pm_word add_node_mem q x =
    if decide ((q, x) = (n, idx)) then PageTableEntry_new p PTE_V
    else if decide (q = p) then 0 else pm_word m q x.
Proof.
  unfold add_node_mem. case_decide as Hd.
  - simplify_eq. apply pm_word_write_eq.
  - rewrite pm_word_write_ne by done. case_decide; [subst; apply pm_word_zero_eq|].
    apply pm_word_page, pm_page_zero_ne. done.
Qed.

Lemma node_neq : n ≠ p.
Proof. intros Heq. congruence. Qed.

Lemma add_node_wf : pt_wf add_node_mem add_node_pt (<[p := c]> lbl).
Proof.
  pose proof node_neq as Hne. destruct Hwf as [[Hroot Hchild] Hfr Hnd]. split; [split| |].
  - intros q. simpl. rewrite <- Hroot. destruct (decide (q = p)) as [->|].
    + rewrite lookup_insert_eq, Hp. split; [|done]. intros [= ->]. by destruct pos; simpl in Hc; repeat case_match.
    + by rewrite lookup_insert_ne.
  - intros q pos' x c' Hq Hx Hc'. rewrite !add_node_word. case_decide as Hd.
    + simplify_eq. rewrite lookup_insert_ne in Hq by done. rewrite Hn in Hq. simplify_eq.
      intros _. rewrite PTE_new_flags, PTE_new_ppn by done. by rewrite lookup_insert_eq.
    + case_decide; [done|]. rewrite lookup_insert_ne in Hq by done. intros Hv.
      destruct (Hchild q pos' x c' Hq Hx Hc' Hv) as [? Hl]. split; [done|].
      rewrite lookup_insert_ne; [done|]. congruence.
  - intros q. simpl. rewrite elem_of_app, list_elem_of_singleton, Hfr.
    destruct (decide (q = p)) as [->|].
    + rewrite lookup_insert_eq. split; [by eexists|by right].
    + rewrite lookup_insert_ne by done. split; [by intros [?|?]|by left].
  - simpl. apply NoDup_app. split_and!; [done| |apply NoDup_singleton].
    intros q Hq%Hfr. rewrite list_elem_of_singleton. intros ->. rewrite Hp in Hq. by destruct Hq.
Qed.

Lemma add_node_sub q x : q ≠ p → (q, x) ≠ (n, idx) → sub add_node_mem q x = sub m q x.
Proof.
  intros Hq Hx. apply sub_ext. rewrite add_node_word. by rewrite !decide_False.
Qed.

Lemma add_node_sub_new x : sub add_node_mem p x = None.
Proof.
  unfold sub. rewrite add_node_word, decide_False, decide_True; [done..|].
  pose proof node_neq. congruence.
Qed.

Lemma add_node_translate vpn : user_vpn vpn →
  PageTable_translate add_node_mem add_node_pt vpn = PageTable_translate m pt vpn.
Proof.
  intros Hu. pose proof node_neq as Hne.
  rewrite (translate_find_pte _ _ _ add_node_wf), (translate_find_pte _ _ _ Hwf) by done.
  rewrite !find_pte_sub. simpl.
  assert (root_ppn pt ≠ p) by (intros <-; by rewrite (root_label m pt lbl Hwf) in Hp).
  destruct (decide ((root_ppn pt, vpn0 vpn) = (n, idx))) as [Heq|Hroot].
  { assert (sub m (root_ppn pt) (vpn0 vpn) = None) as ->.
    { injection Heq as <- <-. unfold sub. by rewrite Hinvalid. }
    assert (sub add_node_mem (root_ppn pt) (vpn0 vpn) = Some p) as ->.
    { unfold sub. rewrite add_node_word, decide_True by done.
      rewrite PTE_new_V_valid by done. by rewrite PTE_new_ppn. }
    simpl. by rewrite add_node_sub_new. }
  rewrite add_node_sub by done.
  destruct (sub m (root_ppn pt) (vpn0 vpn)) as [n1|] eqn:H1; [simpl|done].
  assert (lbl !! n1 = Some (Mid (vpn0 vpn))) as Hn1 by (by eapply (sub_root_label m pt lbl Hwf)).
  assert (n1 ≠ p) by (intros ->; by rewrite Hp in Hn1).
  destruct (decide ((n1, vpn1 vpn) = (n, idx))) as [Heq|Hmid].
  { assert (sub m n1 (vpn1 vpn) = None) as ->.
    { injection Heq as <- <-. unfold sub. by rewrite Hinvalid. }
    assert (sub add_node_mem n1 (vpn1 vpn) = Some p) as ->.
    { unfold sub. rewrite add_node_word, decide_True by done.
      rewrite PTE_new_V_valid by done. by rewrite PTE_new_ppn. }
    simpl. rewrite add_node_word, decide_False, decide_True by congruence. done. }
  rewrite add_node_sub by done.
  destruct (sub m n1 (vpn1 vpn)) as [n2|] eqn:H2; [simpl|done].
  assert (lbl !! n2 = Some (Leaf (vpn0 vpn) (vpn1 vpn))) as Hn2 by (by eapply (sub_mid_label m pt lbl Hwf)).
  assert (n2 ≠ p) by (intros ->; by rewrite Hp in Hn2).
  rewrite add_node_word, decide_False, decide_False; [done|done|].
  intros Heq. injection Heq as Heq _. rewrite Heq, Hn in Hn2. injection Hn2 as ->. by simpl in Hc.
Qed.
End add_node.

(** ** The operations under the allocator's contract *)

Section ops_spec.
Context {A : Type} {FA : FrameAllocator A} {inv : A → Prop} {owned : A → Z → Prop} {avail : A → nat}.
Context `{HFS : !FrameAllocatorSpec A inv owned avail}.
Implicit Types (s : machine A) (pt : PageTable) (lbl : gmap Z node).

(** A well-formed table whose nodes are frames the allocator handed out. *)
Record pt_ok (s : machine A) pt lbl : Prop := {
  ok_wf : pt_wf (mem s) pt lbl;
  ok_inv : inv (falloc s);
  ok_owned n : is_Some (lbl !! n) → owned (falloc s) n;
}.

(** What an operation on a table may change: it allocates at most [b] new
    nodes, and writes only nodes of the table, never the kernel half of the
    root. *)
Record pt_extends (b : nat) (s s' : machine A) lbl lbl' : Prop := {
  ext_lbl : lbl ⊆ lbl';
  ext_inv : inv (falloc s');
  ext_fresh n : is_Some (lbl' !! n) → lbl !! n = None → ¬ owned (falloc s) n;
  ext_owned n : owned (falloc s') n ↔ owned (falloc s) n ∨ is_Some (lbl' !! n);
  ext_mem n : lbl' !! n = None → pm_page (mem s') n = pm_page (mem s) n;
  ext_kernel n i : lbl !! n = Some Root → 256 <= i → pm_word (mem s') n i = pm_word (mem s) n i;
  ext_arcs : arcs s' = arcs s;
  ext_token : kernel_token s' = kernel_token s;
  ext_avail : (avail (falloc s) <= b + avail (falloc s'))%nat;
}.

Lemma pt_extends_trans b1 b2 s1 s2 s3 l1 l2 l3 :
  pt_extends b1 s1 s2 l1 l2 → pt_extends b2 s2 s3 l2 l3 → pt_extends (b1 + b2) s1 s3 l1 l3.
Proof.
  intros [L12 I12 F12 O12 M12 K12 A12 T12 V12] [L23 I23 F23 O23 M23 K23 A23 T23 V23].
  assert (∀ n x, l1 !! n = Some x → l3 !! n = Some x) as L13.
  { intros n x Hx. eapply lookup_weaken; [|done]. by eapply lookup_weaken. }
  split.
  - by transitivity l2.
  - done.
  - intros n Hn Hn1 Hown. destruct (l2 !! n) as [x|] eqn:H2; [by eapply F12|].
    apply (F23 n); [done..|]. apply O12. by left.
  - intros n. rewrite O23, O12. split; [|naive_solver].
    intros [[?|[x Hx]]|?]; [by left| |by right]. right. exists x. by eapply lookup_weaken.
  - intros n Hn. rewrite M23 by done. apply M12.
    destruct (l2 !! n) eqn:H2; [|done]. eapply lookup_weaken in H2; [|done]. congruence.
  - intros n i Hn Hi. rewrite K23 by (try done; by eapply lookup_weaken). by apply K12.
  - congruence.
  - congruence.
  - lia.
Qed.

Lemma pt_ok_label_range s pt lbl n x : pt_ok s pt lbl → lbl !! n = Some x → 0 <= n < 2 ^ 44.
Proof.
  intros [_ Hinv Hown] Hn. pose proof (spec_owned_range _ n Hinv (Hown n (mk_is_Some _ _ Hn))). lia.
Qed.

Lemma pt_extends_refl b s pt lbl : pt_ok s pt lbl → pt_extends b s s lbl lbl.
Proof.
  intros [Hwf Hinv Hown]. split; try done.
  - intros n [x Hx] ?. congruence.
  - intros n. split; [by left|]. intros [?|?]; auto.
  - lia.
Qed.

(** A write to an entry of the table other than the kernel's. *)
Lemma pt_extends_write b s pt lbl n k w :
  pt_ok s pt lbl → (∃ x, lbl !! n = Some x ∧ (x = Root → k < 256)) →
  pt_extends b s (set_mem (λ m, pm_write m n k w) s) lbl lbl.
Proof.
  intros Hok (x & Hn & Hk). pose proof (pt_extends_refl b s pt lbl Hok) as [].
  split; simpl; try done.
  - intros q Hq. apply pm_page_write_ne. congruence.
  - intros q i Hq Hi. apply pm_word_write_ne. intros [= -> ->].
    rewrite Hn in Hq. simplify_eq. specialize (Hk eq_refl). lia.
Qed.

Lemma wp_ensure_child {B} s pt lbl n idx pos c (K : Z * PageTable → M (machine A) B) Q :
  pt_ok s pt lbl → lbl !! n = Some pos → 0 <= idx < 512 → child pos idx = Some c →
  (1 <= avail (falloc s))%nat →
  (∀ s' pt' lbl' pte,
     pt_ok s' pt' lbl' → root_ppn pt' = root_ppn pt → pt_extends 1 s s' lbl lbl' →
     (∀ v, user_vpn v → PageTable_translate (mem s') pt' v = PageTable_translate (mem s) pt v) →
     lbl' !! PageTableEntry_ppn pte = Some c → sub (mem s') n idx = Some (PageTableEntry_ppn pte) →
     (∀ q x, (q, x) ≠ (n, idx) → lbl !! q ≠ None → sub (mem s') q x = sub (mem s) q x) →
     wp (K (pte, pt')) Q s') →
  wp (let! pte := read_word n idx in
      let! x :=
        if negb (PageTableEntry_is_valid pte) then
          let! frame := alloc_frame in
          fill_zero frame ;;;
          write_word n idx (PageTableEntry_new frame PTE_V) ;;;
          m_ret (PageTableEntry_new frame PTE_V,
                 mkPageTable (root_ppn pt) (pt_frames pt ++ [frame]))
        else m_ret (pte, pt) in
      K x) Q s.
Proof.
  intros Hok Hn Hidx Hc Hav HK. pose proof Hok as [Hwf Hinv Hown].
  apply wp_bind. unfold read_word, wp at 1. simpl.
  destruct (PageTableEntry_is_valid (pm_word (mem s) n idx)) eqn:Hv; simpl; apply wp_bind.
  - apply wp_ret. assert (sub (mem s) n idx = Some (PageTableEntry_ppn (pm_word (mem s) n idx))) as Hs.
    { unfold sub. by rewrite Hv. }
    eapply HK; [done|done|by eapply pt_extends_refl|done| |done|done].
    by eapply (sub_label _ _ _ Hwf).
  - apply wp_bind. unfold alloc_frame. apply wp_bind. apply wp_frame_alloc; [done|lia|].
    intros p a' Hinv' Hnew Hpr Howned' Hav'. apply wp_ret.
    assert (0 <= p < 2 ^ 44) as Hp by lia.
    assert (lbl !! p = None) as Hpl.
    { destruct (lbl !! p) eqn:E; [|done]. exfalso. apply Hnew, Hown. by rewrite E. }
    pose proof (node_neq lbl n p pos Hn Hpl) as Hne.
    assert (pm_zero (pm_zero (mem s) p) p = pm_zero (mem s) p) as Hzz
      by (unfold pm_zero; by rewrite insert_insert_eq).
    apply wp_bind, wp_modify, wp_bind, wp_modify, wp_ret. unfold set_mem. simpl. rewrite Hzz.
    eapply (HK _ _ (<[p := c]> lbl)); simpl.
    + split; simpl.
      * by apply (add_node_wf (mem s) pt lbl Hwf n idx p pos c).
      * done.
      * intros q. rewrite Howned'. destruct (decide (q = p)) as [->|]; [by left|].
        rewrite lookup_insert_ne by done. by right; auto.
    + done.
    + split; simpl; try done.
      * by apply insert_subseteq.
      * intros q. destruct (decide (q = p)) as [->|]; [done|].
        rewrite lookup_insert_ne by done. intros [x Hx]. congruence.
      * intros q. rewrite Howned'. destruct (decide (q = p)) as [->|].
        -- rewrite lookup_insert_eq. naive_solver.
        -- rewrite lookup_insert_ne by done. naive_solver.
      * intros q. destruct (decide (q = p)) as [->|]; [by rewrite lookup_insert_eq|].
        rewrite lookup_insert_ne by done. intros Hq.
        rewrite pm_page_write_ne by congruence. by rewrite pm_page_zero_ne.
      * intros q x Hq Hx. rewrite pm_word_write_ne.
        -- apply pm_word_page, pm_page_zero_ne. congruence.
        -- intros [= -> ->]. rewrite Hn in Hq. simplify_eq. simpl in Hc.
           destruct (Z.ltb_spec idx 256); [lia|done].
      * lia.
    + intros v Hvu. by apply (add_node_translate (mem s) pt lbl Hwf n idx p pos c).
    + rewrite PTE_new_ppn by done. by rewrite lookup_insert_eq.
    + unfold sub. rewrite pm_word_write_eq. by rewrite PTE_new_V_valid.
    + intros q x Hqx Hq. apply (add_node_sub (mem s) n idx p); [congruence|done].
Qed.

Lemma wp_find_pte_create s pt lbl vpn Q :
  pt_ok s pt lbl → user_vpn vpn → (2 <= avail (falloc s))%nat →
  (∀ s' pt' lbl' n,
     pt_ok s' pt' lbl' → root_ppn pt' = root_ppn pt → pt_extends 2 s s' lbl lbl' →
     (∀ v, user_vpn v → PageTable_translate (mem s') pt' v = PageTable_translate (mem s) pt v) →
     lbl' !! n = Some (Leaf (vpn0 vpn) (vpn1 vpn)) →
     PageTable_find_pte (mem s') pt' vpn = Some (n, vpn2 vpn) →
     Q (Some (n, vpn2 vpn), pt') s') →
  wp (PageTable_find_pte_create pt vpn) Q s.
Proof.
  intros Hok Hu Hav HQ. unfold PageTable_find_pte_create. rewrite VirtPageNum_indexes_eq.
  fold (vpn0 vpn) (vpn1 vpn) (vpn2 vpn). cbn [find_pte_create_loop Nat.eqb].
  pose proof (vpn0_user vpn Hu) as H0.
  eapply wp_ensure_child; [done|apply (root_label _ _ _ (ok_wf _ _ _ Hok))|lia| |lia|].
  { simpl. by destruct (Z.ltb_spec (vpn0 vpn) 256); [|lia]. }
  intros s1 pt1 lbl1 pte1 Hok1 Hr1 He1 Ht1 Hl1 Hs1 _.
  eapply wp_ensure_child; [done|done|apply vpn1_range|done|destruct He1; lia|].
  intros s2 pt2 lbl2 pte2 Hok2 Hr2 He2 Ht2 Hl2 Hs2 Hsub.
  apply wp_ret. eapply (HQ _ _ lbl2); [done|congruence| | |done|].
  - by eapply (pt_extends_trans 1 1).
  - intros v Hv. rewrite Ht2, Ht1 by done. done.
  - rewrite find_pte_sub. rewrite Hr2, Hr1.
    assert (lbl1 !! root_ppn pt = Some Root) as Hroot1.
    { rewrite <- Hr1. apply (root_label _ _ _ (ok_wf _ _ _ Hok1)). }
    rewrite Hsub, Hs1; simpl; [by rewrite Hs2| |congruence].
    intros [= Heq _]. rewrite Heq, Hl1 in Hroot1. done.
Qed.

Lemma wp_read_word n i (Q : Z → machine A → Prop) s :
  Q (pm_word (mem s) n i) s → wp (read_word n i) Q s.
Proof. done. Qed.

(** [map] installs the entry and leaves every other translation alone. *)
Lemma wp_map s pt lbl vpn ppn flags Q :
  pt_ok s pt lbl → user_vpn vpn → (2 <= avail (falloc s))%nat →
  0 <= ppn < 2 ^ 44 → 0 <= flags < 256 → (contains flags PTE_U = true → ppn < max_user_ppn) →
  (∀ s' pt' lbl',
     pt_ok s' pt' lbl' → root_ppn pt' = root_ppn pt → pt_extends 2 s s' lbl lbl' →
     PageTable_translate (mem s') pt' vpn = Some (PageTableEntry_new ppn (Z.lor flags PTE_V)) →
     (∀ v, user_vpn v → v ≠ vpn →
        PageTable_translate (mem s') pt' v = PageTable_translate (mem s) pt v) →
     Q pt' s') →
  wp (PageTable_map pt vpn ppn flags) Q s.
Proof.
  intros Hok Hu Hav Hp Hf Hmax HQ. unfold PageTable_map.
  destruct (contains flags PTE_U && (max_user_ppn <=? ppn)) eqn:Hrej.
  { apply andb_true_iff in Hrej as [HU Hle]. apply Z.leb_le in Hle. specialize (Hmax HU). lia. }
  apply wp_bind. eapply wp_find_pte_create; [done..|].
  intros s1 pt1 lbl1 n Hok1 Hr1 He1 Ht1 Hl1 Hf1.
  pose proof (lor_flag_range flags 0 Hf ltac:(lia)) as Hfl.
  set (e := PageTableEntry_new ppn (Z.lor flags PTE_V)) in *.
  assert (PageTableEntry_is_valid e = true) as Hve by (by apply PTE_new_valid).
  apply wp_bind, wp_unwrap with (n, vpn2 vpn); [done|]. apply wp_bind, wp_read_word.
  apply wp_bind.
  assert (∀ m0, (m0 = mem s1 ∨ m0 = pm_write (mem s1) n (vpn2 vpn) PageTableEntry_empty) →
    pm_write m0 n (vpn2 vpn) e = pm_write (mem s1) n (vpn2 vpn) e) as Hww.
  { intros m0 [->| ->]; [done|]. unfold pm_write, pm_page.
    rewrite lookup_insert_eq, insert_insert_eq. simpl. by rewrite insert_insert_eq. }
  eapply (wp_mono _ (λ _ s2, set_mem (λ m, pm_write m n (vpn2 vpn) e) s2 =
                        set_mem (λ m, pm_write m n (vpn2 vpn) e) s1)).
  { case_match; [apply wp_modify|by apply wp_ret].
    unfold set_mem. simpl. f_equal. apply Hww. by right. }
  intros [] s2 Hs2. apply wp_bind, wp_modify, wp_ret. rewrite Hs2.
  assert (pt_ok (set_mem (λ m, pm_write m n (vpn2 vpn) e) s1) pt1 lbl1) as Hok2.
  { destruct Hok1. split; simpl; [by eapply leaf_write_wf|done|done]. }
  eapply (HQ _ _ lbl1); [done|done| | |].
  - replace 2%nat with (2 + 0)%nat by lia. eapply pt_extends_trans; [done|].
    eapply pt_extends_write; [done|]. by eexists.
  - simpl. rewrite (leaf_write_translate _ _ _ (ok_wf _ _ _ Hok1) _ _ _ _ _ Hl1) by done.
    by rewrite decide_True, Hve.
  - intros v Hv Hne. simpl.
    rewrite (leaf_write_translate _ _ _ (ok_wf _ _ _ Hok1) _ _ _ _ _ Hl1) by done.
    rewrite decide_False, Ht1; [done..|]. intros Hfv. apply Hne.
    by eapply (find_pte_inj (mem s1) pt1); [apply Hok1|..].
Qed.

(** A user mapping of a frame beyond [MEMORY_END] is refused. *)
Lemma map_rejects pt vpn ppn flags s :
  contains flags PTE_U = true → max_user_ppn <= ppn → PageTable_map pt vpn ppn flags s = Ret (pt, s).
Proof.
  intros HU Hp. unfold PageTable_map. rewrite HU. simpl.
  by destruct (Z.leb_spec max_user_ppn ppn); [|lia].
Qed.

(** Rewriting the leaf entry of [vpn], if there is a valid one. *)
Lemma wp_update_leaf s pt lbl vpn (g : Z → Z) Q :
  pt_ok s pt lbl → user_vpn vpn →
  (∀ s', pt_ok s' pt lbl → pt_extends 0 s s' lbl lbl →
     PageTable_translate (mem s') pt vpn =
       (e ← PageTable_translate (mem s) pt vpn;
        if PageTableEntry_is_valid (g e) then Some (g e) else None) →
     (∀ v, user_vpn v → v ≠ vpn →
        PageTable_translate (mem s') pt v = PageTable_translate (mem s) pt v) →
     Q (bool_decide (is_Some (PageTable_translate (mem s) pt vpn))) s') →
  wp (let! s := m_get in
      match PageTable_find_pte (mem s) pt vpn with
      | None => m_ret false
      | Some (n, i) =>
          let! pte := read_word n i in
          if PageTableEntry_is_valid pte then write_word n i (g pte) ;;; m_ret true
          else m_ret false
      end) Q s.
Proof.
  intros Hok Hu HQ. apply wp_bind, wp_get. pose proof Hok as [Hwf Hinv Hown].
  pose proof (translate_find_pte _ _ _ Hwf vpn Hu) as Ht.
  assert (PageTable_translate (mem s) pt vpn = None → Q false s) as Hnone.
  { intros Hn. specialize (HQ s Hok (pt_extends_refl 0 s pt lbl Hok)). rewrite Hn in HQ.
    by apply HQ. }
  destruct (PageTable_find_pte (mem s) pt vpn) as [[n k]|] eqn:Hf; simpl in Ht; [|by apply Hnone].
  apply wp_bind, wp_read_word.
  destruct (PageTableEntry_is_valid (pm_word (mem s) n k)) eqn:Hv; [|by apply Hnone].
  apply wp_bind, wp_modify, wp_ret.
  destruct (find_pte_label _ _ _ Hwf vpn n k Hu Hf) as [Hl ->].
  rewrite Ht in HQ. rewrite bool_decide_eq_true_2 in HQ by done. apply HQ.
  - split; simpl; [by eapply leaf_write_wf|done|done].
  - eapply pt_extends_write; [done|]. by eexists.
  - simpl. rewrite (leaf_write_translate _ _ _ Hwf _ _ _ _ _ Hl) by done. by rewrite decide_True.
  - intros v Hvu Hne. simpl. rewrite (leaf_write_translate _ _ _ Hwf _ _ _ _ _ Hl) by done.
    rewrite decide_False; [done|]. intros Hfv. apply Hne. by eapply (find_pte_inj _ _ _ Hwf).
Qed.

Lemma wp_unmap s pt lbl vpn Q :
  pt_ok s pt lbl → user_vpn vpn →
  (∀ s', pt_ok s' pt lbl → pt_extends 0 s s' lbl lbl →
     PageTable_translate (mem s') pt vpn = None →
     (∀ v, user_vpn v → v ≠ vpn →
        PageTable_translate (mem s') pt v = PageTable_translate (mem s) pt v) →
     Q (bool_decide (is_Some (PageTable_translate (mem s) pt vpn))) s') →
  wp (PageTable_unmap pt vpn) Q s.
Proof.
  intros Hok Hu HQ. eapply (wp_update_leaf _ _ _ _ (λ _, PageTableEntry_empty)) in Hok as Hwp; [|done|].
  - revert Hwp. unfold PageTable_unmap, wp, m_bind, m_get, read_word.
    destruct (PageTable_find_pte (mem s) pt vpn) as [[n k]|]; [|done].
    by destruct (PageTableEntry_is_valid _).
  - intros s' Hok' Hext Ht Ho. apply HQ; [done|done| |done]. rewrite Ht.
    by destruct (PageTable_translate (mem s) pt vpn).
Qed.

Lemma wp_change_pte_flags s pt lbl vpn flags Q :
  pt_ok s pt lbl → user_vpn vpn →
  (∀ s', pt_ok s' pt lbl → pt_extends 0 s s' lbl lbl →
     PageTable_translate (mem s') pt vpn =
       (e ← PageTable_translate (mem s) pt vpn;
        let e' := PageTableEntry_new (PageTableEntry_ppn e) flags in
        if PageTableEntry_is_valid e' then Some e' else None) →
     (∀ v, user_vpn v → v ≠ vpn →
        PageTable_translate (mem s') pt v = PageTable_translate (mem s) pt v) →
     Q (bool_decide (is_Some (PageTable_translate (mem s) pt vpn))) s') →
  wp (PageTable_change_pte_flags pt vpn flags) Q s.
Proof.
  intros Hok Hu HQ.
  by apply (wp_update_leaf _ _ lbl _ (λ e, PageTableEntry_new (PageTableEntry_ppn e) flags)).
Qed.

(** *** Creation and destruction *)

Definition kernel_root (s : machine A) : Z :=
  PhysPageNum_from_usize (Z.land (kernel_token s) (Z.shiftl 1 44 - 1)).

Lemma wp_clone_kernel_root s dst Q :
  dst ≠ kernel_root s →
  (∀ i, pm_word (mem s) dst i = 0) →
  (∀ m', (∀ q, q ≠ dst → pm_page m' q = pm_page (mem s) q) →
     (∀ i, pm_word m' dst i =
        if decide (256 <= i < 512 ∧ kernel_token s ≠ 0 ∧
                   PageTableEntry_is_valid (pm_word (mem s) (kernel_root s) i) = true)
        then pm_word (mem s) (kernel_root s) i else 0) →
     Q tt (set_mem (λ _, m') s)) →
  wp (clone_kernel_root_mappings dst) Q s.
Proof.
  intros Hne Hz HQ. unfold clone_kernel_root_mappings. apply wp_bind, wp_get.
  unfold kernel_root_ppn_if_ready. destruct (Z.eqb_spec (kernel_token s) 0) as [Hk|Hk].
  { apply wp_ret. replace s with (set_mem (λ _, mem s) s) at 1 by (by destruct s).
    apply HQ; [done|]. intros i. rewrite Hz, decide_False; naive_solver. }
  fold (kernel_root s). set (kr := kernel_root s) in *.
  set (copied i := PageTableEntry_is_valid (pm_word (mem s) kr i) = true).
  eapply wp_mono; [apply (wp_for _ _ (λ visited s', ∃ m', s' = set_mem (λ _, m') s ∧
    (∀ q, q ≠ dst → pm_page m' q = pm_page (mem s) q) ∧
    (∀ i, pm_word m' dst i =
       if decide (i ∈ visited ∧ copied i) then pm_word (mem s) kr i else 0)))|].
  - exists (mem s). split_and!; [by destruct s|done|]. intros i.
    rewrite Hz, decide_False; [done|set_solver].
  - intros before i after s' Hl (m' & -> & Hpg & Hw). apply wp_bind, wp_read_word.
    apply wp_bind, wp_read_word. simpl.
    assert (i ∉ before) as Hni.
    { pose proof (NoDup_seqZ 0x100 (512 - 0x100)) as Hnd. rewrite Hl in Hnd.
      apply NoDup_app in Hnd as (_ & Hd & _). set_solver. }
    rewrite (Hw i), decide_False by naive_solver. simpl.
    rewrite (pm_word_page m' (mem s) kr i) by (apply Hpg; congruence).
    destruct (PageTableEntry_is_valid (pm_word (mem s) kr i)) eqn:Hv; simpl.
    + apply wp_modify. exists (pm_write m' dst i (pm_word (mem s) kr i)). split_and!; [done| |].
      * intros q Hq. rewrite pm_page_write_ne by done. by apply Hpg.
      * intros x. destruct (decide (x = i)) as [->|Hx].
        -- rewrite pm_word_write_eq, decide_True; [done|]. split; [set_solver|done].
        -- rewrite pm_word_write_ne by congruence. rewrite Hw.
           apply decide_ext. set_solver.
    + apply wp_ret. exists m'. split_and!; [done|done|]. intros x. rewrite Hw.
      apply decide_ext. unfold copied. destruct (decide (x = i)) as [->|]; [|set_solver].
      rewrite Hv. naive_solver.
  - intros [] s' (m' & -> & Hpg & Hw). apply HQ; [done|]. intros i. rewrite Hw.
    apply decide_ext. rewrite elem_of_seqZ. unfold copied. naive_solver lia.
Qed.

Lemma wp_PageTable_new s Q :
  inv (falloc s) → (1 <= avail (falloc s))%nat →
  (kernel_token s ≠ 0 → owned (falloc s) (kernel_root s)) →
  (∀ s' root,
     let pt := mkPageTable root [root] in
     pt_ok s' pt {[root := Root]} → ¬ owned (falloc s) root →
     (∀ v, user_vpn v → PageTable_translate (mem s') pt v = None) →
     (∀ i, 256 <= i < 512 → pm_word (mem s') root i =
        if decide (kernel_token s ≠ 0 ∧
                   PageTableEntry_is_valid (pm_word (mem s) (kernel_root s) i) = true)
        then pm_word (mem s) (kernel_root s) i else 0) →
     (∀ q, q ≠ root → pm_page (mem s') q = pm_page (mem s) q) →
     (∀ q, owned (falloc s') q ↔ q = root ∨ owned (falloc s) q) →
     arcs s' = arcs s → kernel_token s' = kernel_token s →
     avail (falloc s) = S (avail (falloc s')) →
     Q pt s') →
  wp PageTable_new Q s.
Proof.
  intros Hinv Hav Hkr HQ. unfold PageTable_new, alloc_frame. apply wp_bind, wp_bind.
  apply wp_frame_alloc; [done|lia|]. intros root a' Hinv' Hnew Hrange Hown Hav'.
  apply wp_ret, wp_bind, wp_modify. unfold set_mem. simpl.
  assert (pm_zero (pm_zero (mem s) root) root = pm_zero (mem s) root) as ->
    by (unfold pm_zero; by rewrite insert_insert_eq).
  apply wp_bind.
  destruct (decide (kernel_token s = 0)) as [Hk|Hk].
  - unfold clone_kernel_root_mappings. apply wp_bind, wp_get.
    unfold kernel_root_ppn_if_ready. simpl. rewrite (proj2 (Z.eqb_eq _ _) Hk).
    do 2 apply wp_ret.
    assert (pt_wf (pm_zero (mem s) root) (mkPageTable root [root]) {[root := Root]}) as Hwf.
    { split; [split| |]; simpl.
      - intros n. rewrite lookup_singleton_Some. naive_solver.
      - intros n pos idx c [<- <-]%lookup_singleton_Some Hidx Hc. by rewrite pm_word_zero_eq.
      - intros n. rewrite list_elem_of_singleton, lookup_singleton_is_Some. naive_solver.
      - apply NoDup_singleton. }
    apply (HQ _ root); simpl; try done.
    + split; simpl; [done|done|]. intros n [? [<- _]%lookup_singleton_Some]. apply Hown. by left.
    + intros v Hv. rewrite (translate_find_pte _ _ _ Hwf v Hv), find_pte_sub. simpl.
      unfold sub. by rewrite pm_word_zero_eq.
    + intros i Hi. rewrite pm_word_zero_eq, decide_False; naive_solver.
    + intros q Hq. by apply pm_page_zero_ne.
  - assert (root ≠ kernel_root s) as Hnr by (intros ->; by apply Hnew, Hkr).
    apply wp_clone_kernel_root; [done|intros; apply pm_word_zero_eq|]. simpl.
    intros m' Hpg Hw. apply wp_ret. unfold set_mem. simpl.
    change (kernel_root _) with (kernel_root s) in Hw.
    assert (∀ i, pm_word (pm_zero (mem s) root) (kernel_root s) i = pm_word (mem s) (kernel_root s) i) as Hkw.
    { intros i. apply pm_word_page, pm_page_zero_ne. done. }
    assert (∀ i, i < 256 → pm_word m' root i = 0) as Hlow.
    { intros i Hi. rewrite Hw, decide_False; [done|lia]. }
    assert (pt_wf m' (mkPageTable root [root]) {[root := Root]}) as Hwf.
    { split; [split| |]; simpl.
      - intros n. rewrite lookup_singleton_Some. naive_solver.
      - intros n pos idx c [<- <-]%lookup_singleton_Some Hidx Hc. simpl in Hc.
        destruct (Z.ltb_spec idx 256); [|done]. by rewrite Hlow.
      - intros n. rewrite list_elem_of_singleton, lookup_singleton_is_Some. naive_solver.
      - apply NoDup_singleton. }
    apply (HQ _ root); simpl; try done.
    + split; simpl; [done|done|]. intros n [? [<- _]%lookup_singleton_Some]. apply Hown. by left.
    + intros v Hv. rewrite (translate_find_pte _ _ _ Hwf v Hv), find_pte_sub. simpl.
      unfold sub. rewrite Hlow; [done|]. pose proof (vpn0_user v Hv). lia.
    + intros i Hi. rewrite Hw. rewrite Hkw. apply decide_ext. naive_solver.
    + intros q Hq. rewrite Hpg by done. by apply pm_page_zero_ne.
Qed.

(** Dropping a table returns exactly its nodes. *)
Lemma wp_PageTable_drop s pt lbl Q :
  pt_ok s pt lbl →
  (∀ a', inv a' → (∀ q, owned a' q ↔ owned (falloc s) q ∧ lbl !! q = None) →
     avail a' = (length (pt_frames pt) + avail (falloc s))%nat → Q tt (set_falloc a' s)) →
  wp (PageTable_drop pt) Q s.
Proof.
  intros [Hwf Hinv Hown] HQ. destruct Hwf as [_ Hfr Hnd]. unfold PageTable_drop.
  eapply wp_mono; [apply (wp_for _ _ (λ visited s', ∃ a', s' = set_falloc a' s ∧ inv a' ∧
    (∀ q, owned a' q ↔ owned (falloc s) q ∧ q ∉ visited) ∧
    avail a' = (length visited + avail (falloc s))%nat))|].
  - exists (falloc s). split_and!; [by destruct s|done| |done]. set_solver.
  - intros before p after s' Hl (a' & -> & Hinv' & Hown' & Hav').
    assert (p ∉ before) as Hp.
    { rewrite Hl in Hnd. apply NoDup_app in Hnd as (_ & Hd & _). set_solver. }
    apply wp_frame_dealloc; simpl; [done| |].
    + apply Hown'. split; [|done]. apply Hown, Hfr. rewrite Hl. set_solver.
    + intros a'' Hinv'' Hown'' Hav''. exists a''. split_and!; [done|done| |].
      * intros q. rewrite Hown'', Hown'. set_solver.
      * rewrite Hav'', Hav', length_app. simpl. lia.
  - intros [] s' (a' & -> & Hinv' & Hown' & Hav'). apply HQ; [done| |done].
    intros q. rewrite Hown', Hfr. rewrite <- eq_None_not_Some. done.
Qed.

(** *** Sequences of operations against a finite map *)

Inductive pt_op : Type :=
| OpMap (vpn ppn flags : Z)
| OpUnmap (vpn : Z)
| OpProtect (vpn flags : Z).

Definition op_ok (op : pt_op) : Prop :=
  match op with
  | OpMap vpn ppn flags => user_vpn vpn ∧ 0 <= ppn < 2 ^ 44 ∧ 0 <= flags < 256
  | OpUnmap vpn => user_vpn vpn
  | OpProtect vpn flags => user_vpn vpn ∧ 0 <= flags < 256
  end.

Definition run_op (pt : PageTable) (op : pt_op) : M (machine A) PageTable :=
  match op with
  | OpMap vpn ppn flags => PageTable_map pt vpn ppn flags
  | OpUnmap vpn => PageTable_unmap pt vpn ;;; m_ret pt
  | OpProtect vpn flags => PageTable_change_pte_flags pt vpn flags ;;; m_ret pt
  end.

Fixpoint run_ops (pt : PageTable) (ops : list pt_op) : M (machine A) PageTable :=
  match ops with
  | [] => m_ret pt
  | op :: ops => let! pt := run_op pt op in run_ops pt ops
  end.

(** The specification: a map from page numbers to entries. *)
Definition abs_op (am : gmap Z Z) (op : pt_op) : gmap Z Z :=
  match op with
  | OpMap vpn ppn flags =>
      if contains flags PTE_U && (max_user_ppn <=? ppn) then am
      else <[vpn := PageTableEntry_new ppn (Z.lor flags PTE_V)]> am
  | OpUnmap vpn => delete vpn am
  | OpProtect vpn flags =>
      match am !! vpn with
      | Some e =>
          let e' := PageTableEntry_new (PageTableEntry_ppn e) flags in
          if PageTableEntry_is_valid e' then <[vpn := e']> am else delete vpn am
      | None => am
      end
  end.

Definition pt_view (s : machine A) (pt : PageTable) (am : gmap Z Z) : Prop :=
  ∀ v, user_vpn v → PageTable_translate (mem s) pt v = am !! v.

Lemma wp_run_op s pt lbl am op Q :
  pt_ok s pt lbl → pt_view s pt am → op_ok op → (2 <= avail (falloc s))%nat →
  (∀ s' pt' lbl', pt_ok s' pt' lbl' → root_ppn pt' = root_ppn pt → pt_extends 2 s s' lbl lbl' →
     pt_view s' pt' (abs_op am op) → Q pt' s') →
  wp (run_op pt op) Q s.
Proof.
  intros Hok Hview Hop Hav HQ.
  assert (∀ s' l', pt_extends 0 s s' lbl l' → pt_extends 2 s s' lbl l') as Hweak.
  { intros s' l' []. split; try done. lia. }
  destruct op as [vpn ppn flags|vpn|vpn flags]; simpl in Hop |- *.
  - destruct Hop as (Hu & Hp & Hf).
    destruct (contains flags PTE_U && (max_user_ppn <=? ppn)) eqn:Hrej.
    + apply andb_true_iff in Hrej as [HU Hle%Z.leb_le].
      unfold wp. rewrite map_rejects by done. eapply (HQ s pt lbl); [done|done|by eapply pt_extends_refl|].
      unfold abs_op. rewrite HU. by destruct (Z.leb_spec max_user_ppn ppn); [|lia].
    + eapply wp_map; [done..| |].
      { intros HU. rewrite HU in Hrej. by apply Z.leb_gt in Hrej. }
      intros s' pt' lbl' Hok' Hr' He' Ht Ho. eapply HQ; [done..|].
      intros v Hv. unfold abs_op. rewrite Hrej. destruct (decide (v = vpn)) as [->|Hne].
      * by rewrite lookup_insert_eq.
      * rewrite lookup_insert_ne by done. rewrite Ho by done. by apply Hview.
  - apply wp_bind. eapply wp_unmap; [done..|]. intros s' Hok' He' Ht Ho.
    apply wp_ret. eapply HQ; [done|done|by apply Hweak|]. intros v Hv. simpl.
    destruct (decide (v = vpn)) as [->|Hne]; [by rewrite lookup_delete_eq|].
    rewrite lookup_delete_ne by done. rewrite Ho by done. by apply Hview.
  - destruct Hop as [Hu Hf]. apply wp_bind. eapply wp_change_pte_flags; [done..|].
    intros s' Hok' He' Ht Ho. apply wp_ret. eapply HQ; [done|done|by apply Hweak|].
    intros v Hv. cbn [abs_op]. rewrite Hview in Ht by done.
    destruct (decide (v = vpn)) as [->|Hne].
    + rewrite Ht. destruct (am !! vpn) eqn:E; cbn [mbind option_bind]; [|done].
      case_match; [by rewrite lookup_insert_eq|by rewrite lookup_delete_eq].
    + rewrite Ho by done. rewrite Hview by done. destruct (am !! vpn); [|done].
      case_match; [by rewrite lookup_insert_ne|by rewrite lookup_delete_ne].
Qed.

Lemma wp_run_ops ops : ∀ s pt lbl am Q,
  pt_ok s pt lbl → pt_view s pt am → Forall op_ok ops →
  (2 * length ops <= avail (falloc s))%nat →
  (∀ s' pt' lbl', pt_ok s' pt' lbl' → root_ppn pt' = root_ppn pt →
     pt_extends (2 * length ops) s s' lbl lbl' → pt_view s' pt' (foldl abs_op am ops) → Q pt' s') →
  wp (run_ops pt ops) Q s.
Proof.
  induction ops as [|op ops IH]; intros s pt lbl am Q Hok Hview Hops Hav HQ; simpl.
  - apply wp_ret. eapply HQ; [done|done|by eapply pt_extends_refl|done].
  - apply Forall_cons in Hops as [Hop Hops]. simpl in Hav. apply wp_bind.
    eapply wp_run_op; [done|done|done|lia|].
    intros s1 pt1 lbl1 Hok1 Hr1 He1 Hv1.
    eapply IH; [done|done|done|destruct He1; lia|].
    intros s2 pt2 lbl2 Hok2 Hr2 He2 Hv2. eapply HQ; [done|congruence| |done].
    replace (2 * length (op :: ops))%nat with (2 + 2 * length ops)%nat by (simpl; lia).
    by eapply pt_extends_trans.
Qed.

(** [C1] An Sv39 table behaves as a finite map: creating a table, running any
    sequence of [map], [unmap] and [change_pte_flags] on user pages and looking
    pages up gives the same answers as the sequence on a map from page numbers
    to entries; given a frame for the root and two frames per operation no step
    panics.  Meanwhile nothing outside the table changes: every frame that was
    in use before keeps its contents, and the kernel half of the root is
    exactly the kernel's valid entries.  Dropping the table then returns all of
    its nodes: the allocator owns the same frames as before it was created. *)
Theorem page_table_refines_map s ops :
  inv (falloc s) → (kernel_token s ≠ 0 → owned (falloc s) (kernel_root s)) →
  Forall op_ok ops → (1 + 2 * length ops <= avail (falloc s))%nat →
  wp (let! pt := PageTable_new in run_ops pt ops)
     (λ pt s',
        (∀ v, user_vpn v → PageTable_translate (mem s') pt v = foldl abs_op ∅ ops !! v) ∧
        (∀ q, owned (falloc s) q → pm_page (mem s') q = pm_page (mem s) q) ∧
        (∀ i, 256 <= i < 512 → pm_word (mem s') (root_ppn pt) i =
           if decide (kernel_token s ≠ 0 ∧
                      PageTableEntry_is_valid (pm_word (mem s) (kernel_root s) i) = true)
           then pm_word (mem s) (kernel_root s) i else 0) ∧
        wp (PageTable_drop pt) (λ _ s'', ∀ q, owned (falloc s'') q ↔ owned (falloc s) q) s') s.
Proof.
  intros Hinv Hk Hops Hav. apply wp_bind. apply wp_PageTable_new; [done|lia|done|].
  intros s1 root pt1 Hok1 Hnew Ht1 Hk1 Hm1 Hown1 _ _ Hav1.
  eapply (wp_run_ops ops s1 _ _ ∅); [done|intros v Hv; by rewrite Ht1|done|lia|].
  intros s2 pt2 lbl2 Hok2 Hr2 He2 Hv2. simpl in Hr2.
  assert (∀ n, is_Some (lbl2 !! n) → ¬ owned (falloc s) n) as Hnodes.
  { intros n Hn Hown. destruct (decide (n = root)) as [->|Hne]; [done|].
    eapply (ext_fresh _ _ _ _ _ He2 n); [done| |].
    - by rewrite lookup_singleton_ne.
    - apply Hown1. by right. }
  split_and!.
  - done.
  - intros q Hq. rewrite (ext_mem _ _ _ _ _ He2).
    + apply Hm1. intros ->. done.
    + apply eq_None_not_Some. intros Hs. by apply (Hnodes q).
  - intros i Hi. rewrite Hr2. rewrite (ext_kernel _ _ _ _ _ He2); [by apply Hk1| |lia].
    by rewrite lookup_singleton_eq.
  - eapply wp_PageTable_drop; [done|]. intros a' Hinv' Hown' _ q. simpl.
    rewrite Hown', (ext_owned _ _ _ _ _ He2), Hown1. split.
    + intros [[[->|?]|[? Hx]] Hnone]; [|done|congruence].
      assert (lbl2 !! root = Some Root).
      { eapply lookup_weaken; [|apply (ext_lbl _ _ _ _ _ He2)]. by rewrite lookup_singleton_eq. }
      congruence.
    + intros Hq. split; [by left; right|]. apply eq_None_not_Some. intros Hs. by apply (Hnodes q).
Qed.
End ops_spec.

(** A machine after boot, for the examples: frames 100 .. 199 are managed and
    frame 100 is the root of the kernel's table, with one shared entry. *)
Definition boot_machine : kmachine :=
  mkMachine (mkSFA 101 200 []) {[100 := {[300 := PageTableEntry_new 7 (Z.lor PTE_V PTE_R)]}]} ∅
    (Z.lor (Z.shiftl 8 60) 100).

Lemma boot_machine_inv : sfa_inv 100 (falloc boot_machine).
Proof. split; simpl; [lia|lia|constructor|set_solver]. Qed.

Lemma boot_machine_kernel_root : sfa_owned 100 (falloc boot_machine) (kernel_root boot_machine).
Proof. split; [by vm_compute|set_solver]. Qed.

Lemma page_table_refines_map_witness :
  let ops := [OpMap 5 150 7; OpMap 700 151 3; OpProtect 5 3; OpUnmap 700] in
  wp (let! pt := PageTable_new in run_ops pt ops)
     (λ pt s', PageTable_translate (mem s') pt 5 = Some (PageTableEntry_new 150 3) ∧
               PageTable_translate (mem s') pt 700 = None ∧
               pm_word (mem s') (root_ppn pt) 300 = 7 * 1024 + 3) boot_machine.
Proof.
  intros ops. eapply wp_mono; [apply (page_table_refines_map boot_machine ops)|].
  - apply boot_machine_inv.
  - intros _. apply boot_machine_kernel_root.
  - repeat constructor; unfold user_vpn; lia.
  - vm_compute. lia.
  - intros pt s' (Ht & _ & Hk & _). rewrite !Ht, Hk by (unfold user_vpn; lia).
    split_and!; by vm_compute.
Defined.
