(* ===== verification/UserMem.v ===== *)
(** * Access to user memory (arch/src/riscv64/mm/page_table.rs,
      os/src/syscall/user_mem.rs, os/src/task/mod.rs)

    A system call receives user pointers; the kernel reaches the memory behind
    them by walking the caller's page table and collecting slices of physical
    pages.  A [&'static mut [u8]] taken from [ppn.get_bytes_array()] is the
    frame and the two offsets it was cut at. *)

From stdpp Require Import base gmap list numbers list_numbers option fin_maps sets.
From S2P Require Import Prelude Errno Address FrameAllocator Machine PageTable.

(** ** Slices of physical pages *)

Record slice : Type := mkSlice { sl_ppn : Z; sl_from : Z; sl_to : Z }.

Definition slice_len (sl : slice) : Z := sl_to sl - sl_from sl.

(** [&mut ppn.get_bytes_array()[from..to]]: out of range panics. *)
Definition bytes_slice (ppn from to : Z) : outcome slice :=
  if (from <=? to) && (to <=? PAGE_SIZE) then Ret (mkSlice ppn from to) else Panic.

(** The bytes a slice covers, as (frame, offset). *)
Definition slice_locs (sl : slice) : list (Z * Z) :=
  (λ k, (sl_ppn sl, k)) <$> seqZ (sl_from sl) (slice_len sl).

(** ** Translation of a buffer *)

Fixpoint translated_byte_buffer_loop (fuel : nat) (m : pmem) (page_table : PageTable)
    (start end_ : Z) (v : list slice) : looped (outcome (list slice)) :=
  if start <? end_ then
    match fuel with
    | O => OutOfFuel
    | S fuel =>
        let start_va := VirtAddr_from_usize start in
        let vpn := VirtAddr_floor start_va in
        match PageTable_translate m page_table vpn with
        | None => Finished Panic
        | Some pte =>
            let ppn := PageTableEntry_ppn pte in
            let vpn := VirtPageNum_step vpn in
            let end_va := Z.min (VirtAddr_from_VirtPageNum vpn) (VirtAddr_from_usize end_) in
            match (if VirtAddr_page_offset end_va =? 0
                   then bytes_slice ppn (VirtAddr_page_offset start_va) PAGE_SIZE
                   else bytes_slice ppn (VirtAddr_page_offset start_va)
                          (VirtAddr_page_offset end_va)) with
            | Panic => Finished Panic
            | Ret sl =>
                translated_byte_buffer_loop fuel m page_table (usize_from_VirtAddr end_va) end_
                  (v ++ [sl])
            end
        end
    end
  else Finished (Ret v).
Definition translated_byte_buffer (fuel : nat) (m : pmem) (token ptr len : Z)
    : looped (outcome (list slice)) :=
  translated_byte_buffer_loop fuel m (PageTable_from_token token) ptr (ptr +w len) [].

(** The checks of one page and the cut of its chunk: [None] is the early
    return, else the slice and where the next chunk starts.  The same code is
    in [translated_byte_buffer_checked] and [walk_user_write_slices]. *)
Definition checked_chunk (m : pmem) (page_table : PageTable) (writable : bool) (start end_ : Z)
    : outcome (option (slice * Z)) :=
  let start_va := VirtAddr_from_usize start in
  let vpn := VirtAddr_floor start_va in
  match PageTable_translate m page_table vpn with
  | None => Ret None
  | Some pte =>
      let flags := PageTableEntry_flags pte in
      if negb (PageTableEntry_is_valid pte) || negb (contains flags PTE_U) then Ret None
      else if (if writable then negb (PageTableEntry_writable pte)
               else negb (PageTableEntry_readable pte)) then Ret None
      else
        let ppn := PageTableEntry_ppn pte in
        if contains flags PTE_U && (max_user_ppn <=? ppn) then Ret None
        else
          match checked_add start (PAGE_SIZE - VirtAddr_page_offset start_va) with
          | None => Ret None
          | Some next_page =>
              let chunk_end := Z.min next_page end_ in
              let start_offset := VirtAddr_page_offset start_va in
              let end_offset :=
                if chunk_end =? next_page then PAGE_SIZE
                else VirtAddr_page_offset (VirtAddr_from_usize chunk_end) in
              if (end_offset <=? start_offset) || (PAGE_SIZE <? end_offset) then Ret None
              else
                match bytes_slice ppn start_offset end_offset with
                | Panic => Panic
                | Ret sl => Ret (Some (sl, chunk_end))
                end
          end
  end.

(** Iterations a walk over [len] bytes needs: the pages it touches. *)
Definition page_fuel (len : Z) : nat := Z.to_nat (len / PAGE_SIZE + 2).

Fixpoint translated_byte_buffer_checked_loop (fuel : nat) (m : pmem) (page_table : PageTable)
    (writable : bool) (start end_ : Z) (v : list slice) : looped (outcome (option (list slice))) :=
  if start <? end_ then
    match fuel with
    | O => OutOfFuel
    | S fuel =>
        match checked_chunk m page_table writable start end_ with
        | Panic => Finished Panic
        | Ret None => Finished (Ret None)
        | Ret (Some (sl, chunk_end)) =>
            translated_byte_buffer_checked_loop fuel m page_table writable chunk_end end_ (v ++ [sl])
        end
    end
  else Finished (Ret (Some v)).
Definition translated_byte_buffer_checked (m : pmem) (token ptr len : Z) (writable : bool)
    : looped (outcome (option (list slice))) :=
  if len =? 0 then Finished (Ret (Some []))
  else
    match checked_add ptr len with
    | None => Finished (Ret None)
    | Some end_ =>
        translated_byte_buffer_checked_loop (page_fuel len) m (PageTable_from_token token)
          writable ptr end_ []
    end.

(** ** Strings and references *)

(** [*pa.get_mut::<u8>()] *)
Definition phys_byte (m : pmem) (pa : Z) : Z := pm_byte m (pa / PAGE_SIZE) (pa mod PAGE_SIZE).

Fixpoint translated_str_checked_loop (fuel : nat) (m : pmem) (page_table : PageTable)
    (string : list Z) (va : Z) : looped (option (list Z)) :=
  match fuel with
  | O => OutOfFuel
  | S fuel =>
      match PageTable_translate m page_table (VirtAddr_floor (VirtAddr_from_usize va)) with
      | None => Finished None
      | Some pte =>
          let flags := PageTableEntry_flags pte in
          if negb (PageTableEntry_is_valid pte) || negb (contains flags PTE_U)
             || negb (PageTableEntry_readable pte) then Finished None
          else
            match PageTable_translate_va m page_table (VirtAddr_from_usize va) with
            | None => Finished None
            | Some pa =>
                let ch := phys_byte m pa in
                if ch =? 0 then Finished (Some string)
                else
                  match checked_add va 1 with
                  | None => Finished None
                  | Some va => translated_str_checked_loop fuel m page_table (string ++ [ch]) va
                  end
            end
      end
  end.
Definition translated_str_checked (fuel : nat) (m : pmem) (token ptr : Z) : looped (option (list Z)) :=
  translated_str_checked_loop fuel m (PageTable_from_token token) [] ptr.
Definition translated_str (fuel : nat) (m : pmem) (token ptr : Z) : looped (outcome (list Z)) :=
  match translated_str_checked fuel m token ptr with
  | OutOfFuel => OutOfFuel
  | Finished None => Finished Panic
  | Finished (Some s) => Finished (Ret s)
  end.

(** [translated_ref] and [translated_refmut]: the physical address of the
    object. *)
Definition translated_refmut (m : pmem) (token ptr : Z) : outcome Z :=
  match PageTable_translate_va m (PageTable_from_token token) (VirtAddr_from_usize ptr) with
  | None => Panic
  | Some pa => Ret pa
  end.

(** ** [UserBuffer] *)

Record UserBuffer : Type := mkUserBuffer { buffers : list slice }.

Definition UserBuffer_len (b : UserBuffer) : Z :=
  foldl (λ total s, total +w slice_len s) 0 (buffers b).

Record UserBufferIterator : Type := mkUBI {
  ubi_buffers : list slice;
  current_buffer : nat;
  current_idx : Z;
}.

Definition UserBuffer_into_iter (b : UserBuffer) : UserBufferIterator := mkUBI (buffers b) 0 0.

(** [Iterator::next]: indexing a slice out of range panics. *)
Definition UserBufferIterator_next (it : UserBufferIterator)
    : outcome (option (Z * Z) * UserBufferIterator) :=
  match ubi_buffers it !! current_buffer it with
  | None => Ret (None, it)
  | Some s =>
      if current_idx it <? slice_len s then
        let r := (sl_ppn s, sl_from s + current_idx it) in
        let it' :=
          if current_idx it +w 1 =? slice_len s
          then mkUBI (ubi_buffers it) (S (current_buffer it)) 0
          else mkUBI (ubi_buffers it) (current_buffer it) (current_idx it +w 1) in
        Ret (Some r, it')
      else Panic
  end.

(** The locations a [for] loop over the buffer visits. *)
Fixpoint UserBufferIterator_collect (fuel : nat) (it : UserBufferIterator)
    : looped (outcome (list (Z * Z))) :=
  match fuel with
  | O => OutOfFuel
  | S fuel =>
      match UserBufferIterator_next it with
      | Panic => Finished Panic
      | Ret (None, _) => Finished (Ret [])
      | Ret (Some r, it') =>
          match UserBufferIterator_collect fuel it' with
          | Finished (Ret l) => Finished (Ret (r :: l))
          | e => e
          end
      end
  end.

(** ** Copying *)

(** The loop of [copy_to_user]: [slice[..len].copy_from_slice(&data[offset..offset + len])]. *)
Fixpoint copy_to_slices (m : pmem) (slices : list slice) (data : list Z) (offset : Z)
    : outcome (pmem * Z) :=
  match slices with
  | [] => Ret (m, offset)
  | sl :: slices =>
      let len := Z.min (slice_len sl) (Z.of_nat (length data) -w offset) in
      if Z.of_nat (length data) <? offset +w len then Panic
      else
        let m := pm_write_bytes m (sl_ppn sl) (sl_from sl)
                   (take (Z.to_nat len) (drop (Z.to_nat offset) data)) in
        let offset := offset +w len in
        if Z.of_nat (length data) <=? offset then Ret (m, offset)
        else copy_to_slices m slices data offset
  end.

(** The bytes of a slice. *)
Definition read_slice (m : pmem) (sl : slice) : list Z :=
  (λ '(p, k), pm_byte m p k) <$> slice_locs sl.

(** The loop of [copy_from_user]:
    [dst[offset..offset + len].copy_from_slice(&slice[..len])]. *)
Fixpoint copy_from_slices (m : pmem) (slices : list slice) (dst : list Z) (offset : Z)
    : outcome (list Z * Z) :=
  match slices with
  | [] => Ret (dst, offset)
  | sl :: slices =>
      let len := Z.min (slice_len sl) (Z.of_nat (length dst) -w offset) in
      if Z.of_nat (length dst) <? offset +w len then Panic
      else
        let dst := take (Z.to_nat offset) dst ++ take (Z.to_nat len) (read_slice m sl)
                     ++ drop (Z.to_nat (offset +w len)) dst in
        let offset := offset +w len in
        if Z.of_nat (length dst) <=? offset then Ret (dst, offset)
        else copy_from_slices m slices dst offset
  end.

(** [copy_to_user] of os/src/task/mod.rs *)
Definition task_copy_to_user (token dst : Z) (data : list Z) (m : pmem)
    : looped (outcome (result unit unit * pmem)) :=
  if dst =? 0 then Finished (Ret (Err tt, m))
  else if bool_decide (data = []) then Finished (Ret (Ok tt, m))
  else
    match translated_byte_buffer_checked m token dst (Z.of_nat (length data)) true with
    | OutOfFuel => OutOfFuel
    | Finished Panic => Finished Panic
    | Finished (Ret None) => Finished (Ret (Err tt, m))
    | Finished (Ret (Some slices)) =>
        match copy_to_slices m slices data 0 with
        | Panic => Finished Panic
        | Ret (m, offset) =>
            Finished (Ret (if offset =? Z.of_nat (length data) then Ok tt else Err tt, m))
        end
    end.

(** ** Walking without collecting (os/src/syscall/user_mem.rs) *)

(** One page of [user_write_range_mapped]: the next start, or [None] for the
    early [return false]. *)
Definition range_mapped_chunk (m : pmem) (page_table : PageTable) (writable : bool) (start end_ : Z)
    : option Z :=
  let start_va := VirtAddr_from_usize start in
  let vpn := VirtAddr_floor start_va in
  match PageTable_translate m page_table vpn with
  | None => None
  | Some pte =>
      let flags := PageTableEntry_flags pte in
      if negb (PageTableEntry_is_valid pte) || negb (contains flags PTE_U) then None
      else if (if writable then negb (PageTableEntry_writable pte)
               else negb (PageTableEntry_readable pte)) then None
      else
        let ppn := PageTableEntry_ppn pte in
        if contains flags PTE_U && (max_user_ppn <=? ppn) then None
        else
          match checked_add start (PAGE_SIZE - VirtAddr_page_offset start_va) with
          | None => None
          | Some next_page => Some (Z.min next_page end_)
          end
  end.
Fixpoint user_write_range_mapped_loop (fuel : nat) (m : pmem) (page_table : PageTable)
    (writable : bool) (start end_ : Z) : looped bool :=
  if start <? end_ then
    match fuel with
    | O => OutOfFuel
    | S fuel =>
        match range_mapped_chunk m page_table writable start end_ with
        | None => Finished false
        | Some start => user_write_range_mapped_loop fuel m page_table writable start end_
        end
    end
  else Finished true.
Definition user_write_range_mapped (m : pmem) (token ptr len : Z) (writable : bool) : looped bool :=
  if len =? 0 then Finished true
  else
    match checked_add ptr len with
    | None => Finished false
    | Some end_ =>
        user_write_range_mapped_loop (page_fuel len) m (PageTable_from_token token) writable ptr end_
    end.

Fixpoint is_user_read_mapped_loop (fuel : nat) (m : pmem) (page_table : PageTable) (va end_ : Z)
    : looped bool :=
  if va <? end_ then
    match fuel with
    | O => OutOfFuel
    | S fuel =>
        match PageTable_translate m page_table (VirtAddr_floor (VirtAddr_from_usize va)) with
        | None => Finished false
        | Some pte =>
            let flags := PageTableEntry_flags pte in
            if negb (PageTableEntry_is_valid pte) || negb (contains flags PTE_U)
               || negb (contains flags PTE_R) then Finished false
            else
              let next_page := (va / PAGE_SIZE +w 1) *w PAGE_SIZE in
              is_user_read_mapped_loop fuel m page_table (Z.max next_page (va +w 1)) end_
        end
    end
  else Finished true.
Definition is_user_read_mapped (m : pmem) (token ptr len : Z) : looped bool :=
  if len =? 0 then Finished true
  else
    match checked_add ptr len with
    | None => Finished false
    | Some end_ => is_user_read_mapped_loop (page_fuel len) m (PageTable_from_token token) ptr end_
    end.

(** The callback [f] of [walk_user_write_slices] writes the slice it is given
    and its own captured state, here [T]. *)
Section callback.
Context {T : Type} (f : slice → M (pmem * T) (result Z Z)).

Fixpoint walk_user_write_slices_loop (fuel : nat) (page_table : PageTable) (writable : bool)
    (start end_ total : Z) : M (pmem * T) (looped (result Z Z)) :=
  if start <? end_ then
    match fuel with
    | O => m_ret OutOfFuel
    | S fuel =>
        let! (m, _) := m_get in
        match checked_chunk m page_table writable start end_ with
        | Panic => m_panic
        | Ret None => m_ret (Finished (Err (errno EFAULT)))
        | Ret (Some (sl, chunk_end)) =>
            let! r := f sl in
            match r with
            | Err e => m_ret (Finished (Err e))
            | Ok produced =>
                if slice_len sl <? produced then m_ret (Finished (Err (errno EFAULT)))
                else
                  let total := total +w produced in
                  if produced <? slice_len sl then m_ret (Finished (Ok total))
                  else walk_user_write_slices_loop fuel page_table writable chunk_end end_ total
            end
        end
    end
  else m_ret (Finished (Ok total)).
Definition walk_user_write_slices (token ptr len : Z) (writable : bool)
    : M (pmem * T) (looped (result Z Z)) :=
  if len =? 0 then m_ret (Finished (Ok 0))
  else
    match checked_add ptr len with
    | None => m_ret (Finished (Err (errno EFAULT)))
    | Some end_ =>
        walk_user_write_slices_loop (page_fuel len) (PageTable_from_token token) writable ptr end_ 0
    end.

Fixpoint run_write_callback_loop (slices : list slice) (total : Z) : M (pmem * T) (result Z Z) :=
  match slices with
  | [] => m_ret (Ok total)
  | sl :: slices =>
      let! r := f sl in
      match r with
      | Err e => m_ret (Err e)
      | Ok produced =>
          if slice_len sl <? produced then m_ret (Err (errno EFAULT))
          else
            let total := total +w produced in
            if produced <? slice_len sl then m_ret (Ok total)
            else run_write_callback_loop slices total
      end
  end.
Definition run_write_callback (slices : list slice) : M (pmem * T) (result Z Z) :=
  run_write_callback_loop slices 0.
End callback.

(** The closure of [copy_to_user_inline]: it captures [data] and [offset]. *)
Definition inline_copy (data : list Z) (sl : slice) : M (pmem * Z) (result Z Z) :=
  let! (m, offset) := m_get in
  let len := Z.min (slice_len sl) (Z.of_nat (length data) -w offset) in
  m_assert (offset +w len <=? Z.of_nat (length data)) ;;;
  m_put (pm_write_bytes m (sl_ppn sl) (sl_from sl)
           (take (Z.to_nat len) (drop (Z.to_nat offset) data)), offset +w len) ;;;
  m_ret (Ok len).

(** ** Which bytes a user pointer reaches *)

(** The frame behind a page, when the access is allowed: the entry is valid,
    belongs to the user, permits the access, and its frame is real memory. *)
Definition page_access (m : pmem) (pt : PageTable) (writable : bool) (vpn : Z) : option Z :=
  pte ← PageTable_translate m pt vpn;
  if PageTableEntry_is_valid pte && contains (PageTableEntry_flags pte) PTE_U
     && (if writable then PageTableEntry_writable pte else PageTableEntry_readable pte)
     && (PageTableEntry_ppn pte <? max_user_ppn)
  then Some (PageTableEntry_ppn pte) else None.

Definition page_of (va : Z) : Z := VirtAddr_floor (VirtAddr_from_usize va).

Definition byte_loc (m : pmem) (pt : PageTable) (writable : bool) (va : Z) : option (Z * Z) :=
  (λ ppn, (ppn, va mod PAGE_SIZE)) <$> page_access m pt writable (page_of va).

Definition byte_locs (m : pmem) (pt : PageTable) (writable : bool) (ptr len : Z)
    : option (list (Z * Z)) :=
  mapM (byte_loc m pt writable) (seqZ ptr len).

Definition next_page (va : Z) : Z := (va / PAGE_SIZE + 1) * PAGE_SIZE.

Lemma page_split va : va = PAGE_SIZE * (va / PAGE_SIZE) + va mod PAGE_SIZE.
Proof. by apply Z.div_mod. Qed.

Lemma page_mod_range va : 0 <= va mod PAGE_SIZE < PAGE_SIZE.
Proof. by apply Z.mod_pos_bound. Qed.

Lemma page_offset_usize va : VirtAddr_page_offset (VirtAddr_from_usize va) = va mod PAGE_SIZE.
Proof.
  rewrite page_offset_mod, VirtAddr_from_usize_mod. apply Z.mod_mod_divide. by exists (2 ^ 27).
Qed.

Lemma next_page_gt va : va < next_page va <= va + PAGE_SIZE.
Proof.
  unfold next_page. pose proof (page_split va). pose proof (page_mod_range va).
  unfold PAGE_SIZE in *. lia.
Qed.

Lemma same_page_div va k : va <= k < next_page va → k / PAGE_SIZE = va / PAGE_SIZE.
Proof.
  intros Hk. symmetry. apply (Z.div_unique _ _ _ (k - va + va mod PAGE_SIZE)).
  - left. unfold next_page in Hk. pose proof (page_split va). pose proof (page_mod_range va).
    unfold PAGE_SIZE in *. lia.
  - pose proof (page_split va). lia.
Qed.

Lemma same_page_mod va k : va <= k < next_page va → k mod PAGE_SIZE = va mod PAGE_SIZE + (k - va).
Proof.
  intros Hk. pose proof (same_page_div va k Hk) as Hd.
  pose proof (page_split va). pose proof (page_split k). rewrite Hd in *. lia.
Qed.

Lemma page_of_div va : page_of va = (va / PAGE_SIZE) mod 2 ^ 27.
Proof.
  unfold page_of, VirtAddr_floor. rewrite VirtAddr_from_usize_mod.
  change (2 ^ 39) with (PAGE_SIZE * 2 ^ 27). rewrite Z.rem_mul_r by done.
  rewrite Z.add_comm, Z.mul_comm, Z.div_add_l by done.
  rewrite (Z.div_small (va mod PAGE_SIZE)) by apply page_mod_range. lia.
Qed.

Lemma same_page_of va k : va <= k < next_page va → page_of k = page_of va.
Proof. intros Hk. by rewrite !page_of_div, (same_page_div va k). Qed.

(** One page's worth of bytes. *)
Lemma byte_locs_chunk m pt w start n :
  0 < n → start + n <= next_page start →
  byte_locs m pt w start n =
    (λ ppn, slice_locs (mkSlice ppn (start mod PAGE_SIZE) (start mod PAGE_SIZE + n)))
      <$> page_access m pt w (page_of start).
Proof.
  intros Hn Hpage. unfold byte_locs.
  destruct (page_access m pt w (page_of start)) as [ppn|] eqn:Ha; simpl.
  - rewrite (mapM_all _ (λ k, (ppn, start mod PAGE_SIZE + (k - start)))).
    + f_equal. unfold slice_locs, slice_len. simpl. rewrite Z.add_simpl_l.
      assert (seqZ (start mod PAGE_SIZE) n = Z.add (start mod PAGE_SIZE - start) <$> seqZ start n) as ->.
      { rewrite fmap_add_seqZ. f_equal. lia. }
      rewrite <- list_fmap_compose. apply list_fmap_ext. intros i k _. simpl. f_equal. lia.
    + intros k Hk%elem_of_seqZ. unfold byte_loc.
      rewrite (same_page_of start k), Ha by lia. simpl.
      rewrite (same_page_mod start k) by lia. done.
  - apply mapM_None. rewrite seqZ_cons by done. apply Exists_cons_hd.
    unfold byte_loc. by rewrite Ha.
Qed.

Lemma byte_locs_app m pt w start n1 n2 : 0 <= n1 → 0 <= n2 →
  byte_locs m pt w start (n1 + n2) =
    (x ← byte_locs m pt w start n1; y ← byte_locs m pt w (start + n1) n2; Some (x ++ y)).
Proof. intros. unfold byte_locs. by rewrite seqZ_app, mapM_app_opt. Qed.

(** What the checks of one chunk compute. *)
Lemma checked_chunk_eq m pt w start end_ :
  0 <= start < end_ →
  checked_chunk m pt w start end_ = Ret (
    ppn ← page_access m pt w (page_of start);
    let chunk_end := Z.min (next_page start) end_ in
    if next_page start <? USIZE
    then Some (mkSlice ppn (start mod PAGE_SIZE) (start mod PAGE_SIZE + (chunk_end - start)), chunk_end)
    else None).
Proof.
  intros Hs. unfold checked_chunk, page_access. fold (page_of start). rewrite page_offset_usize.
  destruct (PageTable_translate m pt (page_of start)) as [pte|]; simpl; [|done].
  destruct (PageTableEntry_is_valid pte); simpl; [|done].
  destruct (contains _ PTE_U); simpl; [|done].
  replace (if w then negb (PageTableEntry_writable pte) else negb (PageTableEntry_readable pte))
    with (negb (if w then PageTableEntry_writable pte else PageTableEntry_readable pte)) by by destruct w.
  destruct (if w then _ else _); simpl; [|done].
  rewrite Z.leb_antisym. destruct (PageTableEntry_ppn pte <? max_user_ppn); simpl; [|done].
  unfold checked_add.
  assert (start + (PAGE_SIZE - start mod PAGE_SIZE) = next_page start) as ->.
  { unfold next_page. pose proof (page_split start). unfold PAGE_SIZE in *. lia. }
  destruct (next_page start <? USIZE); [|done].
  pose proof (next_page_gt start). pose proof (page_mod_range start).
  destruct (Z.eqb_spec (Z.min (next_page start) end_) (next_page start)) as [Heq|Hne].
  - rewrite Heq. assert (next_page start - start = PAGE_SIZE - start mod PAGE_SIZE) as ->.
    { unfold next_page. pose proof (page_split start). unfold PAGE_SIZE in *. lia. }
    destruct (Z.leb_spec PAGE_SIZE (start mod PAGE_SIZE)); [lia|].
    rewrite Z.ltb_irrefl. simpl. unfold bytes_slice.
    destruct (Z.leb_spec (start mod PAGE_SIZE) PAGE_SIZE); [|lia]. rewrite Z.leb_refl. simpl.
    by rewrite Zplus_minus.
  - rewrite page_offset_usize. rewrite (same_page_mod start (Z.min (next_page start) end_)) by lia.
    pose proof (page_mod_range (Z.min (next_page start) end_)) as Hr.
    rewrite (same_page_mod start (Z.min (next_page start) end_)) in Hr by lia.
    unfold bytes_slice. by zcase.
Qed.

(** Pages left to visit. *)
Definition pages_left (start end_ : Z) : Z := (end_ - 1) / PAGE_SIZE - start / PAGE_SIZE + 1.

Lemma pages_left_next start end_ :
  start < end_ → next_page start <= end_ →
  pages_left (next_page start) end_ = pages_left start end_ - 1.
Proof.
  intros H1 H2. unfold pages_left.
  assert (next_page start / PAGE_SIZE = start / PAGE_SIZE + 1) as ->; [|lia].
  unfold next_page. by apply Z.div_mul.
Qed.

Lemma page_fuel_enough start len :
  0 < len → pages_left start (start + len) <= Z.of_nat (page_fuel len).
Proof.
  intros Hl. unfold pages_left, page_fuel. pose proof (Z.div_pos len PAGE_SIZE ltac:(lia) eq_refl).
  rewrite Z2Nat.id by lia. unfold PAGE_SIZE in *. Z.div_mod_to_equations. lia.
Qed.

Lemma pages_left_pos start end_ : start < end_ → 1 <= pages_left start end_.
Proof.
  intros. unfold pages_left. pose proof (Z.div_le_mono start (end_ - 1) PAGE_SIZE eq_refl). lia.
Qed.

Lemma pages_left_step start end_ ce :
  start < ce <= end_ → ce = next_page start ∨ ce = end_ → ce < end_ →
  pages_left ce end_ = pages_left start end_ - 1.
Proof. intros Hce [->| ->] Hlt; [|lia]. apply pages_left_next; lia. Qed.

(** The result of the walk agrees with [byte_locs]; only for a buffer that
    ends in the last page of the 64-bit space may it fail although the pages
    are accessible. *)
Definition locs_agree (m : pmem) (pt : PageTable) (w : bool) (ptr len : Z) (v : list slice)
    (r : option (list slice)) : Prop :=
  match r with
  | Some sls => byte_locs m pt w ptr len ≫= (λ l, Some ((v ≫= slice_locs) ++ l)) = Some (sls ≫= slice_locs)
  | None => byte_locs m pt w ptr len = None ∨ USIZE - PAGE_SIZE < ptr + len
  end.

Lemma locs_agree_nil m pt w start n v : n <= 0 → locs_agree m pt w start n v (Some v).
Proof. intros. unfold locs_agree, byte_locs. rewrite seqZ_nil by lia. simpl. by rewrite app_nil_r. Qed.

Lemma checked_loop_exact fuel : ∀ m pt w start end_ v,
  0 <= start <= end_ → end_ < USIZE →
  (start < end_ → pages_left start end_ <= Z.of_nat fuel) →
  ∃ r, translated_byte_buffer_checked_loop fuel m pt w start end_ v = Finished (Ret r) ∧
    locs_agree m pt w start (end_ - start) v r.
Proof.
  induction fuel as [|fuel IH]; intros m pt w start end_ v Hs He Hf; simpl;
    destruct (Z.ltb_spec start end_) as [Hlt|Hge].
  - pose proof (pages_left_pos start end_ Hlt). specialize (Hf Hlt). lia.
  - exists (Some v). split; [done|]. apply locs_agree_nil. lia.
  - pose proof (next_page_gt start) as Hnext. rewrite checked_chunk_eq by lia.
    set (ce := Z.min (next_page start) end_).
    assert (start < ce <= end_ ∧ ce <= next_page start ∧ (ce = next_page start ∨ ce = end_)) as Hce by lia.
    clearbody ce. unfold locs_agree. replace (end_ - start) with ((ce - start) + (end_ - ce)) by lia.
    rewrite byte_locs_app, (byte_locs_chunk _ _ _ start (ce - start)) by lia.
    destruct (page_access m pt w (page_of start)) as [ppn|]; simpl; [|exists None; auto].
    destruct (Z.ltb_spec (next_page start) USIZE); [|exists None; split; [done|right; lia]].
    replace (start + (ce - start)) with ce by lia. set (sl := mkSlice _ _ _).
    destruct (IH m pt w ce end_ (v ++ [sl])) as (r & -> & Hr); [lia|lia| |].
    { intros. rewrite (pages_left_step start) by tauto. specialize (Hf Hlt). lia. }
    exists r. split; [done|]. unfold locs_agree in Hr.
    destruct (byte_locs m pt w ce (end_ - ce)) as [l|], r as [sls|]; simpl in *; try done.
    + rewrite <- Hr, bind_app. simpl. by rewrite app_nil_r, <- (assoc_L (++)).
    + right. destruct Hr as [|Hr]; [done|lia].
    + by left.
  - exists (Some v). split; [done|]. apply locs_agree_nil. lia.
Qed.

Lemma checked_exact m token ptr len w :
  is_usize ptr → is_usize len →
  ∃ r, translated_byte_buffer_checked m token ptr len w = Finished (Ret r) ∧
    locs_agree m (PageTable_from_token token) w ptr len [] r.
Proof.
  intros [Hp _] [Hl _]. unfold translated_byte_buffer_checked.
  destruct (Z.eqb_spec len 0) as [->|Hne].
  { exists (Some []). split; [done|]. by apply locs_agree_nil. }
  unfold checked_add. destruct (Z.ltb_spec (ptr + len) USIZE) as [Hlt|Hge].
  - destruct (checked_loop_exact (page_fuel len) m (PageTable_from_token token) w ptr (ptr + len) [])
      as (r & Hr & Hagree); [lia|lia| |].
    { intros _. apply page_fuel_enough. lia. }
    exists r. split; [done|]. by rewrite Z.add_simpl_l in Hagree.
  - exists None. split; [done|]. right. unfold PAGE_SIZE. lia.
Qed.

(** ** Properties of the checked translation *)

(** [C26] The kernel's view of a user buffer is exact and confined.  For any
    pointer and length, [translated_byte_buffer_checked] terminates without a
    panic.  If it returns slices, the bytes they cover are, in order, the bytes
    behind [ptr, ptr+1, ...], every one of them in a page whose entry is valid,
    belongs to the user and permits the requested access, and whose frame lies
    below the end of memory.  If it returns [None], some page does not, or the
    buffer reaches into the last page of the 64-bit space. *)
Theorem user_buffer_exact m token ptr len writable :
  is_usize ptr → is_usize len →
  let pt := PageTable_from_token token in
  ∃ r, translated_byte_buffer_checked m token ptr len writable = Finished (Ret r) ∧
  match r with
  | Some sls =>
      Forall2 (λ va loc, ∃ pte, PageTable_translate m pt (page_of va) = Some pte ∧
                 loc = (PageTableEntry_ppn pte, va mod PAGE_SIZE) ∧
                 PageTableEntry_is_valid pte = true ∧
                 contains (PageTableEntry_flags pte) PTE_U = true ∧
                 (if writable then PageTableEntry_writable pte
                  else PageTableEntry_readable pte) = true ∧
                 PageTableEntry_ppn pte < max_user_ppn)
        (seqZ ptr len) (sls ≫= slice_locs)
  | None => (∃ va, ptr <= va < ptr + len ∧ page_access m pt writable (page_of va) = None) ∨
            USIZE - PAGE_SIZE < ptr + len
  end.
Proof.
  intros Hp Hl pt. destruct (checked_exact m token ptr len writable Hp Hl) as (r & Hr & Hag).
  exists r. split; [done|]. unfold locs_agree, byte_locs in Hag. fold pt in Hag.
  destruct r as [sls|].
  - destruct (mapM _ _) as [l|] eqn:Hm; simpl in Hag; [|done]. injection Hag as <-.
    apply mapM_Some in Hm. eapply Forall2_impl; [done|]. intros va loc Hloc.
    unfold byte_loc, page_access in Hloc.
    destruct (PageTable_translate m pt (page_of va)) as [pte|]; simpl in Hloc; [|done].
    exists pte. split; [done|]. repeat case_match; simplify_eq/=.
    all: match goal with H : _ && _ = true |- _ => rewrite !andb_true_iff, Z.ltb_lt in H end; tauto.
  - destruct Hag as [Hnone|?]; [left|by right].
    apply mapM_None, Exists_exists in Hnone as (va & Hva%elem_of_seqZ & Hloc).
    exists va. split; [lia|]. unfold byte_loc in Hloc. by apply fmap_None in Hloc.
Qed.

(** ** Copying through slices *)

Fixpoint write_locs (m : pmem) (locs : list (Z * Z)) (data : list Z) : pmem :=
  match locs, data with
  | (p, k) :: locs, b :: data => write_locs (pm_write_byte m p k b) locs data
  | _, _ => m
  end.

Definition read_locs (m : pmem) (locs : list (Z * Z)) : list Z :=
  (λ '(p, k), pm_byte m p k) <$> locs.

Lemma write_locs_app l1 : ∀ m l2 d1 d2, length l1 = length d1 →
  write_locs m (l1 ++ l2) (d1 ++ d2) = write_locs (write_locs m l1 d1) l2 d2.
Proof.
  induction l1 as [|[p k] l1 IH]; intros m l2 [|b d1] d2 Hlen; simplify_eq/=; [done|]. by apply IH.
Qed.

Lemma write_locs_nil_r m locs : write_locs m locs [] = m.
Proof. by destruct locs as [|[]]. Qed.

Lemma pm_write_bytes_locs data : ∀ m p off,
  pm_write_bytes m p off data = write_locs m ((λ k, (p, k)) <$> seqZ off (Z.of_nat (length data))) data.
Proof.
  induction data as [|b data IH]; intros m p off; simpl; [done|].
  rewrite seqZ_cons by lia. simpl. rewrite IH. do 3 f_equal. lia.
Qed.

Lemma write_locs_other locs : ∀ m data p k,
  (p, k) ∉ locs → 0 <= k → Forall (λ l, 0 <= l.2) locs → Forall (λ b, 0 <= b < 256) data →
  pm_byte (write_locs m locs data) p k = pm_byte m p k.
Proof.
  induction locs as [|[q j] locs IH]; intros m [|b data] p k Hnot Hk Hlocs Hdata; simpl; try done.
  apply not_elem_of_cons in Hnot as [Hne Hnot].
  apply Forall_cons in Hlocs as [Hj Hlocs]. apply Forall_cons in Hdata as [Hb Hdata].
  rewrite IH by done. by apply pm_byte_write_ne.
Qed.

Lemma write_locs_page locs : ∀ m data p,
  (∀ k, (p, k) ∉ locs) → pm_page (write_locs m locs data) p = pm_page m p.
Proof.
  induction locs as [|[q j] locs IH]; intros m [|b data] p Hnot; simpl; try done.
  rewrite IH.
  - apply pm_page_write_ne. intros ->. apply (Hnot j). by left.
  - intros k Hk. apply (Hnot k). by right.
Qed.

Lemma read_write_locs locs : ∀ m data,
  NoDup locs → length locs = length data →
  Forall (λ l, 0 <= l.2) locs → Forall (λ b, 0 <= b < 256) data →
  read_locs (write_locs m locs data) locs = data.
Proof.
  induction locs as [|[p k] locs IH]; intros m [|b data] Hnd Hlen Hlocs Hdata; simplify_eq/=; [done|].
  apply NoDup_cons in Hnd as [Hnot Hnd].
  apply Forall_cons in Hlocs as [Hk Hlocs]. apply Forall_cons in Hdata as [Hb Hdata].
  f_equal; [|by apply IH]. rewrite write_locs_other by done. by apply pm_byte_write_eq.
Qed.

Lemma slice_locs_length sl : 0 <= slice_len sl → Z.of_nat (length (slice_locs sl)) = slice_len sl.
Proof. intros. unfold slice_locs. rewrite length_fmap, length_seqZ. lia. Qed.

Definition slices_ok (sls : list slice) : Prop := Forall (λ sl, 0 <= slice_len sl) sls.

Lemma copy_to_slices_eq sls : ∀ m data off,
  slices_ok sls → 0 <= off <= Z.of_nat (length data) → Z.of_nat (length data) < USIZE →
  Z.of_nat (length (sls ≫= slice_locs)) = Z.of_nat (length data) - off →
  copy_to_slices m sls data off =
    Ret (write_locs m (sls ≫= slice_locs) (drop (Z.to_nat off) data), Z.of_nat (length data)).
Proof.
  induction sls as [|sl sls IH]; intros m data off Hok Hoff Hus Hlen; csimpl in *.
  - do 2 f_equal. lia.
  - apply Forall_cons in Hok as [Hsl Hok].
    rewrite length_app in Hlen. pose proof (slice_locs_length sl Hsl) as Hll.
    rewrite (wrap64_small (Z.of_nat (length data) - off)) by (unfold is_usize; lia).
    replace (Z.min (slice_len sl) (Z.of_nat (length data) - off)) with (slice_len sl) by lia.
    rewrite (wrap64_small (off + slice_len sl)) by (unfold is_usize; lia).
    destruct (Z.ltb_spec (Z.of_nat (length data)) (off + slice_len sl)); [lia|].
    rewrite pm_write_bytes_locs.
    set (d1 := take (Z.to_nat (slice_len sl)) (drop (Z.to_nat off) data)).
    assert (Z.of_nat (length d1) = slice_len sl) as Hd1.
    { unfold d1. rewrite length_take, length_drop. lia. }
    rewrite Hd1. fold (slice_locs sl).
    assert (drop (Z.to_nat off) data = d1 ++ drop (Z.to_nat (off + slice_len sl)) data) as ->.
    { unfold d1. rewrite <- (take_drop (Z.to_nat (slice_len sl)) (drop (Z.to_nat off) data)) at 1.
      rewrite drop_drop. do 2 f_equal. lia. }
    rewrite write_locs_app by lia.
    destruct (Z.leb_spec (Z.of_nat (length data)) (off + slice_len sl)).
    + rewrite (drop_ge data) by lia. replace (off + slice_len sl) with (Z.of_nat (length data)) by lia.
      by rewrite write_locs_nil_r.
    + apply IH; [done|lia|done|lia].
Qed.

Lemma read_slice_locs m sl : read_slice m sl = read_locs m (slice_locs sl).
Proof. done. Qed.

Lemma copy_from_slices_eq sls : ∀ m dst off,
  slices_ok sls → 0 <= off <= Z.of_nat (length dst) → Z.of_nat (length dst) < USIZE →
  Z.of_nat (length (sls ≫= slice_locs)) = Z.of_nat (length dst) - off →
  copy_from_slices m sls dst off =
    Ret (take (Z.to_nat off) dst ++ read_locs m (sls ≫= slice_locs), Z.of_nat (length dst)).
Proof.
  induction sls as [|sl sls IH]; intros m dst off Hok Hoff Hus Hlen; csimpl in *.
  - rewrite take_ge, app_nil_r by lia. do 2 f_equal. lia.
  - apply Forall_cons in Hok as [Hsl Hok].
    rewrite length_app in Hlen. pose proof (slice_locs_length sl Hsl) as Hll.
    rewrite (wrap64_small (Z.of_nat (length dst) - off)) by (unfold is_usize; lia).
    replace (Z.min (slice_len sl) (Z.of_nat (length dst) - off)) with (slice_len sl) by lia.
    rewrite (wrap64_small (off + slice_len sl)) by (unfold is_usize; lia).
    destruct (Z.ltb_spec (Z.of_nat (length dst)) (off + slice_len sl)); [lia|].
    assert (length (read_slice m sl) = Z.to_nat (slice_len sl)) as Hrl.
    { rewrite read_slice_locs. unfold read_locs. rewrite length_fmap. lia. }
    rewrite (take_ge (read_slice m sl)) by lia.
    set (dst' := take _ _ ++ _ ++ _).
    assert (length dst' = length dst) as Hlen'.
    { unfold dst'. rewrite !length_app, length_take, length_drop, Hrl. lia. }
    assert (take (Z.to_nat (off + slice_len sl)) dst' =
            take (Z.to_nat off) dst ++ read_slice m sl) as Htake.
    { unfold dst'. rewrite (assoc_L (++)). apply take_app_length'.
      rewrite length_app, length_take, Hrl. lia. }
    rewrite Hlen'. destruct (Z.leb_spec (Z.of_nat (length dst)) (off + slice_len sl)).
    + assert (sls ≫= slice_locs = []) as -> by (apply nil_length_inv; lia).
      rewrite app_nil_r, <- read_slice_locs, <- Htake. rewrite take_ge by lia. do 2 f_equal. lia.
    + rewrite IH by (done || lia). rewrite Htake, Hlen'. unfold read_locs.
      by rewrite fmap_app, <- (assoc_L (++)).
Qed.

(** Slices cut by the checked translation are never empty and stay within
    their page. *)
Definition slice_wf (sl : slice) : Prop := 0 <= sl_from sl < sl_to sl ∧ sl_to sl <= PAGE_SIZE.

Lemma slices_wf_ok sls : Forall slice_wf sls → slices_ok sls.
Proof. intros H. eapply Forall_impl; [done|]. intros [p f t] [Hf Ht]. unfold slice_len. simpl in *. lia. Qed.

Lemma slice_locs_nonneg sls : Forall slice_wf sls → Forall (λ l : Z * Z, 0 <= l.2) (sls ≫= slice_locs).
Proof.
  induction 1 as [|sl sls [Hf _] _ IH]; csimpl; [constructor|]. apply Forall_app. split; [|done].
  apply Forall_fmap, Forall_forall. intros k Hk%elem_of_seqZ. simpl. lia.
Qed.

Lemma checked_chunk_wf m pt w start end_ sl ce :
  0 <= start < end_ → checked_chunk m pt w start end_ = Ret (Some (sl, ce)) →
  slice_wf sl ∧ start < ce <= end_.
Proof.
  intros Hs. rewrite checked_chunk_eq by done.
  destruct (page_access m pt w (page_of start)); simpl; [|done].
  destruct (next_page start <? USIZE); [|done]. intros [= <- <-].
  pose proof (next_page_gt start). pose proof (page_mod_range start). unfold slice_wf. simpl.
  assert (next_page start - start = PAGE_SIZE - start mod PAGE_SIZE).
  { unfold next_page. pose proof (page_split start). unfold PAGE_SIZE in *. lia. }
  lia.
Qed.

Lemma checked_loop_wf fuel : ∀ m pt w start end_ v sls,
  0 <= start → Forall slice_wf v →
  translated_byte_buffer_checked_loop fuel m pt w start end_ v = Finished (Ret (Some sls)) →
  Forall slice_wf sls.
Proof.
  induction fuel as [|fuel IH]; intros m pt w start end_ v sls Hs Hv; simpl;
    destruct (Z.ltb_spec start end_); try done; try (intros; by simplify_eq).
  destruct (checked_chunk m pt w start end_) as [[[sl ce]|]|] eqn:Hc; try done.
  apply checked_chunk_wf in Hc as [Hsl Hce]; [|lia].
  apply IH; [lia|]. apply Forall_app. split; [done|]. by constructor.
Qed.

Lemma checked_wf m token ptr len w sls :
  0 <= ptr → translated_byte_buffer_checked m token ptr len w = Finished (Ret (Some sls)) →
  Forall slice_wf sls.
Proof.
  intros Hp. unfold translated_byte_buffer_checked. case_match; [intros [= <-]; constructor|].
  case_match eqn:Hadd; [|done]. by apply checked_loop_wf.
Qed.

Lemma byte_locs_length m pt w ptr len locs :
  0 <= len → byte_locs m pt w ptr len = Some locs → Z.of_nat (length locs) = len.
Proof. intros Hl H%mapM_Some%Forall2_length. rewrite length_seqZ in H. lia. Qed.

Lemma byte_locs_nonneg m pt w ptr len locs :
  byte_locs m pt w ptr len = Some locs → Forall (λ l : Z * Z, 0 <= l.2 < PAGE_SIZE) locs.
Proof.
  intros H%mapM_Some. eapply Forall2_Forall_r; [done|]. apply Forall_forall. intros va _ [p k].
  unfold byte_loc. intros (ppn & _ & [= -> ->])%fmap_Some. apply page_mod_range.
Qed.

(** [copy_to_user] writes the user buffer and nothing else.  For a
    non-null pointer and any data, it terminates without a panic.  On success
    every byte of the data is at its place (when no frame is mapped twice in
    the buffer) and every other byte of memory is unchanged; on failure memory
    is untouched, and the buffer has a page the user may not write or reaches
    into the last page of the 64-bit space. *)
Theorem copy_to_user_exact m token dst data :
  is_usize dst → dst ≠ 0 → Z.of_nat (length data) < USIZE → Forall (λ b, 0 <= b < 256) data →
  let pt := PageTable_from_token token in
  let len := Z.of_nat (length data) in
  ∃ r m', task_copy_to_user token dst data m = Finished (Ret (r, m')) ∧
  match r with
  | Ok _ => ∃ locs, byte_locs m pt true dst len = Some locs ∧
      (NoDup locs → read_locs m' locs = data) ∧
      (∀ p k, 0 <= k → (p, k) ∉ locs → pm_byte m' p k = pm_byte m p k)
  | Err _ => m' = m ∧ (byte_locs m pt true dst len = None ∨ USIZE - PAGE_SIZE < dst + len)
  end.
Proof.
  intros Hd Hne Hus Hb pt len. unfold task_copy_to_user.
  destruct (Z.eqb_spec dst 0); [done|]. case_bool_decide as Hnil.
  { exists (Ok tt), m. split; [done|]. subst. exists []. split_and!; [done|done|by intros]. }
  destruct (checked_exact m token dst len true Hd) as (r & Hr & Hag); [unfold is_usize; lia|].
  fold len. rewrite Hr. destruct r as [sls|]; [|by exists (Err tt), m].
  apply checked_wf in Hr as Hwf; [|destruct Hd; lia]. unfold locs_agree in Hag. fold pt in Hag.
  destruct (byte_locs m pt true dst len) as [locs|] eqn:Hl; simpl in Hag; [|done].
  injection Hag as ->. pose proof (byte_locs_length _ _ _ _ _ _ (Nat2Z.is_nonneg _) Hl) as Hlen.
  rewrite copy_to_slices_eq; [|by apply slices_wf_ok|lia|lia|lia].
  rewrite Z.eqb_refl. exists (Ok tt), (write_locs m (sls ≫= slice_locs) data). split; [done|].
  exists (sls ≫= slice_locs). split; [done|]. pose proof (slice_locs_nonneg sls Hwf). split.
  - intros Hnd. apply read_write_locs; try done. lia.
  - intros p k Hk Hnot. by apply write_locs_other.
Qed.

(** ** Iterating a buffer byte by byte *)

Definition ubi_rest (it : UserBufferIterator) : list (Z * Z) :=
  match ubi_buffers it !! current_buffer it with
  | Some s => drop (Z.to_nat (current_idx it)) (slice_locs s)
                ++ (drop (S (current_buffer it)) (ubi_buffers it) ≫= slice_locs)
  | None => []
  end.

Definition ubi_wf (it : UserBufferIterator) : Prop :=
  Forall slice_wf (ubi_buffers it) ∧ 0 <= current_idx it ∧
  ∀ s, ubi_buffers it !! current_buffer it = Some s → current_idx it < slice_len s.

Lemma slice_locs_lookup s i : 0 <= i < slice_len s →
  slice_locs s !! Z.to_nat i = Some (sl_ppn s, sl_from s + i).
Proof.
  intros Hi. unfold slice_locs. rewrite list_lookup_fmap, lookup_seqZ_lt by lia. simpl.
  do 2 f_equal. lia.
Qed.

Lemma ubi_next_spec it : ubi_wf it →
  match UserBufferIterator_next it with
  | Panic => False
  | Ret (None, _) => ubi_rest it = []
  | Ret (Some r, it') => ubi_rest it = r :: ubi_rest it' ∧ ubi_wf it'
  end.
Proof.
  intros (Hwf & Hidx & Hlt). unfold UserBufferIterator_next, ubi_rest.
  destruct (ubi_buffers it !! current_buffer it) as [s|] eqn:Hs; [|done].
  specialize (Hlt s eq_refl). destruct (Z.ltb_spec (current_idx it) (slice_len s)); [|lia].
  assert (slice_wf s) as [? Hmax] by (eapply Forall_lookup_1; done).
  rewrite wrap64_small by (unfold is_usize, USIZE, slice_len, PAGE_SIZE in *; lia).
  erewrite (drop_S (slice_locs s)) by (apply slice_locs_lookup; lia).
  destruct (Z.eqb_spec (current_idx it + 1) (slice_len s)) as [Heq|Hneq]; simpl.
  - split.
    + rewrite drop_ge by (pose proof (slice_locs_length s); lia). simpl. f_equal.
      destruct (ubi_buffers it !! S (current_buffer it)) as [s'|] eqn:Hs'.
      * by rewrite (drop_S _ s') by done.
      * by rewrite drop_ge by (by apply lookup_ge_None).
    + split_and!; [done|done|]. simpl. intros s' Hs'.
      assert (slice_wf s') as [] by (eapply Forall_lookup_1; done). unfold slice_len. lia.
  - rewrite Hs. split.
    + simpl. do 3 f_equal. lia.
    + split_and!; [done|simpl; lia|]. simpl. intros s'. rewrite Hs. intros [= <-]. lia.
Qed.

Lemma ubi_collect_eq fuel : ∀ it, ubi_wf it → (length (ubi_rest it) < fuel)%nat →
  UserBufferIterator_collect fuel it = Finished (Ret (ubi_rest it)).
Proof.
  induction fuel as [|fuel IH]; intros it Hwf Hlen; [lia|]. simpl.
  pose proof (ubi_next_spec it Hwf) as Hnext.
  destruct (UserBufferIterator_next it) as [[[r|] it']|]; [|by rewrite Hnext|done].
  destruct Hnext as [Hrest Hwf']. rewrite Hrest in Hlen |- *. simpl in Hlen. by rewrite IH by (done || lia).
Qed.

Lemma UserBuffer_len_eq sls : ∀ a, slices_ok sls → 0 <= a →
  a + Z.of_nat (length (sls ≫= slice_locs)) < USIZE →
  foldl (λ total s, total +w slice_len s) a sls = a + Z.of_nat (length (sls ≫= slice_locs)).
Proof.
  induction sls as [|sl sls IH]; intros a Hok Ha Hus; csimpl in *; [lia|].
  apply Forall_cons in Hok as [Hsl Hok]. rewrite length_app in *.
  pose proof (slice_locs_length sl Hsl). rewrite wrap64_small by (unfold is_usize; lia).
  rewrite IH by (done || lia). lia.
Qed.

(** [C33] Iterating a [UserBuffer] byte by byte visits the user's bytes.  The
    buffer made from a successful checked translation has length [len], and its
    iterator terminates without an index panic after visiting, in order,
    exactly the physical bytes behind [ptr .. ptr + len). *)
Theorem user_buffer_iter_exact m token ptr len writable sls fuel :
  is_usize ptr → is_usize len →
  translated_byte_buffer_checked m token ptr len writable = Finished (Ret (Some sls)) →
  len < Z.of_nat fuel →
  ∃ locs, byte_locs m (PageTable_from_token token) writable ptr len = Some locs ∧
    UserBuffer_len (mkUserBuffer sls) = len ∧
    UserBufferIterator_collect fuel (UserBuffer_into_iter (mkUserBuffer sls)) = Finished (Ret locs).
Proof.
  intros Hp Hl Htr Hfuel. destruct (checked_exact m token ptr len writable Hp Hl) as (r & Hr & Hag).
  rewrite Htr in Hr. injection Hr as <-. unfold locs_agree in Hag.
  apply checked_wf in Htr as Hwf; [|destruct Hp; lia].
  destruct (byte_locs _ _ _ _ _) as [locs|] eqn:Hlocs; simpl in Hag; [|done]. injection Hag as ->.
  destruct Hl as [Hl0 Hl1]. apply byte_locs_length in Hlocs; [|done].
  exists (sls ≫= slice_locs). split; [done|]. split.
  - unfold UserBuffer_len. simpl.
    rewrite UserBuffer_len_eq; [lia|by apply slices_wf_ok|done|lia].
  - assert (ubi_rest (mkUBI sls 0 0) = sls ≫= slice_locs) as Hrest.
    { destruct sls as [|s sls]; [done|]. unfold ubi_rest. csimpl. by rewrite drop_0. }
    unfold UserBuffer_into_iter. simpl. rewrite ubi_collect_eq, Hrest; [done| |].
    + split_and!; [done|done|]. simpl. intros s Hs%(Forall_lookup_1 _ _ _ _ Hwf).
      destruct Hs as [[] _]. unfold slice_len. lia.
    + rewrite Hrest. lia.
Qed.

(** ** The unchecked translation *)

(** The page after the one of [va], as an address. *)
Lemma step_next_page va : 0 <= va < 2 ^ 38 →
  VirtAddr_from_VirtPageNum (VirtPageNum_step (page_of va)) = next_page va.
Proof.
  intros Hva. assert (0 <= va / PAGE_SIZE < 2 ^ 26).
  { unfold PAGE_SIZE. split; [apply Z.div_pos|apply Z.div_lt_upper_bound]; lia. }
  unfold VirtAddr_from_VirtPageNum, VirtPageNum_step. rewrite page_of_div, (Z.mod_small _ (2 ^ 27)) by lia.
  rewrite (wrap64_small (_ + 1)) by (unfold is_usize, USIZE; lia).
  rewrite wrap64_small; rewrite Z.shiftl_mul_pow2 by done; [done|].
  unfold is_usize, USIZE, PAGE_SIZE_BITS. lia.
Qed.

(** On canonical user addresses the unchecked walk cuts the same chunks. *)
Lemma unchecked_step m pt start end_ pte :
  0 <= start < end_ → end_ < 2 ^ 38 →
  PageTable_translate m pt (page_of start) = Some pte →
  let chunk_end := Z.min (next_page start) end_ in
  ∀ fuel v, translated_byte_buffer_loop (S fuel) m pt start end_ v =
    translated_byte_buffer_loop fuel m pt chunk_end end_
      (v ++ [mkSlice (PageTableEntry_ppn pte) (start mod PAGE_SIZE)
               (start mod PAGE_SIZE + (chunk_end - start))]).
Proof.
  intros Hs He Htr ce fuel v. simpl. destruct (Z.ltb_spec start end_); [|lia].
  fold (page_of start). rewrite Htr, page_offset_usize.
  pose proof (next_page_gt start) as Hnp. pose proof (page_mod_range start).
  rewrite step_next_page by lia.
  assert (VirtAddr_from_usize end_ = end_) as ->.
  { rewrite VirtAddr_from_usize_mod. apply Z.mod_small. lia. }
  fold ce. rewrite page_offset_mod.
  assert (next_page start - start = PAGE_SIZE - start mod PAGE_SIZE) as Hdist.
  { unfold next_page. pose proof (page_split start). unfold PAGE_SIZE in *. lia. }
  rewrite usize_from_VirtAddr_low by lia.
  destruct (decide (ce = next_page start)) as [Hce|Hce].
  - rewrite Hce. unfold next_page at 1. rewrite Z.mod_mul by done. simpl. unfold bytes_slice.
    destruct (Z.leb_spec (start mod PAGE_SIZE) PAGE_SIZE); [|lia]. rewrite Z.leb_refl. simpl.
    do 4 f_equal. lia.
  - assert (start < ce < next_page start) as Hin by lia.
    pose proof (page_mod_range ce). rewrite (same_page_mod start ce) in * by lia.
    destruct (Z.eqb_spec (start mod PAGE_SIZE + (ce - start)) 0); [lia|].
    unfold bytes_slice. by zcase.
Qed.

Lemma unchecked_agrees fuel : ∀ fuel' m pt w start end_ v sls,
  0 <= start → end_ < 2 ^ 38 → (fuel <= fuel')%nat →
  translated_byte_buffer_checked_loop fuel m pt w start end_ v = Finished (Ret (Some sls)) →
  translated_byte_buffer_loop fuel' m pt start end_ v = Finished (Ret sls).
Proof.
  induction fuel as [|fuel IH]; intros fuel' m pt w start end_ v sls Hs He Hf.
  { simpl. destruct fuel'; simpl; destruct (start <? end_); intros; by simplify_eq. }
  cbn [translated_byte_buffer_checked_loop]. destruct (Z.ltb_spec start end_).
  - rewrite checked_chunk_eq by lia. unfold page_access.
    destruct (PageTable_translate m pt (page_of start)) as [pte|] eqn:Htr; simpl; [|done].
    destruct (PageTableEntry_is_valid pte && _ && _ && _); simpl; [|done]. destruct (next_page start <? USIZE); [|done]. intros Hrest.
    destruct fuel' as [|fuel']; [lia|]. rewrite (unchecked_step _ _ _ _ pte) by (done || lia).
    eapply IH; [pose proof (next_page_gt start); lia|done|lia|done].
  - destruct fuel'; simpl; (destruct (Z.ltb_spec start end_); [lia|]); congruence.
Qed.

(** On canonical user addresses the unchecked [translated_byte_buffer]
    agrees with the checked one: whenever the checked translation of a buffer
    below 2^38 succeeds, the unchecked one terminates with the same slices. *)
Theorem unchecked_buffer_agrees m token ptr len writable sls fuel :
  0 <= ptr → 0 <= len → ptr + len < 2 ^ 38 →
  translated_byte_buffer_checked m token ptr len writable = Finished (Ret (Some sls)) →
  (page_fuel len <= fuel)%nat →
  translated_byte_buffer fuel m token ptr len = Finished (Ret sls).
Proof.
  intros Hp Hl Hend Hc Hf. unfold translated_byte_buffer.
  rewrite wrap64_small by (unfold is_usize, USIZE; lia).
  unfold translated_byte_buffer_checked in Hc. destruct (Z.eqb_spec len 0) as [->|].
  - injection Hc as <-. destruct fuel; simpl; (destruct (Z.ltb_spec ptr (ptr + 0)); [lia|done]).
  - unfold checked_add in Hc. destruct (ptr + len <? USIZE); [|done].
    eapply unchecked_agrees; [done|done|done|exact Hc].
Qed.

(** Above 2^38 it need not: a pointer [2^39 + va] names the same page as [va]
    after truncation, but the walk continues at the truncated address and
    never reaches [end]. *)
Lemma noncanonical_stuck m pt va end_ pte fuel : ∀ v,
  0 <= va < 2 ^ 38 → va mod PAGE_SIZE ≠ 0 → 2 ^ 39 < end_ → end_ mod 2 ^ 39 = va →
  PageTable_translate m pt (page_of va) = Some pte →
  translated_byte_buffer_loop fuel m pt va end_ v = OutOfFuel.
Proof.
  induction fuel as [|fuel IH]; intros v Hva Hoff Hend Hmod Htr; simpl;
    (destruct (Z.ltb_spec va end_); [|lia]); [done|].
  fold (page_of va). rewrite Htr, page_offset_usize, VirtAddr_from_usize_mod, Hmod.
  pose proof (next_page_gt va) as Hnp.
  rewrite step_next_page, Z.min_r by lia. rewrite page_offset_mod, usize_from_VirtAddr_low by lia.
  destruct (Z.eqb_spec (va mod PAGE_SIZE) 0); [done|]. unfold bytes_slice.
  pose proof (page_mod_range va). rewrite Z.leb_refl. destruct (Z.leb_spec (va mod PAGE_SIZE) PAGE_SIZE); [|lia].
  simpl. by apply IH.
Qed.

(** ** Strings *)

(** The byte the string walk reads at [va]. *)
Definition str_byte (m : pmem) (pt : PageTable) (va : Z) : option Z :=
  pte ← PageTable_translate m pt (page_of va);
  if PageTableEntry_is_valid pte && contains (PageTableEntry_flags pte) PTE_U
     && PageTableEntry_readable pte
  then phys_byte m <$> PageTable_translate_va m pt (VirtAddr_from_usize va) else None.

Lemma str_step fuel m pt string va :
  translated_str_checked_loop (S fuel) m pt string va =
    match str_byte m pt va with
    | None => Finished None
    | Some ch =>
        if ch =? 0 then Finished (Some string)
        else match checked_add va 1 with
             | None => Finished None
             | Some va => translated_str_checked_loop fuel m pt (string ++ [ch]) va
             end
    end.
Proof.
  simpl. unfold str_byte. fold (page_of va).
  destruct (PageTable_translate m pt (page_of va)) as [pte|]; simpl; [|done].
  destruct (PageTableEntry_is_valid pte), (contains _ PTE_U), (PageTableEntry_readable pte); simpl; try done.
  by destruct (PageTable_translate_va _ _ _).
Qed.

Lemma str_loop m pt str : ∀ fuel acc va,
  (length str < fuel)%nat → va + Z.of_nat (length str) < USIZE →
  (∀ i b, str !! i = Some b → b ≠ 0 ∧ str_byte m pt (va + Z.of_nat i) = Some b) →
  (str_byte m pt (va + Z.of_nat (length str)) = Some 0 →
     translated_str_checked_loop fuel m pt acc va = Finished (Some (acc ++ str))) ∧
  (str_byte m pt (va + Z.of_nat (length str)) = None →
     translated_str_checked_loop fuel m pt acc va = Finished None).
Proof.
  induction str as [|b str IH]; intros [|fuel] acc va Hf Hus Hstr; simpl in Hf; try lia; rewrite str_step.
  - simpl. rewrite Z.add_0_r, app_nil_r. by split; intros ->.
  - destruct (Hstr 0%nat b eq_refl) as [Hb Hbyte]. rewrite Z.add_0_r in Hbyte. rewrite Hbyte.
    destruct (Z.eqb_spec b 0); [done|]. simpl in Hus. unfold checked_add.
    destruct (Z.ltb_spec (va + 1) USIZE); [|lia].
    destruct (IH fuel (acc ++ [b]) (va + 1)) as [IH1 IH2]; [lia|lia| |].
    { intros i b' Hi. replace (va + 1 + Z.of_nat i) with (va + Z.of_nat (S i)) by lia. by apply Hstr. }
    replace (va + 1 + Z.of_nat (length str)) with (va + Z.of_nat (length (b :: str))) in IH1, IH2
      by (simpl; lia).
    rewrite <- (assoc_L (++)) in IH1. done.
Qed.

(** In a well-formed table the string walk and the buffer walk read the same
    byte. *)
Lemma str_byte_loc m pt lbl va p k :
  pt_tree m pt lbl → 0 <= va < 2 ^ 38 → byte_loc m pt false va = Some (p, k) →
  str_byte m pt va = Some (pm_byte m p k).
Proof.
  intros Hwf Hva (ppn & Hacc & [= -> ->])%fmap_Some. unfold page_access in Hacc. unfold str_byte.
  assert (VirtAddr_from_usize va = va) as Hv.
  { rewrite VirtAddr_from_usize_mod. apply Z.mod_small. lia. }
  destruct (PageTable_translate m pt (page_of va)) as [pte|] eqn:Htr; simpl in *; [|done].
  case_match eqn:Hc; [|done]. injection Hacc as <-.
  rewrite !andb_true_iff in Hc. destruct Hc as [[[-> ->] ->] _]. simpl.
  rewrite Hv, (translate_va_eq _ _ _ Hwf) by done. unfold page_of in Htr. rewrite Hv in Htr.
  rewrite Htr. simpl. f_equal. unfold phys_byte. pose proof (page_mod_range va).
  rewrite Z.div_add_l, (Z.div_small (va mod _)), Z.add_0_r by done.
  rewrite Z.add_comm, Z.mod_add, Z.mod_mod by done. done.
Qed.

(** [translated_str_checked] reads C strings.  In a well-formed table,
    when the bytes at [ptr] are [str], none of them zero, followed by a zero
    byte, all on pages the user may read, the call returns exactly [str] after
    reading no byte beyond the terminator; when the walk meets a page the user
    may not read before a terminator, it returns [None]. *)
Theorem user_string_exact m token lbl ptr str locs fuel :
  let pt := PageTable_from_token token in
  let n := Z.of_nat (length str) in
  pt_tree m pt lbl → 0 <= ptr → ptr + n < 2 ^ 38 → (length str < fuel)%nat →
  byte_locs m pt false ptr n = Some locs → read_locs m locs = str → Forall (λ b, b ≠ 0) str →
  (∀ p k, byte_loc m pt false (ptr + n) = Some (p, k) → pm_byte m p k = 0 →
     translated_str_checked fuel m token ptr = Finished (Some str)) ∧
  (PageTable_translate m pt (page_of (ptr + n)) = None →
     translated_str_checked fuel m token ptr = Finished None).
Proof.
  intros pt n Hwf Hp Hend Hf Hlocs Hread Hnz. unfold translated_str_checked. fold pt.
  destruct (str_loop m pt str fuel [] ptr) as [Hok Hfail]; [lia|unfold USIZE; lia| |].
  - intros i b Hi. split; [by eapply Forall_lookup_1 in Hnz|]. subst str.
    apply mapM_Some in Hlocs. unfold read_locs in Hi. rewrite list_lookup_fmap in Hi.
    destruct (locs !! i) as [[p k]|] eqn:Hl; simplify_eq/=.
    eapply Forall2_lookup_r in Hlocs as (va & Hva & Hloc); [|done].
    apply lookup_seqZ in Hva as [-> Hi]. eapply str_byte_loc; [done|lia|done].
  - fold n in Hok, Hfail. split.
    + intros p k Hloc Hz. apply Hok. rewrite <- Hz. eapply str_byte_loc; [done|lia|done].
    + intros Hnone. apply Hfail. unfold str_byte. by rewrite Hnone.
Qed.

(** ** Walking without collecting *)

Lemma checked_loop_acc fuel : ∀ m pt w start end_ v,
  translated_byte_buffer_checked_loop fuel m pt w start end_ v =
    match translated_byte_buffer_checked_loop fuel m pt w start end_ [] with
    | Finished (Ret (Some l)) => Finished (Ret (Some (v ++ l)))
    | r => r
    end.
Proof.
  induction fuel as [|fuel IH]; intros m pt w start end_ v; simpl;
    destruct (start <? end_); try done; try by rewrite app_nil_r.
  destruct (checked_chunk m pt w start end_) as [[[sl ce]|]|]; try done.
  rewrite IH, (IH m pt w ce end_ [sl]).
  destruct (translated_byte_buffer_checked_loop fuel m pt w ce end_ []) as [[[l|]|]|]; try done.
  by rewrite <- (assoc_L (++)).
Qed.

Lemma range_mapped_chunk_eq m pt w start end_ :
  0 <= start < end_ →
  checked_chunk m pt w start end_ ≠ Panic ∧
  range_mapped_chunk m pt w start end_ =
    match checked_chunk m pt w start end_ with Ret (Some (_, ce)) => Some ce | _ => None end.
Proof.
  intros Hs. rewrite checked_chunk_eq by done. split; [done|].
  unfold range_mapped_chunk, page_access, checked_add. fold (page_of start). rewrite page_offset_usize.
  destruct (PageTable_translate m pt (page_of start)) as [pte|]; simpl; [|done].
  destruct (PageTableEntry_is_valid pte), (contains _ PTE_U); simpl; try done.
  replace (start + (PAGE_SIZE - start mod PAGE_SIZE)) with (next_page start)
    by (unfold next_page; pose proof (page_split start); unfold PAGE_SIZE in *; lia).
  rewrite Z.leb_antisym.
  destruct w, (PageTableEntry_writable pte), (PageTableEntry_readable pte),
    (PageTableEntry_ppn pte <? max_user_ppn), (next_page start <? USIZE); done.
Qed.

Lemma range_mapped_loop_eq fuel : ∀ m pt w start end_, 0 <= start →
  user_write_range_mapped_loop fuel m pt w start end_ =
    match translated_byte_buffer_checked_loop fuel m pt w start end_ [] with
    | Finished (Ret (Some _)) => Finished true
    | Finished _ => Finished false
    | OutOfFuel => OutOfFuel
    end.
Proof.
  induction fuel as [|fuel IH]; intros m pt w start end_ Hs; simpl;
    destruct (Z.ltb_spec start end_); try done.
  destruct (range_mapped_chunk_eq m pt w start end_) as [Hnp ->]; [lia|].
  destruct (checked_chunk m pt w start end_) as [[[sl ce]|]|] eqn:Hc; try done.
  apply checked_chunk_wf in Hc as [_ Hce]; [|lia]. rewrite IH by lia.
  rewrite (checked_loop_acc fuel m pt w ce end_ [sl]).
  by destruct (translated_byte_buffer_checked_loop fuel m pt w ce end_ []) as [[[l|]|]|].
Qed.

(** [user_write_range_mapped] decides whether the checked translation
    succeeds. *)
Lemma user_write_range_mapped_eq m token ptr len w : 0 <= ptr →
  user_write_range_mapped m token ptr len w =
    match translated_byte_buffer_checked m token ptr len w with
    | Finished (Ret (Some _)) => Finished true
    | Finished _ => Finished false
    | OutOfFuel => OutOfFuel
    end.
Proof.
  intros Hp. unfold user_write_range_mapped, translated_byte_buffer_checked.
  destruct (len =? 0); [done|]. destruct (checked_add ptr len); [|done]. by apply range_mapped_loop_eq.
Qed.

Lemma page_of_user va : 0 <= va < 2 ^ 38 → user_vpn (page_of va).
Proof.
  intros Hva. rewrite page_of_div.
  assert (0 <= va / PAGE_SIZE < 2 ^ 26).
  { unfold PAGE_SIZE. split; [apply Z.div_pos|apply Z.div_lt_upper_bound]; lia. }
  rewrite Z.mod_small by lia. done.
Qed.

Lemma checked_chunk_ext m m' pt w start end_ :
  PageTable_translate m' pt (page_of start) = PageTable_translate m pt (page_of start) →
  checked_chunk m' pt w start end_ = checked_chunk m pt w start end_.
Proof. intros H. unfold checked_chunk. fold (page_of start). by rewrite H. Qed.

Section inline.
Context (m0 : pmem) (pt : PageTable) (lbl : gmap Z node) (Htree : pt_tree m0 pt lbl).
Context (data : list Z) (Hus : Z.of_nat (length data) < USIZE).

Lemma inline_copy_step m off sl :
  slice_wf sl → 0 <= off → off + slice_len sl <= Z.of_nat (length data) →
  inline_copy data sl (m, off) =
    Ret (Ok (slice_len sl),
         (write_locs m (slice_locs sl) (take (Z.to_nat (slice_len sl)) (drop (Z.to_nat off) data)),
          off + slice_len sl)).
Proof.
  intros [Hf Ht] Hoff Hle. unfold inline_copy, m_bind, m_get, m_assert, m_put. simpl.
  assert (0 <= slice_len sl) by (unfold slice_len; lia).
  rewrite (wrap64_small (Z.of_nat (length data) - off)) by (unfold is_usize; lia).
  replace (Z.min (slice_len sl) (Z.of_nat (length data) - off)) with (slice_len sl) by lia.
  rewrite (wrap64_small (off + slice_len sl)) by (unfold is_usize; lia).
  destruct (Z.leb_spec (off + slice_len sl) (Z.of_nat (length data))); [|lia]. simpl.
  rewrite pm_write_bytes_locs, length_take, length_drop. unfold m_ret. do 3 f_equal. unfold slice_locs.
  do 2 f_equal. f_equal. lia.
Qed.

Lemma walk_inline_eq w end_ fuel : ∀ m off start total sls,
  0 <= start → end_ <= 2 ^ 38 → 0 <= off → 0 <= total →
  (∀ n, is_Some (lbl !! n) → pm_page m n = pm_page m0 n) →
  translated_byte_buffer_checked_loop fuel m0 pt w start end_ [] = Finished (Ret (Some sls)) →
  Forall (λ sl, lbl !! sl_ppn sl = None) sls →
  Z.of_nat (length (sls ≫= slice_locs)) = Z.of_nat (length data) - off →
  total + (Z.of_nat (length data) - off) < USIZE →
  walk_user_write_slices_loop (inline_copy data) fuel pt w start end_ total (m, off) =
    Ret (Finished (Ok (total + (Z.of_nat (length data) - off))),
         (write_locs m (sls ≫= slice_locs) (drop (Z.to_nat off) data), Z.of_nat (length data))).
Proof.
  induction fuel as [|fuel IH]; intros m off start total sls Hs He Hoff Htot Hext Hc Hno Hlen Hu;
    simpl in Hc |- *; destruct (Z.ltb_spec start end_) as [Hlt|Hge]; try done;
    try (injection Hc as <-; simpl in *; unfold m_ret; do 2 f_equal; [do 2 f_equal; lia|f_equal; lia]).
  unfold m_bind at 1, m_get. rewrite (checked_chunk_ext m0 m).
  2:{ apply (translate_ext m0 pt lbl Htree); [done|]. apply page_of_user. lia. }
  destruct (checked_chunk m0 pt w start end_) as [[[sl ce]|]|] eqn:Hch; try done.
  apply checked_chunk_wf in Hch as [Hsl Hce]; [|lia]. simpl in Hc.
  rewrite (checked_loop_acc fuel m0 pt w ce end_ [sl]) in Hc.
  destruct (translated_byte_buffer_checked_loop fuel m0 pt w ce end_ []) as [[[l|]|]|] eqn:Hl; try done.
  injection Hc as <-. csimpl in *. apply Forall_cons in Hno as [Hsno Hno]. rewrite length_app in Hlen.
  assert (0 <= slice_len sl) as Hsl0 by (destruct Hsl; unfold slice_len; lia).
  pose proof (slice_locs_length sl Hsl0) as Hll.
  unfold m_bind. rewrite inline_copy_step by (done || lia).
  rewrite !Z.ltb_irrefl, (wrap64_small (total + slice_len sl)) by (unfold is_usize; lia).
  rewrite (IH _ _ _ _ l); [|lia|done|lia|lia| |done|done|lia|lia].
  - do 2 f_equal; [do 2 f_equal; lia|]. f_equal.
    rewrite <- (take_drop (Z.to_nat (slice_len sl)) (drop (Z.to_nat off) data)) at 2.
    rewrite write_locs_app by (rewrite length_take, length_drop; lia). rewrite drop_drop.
    do 2 f_equal. lia.
  - intros n Hn. rewrite write_locs_page; [by apply Hext|]. intros k. unfold slice_locs.
    intros (k' & [= -> ->] & _)%list_elem_of_fmap. rewrite Hsno in Hn. by destruct Hn.
Qed.
End inline.

(** The walk with the closure of [copy_to_user_inline]: the data is written
    through the slices of the checked translation. *)
Lemma walk_inline_exact m token lbl ptr data sls :
  let len := Z.of_nat (length data) in
  pt_tree m (PageTable_from_token token) lbl → 0 <= ptr → 0 < len → ptr + len <= 2 ^ 38 →
  translated_byte_buffer_checked m token ptr len true = Finished (Ret (Some sls)) →
  Forall (λ sl, lbl !! sl_ppn sl = None) sls →
  Z.of_nat (length (sls ≫= slice_locs)) = len ∧
  walk_user_write_slices (inline_copy data) token ptr len true (m, 0) =
    Ret (Finished (Ok len), (write_locs m (sls ≫= slice_locs) data, len)).
Proof.
  intros len Htree Hp Hl Hend Hc Hno.
  assert (is_usize ptr ∧ is_usize len) as [Hup Hul] by (unfold is_usize, USIZE; lia).
  destruct (checked_exact m token ptr len true Hup Hul) as (r & Hr & Hag).
  rewrite Hc in Hr. injection Hr as <-. unfold locs_agree in Hag.
  destruct (byte_locs _ _ _ _ _) as [locs|] eqn:Hlocs; simpl in Hag; [|done]. injection Hag as ->.
  pose proof (byte_locs_length _ _ _ _ _ _ (proj1 Hul) Hlocs) as Hlen. split; [done|].
  unfold walk_user_write_slices. unfold translated_byte_buffer_checked in Hc.
  destruct (Z.eqb_spec len 0); [lia|]. unfold checked_add in *.
  destruct (ptr + len <? USIZE); [|done]. unfold USIZE in *.
  erewrite (walk_inline_eq m _ lbl Htree data); try done; try (destruct Hul; fold len; lia).
  by rewrite Z.add_0_l, Z.sub_0_r.
Qed.

(** The allocation-free copy writes the same memory as the collecting
    one: on a buffer below 2^38 whose checked translation succeeds, and whose
    frames are not nodes of the page table, walking the table page by page and
    copying each chunk with the closure of [copy_to_user_inline] leaves the
    memory that [copy_to_user] leaves, and reports all bytes copied. *)
Theorem inline_copy_agrees m token lbl ptr data sls :
  let pt := PageTable_from_token token in
  let len := Z.of_nat (length data) in
  pt_tree m pt lbl → 0 < ptr → 0 < len → ptr + len <= 2 ^ 38 →
  translated_byte_buffer_checked m token ptr len true = Finished (Ret (Some sls)) →
  Forall (λ sl, lbl !! sl_ppn sl = None) sls →
  ∃ m', walk_user_write_slices (inline_copy data) token ptr len true (m, 0) =
          Ret (Finished (Ok len), (m', len)) ∧
        task_copy_to_user token ptr data m = Finished (Ret (Ok tt, m')).
Proof.
  intros pt len Htree Hp Hl Hend Hc Hno. exists (write_locs m (sls ≫= slice_locs) data).
  destruct (walk_inline_exact m token lbl ptr data sls) as [Hlen Hwalk]; [done|lia|done|done|done|done|].
  split; [done|]. pose proof (checked_wf _ _ _ _ _ _ (Z.lt_le_incl _ _ Hp) Hc) as Hwf.
  unfold task_copy_to_user. destruct (Z.eqb_spec ptr 0); [lia|].
  case_bool_decide; [subst data; done|]. fold len. rewrite Hc.
  rewrite copy_to_slices_eq; [|by apply slices_wf_ok|lia|unfold USIZE; fold len; lia|fold len; lia].
  by rewrite Z.eqb_refl.
Qed.

(** ** Examples: pages 5 (read-write) and 6 (read-only) of a small table *)

Definition demo_mem : pmem :=
  {[ 101 := {[0 := PageTableEntry_new 102 PTE_V]};
     102 := {[0 := PageTableEntry_new 103 PTE_V]};
     103 := {[5 := PageTableEntry_new 150 23; 6 := PageTableEntry_new 151 19]};
     150 := {[511 := 0x4847464544434241]};
     151 := {[0 := 0x4a49]} ]}.
Definition demo_token : Z := Z.lor (Z.shiftl 8 60) 101.
Definition demo_lbl : gmap Z node := {[101 := Root; 102 := Mid 0; 103 := Leaf 0 0]}.

Lemma demo_tree : pt_tree demo_mem (PageTable_from_token demo_token) demo_lbl.
Proof.
  assert (∀ i, pm_word demo_mem 101 i = if decide (i = 0) then PageTableEntry_new 102 PTE_V else 0) as H1.
  { intros i. unfold pm_word, pm_page. simpl. case_decide; by simplify_map_eq. }
  assert (∀ i, pm_word demo_mem 102 i = if decide (i = 0) then PageTableEntry_new 103 PTE_V else 0) as H2.
  { intros i. unfold pm_word, pm_page. simpl. case_decide; by simplify_map_eq. }
  split.
  - intros n. unfold demo_lbl. rewrite !lookup_insert_Some, lookup_singleton_Some.
    change (root_ppn _) with 101. naive_solver.
  - intros n pos idx c Hn Hidx Hc. unfold demo_lbl in Hn.
    apply lookup_insert_Some in Hn as [[<- <-]|[_ [[<- <-]|[_ Hn%lookup_singleton_Some]]%lookup_insert_Some]].
    + rewrite H1. case_decide as Hi; [|done]. subst. intros _. simpl in Hc. injection Hc as <-. by vm_compute.
    + rewrite H2. case_decide as Hi; [|done]. subst. intros _. simpl in Hc. injection Hc as <-. by vm_compute.
    + by destruct Hn as [<- <-].
Qed.

Lemma user_buffer_exact_witness :
  ∃ sls, translated_byte_buffer_checked demo_mem demo_token 24570 10 false = Finished (Ret (Some sls)) ∧
    sls ≫= slice_locs = (pair 150 <$> seqZ 4090 6) ++ (pair 151 <$> seqZ 0 4).
Proof.
  destruct (user_buffer_exact demo_mem demo_token 24570 10 false) as (r & Hr & _); [done|done|].
  exists [mkSlice 150 4090 4096; mkSlice 151 0 4]. split; [|by vm_compute].
  rewrite Hr. vm_compute in Hr. by rewrite <- Hr.
Defined.

Lemma copy_to_user_exact_witness :
  ∃ m', task_copy_to_user demo_token 20480 [7; 8; 9] demo_mem = Finished (Ret (Ok tt, m')) ∧
    read_locs m' [(150, 0); (150, 1); (150, 2)] = [7; 8; 9] ∧ pm_byte m' 151 1 = 0x4a.
Proof.
  destruct (copy_to_user_exact demo_mem demo_token 20480 [7; 8; 9]) as (r & m' & Hr & Hpost);
    [done|done|done|repeat constructor; lia|].
  exists m'. destruct r as [[]|[]]; [|by vm_compute in Hr].
  destruct Hpost as (locs & Hlocs & Hw & Ho). vm_compute in Hlocs. injection Hlocs as <-.
  split_and!; [done| |].
  - apply Hw. by apply (bool_decide_unpack (NoDup [(150, 0); (150, 1); (150, 2)])).
  - rewrite Ho; [done|done|]. by apply (bool_decide_unpack ((151, 1) ∉ [(150, 0); (150, 1); (150, 2)])).
Defined.

Lemma user_buffer_iter_exact_witness :
  UserBufferIterator_collect 11 (mkUBI [mkSlice 150 4090 4096; mkSlice 151 0 4] 0 0) =
    Finished (Ret ((pair 150 <$> seqZ 4090 6) ++ (pair 151 <$> seqZ 0 4))).
Proof.
  destruct (user_buffer_iter_exact demo_mem demo_token 24570 10 false
              [mkSlice 150 4090 4096; mkSlice 151 0 4] 11) as (locs & Hlocs & _ & Hit);
    [done|done|by vm_compute|lia|].
  vm_compute in Hlocs. injection Hlocs as <-. exact Hit.
Defined.

Lemma unchecked_buffer_agrees_witness :
  translated_byte_buffer 5 demo_mem demo_token 24570 10 =
    Finished (Ret [mkSlice 150 4090 4096; mkSlice 151 0 4]).
Proof.
  apply (unchecked_buffer_agrees demo_mem demo_token 24570 10 false); [done|done|done|by vm_compute|].
  vm_compute. lia.
Defined.

Lemma user_string_exact_witness :
  translated_str_checked 20 demo_mem demo_token 24568 =
    Finished (Some [0x41; 0x42; 0x43; 0x44; 0x45; 0x46; 0x47; 0x48; 0x49; 0x4a]).
Proof.
  destruct (user_string_exact demo_mem demo_token demo_lbl 24568
    [0x41; 0x42; 0x43; 0x44; 0x45; 0x46; 0x47; 0x48; 0x49; 0x4a]
    ((pair 150 <$> seqZ 4088 8) ++ (pair 151 <$> seqZ 0 2)) 20) as [Hok _];
    [apply demo_tree|done|done|simpl; lia|by vm_compute|by vm_compute|repeat constructor; lia|].
  by apply (Hok 151 2).
Defined.

Lemma inline_copy_agrees_witness :
  ∃ m', walk_user_write_slices (inline_copy [7; 8; 9]) demo_token 20480 3 true (demo_mem, 0) =
          Ret (Finished (Ok 3), (m', 3)).
Proof.
  destruct (inline_copy_agrees demo_mem demo_token demo_lbl 20480 [7; 8; 9] [mkSlice 150 0 3])
    as (m' & Hm' & _);
    [apply demo_tree|done|done|done|by vm_compute|by repeat constructor|]. by exists m'.
Defined.
