(* ===== verification/MapArea.v ===== *)
(** * Memory areas (os/src/mm/memory_set.rs, [MapArea])

    An area is a range of pages of one address space with its permission and
    the frames that back it.  A frame is held through an [Arc<FrameTracker>]:
    [data_frames] maps a page to the frame number, and the machine counts the
    references to each frame.  Operations on an area also change the page table
    of its address space and return both. *)

From stdpp Require Import base gmap list numbers list_numbers option fin_maps sets sorting.
From S2P Require Import Prelude Address FrameAllocator Machine PageTable.

(** ** Data *)

Inductive MapType : Type := Identical | Framed.
Inductive MapAreaKind : Type := Private | Shared.
Inductive MapAreaType : Type :=
| Kernel | ElfSegment | Heap | Stack | MmapAnon | MmapFile | Shm | Other.

#[export] Instance MapType_eq_dec : EqDecision MapType.
Proof. solve_decision. Defined.
#[export] Instance MapAreaKind_eq_dec : EqDecision MapAreaKind.
Proof. solve_decision. Defined.
#[export] Instance MapAreaType_eq_dec : EqDecision MapAreaType.
Proof. solve_decision. Defined.

Record MmapMeta : Type := mkMmapMeta {
  meta_shared : bool;
  meta_file_backed : bool;
  meta_file_writable : bool;
  meta_map_locked : bool;
}.

(** [MapPermission] *)
Definition MP_R : Z := Z.shiftl 1 1.
Definition MP_W : Z := Z.shiftl 1 2.
Definition MP_X : Z := Z.shiftl 1 3.
Definition MP_U : Z := Z.shiftl 1 4.

Definition map_perm_to_pte_flags (map_perm : Z) : Z :=
  let flags := PTE_V in
  let flags := if contains map_perm MP_R then Z.lor flags PTE_R else flags in
  let flags := if contains map_perm MP_W then Z.lor flags PTE_W else flags in
  let flags := if contains map_perm MP_X then Z.lor flags PTE_X else flags in
  if contains map_perm MP_U then Z.lor flags PTE_U else flags.

(** [F] is the type of open files. *)
Record MapArea (F : Type) : Type := mkMapArea {
  start_va : Z;
  vpn_range : VPNRange;
  data_frames : gmap Z Z;
  map_type : MapType;
  map_perm : Z;
  shared_frames : bool;
  mmap_meta : option MmapMeta;
  kind : MapAreaKind;
  area_type : MapAreaType;
  lazy : bool;
  file_back : option (F * Z);
}.
Arguments mkMapArea {F}.
Arguments start_va {F}.
Arguments vpn_range {F}.
Arguments data_frames {F}.
Arguments map_type {F}.
Arguments map_perm {F}.
Arguments shared_frames {F}.
Arguments mmap_meta {F}.
Arguments kind {F}.
Arguments area_type {F}.
Arguments lazy {F}.
Arguments file_back {F}.

Section area.
Context {F : Type}.
Implicit Types (a : MapArea F).

Definition area_start a : Z := vr_start (vpn_range a).
Definition area_end a : Z := vr_end (vpn_range a).

Definition set_frames (frames : gmap Z Z) a : MapArea F :=
  mkMapArea (start_va a) (vpn_range a) frames (map_type a) (map_perm a) (shared_frames a)
    (mmap_meta a) (kind a) (area_type a) (lazy a) (file_back a).
Definition set_range (r : VPNRange) a : MapArea F :=
  mkMapArea (start_va a) r (data_frames a) (map_type a) (map_perm a) (shared_frames a)
    (mmap_meta a) (kind a) (area_type a) (lazy a) (file_back a).
Definition set_start_va (va : Z) a : MapArea F :=
  mkMapArea va (vpn_range a) (data_frames a) (map_type a) (map_perm a) (shared_frames a)
    (mmap_meta a) (kind a) (area_type a) (lazy a) (file_back a).
Definition set_perm (perm : Z) a : MapArea F :=
  mkMapArea (start_va a) (vpn_range a) (data_frames a) (map_type a) perm (shared_frames a)
    (mmap_meta a) (kind a) (area_type a) (lazy a) (file_back a).
Definition set_lazy (l : bool) a : MapArea F :=
  mkMapArea (start_va a) (vpn_range a) (data_frames a) (map_type a) (map_perm a) (shared_frames a)
    (mmap_meta a) (kind a) (area_type a) l (file_back a).
Definition set_file_back (fb : option (F * Z)) a : MapArea F :=
  mkMapArea (start_va a) (vpn_range a) (data_frames a) (map_type a) (map_perm a) (shared_frames a)
    (mmap_meta a) (kind a) (area_type a) (lazy a) fb.

(** ** Constructors *)

Definition MapArea_new_with_type (start end_ : Z) (mt : MapType) (perm : Z) (at_ : MapAreaType)
    : MapArea F :=
  mkMapArea start (VPNRange_new (VirtAddr_floor start) (VirtAddr_ceil end_)) ∅ mt perm false None
    Private at_ false None.
Definition MapArea_new (start end_ : Z) (mt : MapType) (perm : Z) : MapArea F :=
  MapArea_new_with_type start end_ mt perm Other.
Definition MapArea_new_with_kind (start end_ : Z) (mt : MapType) (perm : Z) (k : MapAreaKind)
    : MapArea F :=
  mkMapArea start (VPNRange_new (VirtAddr_floor start) (VirtAddr_ceil end_)) ∅ mt perm false None
    k Other false None.
Definition MapArea_new_lazy (start end_ perm : Z) : MapArea F :=
  set_lazy true (MapArea_new start end_ Framed perm).
Definition MapArea_new_lazy_file (start end_ perm : Z) (file : F) (offset : Z) : MapArea F :=
  set_file_back (Some (file, offset)) (MapArea_new_lazy start end_ perm).
Definition MapArea_from_another a : MapArea F :=
  mkMapArea (start_va a) (VPNRange_new (area_start a) (area_end a)) ∅ (map_type a) (map_perm a)
    (shared_frames a) (mmap_meta a) (kind a) (area_type a) (lazy a) (file_back a).

Definition with_shared_frames a : MapArea F :=
  mkMapArea (start_va a) (vpn_range a) (data_frames a) (map_type a) (map_perm a) true
    (mmap_meta a) (kind a) (area_type a) (lazy a) (file_back a).
Definition with_kind (k : MapAreaKind) a : MapArea F :=
  mkMapArea (start_va a) (vpn_range a) (data_frames a) (map_type a) (map_perm a) (shared_frames a)
    (mmap_meta a) k (area_type a) (lazy a) (file_back a).
Definition with_mmap_meta (meta : MmapMeta) a : MapArea F :=
  mkMapArea (start_va a) (vpn_range a) (data_frames a) (map_type a) (map_perm a) (shared_frames a)
    (Some meta) (kind a) (area_type a) (lazy a) (file_back a).
Definition with_area_type (at_ : MapAreaType) a : MapArea F :=
  mkMapArea (start_va a) (vpn_range a) (data_frames a) (map_type a) (map_perm a) (shared_frames a)
    (mmap_meta a) (kind a) at_ (lazy a) (file_back a).

(** [BTreeMap::split_off]: the entries with key [>= split_vpn] move out. *)
Definition frames_split_off (frames : gmap Z Z) (split_vpn : Z) : gmap Z Z * gmap Z Z :=
  (filter (λ kv, kv.1 < split_vpn) frames, filter (λ kv, split_vpn <= kv.1) frames).

(** [split_off]: (the area that keeps the low part, the new high part). *)
Definition MapArea_split_off a (split_vpn : Z) : outcome (MapArea F * MapArea F) :=
  let start_vpn := area_start a in
  let end_vpn := area_end a in
  if negb ((start_vpn <=? split_vpn) && (split_vpn <=? end_vpn)) then Panic
  else
    let '(low, high) :=
      if decide (map_type a = Framed) then frames_split_off (data_frames a) split_vpn
      else (data_frames a, ∅) in
    let new_area :=
      mkMapArea (VirtAddr_from_VirtPageNum split_vpn) (VPNRange_new split_vpn end_vpn) high
        (map_type a) (map_perm a) (shared_frames a) (mmap_meta a) (kind a) (area_type a) (lazy a)
        (file_back a) in
    Ret (set_range (VPNRange_new start_vpn split_vpn) (set_frames low a), new_area).
End area.

(** ** Operations that change the page table *)

Section ops.
Context {A : Type} {FA : FrameAllocator A} {F : Type}.
Implicit Types (a : MapArea F) (pt : PageTable).

(** [BTreeMap::insert]: a replaced [Arc] is dropped. *)
Definition frames_insert (frames : gmap Z Z) (vpn ppn : Z) : M (machine A) (gmap Z Z) :=
  (match frames !! vpn with Some old => arc_drop old | None => m_ret tt end) ;;;
  m_ret (<[vpn := ppn]> frames).

(** [BTreeMap::remove(&vpn).is_some()]: the removed [Arc] is dropped. *)
Definition frames_remove (frames : gmap Z Z) (vpn : Z) : M (machine A) (bool * gmap Z Z) :=
  match frames !! vpn with
  | Some old => arc_drop old ;;; m_ret (true, delete vpn frames)
  | None => m_ret (false, frames)
  end.

(** The entries of a [BTreeMap] in key order. *)
Definition key_le (x y : Z * Z) : Prop := x.1 <= y.1.
#[local] Instance key_le_dec : RelDecision key_le.
Proof. intros x y. unfold key_le. apply _. Defined.
Definition frames_in_order (frames : gmap Z Z) : list (Z * Z) :=
  merge_sort key_le (map_to_list frames).

(** Dropping an area drops its frames. *)
Definition MapArea_drop a : M (machine A) unit :=
  m_for (frames_in_order (data_frames a)) (λ '(_, ppn), arc_drop ppn).

(** [page_table.translate(vpn)] if the entry is valid. *)
Definition translate_valid (pt : PageTable) (vpn : Z) : M (machine A) (option Z) :=
  let! s := m_get in
  m_ret (match PageTable_translate (mem s) pt vpn with
         | Some pte => if PageTableEntry_is_valid pte then Some pte else None
         | None => None
         end).

Definition MapArea_map_one a pt (vpn : Z) : M (machine A) (MapArea F * PageTable) :=
  let! old := translate_valid pt vpn in
  match old with
  | Some pte =>
      let old_ppn := PageTableEntry_ppn pte in
      let! new_frame := frame_alloc in
      let! new_ppn := m_unwrap new_frame in
      copy_page new_ppn old_ppn ;;;
      arc_new new_ppn ;;;
      let! frames := frames_insert (data_frames a) vpn new_ppn in
      let new_flags := map_perm a in
      let merged := Z.lor (PageTableEntry_flags pte) new_flags in
      PageTable_unmap pt vpn ;;;
      let! pt := PageTable_map pt vpn new_ppn merged in
      m_ret (set_frames frames a, pt)
  | None =>
      let! frame := frame_alloc in
      match frame with
      | None => m_ret (a, pt)
      | Some ppn =>
          fill_zero ppn ;;;
          arc_new ppn ;;;
          let! frames := frames_insert (data_frames a) vpn ppn in
          let pte_flags := map_perm a in
          let! pt := PageTable_map pt vpn ppn pte_flags in
          m_ret (set_frames frames a, pt)
      end
  end.

Definition MapArea_unmap_one a pt (vpn : Z) : M (machine A) (MapArea F * PageTable) :=
  let! (had_frame, frames) :=
    if decide (map_type a = Framed) then frames_remove (data_frames a) vpn
    else m_ret (false, data_frames a) in
  let! pte := translate_valid pt vpn in
  (if (had_frame || negb (lazy a)) && bool_decide (is_Some pte)
   then PageTable_unmap pt vpn ;;; m_ret tt else m_ret tt) ;;;
  m_ret (set_frames frames a, pt).

Definition MapArea_map a pt : M (machine A) (MapArea F * PageTable) :=
  m_fold (λ '(a, pt) vpn, MapArea_map_one a pt vpn) (VPNRange_iter (vpn_range a)) (a, pt).

Definition MapArea_unmap a pt : M (machine A) (MapArea F * PageTable) :=
  m_fold (λ '(a, pt) vpn, MapArea_unmap_one a pt vpn) (VPNRange_iter (vpn_range a)) (a, pt).

Definition MapArea_shrink_to a pt (new_end : Z) : M (machine A) (MapArea F * PageTable) :=
  let! (a, pt) := m_fold (λ '(a, pt) vpn, MapArea_unmap_one a pt vpn)
                    (VPNRange_iter (VPNRange_new new_end (area_end a))) (a, pt) in
  m_ret (set_range (VPNRange_new (area_start a) new_end) a, pt).

Definition MapArea_append_to a pt (new_end : Z) : M (machine A) (MapArea F * PageTable) :=
  let! (a, pt) :=
    if negb (lazy a) then
      m_fold (λ '(a, pt) vpn, MapArea_map_one a pt vpn)
        (VPNRange_iter (VPNRange_new (area_end a) new_end)) (a, pt)
    else m_ret (a, pt) in
  m_ret (set_range (VPNRange_new (area_start a) new_end) a, pt).

Definition MapArea_apply_perm a pt (new_perm : Z) : M (machine A) (MapArea F) :=
  let flags := map_perm_to_pte_flags new_perm in
  m_for (VPNRange_iter (vpn_range a)) (λ vpn, PageTable_change_pte_flags pt vpn flags ;;; m_ret tt) ;;;
  m_ret (set_perm new_perm a).

(** [copy_data]: one iteration per page of the data. *)
Fixpoint copy_data_loop (fuel : nat) a pt (data : list Z) (data_offset current_vpn : Z)
    (first_page : bool) : M (machine A) (looped unit) :=
  if data_offset <? Z.of_nat (length data) then
    match fuel with
    | O => m_ret OutOfFuel
    | S fuel =>
        let dst_offset := if first_page then VirtAddr_page_offset (start_va a) else 0 in
        let copy_len := Z.min (PAGE_SIZE - dst_offset) (Z.of_nat (length data) - data_offset) in
        let! s := m_get in
        let! pte := m_unwrap (PageTable_translate (mem s) pt current_vpn) in
        m_modify (set_mem (λ m, pm_write_bytes m (PageTableEntry_ppn pte) dst_offset
          (take (Z.to_nat copy_len) (drop (Z.to_nat data_offset) data)))) ;;;
        copy_data_loop fuel a pt data (data_offset + copy_len) (VirtPageNum_step current_vpn) false
    end
  else m_ret (Finished tt).
Definition MapArea_copy_data a pt (data : list Z) : M (machine A) (looped unit) :=
  copy_data_loop (S (length data)) a pt data 0 (area_start a) true.
End ops.
