(* ===== verification/MemorySet.v ===== *)
(** * Address spaces (os/src/mm/memory_set.rs, [MemorySet])

    An address space is a page table and a list of areas.  Operations that only
    touch frames and page tables run on the machine; those that also read or
    write files, or the cache of shared file pages, run on [fstate], which adds
    the file system and that cache to the machine.  Files are trait objects:
    [FileOps] has the methods the memory code calls. *)

From stdpp Require Import base gmap list numbers list_numbers option fin_maps sets sorting strings.
From S2P Require Import Prelude Address FrameAllocator Machine PageTable MapArea.

(** ** Files as the memory code sees them *)

Class FileOps (FS F I : Type) : Type := {
  file_path : F → option string;
  file_inode : F → option I;
  (** [format!("{:p}", Arc::as_ptr(&inode))] *)
  inode_ptr : I → string;
  (** [read_at_kernel(offset, page)]: the bytes it puts at the start of the
      page; their number is its result. *)
  read_at_kernel : F → Z → FS → list Z;
  (** [write_at(offset, data)] *)
  write_at : I → Z → list Z → FS → Z * FS;
}.

Record MemorySet (F : Type) : Type := mkMemorySet {
  page_table : PageTable;
  areas : list (MapArea F);
}.
Arguments mkMemorySet {F}.
Arguments page_table {F}.
Arguments areas {F}.

Inductive ProtectError : Type := PE_Unmapped | PE_AccessDenied.
Inductive MsyncError : Type := ME_Busy | ME_Unmapped.

(** ** Operations on the machine *)

Section ops.
Context {A : Type} {FA : FrameAllocator A} {F : Type}.
Implicit Types (ms : MemorySet F) (a : MapArea F).

Definition MemorySet_new_bare : M (machine A) (MemorySet F) :=
  let! pt := PageTable_new in m_ret (mkMemorySet pt []).

Definition MemorySet_token ms : Z := PageTable_token (page_table ms).
Definition MemorySet_translate (m : pmem) ms (vpn : Z) : option Z :=
  PageTable_translate m (page_table ms) vpn.

(** [push]; the data is copied when there is some. *)
Definition MemorySet_push ms a (data : option (list Z)) : M (machine A) (looped (MemorySet F)) :=
  let! (a, pt) := MapArea_map a (page_table ms) in
  let! r := match data with
            | Some data => MapArea_copy_data a pt data
            | None => m_ret (Finished tt)
            end in
  m_ret (match r with
         | Finished _ => Finished (mkMemorySet pt (areas ms ++ [a]))
         | OutOfFuel => OutOfFuel
         end).

(** [push(area, None)] *)
Definition MemorySet_push_none ms a : M (machine A) (MemorySet F) :=
  let! (a, pt) := MapArea_map a (page_table ms) in
  m_ret (mkMemorySet pt (areas ms ++ [a])).

Definition insert_framed_area ms (start end_ perm : Z) : M (machine A) (MemorySet F) :=
  MemorySet_push_none ms (MapArea_new start end_ Framed perm).
Definition insert_shared_framed_area ms (start end_ perm : Z) : M (machine A) (MemorySet F) :=
  MemorySet_push_none ms (with_shared_frames (MapArea_new start end_ Framed perm)).
Definition insert_mmap_area ms (start end_ perm : Z) (meta : MmapMeta) (at_ : MapAreaType)
    : M (machine A) (MemorySet F) :=
  let area :=
    if meta_shared meta then
      with_area_type at_ (with_shared_frames (with_mmap_meta meta
        (MapArea_new_with_kind start end_ Framed perm Shared)))
    else with_mmap_meta meta (MapArea_new_with_type start end_ Framed perm at_) in
  MemorySet_push_none ms area.
Definition insert_lazy_anon_area ms (start end_ perm : Z) (meta : MmapMeta) : MemorySet F :=
  let area := with_area_type MmapAnon (with_mmap_meta meta (MapArea_new_lazy start end_ perm)) in
  let area := if meta_shared meta then with_shared_frames (with_kind Shared area) else area in
  mkMemorySet (page_table ms) (areas ms ++ [area]).
Definition insert_lazy_file_area ms (start end_ perm : Z) (file : F) (file_offset : Z)
    (meta : MmapMeta) : MemorySet F :=
  let area := with_area_type MmapFile (with_mmap_meta meta
    (MapArea_new_lazy_file start end_ perm file file_offset)) in
  let area := if meta_shared meta then with_shared_frames (with_kind Shared area) else area in
  mkMemorySet (page_table ms) (areas ms ++ [area]).

(** The flags [insert_shm_area] computes from the permission. *)
Definition insert_shm_area ms (start end_ perm : Z) (frames : list Z)
    : M (machine A) (bool * MemorySet F) :=
  let area := with_area_type Shm (MapArea_new_with_kind start end_ Framed perm Shared) in
  let expected := saturating_sub (area_end area) (area_start area) in
  if negb (expected =? Z.of_nat (length frames)) then m_ret (false, ms)
  else
    let! (a, pt) := m_fold (λ '(a, pt) '(ppn, vpn),
        let flags := map_perm_to_pte_flags perm in
        let! pt := PageTable_map pt vpn ppn flags in
        arc_clone ppn ;;;
        let! fr := frames_insert (data_frames a) vpn ppn in
        m_ret (set_frames fr a, pt))
      (zip frames (VPNRange_iter (vpn_range area))) (area, page_table ms) in
    m_ret (true, mkMemorySet pt (areas ms ++ [a])).

(** [find(|(_, area)| area.start == start_vpn)], unmap and remove it. *)
Fixpoint remove_area_list (l : list (MapArea F)) (pt : PageTable) (start_vpn : Z)
    : M (machine A) (list (MapArea F) * PageTable) :=
  match l with
  | [] => m_ret ([], pt)
  | a :: l =>
      if area_start a =? start_vpn then
        let! (a, pt) := MapArea_unmap a pt in
        MapArea_drop a ;;;
        m_ret (l, pt)
      else
        let! (l, pt) := remove_area_list l pt start_vpn in
        m_ret (a :: l, pt)
  end.
Definition remove_area_with_start_vpn ms (start_vpn : Z) : M (machine A) (MemorySet F) :=
  let! (l, pt) := remove_area_list (areas ms) (page_table ms) start_vpn in
  m_ret (mkMemorySet pt l).

(** *** [unmap_range]

    The source walks the areas by index; each iteration looks at one area and
    either removes it, replaces it, or moves on, so the walk is a recursion on
    the list. *)

Definition protected_area a : bool :=
  bool_decide (area_type a = Heap) || bool_decide (area_type a = Stack)
  || bool_decide (area_type a = ElfSegment).

(** One page of the overlap. *)
Definition unmap_overlap_page a (pt : PageTable) (vpn : Z) : M (machine A) (MapArea F * PageTable) :=
  if decide (is_Some (data_frames a !! vpn)) then MapArea_unmap_one a pt vpn
  else
    let! pte := translate_valid pt vpn in
    (if negb (lazy a) && bool_decide (is_Some pte) then PageTable_unmap pt vpn ;;; m_ret tt
     else m_ret tt) ;;;
    m_ret (a, pt).

(** One page of the orphaned tail. *)
Definition unmap_tail_page a (pt : PageTable) (vpn : Z) : M (machine A) (MapArea F * PageTable) :=
  let! (had_frame, frames) := frames_remove (data_frames a) vpn in
  let a := set_frames frames a in
  let! pte := translate_valid pt vpn in
  (if (had_frame || negb (lazy a)) && bool_decide (is_Some pte)
   then PageTable_unmap pt vpn ;;; m_ret tt else m_ret tt) ;;;
  m_ret (a, pt).

(** The partial-overlap branch. *)
Definition unmap_partial a (pt : PageTable) (start_vpn end_vpn : Z)
    : M (machine A) (MapArea F * PageTable) :=
  let overlap_start := Z.max (area_start a) start_vpn in
  let overlap_end := Z.min (area_end a) end_vpn in
  let! (a', pt) := m_fold (λ '(a, pt) vpn, unmap_overlap_page a pt vpn)
                     (seqZ overlap_start (overlap_end - overlap_start)) (a, pt) in
  if overlap_start =? area_start a then
    m_ret (set_start_va (VirtAddr_from_VirtPageNum overlap_end)
             (set_range (VPNRange_new overlap_end (area_end a)) a'), pt)
  else if overlap_end =? area_end a then
    m_ret (set_range (VPNRange_new (area_start a) overlap_start) a', pt)
  else
    let! (a', pt) := m_fold (λ '(a, pt) vpn, unmap_tail_page a pt vpn)
                       (seqZ overlap_end (area_end a - overlap_end)) (a', pt) in
    m_ret (set_range (VPNRange_new (area_start a) overlap_start) a', pt).

Fixpoint unmap_range_list (l : list (MapArea F)) (pt : PageTable) (start_vpn end_vpn : Z)
    : M (machine A) (list (MapArea F) * PageTable) :=
  match l with
  | [] => m_ret ([], pt)
  | a :: l =>
      if protected_area a || (area_end a <=? start_vpn) || (end_vpn <=? area_start a) then
        let! (l, pt) := unmap_range_list l pt start_vpn end_vpn in
        m_ret (a :: l, pt)
      else if (start_vpn <=? area_start a) && (area_end a <=? end_vpn) then
        let! (a, pt) := MapArea_unmap a pt in
        MapArea_drop a ;;;
        unmap_range_list l pt start_vpn end_vpn
      else
        let! (a, pt) := unmap_partial a pt start_vpn end_vpn in
        let! (l, pt) := unmap_range_list l pt start_vpn end_vpn in
        m_ret (a :: l, pt)
  end.
Definition unmap_range ms (start end_ : Z) : M (machine A) (MemorySet F) :=
  let start_vpn := VirtAddr_floor start in
  let end_vpn := VirtAddr_ceil end_ in
  if end_vpn <=? start_vpn then m_ret ms
  else
    let! (l, pt) := unmap_range_list (areas ms) (page_table ms) start_vpn end_vpn in
    m_ret (mkMemorySet pt l).

(** *** [change_protection] *)

(** The largest end of an area that covers [cursor]. *)
Definition covered_end (l : list (MapArea F)) (cursor : Z) : option Z :=
  foldl (λ next_end a,
    if (area_start a <=? cursor) && (cursor <? area_end a) then
      Some (match next_end with Some cur => Z.max cur (area_end a) | None => area_end a end)
    else next_end) None l.

Fixpoint protect_covered (fuel : nat) (l : list (MapArea F)) (cursor end_vpn : Z) : looped bool :=
  if cursor <? end_vpn then
    match fuel with
    | O => OutOfFuel
    | S fuel =>
        match covered_end l cursor with
        | None => Finished false
        | Some e => protect_covered fuel l (Z.min e end_vpn) end_vpn
        end
    end
  else Finished true.

Definition protect_denied (l : list (MapArea F)) (start_vpn end_vpn new_perm : Z) : bool :=
  existsb (λ a,
    (area_start a <? end_vpn) && (start_vpn <? area_end a) &&
    match mmap_meta a with
    | Some meta => meta_file_backed meta && meta_shared meta && contains new_perm MP_W
                   && negb (meta_file_writable meta)
    | None => false
    end) l.

(** The pieces an area is split into, and the new permission applied to the
    one inside the range. *)
Definition protect_area a (pt : PageTable) (start_vpn end_vpn new_perm : Z)
    : M (machine A) (list (MapArea F)) :=
  if (area_end a <=? start_vpn) || (end_vpn <=? area_start a) then m_ret [a]
  else
    let modify_start := Z.max (area_start a) start_vpn in
    let modify_end := Z.min (area_end a) end_vpn in
    if (modify_start =? area_start a) && (modify_end =? area_end a) then
      let! a := MapArea_apply_perm a pt new_perm in m_ret [a]
    else if modify_start =? area_start a then
      match MapArea_split_off a modify_end with
      | Panic => m_panic
      | Ret (a, right_) =>
          let! a := MapArea_apply_perm a pt new_perm in m_ret [a; right_]
      end
    else if modify_end =? area_end a then
      match MapArea_split_off a modify_start with
      | Panic => m_panic
      | Ret (a, middle) =>
          let! middle := MapArea_apply_perm middle pt new_perm in m_ret [a; middle]
      end
    else
      match MapArea_split_off a modify_start with
      | Panic => m_panic
      | Ret (a, middle) =>
          match MapArea_split_off middle modify_end with
          | Panic => m_panic
          | Ret (middle, right_) =>
              let! middle := MapArea_apply_perm middle pt new_perm in m_ret [a; middle; right_]
          end
      end.

Fixpoint protect_list (l : list (MapArea F)) (pt : PageTable) (start_vpn end_vpn new_perm : Z)
    : M (machine A) (list (MapArea F)) :=
  match l with
  | [] => m_ret []
  | a :: l =>
      let! pieces := protect_area a pt start_vpn end_vpn new_perm in
      let! l := protect_list l pt start_vpn end_vpn new_perm in
      m_ret (pieces ++ l)
  end.

Definition change_protection ms (start end_ new_perm : Z)
    : M (machine A) (looped (result unit ProtectError) * MemorySet F) :=
  let start_vpn := VirtAddr_floor start in
  let end_vpn := VirtAddr_ceil end_ in
  if end_vpn <=? start_vpn then m_ret (Finished (Ok tt), ms)
  else
    match protect_covered (Z.to_nat (end_vpn - start_vpn)) (areas ms) start_vpn end_vpn with
    | OutOfFuel => m_ret (OutOfFuel, ms)
    | Finished false => m_ret (Finished (Err PE_Unmapped), ms)
    | Finished true =>
        if protect_denied (areas ms) start_vpn end_vpn new_perm
        then m_ret (Finished (Err PE_AccessDenied), ms)
        else
          let! l := protect_list (areas ms) (page_table ms) start_vpn end_vpn new_perm in
          m_ret (Finished (Ok tt), mkMemorySet (page_table ms) l)
    end.

(** *** Heap *)

Definition find_heap_index ms : option nat :=
  fst <$> list_find (λ a, area_type a = Heap) (areas ms).

Definition heap_expand_conflicts ms (heap_bottom new_end : Z) : bool :=
  let heap_start_vpn := VirtAddr_floor heap_bottom in
  let heap_end_vpn := VirtAddr_ceil new_end in
  existsb (λ a,
    if bool_decide (area_type a = Heap) then false
    else (area_start a <? heap_end_vpn) && (heap_start_vpn <? area_end a)) (areas ms).

(** Run an area operation on [areas[idx]]. *)
Definition with_area ms (idx : nat)
    (f : MapArea F → PageTable → M (machine A) (MapArea F * PageTable)) : M (machine A) (MemorySet F) :=
  let! a := m_unwrap (areas ms !! idx) in
  let! (a, pt) := f a (page_table ms) in
  m_ret (mkMemorySet pt (<[idx := a]> (areas ms))).

Definition shrink_heap_to ms (new_end : Z) : M (machine A) (bool * MemorySet F) :=
  match find_heap_index ms with
  | Some idx =>
      let! ms := with_area ms idx (λ a pt, MapArea_shrink_to a pt (VirtAddr_ceil new_end)) in
      m_ret (true, ms)
  | None => m_ret (false, ms)
  end.

Definition append_heap_to ms (new_end heap_bottom : Z) : M (machine A) (bool * MemorySet F) :=
  let! check_start :=
    match find_heap_index ms with
    | Some idx =>
        let! a := m_unwrap (areas ms !! idx) in m_ret (VirtAddr_from_VirtPageNum (area_end a))
    | None => m_ret heap_bottom
    end in
  if heap_expand_conflicts ms check_start new_end then m_ret (false, ms)
  else
    match find_heap_index ms with
    | Some idx =>
        let! ms := with_area ms idx (λ a pt, MapArea_append_to a pt (VirtAddr_ceil new_end)) in
        m_ret (true, ms)
    | None =>
        let area := with_area_type Heap
          (MapArea_new_lazy heap_bottom new_end (Z.lor (Z.lor MP_R MP_W) MP_U)) in
        let! ms := MemorySet_push_none ms area in
        m_ret (true, ms)
    end.

Definition find_area_at ms (start_vpn : Z) : option nat :=
  fst <$> list_find (λ a, area_start a = start_vpn) (areas ms).

Definition MemorySet_shrink_to ms (start new_end : Z) : M (machine A) (bool * MemorySet F) :=
  match find_area_at ms (VirtAddr_floor start) with
  | Some idx =>
      let! ms := with_area ms idx (λ a pt, MapArea_shrink_to a pt (VirtAddr_ceil new_end)) in
      m_ret (true, ms)
  | None => m_ret (false, ms)
  end.
Definition MemorySet_append_to ms (start new_end : Z) : M (machine A) (bool * MemorySet F) :=
  match find_area_at ms (VirtAddr_floor start) with
  | Some idx =>
      let! ms := with_area ms idx (λ a pt, MapArea_append_to a pt (VirtAddr_ceil new_end)) in
      m_ret (true, ms)
  | None => m_ret (false, ms)
  end.

(** *** Queries *)

Definition area_contains a (vpn : Z) : bool := (area_start a <=? vpn) && (vpn <? area_end a).

(** The walk of [is_user_range_writable]. *)
Fixpoint is_user_range_writable_loop (fuel : nat) (m : pmem) ms (va end_ : Z) : looped bool :=
  if va <? end_ then
    match fuel with
    | O => OutOfFuel
    | S fuel =>
        let vpn := VirtAddr_floor (VirtAddr_from_usize va) in
        if negb (existsb (λ a, area_contains a vpn && contains (map_perm a) MP_U
                               && contains (map_perm a) MP_W) (areas ms)) then Finished false
        else
          match PageTable_translate m (page_table ms) vpn with
          | None => Finished false
          | Some pte =>
              if negb (PageTableEntry_is_valid pte)
                 || negb (contains (PageTableEntry_flags pte) PTE_U) then Finished false
              else
                let next_page := (va / PAGE_SIZE +w 1) *w PAGE_SIZE in
                is_user_range_writable_loop fuel m ms (Z.max next_page (va +w 1)) end_
          end
    end
  else Finished true.
Definition is_user_range_writable (m : pmem) ms (start len : Z) : looped bool :=
  if len =? 0 then Finished true
  else
    match checked_add start len with
    | None => Finished false
    | Some end_ => is_user_range_writable_loop (Z.to_nat (len / PAGE_SIZE + 2)) m ms start end_
    end.

Fixpoint is_user_range_mapped_area_loop (fuel : nat) ms (va end_ : Z) : looped bool :=
  if va <? end_ then
    match fuel with
    | O => OutOfFuel
    | S fuel =>
        let vpn := VirtAddr_floor (VirtAddr_from_usize va) in
        if negb (existsb (λ a, area_contains a vpn && contains (map_perm a) MP_U) (areas ms))
        then Finished false
        else
          let next_page := (va / PAGE_SIZE +w 1) *w PAGE_SIZE in
          is_user_range_mapped_area_loop fuel ms (Z.max next_page (va +w 1)) end_
    end
  else Finished true.
Definition is_user_range_mapped_area ms (start len : Z) : looped bool :=
  if len =? 0 then Finished true
  else
    match checked_add start len with
    | None => Finished false
    | Some end_ => is_user_range_mapped_area_loop (Z.to_nat (len / PAGE_SIZE + 2)) ms start end_
    end.

Definition area_overlaps (start_vpn end_vpn : Z) a : bool :=
  (area_start a <? end_vpn) && (start_vpn <? area_end a).
Definition overlap_count ms (start end_ : Z) : Z :=
  Z.of_nat (length (filter (λ a, Is_true (area_overlaps (VirtAddr_floor start) (VirtAddr_ceil end_) a))
                      (areas ms))).
Definition overlap_ranges ms (start end_ : Z) : list (Z * Z) :=
  (λ a, (VirtAddr_from_VirtPageNum (area_start a), VirtAddr_from_VirtPageNum (area_end a)))
    <$> filter (λ a, Is_true (area_overlaps (VirtAddr_floor start) (VirtAddr_ceil end_) a)) (areas ms).

(** [areas.clear()] *)
Definition recycle_data_pages ms : M (machine A) (MemorySet F) :=
  m_for (areas ms) MapArea_drop ;;;
  m_ret (mkMemorySet (page_table ms) []).

(** Dropping the address space: fields in declaration order. *)
Definition MemorySet_drop ms : M (machine A) unit :=
  PageTable_drop (page_table ms) ;;;
  m_for (areas ms) MapArea_drop.

(** *** Copy on write *)

(** The child's flags for a page of a shared area; the parent's entry regains
    [W] when the area is writable. *)
Definition fork_shared_page (area : MapArea F) (parent_pt : PageTable) (vpn src_flags ppn : Z)
    (new_area : MapArea F) (child_pt : PageTable) : M (machine A) (MapArea F * PageTable) :=
  let! shared_flags :=
    if contains (map_perm area) MP_W then
      let shared_flags := Z.lor src_flags PTE_W in
      (if negb (contains src_flags PTE_W)
       then PageTable_change_pte_flags parent_pt vpn shared_flags ;;; m_ret tt else m_ret tt) ;;;
      m_ret shared_flags
    else m_ret (Z.ldiff src_flags PTE_W) in
  let! child_pt := PageTable_map child_pt vpn ppn shared_flags in
  let! frames := frames_insert (data_frames new_area) vpn ppn in
  m_ret (set_frames frames new_area, child_pt).

(** A tracked page of a private area. *)
Definition fork_private_page (area : MapArea F) (parent_pt : PageTable) (vpn src_flags ppn : Z)
    (new_area : MapArea F) (child_pt : PageTable) : M (machine A) (MapArea F * PageTable) :=
  let is_writable := contains (map_perm area) MP_W in
  (if is_writable && contains src_flags PTE_W
   then PageTable_change_pte_flags parent_pt vpn (Z.ldiff src_flags PTE_W) ;;; m_ret tt
   else m_ret tt) ;;;
  let child_flags := if is_writable then Z.ldiff src_flags PTE_W else src_flags in
  let! child_pt := PageTable_map child_pt vpn ppn child_flags in
  let! frames := frames_insert (data_frames new_area) vpn ppn in
  m_ret (set_frames frames new_area, child_pt).

(** One page of the full-range scan. *)
Definition fork_page (area : MapArea F) (parent_pt : PageTable) (st : MapArea F * PageTable) (vpn : Z)
    : M (machine A) (MapArea F * PageTable) :=
  let '(new_area, child_pt) := st in
  let! pte := translate_valid parent_pt vpn in
  match pte with
  | None => m_ret (new_area, child_pt)
  | Some src_pte =>
      let src_ppn := PageTableEntry_ppn src_pte in
      let src_flags := PageTableEntry_flags src_pte in
      let is_shared := bool_decide (kind area = Shared) in
      let is_writable := contains (map_perm area) MP_W && negb is_shared in
      match data_frames area !! vpn with
      | Some ppn =>
          arc_clone ppn ;;;
          if is_shared then fork_shared_page area parent_pt vpn src_flags ppn new_area child_pt
          else fork_private_page area parent_pt vpn src_flags ppn new_area child_pt
      | None =>
          let! frame := frame_alloc in
          let! ppn := m_unwrap frame in
          copy_page ppn src_ppn ;;;
          arc_new ppn ;;;
          (if is_writable
           then PageTable_change_pte_flags parent_pt vpn (Z.ldiff src_flags PTE_W) ;;; m_ret tt
           else m_ret tt) ;;;
          let child_flags := if is_writable then Z.ldiff src_flags PTE_W else src_flags in
          let! child_pt := PageTable_map child_pt vpn ppn child_flags in
          let! frames := frames_insert (data_frames new_area) vpn ppn in
          m_ret (set_frames frames new_area, child_pt)
      end
  end.

(** One entry of the materialized pages of a large area. *)
Definition fork_sparse_page (area : MapArea F) (parent_pt : PageTable) (st : MapArea F * PageTable)
    (entry : Z * Z) : M (machine A) (MapArea F * PageTable) :=
  let '(new_area, child_pt) := st in
  let '(vpn, ppn) := entry in
  let! pte := translate_valid parent_pt vpn in
  match pte with
  | None => m_ret (new_area, child_pt)
  | Some src_pte =>
      let src_flags := PageTableEntry_flags src_pte in
      arc_clone ppn ;;;
      if bool_decide (kind area = Shared)
      then fork_shared_page area parent_pt vpn src_flags ppn new_area child_pt
      else fork_private_page area parent_pt vpn src_flags ppn new_area child_pt
  end.

Definition FULL_VPN_SCAN_LIMIT : Z := 4096.

Definition fork_area (parent_pt : PageTable) (child : MemorySet F) (area : MapArea F)
    : M (machine A) (MemorySet F) :=
  let new_area := MapArea_from_another area in
  let area_pages := saturating_sub (area_end area) (area_start area) in
  let! (new_area, child_pt) :=
    if area_pages <=? FULL_VPN_SCAN_LIMIT
    then m_fold (fork_page area parent_pt) (VPNRange_iter (vpn_range area)) (new_area, page_table child)
    else m_fold (fork_sparse_page area parent_pt) (frames_in_order (data_frames area))
           (new_area, page_table child) in
  m_ret (mkMemorySet child_pt (areas child ++ [new_area])).

Definition from_existed_user (parent_space : MemorySet F) : M (machine A) (MemorySet F) :=
  let! child := MemorySet_new_bare in
  m_fold (fork_area (page_table parent_space)) (areas parent_space) child.

Definition handle_cow_fault ms (addr : Z) : M (machine A) (bool * MemorySet F) :=
  let fault_vpn := VirtAddr_floor (VirtAddr_from_usize addr) in
  match list_find (λ a, Is_true (area_contains a fault_vpn)) (areas ms) with
  | None => m_ret (false, ms)
  | Some (idx, area) =>
      if negb (contains (map_perm area) MP_W) then m_ret (false, ms)
      else
        let! pte := translate_valid (page_table ms) fault_vpn in
        match pte with
        | None => m_ret (false, ms)
        | Some pte =>
            if PageTableEntry_writable pte then m_ret (false, ms)
            else
              let new_flags := Z.lor (PageTableEntry_flags pte) PTE_W in
              if bool_decide (kind area = Shared) then
                PageTable_change_pte_flags (page_table ms) fault_vpn new_flags ;;;
                m_ret (true, ms)
              else
                let old_ppn := PageTableEntry_ppn pte in
                match data_frames area !! fault_vpn with
                | None => m_ret (false, ms)
                | Some frame_arc =>
                    let! count := arc_strong_count frame_arc in
                    if count =? 1 then
                      PageTable_change_pte_flags (page_table ms) fault_vpn new_flags ;;;
                      m_ret (true, ms)
                    else
                      let! new_frame := frame_alloc in
                      match new_frame with
                      | None => m_ret (false, ms)
                      | Some new_ppn =>
                          copy_page new_ppn old_ppn ;;;
                          arc_new new_ppn ;;;
                          let! frames := frames_insert (data_frames area) fault_vpn new_ppn in
                          let! pt := PageTable_map (page_table ms) fault_vpn new_ppn new_flags in
                          m_ret (true, mkMemorySet pt (<[idx := set_frames frames area]> (areas ms)))
                      end
                end
        end
  end.

(** One page of [sync_user_writable_from]. *)
Definition sync_page (dst src : PageTable) (copied : Z) (vpn : Z) : M (machine A) Z :=
  let! s := m_get in
  match PageTable_translate (mem s) src vpn, PageTable_translate (mem s) dst vpn with
  | Some src_pte, Some dst_pte =>
      if negb (PageTableEntry_is_valid src_pte) || negb (PageTableEntry_is_valid dst_pte)
         || (PageTableEntry_ppn src_pte =? PageTableEntry_ppn dst_pte) then m_ret copied
      else
        copy_page (PageTableEntry_ppn dst_pte) (PageTableEntry_ppn src_pte) ;;;
        m_ret (copied + 1)
  | _, _ => m_ret copied
  end.
Definition sync_user_writable_from (dst src : MemorySet F) : M (machine A) Z :=
  m_fold (λ copied a,
    if negb (contains (map_perm a) MP_U) || negb (contains (map_perm a) MP_W) then m_ret copied
    else m_fold (sync_page (page_table dst) (page_table src)) (VPNRange_iter (vpn_range a)) copied)
    (areas src) 0.
End ops.

(** ** Operations that also use files *)

Section file_ops.
Context {A : Type} {FA : FrameAllocator A} {FS F I : Type} {FO : FileOps FS F I}.
Implicit Types (ms : MemorySet F) (a : MapArea F).

(** The cache of shared file pages is keyed by file id and page offset. *)
Record fstate : Type := mkFstate {
  mach : machine A;
  fs : FS;
  page_cache : gmap (string * Z) Z;
}.

Definition lift {B} (m : M (machine A) B) : M fstate B := λ s,
  match m (mach s) with
  | Ret (b, s') => Ret (b, mkFstate s' (fs s) (page_cache s))
  | Panic => Panic
  end.

Definition shared_file_id (file : F) : option string :=
  match file_path file with
  | Some path => Some (("path:" : string) +:+ path)
  | None => (λ i, ("inode:" : string) +:+ inode_ptr i) <$> file_inode file
  end.

(** [page[..nread]] is the file's data and the rest is cleared. *)
Definition read_page (file : F) (ppn off : Z) : M fstate unit :=
  let! s := m_get in
  let data := read_at_kernel file off (fs s) in
  lift (m_modify (set_mem (λ m, pm_write_bytes m ppn 0 data))) ;;;
  (if Z.of_nat (length data) <? PAGE_SIZE
   then lift (m_modify (set_mem (λ m, pm_write_bytes m ppn (Z.of_nat (length data))
                (replicate (Z.to_nat PAGE_SIZE - length data) 0))))
   else m_ret tt).

Definition alloc_file_page_from_backing (file : F) (page_offset : Z) : M fstate (option Z) :=
  let! frame := lift frame_alloc in
  match frame with
  | None => m_ret None
  | Some ppn =>
      lift (arc_new ppn) ;;;
      read_page file ppn page_offset ;;;
      m_ret (Some ppn)
  end.

Definition cache_insert (key : string * Z) (ppn : Z) : M fstate unit :=
  m_modify (λ s, mkFstate (mach s) (fs s) (<[key := ppn]> (page_cache s))).

Definition get_or_alloc_shared_file_page (file : F) (page_offset : Z) : M fstate (option Z) :=
  match shared_file_id file with
  | None => m_ret None
  | Some file_id =>
      let key := (file_id, page_offset) in
      let! s := m_get in
      match page_cache s !! key with
      | Some ppn => lift (arc_clone ppn) ;;; m_ret (Some ppn)
      | None =>
          let! new_frame := alloc_file_page_from_backing file page_offset in
          match new_frame with
          | None => m_ret None
          | Some ppn =>
              let! s := m_get in
              match page_cache s !! key with
              | Some frame => lift (arc_clone frame) ;;; lift (arc_drop ppn) ;;; m_ret (Some frame)
              | None =>
                  lift (arc_clone ppn) ;;;
                  cache_insert key ppn ;;;
                  m_ret (Some ppn)
              end
          end
      end
  end.

(** [retain(|k, _| k.file_id != "path:..")]: the dropped entries release their
    frame. *)
Definition invalidate_shared_file_pages_by_path (path : string) : M fstate unit :=
  let! s := m_get in
  let key_prefix := ("path:" : string) +:+ path in
  let gone := filter (λ kv : string * Z * Z, kv.1.1 = key_prefix) (page_cache s) in
  m_modify (λ s, mkFstate (mach s) (fs s)
    (filter (λ kv : string * Z * Z, kv.1.1 ≠ key_prefix) (page_cache s))) ;;;
  m_for (map_to_list gone) (λ '(_, ppn), lift (arc_drop ppn)).

Definition insert_shared_file_mmap_area ms (start end_ perm : Z) (file : F) (file_offset : Z)
    (meta : MmapMeta) : M fstate (MemorySet F) :=
  let area := set_file_back (Some (file, file_offset)) (with_area_type MmapFile
    (with_shared_frames (with_mmap_meta meta
      (MapArea_new_with_kind start end_ Framed perm Shared)))) in
  let pte_flags := map_perm_to_pte_flags perm in
  let start_vpn := area_start area in
  let! (a, pt) := m_fold (λ '(a, pt) vpn,
      let page_idx := saturating_sub vpn start_vpn in
      match checked_add file_offset (page_idx *w PAGE_SIZE) with
      | None => m_ret (a, pt)
      | Some read_off =>
          let! frame := get_or_alloc_shared_file_page file read_off in
          let! frame := match frame with
                        | Some ppn => m_ret (Some ppn)
                        | None => alloc_file_page_from_backing file read_off
                        end in
          match frame with
          | None => m_ret (a, pt)
          | Some ppn =>
              let! pt := lift (PageTable_map pt vpn ppn pte_flags) in
              let! frames := lift (frames_insert (data_frames a) vpn ppn) in
              m_ret (set_frames frames a, pt)
          end
      end)
    (VPNRange_iter (VPNRange_new start_vpn (area_end area))) (area, page_table ms) in
  m_ret (mkMemorySet pt (areas ms ++ [a])).

Definition handle_demand_fault ms (addr : Z) : M fstate (bool * MemorySet F) :=
  let fault_vpn := VirtAddr_floor (VirtAddr_from_usize addr) in
  match list_find (λ a, Is_true (lazy a && area_contains a fault_vpn)) (areas ms) with
  | None => m_ret (false, ms)
  | Some (idx, a) =>
      let! old := lift (translate_valid (page_table ms) fault_vpn) in
      match old with
      | Some _ => m_ret (false, ms)
      | None =>
          let file_info := (λ '(f, base_off),
            (f, base_off +w ((fault_vpn -w area_start a) *w PAGE_SIZE))) <$> file_back a in
          let! (a, pt) := lift (MapArea_map_one a (page_table ms) fault_vpn) in
          let ms := mkMemorySet pt (<[idx := a]> (areas ms)) in
          let! pte := lift (translate_valid pt fault_vpn) in
          match pte with
          | None => m_ret (false, ms)
          | Some pte =>
              match file_info with
              | None => m_ret (true, ms)
              | Some (file, file_off) =>
                  let! s := m_get in
                  lift (m_modify (set_mem (λ m,
                    pm_write_bytes m (PageTableEntry_ppn pte) 0 (read_at_kernel file file_off (fs s))))) ;;;
                  m_ret (true, ms)
              end
          end
      end
  end.

(** One page of [msync_file_range]: the bytes flushed so far. *)
Definition msync_page (pt : PageTable) (file : F) (inode : I) (base_off_u64 area_start_vpn start end_ : Z)
    (ms_invalidate ms_writeback : bool) (flushed vpn : Z) : M fstate Z :=
  let page_start := usize_from_VirtAddr (VirtAddr_from_VirtPageNum vpn) in
  let page_end := saturating_add page_start PAGE_SIZE in
  let sync_start := Z.max start page_start in
  let sync_end := Z.min end_ page_end in
  if sync_end <=? sync_start then m_ret flushed
  else
    let! pte := lift (translate_valid pt vpn) in
    match pte with
    | None => m_ret flushed
    | Some pte =>
        let page_idx := saturating_sub vpn area_start_vpn in
        match checked_add base_off_u64 (page_idx *w PAGE_SIZE) with
        | None => m_ret flushed
        | Some base_off =>
            let delta := sync_start - page_start in
            match checked_add base_off delta with
            | None => m_ret flushed
            | Some file_off =>
                if ms_invalidate && negb ms_writeback then
                  read_page file (PageTableEntry_ppn pte) base_off ;;;
                  m_ret flushed
                else
                  let! s := m_get in
                  let bytes := (λ k, pm_byte (mem (mach s)) (PageTableEntry_ppn pte) k)
                                 <$> seqZ delta (sync_end - sync_start) in
                  let '(n, fs') := write_at inode file_off bytes (fs s) in
                  m_put (mkFstate (mach s) fs' (page_cache s)) ;;;
                  m_ret (flushed +w n)
            end
        end
    end.

(** The walk over the areas: an early [Err] ends it. *)
Fixpoint msync_areas (l : list (MapArea F)) (pt : PageTable) (start end_ start_vpn end_vpn : Z)
    (ms_invalidate ms_writeback covered : bool) (flushed : Z) : M fstate (result Z MsyncError) :=
  match l with
  | [] => m_ret (if covered then Ok flushed else Err ME_Unmapped)
  | a :: l =>
      let continue covered flushed :=
        msync_areas l pt start end_ start_vpn end_vpn ms_invalidate ms_writeback covered flushed in
      if (area_end a <=? start_vpn) || (end_vpn <=? area_start a) then continue covered flushed
      else
        match mmap_meta a with
        | None => continue true flushed
        | Some meta =>
            if ms_invalidate && meta_map_locked meta then m_ret (Err ME_Busy)
            else if negb (meta_file_backed meta && meta_shared meta) then continue true flushed
            else
              match file_back a with
              | None => continue true flushed
              | Some (file, base_off) =>
                  match file_inode file with
                  | None => continue true flushed
                  | Some inode =>
                      let overlap_start := Z.max (area_start a) start_vpn in
                      let overlap_end := Z.min (area_end a) end_vpn in
                      let! flushed := m_fold
                        (msync_page pt file inode base_off (area_start a) start end_ ms_invalidate ms_writeback)
                        (seqZ overlap_start (overlap_end - overlap_start)) flushed in
                      continue true flushed
                  end
              end
        end
  end.
Definition msync_file_range ms (start end_ : Z) (ms_invalidate ms_writeback : bool)
    : M fstate (result Z MsyncError) :=
  let start_vpn := VirtAddr_floor start in
  let end_vpn := VirtAddr_ceil end_ in
  if end_vpn <=? start_vpn then m_ret (Ok 0)
  else msync_areas (areas ms) (page_table ms) start end_ start_vpn end_vpn
         ms_invalidate ms_writeback false 0.
End file_ops.

Arguments fstate A {FS}.
Arguments mkFstate {A FS}.
