(* ===== verification/Space.v ===== *)
(** * What an address space owns

    The invariant that ties one address space (its page table, and the frames
    its areas hold) to the machine, and the specifications of the area
    operations of MapArea.v under it.

    [am] is the user half of the page table as a map from pages to entries,
    [D] the frames the areas hold.  [ext p] counts the references to frame [p]
    held by others (another address space after a fork, a shared memory
    segment, the cache of shared file pages): the operations of this space
    leave it alone, so what is proved of one space composes with the others. *)

From stdpp Require Import base gmap list numbers list_numbers option fin_maps sets.
From S2P Require Import Prelude Address FrameAllocator Machine PageTable MapArea.

(** ** Counting references *)

Definition refs (D : gmap Z Z) (p : Z) : nat := size (filter (λ kv : Z * Z, kv.2 = p) D).

Definition hit (p q : Z) : nat := if decide (p = q) then 1 else 0.

Lemma refs_empty p : refs ∅ p = 0%nat.
Proof. unfold refs. by rewrite map_filter_empty, map_size_empty. Qed.

Lemma refs_insert D v q p : D !! v = None → refs (<[v := q]> D) p = (hit p q + refs D p)%nat.
Proof.
  intros Hv. unfold refs, hit. rewrite map_filter_insert. simpl. case_decide; case_decide; try congruence.
  - rewrite map_size_insert_None; [done|]. apply map_lookup_filter_None. by left.
  - by rewrite delete_id.
Qed.

Lemma refs_delete D v q p : D !! v = Some q → refs D p = (hit p q + refs (delete v D) p)%nat.
Proof.
  intros Hv. rewrite <- (insert_delete_id D v q) at 1 by done. apply refs_insert, lookup_delete_eq.
Qed.

Lemma refs_pos D v p : D !! v = Some p → (0 < refs D p)%nat.
Proof. intros Hv. rewrite (refs_delete D v p p Hv). unfold hit. rewrite decide_True by done. lia. Qed.

Lemma refs_zero D p : refs D p = 0%nat → ∀ v, D !! v ≠ Some p.
Proof. intros H v Hv. pose proof (refs_pos D v p Hv). lia. Qed.

Lemma refs_none D p : (∀ v, D !! v ≠ Some p) → refs D p = 0%nat.
Proof.
  intros Hn. unfold refs. apply map_size_empty_iff, map_empty. intros v.
  apply map_lookup_filter_None. right. intros q Hq. simpl. intros ->. by apply (Hn v).
Qed.

Lemma refs_mono D D' p : D' ⊆ D → (refs D' p <= refs D p)%nat.
Proof. intros Hsub. unfold refs. apply map_subseteq_size. by apply map_filter_subseteq_mono. Qed.

(** The entries whose key is not in a list. *)
Definition del_all (m : gmap Z Z) (vs : list Z) : gmap Z Z := filter (λ kv : Z * Z, kv.1 ∉ vs) m.

Lemma lookup_del_all m vs v : del_all m vs !! v = if decide (v ∈ vs) then None else m !! v.
Proof.
  unfold del_all. rewrite map_lookup_filter. simpl. destruct (m !! v); simpl; [|by case_decide].
  case_decide; case_guard; simpl; try done; by exfalso.
Qed.

Lemma del_all_nil m : del_all m [] = m.
Proof. apply map_eq. intros v. rewrite lookup_del_all, decide_False by set_solver. done. Qed.

Lemma del_all_cons m v vs : del_all m (v :: vs) = del_all (delete v m) vs.
Proof.
  apply map_eq. intros w. rewrite !lookup_del_all. destruct (decide (w = v)) as [->|Hne].
  - rewrite decide_True by set_solver. by rewrite lookup_delete_eq; case_decide.
  - rewrite lookup_delete_ne by done. destruct (decide (w ∈ vs)).
    + by rewrite decide_True by set_solver.
    + by rewrite decide_False by set_solver.
Qed.

Lemma del_all_app m vs1 vs2 : del_all m (vs1 ++ vs2) = del_all (del_all m vs1) vs2.
Proof.
  revert m. induction vs1 as [|v vs1 IH]; intros m; simpl; [by rewrite del_all_nil|].
  by rewrite !del_all_cons, IH.
Qed.

Lemma del_all_single m v : del_all m [v] = delete v m.
Proof. by rewrite del_all_cons, del_all_nil. Qed.

Lemma del_all_subseteq m vs : del_all m vs ⊆ m.
Proof. apply map_filter_subseteq. Qed.

(** ** The invariant *)

(** Every mapped page is backed by a frame the areas hold. *)
Definition covered (am D : gmap Z Z) : Prop :=
  ∀ v e, am !! v = Some e → D !! v = Some (PageTableEntry_ppn e).

Section space.
Context {A : Type} {FA : FrameAllocator A} {inv : A → Prop} {owned : A → Z → Prop} {avail : A → nat}.
Context `{HFS : !FrameAllocatorSpec A inv owned avail}.
Context (ext : Z → nat).
Implicit Types (s : machine A) (pt : PageTable) (lbl : gmap Z node) (am D : gmap Z Z).

#[local] Abbreviation pt_ok := (pt_ok (inv:=inv) (owned:=owned)).
#[local] Abbreviation pt_extends := (pt_extends (inv:=inv) (owned:=owned) (avail:=avail)).

Definition count_of (n : nat) : option Z := if decide (n = 0%nat) then None else Some (Z.of_nat n).

Record sp_core s pt lbl am D : Prop := {
  sp_pt : pt_ok s pt lbl;
  sp_view : pt_view s pt am;
  sp_dom v : is_Some (am !! v) → user_vpn v;
  sp_arcs p : arcs s !! p = count_of (refs D p + ext p);
  sp_owned p : is_Some (arcs s !! p) → owned (falloc s) p ∧ lbl !! p = None;
}.

(** What a step may change: frames in [K] that the table does not use keep
    their contents and their owner, no frame is lost (one that is still
    allocated is in the table, has an [Arc], or was already held elsewhere),
    and at most [b] frames are allocated. *)
Record sp_step (K : Z → Prop) (b : nat) s s' lbl lbl' : Prop := {
  step_lbl : lbl ⊆ lbl';
  step_keep p : K p → owned (falloc s) p → lbl !! p = None →
    owned (falloc s') p ∧ lbl' !! p = None ∧ pm_page (mem s') p = pm_page (mem s) p;
  step_leak p : owned (falloc s') p → lbl' !! p = None → arcs s' !! p = None →
    owned (falloc s) p ∧ lbl !! p = None ∧ arcs s !! p = None;
  step_token : kernel_token s' = kernel_token s;
  step_avail : (avail (falloc s) <= b + avail (falloc s'))%nat;
}.

(** The frames that survive removing the pages [vs] from [D]. *)
Definition kept D (vs : list Z) (q : Z) : Prop :=
  (∀ v, v ∈ vs → D !! v ≠ Some q) ∨ (0 < refs (del_all D vs) q + ext q)%nat.

Lemma kept_app D vs1 vs2 q : kept D (vs1 ++ vs2) q → kept D vs1 q ∧ kept (del_all D vs1) vs2 q.
Proof.
  unfold kept. rewrite del_all_app. intros [Hq|Hq].
  - split; left; intros v Hv; [|rewrite lookup_del_all; case_decide; [done|]]; apply Hq; set_solver.
  - split; right; [|done].
    pose proof (refs_mono (del_all D vs1) (del_all (del_all D vs1) vs2) q (del_all_subseteq _ _)). lia.
Qed.

Lemma sp_step_refl K b s lbl : sp_step K b s s lbl lbl.
Proof. split; try done. lia. Qed.

Lemma sp_step_trans K1 K2 b1 b2 s1 s2 s3 l1 l2 l3 :
  sp_step K1 b1 s1 s2 l1 l2 → sp_step K2 b2 s2 s3 l2 l3 →
  sp_step (λ p, K1 p ∧ K2 p) (b1 + b2) s1 s3 l1 l3.
Proof.
  intros [L1 P1 E1 T1 A1] [L2 P2 E2 T2 A2]. split; [by etrans| | |congruence|lia].
  2: { intros p Ho Hl Ha. destruct (E2 p Ho Hl Ha) as (? & ? & ?). by apply E1. }
  intros p [H1 H2] Ho Hl. destruct (P1 p H1 Ho Hl) as (Ho' & Hl' & Hp').
  destruct (P2 p H2 Ho' Hl') as (? & ? & ?). split_and!; [done|done|congruence].
Qed.

Lemma sp_step_weaken (K K' : Z → Prop) b b' s s' l l' :
  (∀ p, K' p → K p) → (b <= b')%nat → sp_step K b s s' l l' → sp_step K' b' s s' l l'.
Proof. intros HK Hb []. split; try done; [auto|lia]. Qed.

Lemma sp_step_seq n n1 n2 s1 s2 s3 l1 l2 l3 : (n1 + n2 <= n)%nat →
  sp_step (λ _, True) n1 s1 s2 l1 l2 → sp_step (λ _, True) n2 s2 s3 l2 l3 →
  sp_step (λ _, True) n s1 s3 l1 l3.
Proof. intros Hn H1 H2. eapply sp_step_weaken; [|exact Hn|by eapply sp_step_trans]. done. Qed.

(** Table operations keep every frame outside the table. *)
Lemma pt_extends_step b s s' lbl lbl' : pt_extends b s s' lbl lbl' → sp_step (λ _, True) b s s' lbl lbl'.
Proof.
  intros He. split.
  - apply (ext_lbl _ _ _ _ _ He).
  - intros p _ Ho Hl. assert (lbl' !! p = None) as Hl'.
    { apply eq_None_not_Some. intros Hs. by apply (ext_fresh _ _ _ _ _ He p). }
    split_and!; [|done|by apply (ext_mem _ _ _ _ _ He)].
    apply (ext_owned _ _ _ _ _ He). by left.
  - intros p Ho Hl Ha. rewrite (ext_arcs _ _ _ _ _ He) in Ha.
    apply (ext_owned _ _ _ _ _ He) in Ho as [Ho|[x Hx]]; [|congruence]. split_and!; [done| |done].
    by eapply lookup_weaken_None, (ext_lbl _ _ _ _ _ He).
  - apply (ext_token _ _ _ _ _ He).
  - apply (ext_avail _ _ _ _ _ He).
Qed.

Lemma sp_core_table s s' pt pt' lbl lbl' am am' D b :
  sp_core s pt lbl am D → pt_ok s' pt' lbl' → pt_extends b s s' lbl lbl' → pt_view s' pt' am' →
  (∀ v, is_Some (am' !! v) → user_vpn v) → sp_core s' pt' lbl' am' D.
Proof.
  intros [Hpt Hv Hd Ha Ho] Hpt' He Hv' Hd'. pose proof (ext_arcs _ _ _ _ _ He) as Harcs.
  split; try done.
  - intros p. by rewrite Harcs.
  - intros p. rewrite Harcs. intros [Hop Hlp]%Ho.
    destruct (step_keep _ _ _ _ _ _ (pt_extends_step _ _ _ _ _ He) p I Hop Hlp) as (? & ? & _). done.
Qed.

Lemma wp_sp_map s pt lbl am D vpn ppn flags (Q : PageTable → machine A → Prop) :
  sp_core s pt lbl am D → user_vpn vpn → 0 <= ppn < FRAME_END → 0 <= flags < 256 →
  (2 <= avail (falloc s))%nat →
  (∀ s' pt' lbl', sp_core s' pt' lbl' (<[vpn := PageTableEntry_new ppn (Z.lor flags PTE_V)]> am) D →
     sp_step (λ _, True) 2 s s' lbl lbl' → arcs s' = arcs s → root_ppn pt' = root_ppn pt → Q pt' s') →
  wp (PageTable_map pt vpn ppn flags) Q s.
Proof.
  intros Hc Hu Hp Hf Hav HQ. pose proof Hc as [Hpt Hv Hd Ha Ho].
  eapply wp_map; [done|done|done|lia|done| |].
  { intros _. change max_user_ppn with FRAME_END. lia. }
  intros s' pt' lbl' Hok' Hr He Ht Ho'. eapply HQ; [|by apply pt_extends_step|apply He|done].
  eapply sp_core_table; [done|done|done| |].
  - intros v Hvu. destruct (decide (v = vpn)) as [->|Hne].
    + by rewrite lookup_insert_eq.
    + rewrite lookup_insert_ne by done. rewrite Ho' by done. by apply Hv.
  - intros v. rewrite lookup_insert_is_Some. intros [<-|[_ ?]]; auto.
Qed.

Lemma wp_sp_unmap s pt lbl am D vpn (Q : bool → machine A → Prop) :
  sp_core s pt lbl am D → user_vpn vpn →
  (∀ b s', sp_core s' pt lbl (delete vpn am) D → sp_step (λ _, True) 0 s s' lbl lbl →
     arcs s' = arcs s → Q b s') →
  wp (PageTable_unmap pt vpn) Q s.
Proof.
  intros Hc Hu HQ. pose proof Hc as [Hpt Hv Hd Ha Ho]. eapply wp_unmap; [done|done|].
  intros s' Hok' He Ht Ho'. eapply HQ; [|by apply pt_extends_step|apply He].
  eapply sp_core_table; [done|done|done| |].
  - intros v Hvu. destruct (decide (v = vpn)) as [->|Hne]; [by rewrite lookup_delete_eq|].
    rewrite lookup_delete_ne by done. rewrite Ho' by done. by apply Hv.
  - intros v [e [_ He']%lookup_delete_Some]. by apply Hd; eexists.
Qed.

(** Changing flags to ones that keep the entry valid. *)
Definition set_flags (flags : Z) (e : Z) : Z := PageTableEntry_new (PageTableEntry_ppn e) flags.

Lemma set_flags_valid flags e : 0 <= flags < 256 → Z.testbit flags 0 = true →
  PageTableEntry_is_valid (set_flags flags e) = true.
Proof. intros Hf Hb. unfold set_flags. by rewrite is_valid_bit, PTE_new_bit by done. Qed.

Lemma set_flags_ppn flags e : 0 <= flags < 256 → PageTableEntry_ppn (set_flags flags e) = PageTableEntry_ppn e.
Proof. intros. unfold set_flags. by rewrite PTE_new_ppn. Qed.

Lemma wp_sp_protect s pt lbl am D vpn flags (Q : bool → machine A → Prop) :
  sp_core s pt lbl am D → user_vpn vpn → 0 <= flags < 256 → Z.testbit flags 0 = true →
  (∀ b s', sp_core s' pt lbl (alter (set_flags flags) vpn am) D → sp_step (λ _, True) 0 s s' lbl lbl →
     arcs s' = arcs s → Q b s') →
  wp (PageTable_change_pte_flags pt vpn flags) Q s.
Proof.
  intros Hc Hu Hf Hb HQ. pose proof Hc as [Hpt Hv Hd Ha Ho]. eapply wp_change_pte_flags; [done|done|].
  intros s' Hok' He Ht Ho'. eapply HQ; [|by apply pt_extends_step|apply He].
  eapply sp_core_table; [done|done|done| |].
  - intros v Hvu. destruct (decide (v = vpn)) as [->|Hne].
    + rewrite lookup_alter_eq, Ht, Hv by done. destruct (am !! vpn) as [e|]; simpl; [|done].
      fold (set_flags flags e). by rewrite set_flags_valid.
    + rewrite lookup_alter_ne by done. rewrite Ho' by done. by apply Hv.
  - intros v. rewrite lookup_alter_is_Some. apply Hd.
Qed.

(** ** Frames *)

Lemma count_of_pos n : (0 < n)%nat → count_of n = Some (Z.of_nat n).
Proof. intros. unfold count_of. by rewrite decide_False by lia. Qed.

Lemma count_of_is_Some n : is_Some (count_of n) ↔ (0 < n)%nat.
Proof. unfold count_of. case_decide; split; try lia; [by intros [??]|by eexists]. Qed.

(** A frame taken from the allocator and not yet wrapped in an [Arc]. *)
Definition loose s lbl (p : Z) : Prop :=
  owned (falloc s) p ∧ arcs s !! p = None ∧ lbl !! p = None ∧ 0 <= p < FRAME_END.

Lemma wp_sp_frame_alloc s pt lbl am D (Q : option Z → machine A → Prop) :
  sp_core s pt lbl am D →
  (avail (falloc s) = 0%nat → Q None s) →
  (∀ p s', sp_core s' pt lbl am D → loose s' lbl p → ¬ owned (falloc s) p →
     pm_page (mem s') p = ∅ → arcs s' = arcs s →
     (∀ f, (∀ q, q ≠ p → pm_page (f (mem s')) q = pm_page (mem s') q) →
        sp_step (λ _, True) 1 s (set_arcs (<[p := 1]>) (set_mem f s')) lbl lbl) → avail (falloc s) = S (avail (falloc s')) → Q (Some p) s') →
  wp frame_alloc Q s.
Proof.
  intros [Hpt Hv Hd Ha Ho] Hnone Hsome. pose proof Hpt as [Hwf Hinv Hown].
  apply wp_frame_alloc; [done|done|]. intros p a' Hinv' Hnew Hpr Hown' Hav'.
  assert (lbl !! p = None) as Hlp.
  { apply eq_None_not_Some. intros Hs. by apply Hnew, Hown. }
  assert (∀ n, is_Some (lbl !! n) → pm_page (pm_zero (mem s) p) n = pm_page (mem s) n) as Hext.
  { intros n Hn. apply pm_page_zero_ne. intros ->. rewrite Hlp in Hn. by destruct Hn. }
  assert (arcs s !! p = None) as Hap.
  { apply eq_None_not_Some. intros Hs. by apply Hnew, (Ho p). }
  eapply Hsome; [split; simpl| |done| |done| |done].
  - split; simpl; [|done|intros n Hn; apply Hown'; auto].
    destruct Hwf as [Htree Hfr Hnd]. split; [by eapply pt_tree_ext|done|done].
  - intros v Hvu. simpl. rewrite (translate_ext (mem s) pt lbl) by (done || apply Hwf). by apply Hv.
  - done.
  - done.
  - intros q Hq. destruct (Ho q Hq). split; [|done]. apply Hown'. by right.
  - split_and!; simpl; [apply Hown'; by left|done|done|lia|lia].
  - unfold pm_page, pm_zero. simpl. by rewrite lookup_insert_eq.
  - intros f Hf. simpl in Hf. split; simpl; [done| | |done|lia].
    + intros q _ Hq Hlq. split_and!; [apply Hown'; by right|done|].
      assert (q ≠ p) by (intros ->; done). by rewrite Hf, pm_page_zero_ne.
    + intros q [->|Hq]%Hown' Hlq; [by rewrite lookup_insert_eq|].
      destruct (decide (q = p)) as [->|Hne]; [by rewrite lookup_insert_eq|].
      by rewrite lookup_insert_ne.
Qed.

(** Wrapping a loose frame and putting it at a free page of the areas. *)
Lemma sp_arc_new s pt lbl am D D' p :
  sp_core s pt lbl am D → loose s lbl p → (∀ q, refs D' q = (hit q p + refs D q)%nat) →
  sp_core (set_arcs (<[p := 1]>) s) pt lbl am D'.
Proof.
  intros [Hpt Hv Hd Ha Ho] (Hop & Hap & Hlp & _) HD. split; simpl.
  - destruct Hpt as [Hwf Hinv Hown]. by split.
  - exact Hv.
  - done.
  - intros q. rewrite HD. unfold hit. destruct (decide (q = p)) as [->|Hne].
    + rewrite lookup_insert_eq. rewrite Ha in Hap. unfold count_of in Hap. case_decide; [|done].
      replace (1 + refs D p + ext p)%nat with 1%nat by lia. done.
    + by rewrite lookup_insert_ne.
  - intros q. rewrite lookup_insert_is_Some. intros [<-|[_ ?]]; auto.
Qed.

(** Cloning the [Arc] of a held frame. *)
Lemma sp_arc_clone s pt lbl am D D' p :
  sp_core s pt lbl am D → is_Some (arcs s !! p) → (∀ q, refs D' q = (hit q p + refs D q)%nat) →
  sp_core (set_arcs (alter (Z.add 1) p) s) pt lbl am D'.
Proof.
  intros [Hpt Hv Hd Ha Ho] Hp HD. split; simpl.
  - destruct Hpt as [Hwf Hinv Hown]. by split.
  - exact Hv.
  - done.
  - intros q. rewrite HD. unfold hit. destruct (decide (q = p)) as [->|Hne].
    + rewrite lookup_alter_eq, Ha. rewrite Ha in Hp. apply count_of_is_Some in Hp.
      rewrite !count_of_pos by lia. simpl. f_equal. lia.
    + by rewrite lookup_alter_ne.
  - intros q. rewrite lookup_alter_is_Some. apply Ho.
Qed.

(** Dropping a reference: the last one returns the frame.  This part does not
    need the page table, which goes first when a whole space is dropped. *)
Record frames_ok s D : Prop := {
  fo_inv : inv (falloc s);
  fo_arcs p : arcs s !! p = count_of (refs D p + ext p);
  fo_owned p : is_Some (arcs s !! p) → owned (falloc s) p;
}.

Lemma sp_core_frames s pt lbl am D : sp_core s pt lbl am D → frames_ok s D.
Proof. intros [[_ Hinv _] _ _ Ha Ho]. split; [done|done|]. intros p Hp. by destruct (Ho p Hp). Qed.

(** What dropping references does: a frame leaves when its last one does. *)
Record dropped s s' : Prop := {
  dr_mem : mem s' = mem s;
  dr_token : kernel_token s' = kernel_token s;
  dr_arcs p : is_Some (arcs s' !! p) → is_Some (arcs s !! p);
  dr_owned p : owned (falloc s') p ↔
    owned (falloc s) p ∧ (is_Some (arcs s !! p) → is_Some (arcs s' !! p));
  dr_avail : (avail (falloc s) <= avail (falloc s'))%nat;
}.

Lemma dropped_refl s : dropped s s.
Proof. split; try done. naive_solver. Qed.

Lemma dropped_trans s1 s2 s3 : dropped s1 s2 → dropped s2 s3 → dropped s1 s3.
Proof.
  intros [M1 T1 A1 O1 V1] [M2 T2 A2 O2 V2]. split; [congruence|congruence|auto| |lia].
  intros p. rewrite O2, O1. naive_solver.
Qed.

Lemma wp_arc_drop s D D' p (Q : unit → machine A → Prop) :
  frames_ok s D → (∀ q, refs D q = (hit q p + refs D' q)%nat) →
  (∀ s', frames_ok s' D' → dropped s s' → Q tt s') →
  wp (arc_drop p) Q s.
Proof.
  intros [Hinv Ha Ho] HD HQ. pose proof (HD p) as HDp. unfold hit in HDp. rewrite decide_True in HDp by done.
  assert (arcs s !! p = Some (Z.of_nat (refs D p + ext p))) as Hap by (rewrite Ha; apply count_of_pos; lia).
  assert (owned (falloc s) p) as Hop by (apply Ho; by rewrite Hap).
  assert (∀ q, q ≠ p → refs D' q = refs D q) as Hne.
  { intros q Hq. rewrite HD. unfold hit. by rewrite decide_False. }
  unfold arc_drop, wp. rewrite Hap. destruct (Z.eqb_spec (Z.of_nat (refs D p + ext p)) 1) as [H1|H1].
  - unfold m_bind, m_modify. simpl.
    pose proof (wp_frame_dealloc Q (set_arcs (delete p) s) p Hinv Hop) as Hdl. unfold wp in Hdl.
    apply Hdl. clear Hdl. intros a' Hinv' Hown' Hav'. simpl in *. apply HQ; split; simpl; try done.
    + intros q. destruct (decide (q = p)) as [->|Hq].
      * rewrite lookup_delete_eq. by replace (refs D' p + ext p)%nat with 0%nat by lia.
      * by rewrite lookup_delete_ne, Ha, Hne.
    + intros q [Hq Hs]%lookup_delete_is_Some. apply Hown'. auto.
    + intros q [Hq Hs]%lookup_delete_is_Some. done.
    + intros q. rewrite Hown'. destruct (decide (q = p)) as [->|Hq].
      * rewrite lookup_delete_eq, Hap. split; [naive_solver|]. intros [_ H]. by destruct H.
      * rewrite lookup_delete_ne by done. naive_solver.
    + lia.
  - apply HQ; split; simpl; try done.
    + intros q. destruct (decide (q = p)) as [->|Hq].
      * rewrite lookup_insert_eq, count_of_pos by lia. f_equal. lia.
      * by rewrite lookup_insert_ne, Ha, Hne.
    + intros q [<-|[_ Hq]]%lookup_insert_is_Some; [done|by apply Ho].
    + intros q [<-|[_ Hq]]%lookup_insert_is_Some; [by rewrite Hap|done].
    + intros q. split; [|by intros [??]]. intros Hq. split; [done|]. rewrite lookup_insert_is_Some.
      destruct (decide (p = q)); auto.
Qed.

Lemma wp_sp_arc_drop s pt lbl am D D' p (Q : unit → machine A → Prop) :
  sp_core s pt lbl am D → (∀ q, refs D q = (hit q p + refs D' q)%nat) →
  (∀ s', sp_core s' pt lbl am D' → mem s' = mem s →
     sp_step (λ q, q ≠ p ∨ (0 < refs D' q + ext q)%nat) 0 s s' lbl lbl → Q tt s') →
  wp (arc_drop p) Q s.
Proof.
  intros Hc HD HQ. pose proof Hc as [[Hwf Hinv Hown] Hv Hd Ha Ho].
  eapply wp_arc_drop; [by eapply sp_core_frames|done|].
  intros s' [Hinv' Ha' Ho'] [Hm Ht Hsub Hown' Hav].
  assert (∀ q, arcs s !! q = None → arcs s' !! q = None) as Hnone.
  { intros q Hq. apply eq_None_not_Some. intros Hs%Hsub. rewrite Hq in Hs. by destruct Hs. }
  apply HQ; [split|done|split]; try done.
  - split; [by rewrite Hm|done|]. intros n Hn. apply Hown'. split; [by apply Hown|].
    intros Hs. destruct (Ho n Hs) as [_ Hl]. rewrite Hl in Hn. by destruct Hn.
  - intros v Hvu. rewrite Hm. by apply Hv.
  - intros q Hq. split; [by apply Ho'|]. by apply Ho, Hsub.
  - intros q Hq Hoq Hlq. rewrite Hm. split_and!; [|done|done]. apply Hown'. split; [done|].
    rewrite Ha, Ha', !count_of_is_Some, HD. unfold hit. case_decide; naive_solver lia.
  - intros q Hoq Hlq Haq. apply Hown' in Hoq as [Hoq Himp]. split_and!; [done|done|].
    apply eq_None_not_Some. intros Hs%Himp. rewrite Haq in Hs. by destruct Hs.
Qed.

(** Dropping the frames of some pages. *)
Lemma wp_drop_frames l : ∀ s D (Q : unit → machine A → Prop),
  frames_ok s D → NoDup l.*1 → (∀ v p, (v, p) ∈ l → D !! v = Some p) →
  (∀ s', frames_ok s' (del_all D l.*1) → dropped s s' → Q tt s') →
  wp (m_for l (λ '(_, ppn), arc_drop ppn)) Q s.
Proof.
  induction l as [|[v p] l IH]; intros s D Q Hf Hnd Hl HQ; csimpl in *.
  - apply wp_ret. apply HQ; [by rewrite del_all_nil|apply dropped_refl].
  - apply NoDup_cons in Hnd as [Hv Hnd]. apply wp_bind.
    eapply (wp_arc_drop _ _ (delete v D)); [done|intros q; apply refs_delete, Hl; set_solver|].
    intros s1 Hf1 Hd1. eapply IH; [exact Hf1|done| |].
    + intros w q Hw. rewrite lookup_delete_ne; [apply Hl; set_solver|].
      intros ->. apply Hv, list_elem_of_fmap. by exists (w, q).
    + intros s2 Hf2 Hd2. apply HQ; [by rewrite del_all_cons|by eapply dropped_trans].
Qed.

(** Writing frames outside the table. *)
Lemma sp_core_mem s pt lbl am D f :
  sp_core s pt lbl am D → (∀ n, is_Some (lbl !! n) → pm_page (f (mem s)) n = pm_page (mem s) n) →
  sp_core (set_mem f s) pt lbl am D.
Proof.
  intros [[Hwf Hinv Hown] Hv Hd Ha Ho] Hext. split; try done.
  - split; simpl; [|done|done]. destruct Hwf as [Htree Hfr Hnd]. split; [by eapply pt_tree_ext|done|done].
  - intros v Hvu. simpl. rewrite (translate_ext (mem s) pt lbl) by (done || apply Hwf). by apply Hv.
Qed.

(** A loose frame may be written freely. *)
Lemma sp_core_write s pt lbl am D f p :
  sp_core s pt lbl am D → lbl !! p = None → (∀ q, q ≠ p → pm_page (f (mem s)) q = pm_page (mem s) q) →
  sp_core (set_mem f s) pt lbl am D ∧ sp_step (λ q, q ≠ p) 0 s (set_mem f s) lbl lbl.
Proof.
  intros Hc Hp Hf. split.
  - apply sp_core_mem; [done|]. intros n Hn. apply Hf. intros ->. rewrite Hp in Hn. by destruct Hn.
  - split; simpl; [done| |done|done|lia]. intros q Hq Hoq Hlq. split_and!; [done|done|by apply Hf].
Qed.

Lemma wp_translate_valid s pt lbl am D vpn (Q : option Z → machine A → Prop) :
  sp_core s pt lbl am D → user_vpn vpn → Q (am !! vpn) s → wp (translate_valid pt vpn) Q s.
Proof.
  intros Hc Hu HQ. unfold translate_valid. apply wp_bind, wp_get, wp_ret.
  pose proof (sp_view _ _ _ _ _ Hc vpn Hu) as Ht. rewrite Ht.
  destruct (am !! vpn) as [e|] eqn:He; [|done]. by rewrite (translate_is_valid _ _ _ _ Ht).
Qed.

(** ** One page of an area *)

Section area.
Context {F : Type}.
Implicit Types (a : MapArea F).

(** Mapping a page that is not mapped: a cleared frame, held by the area. *)
Lemma wp_sp_map_one a s pt lbl am D vpn (Q : MapArea F * PageTable → machine A → Prop) :
  sp_core s pt lbl am D → user_vpn vpn → am !! vpn = None → D !! vpn = None →
  data_frames a !! vpn = None → 0 <= map_perm a < 256 → (3 <= avail (falloc s))%nat →
  (∀ p s' pt' lbl',
     sp_core s' pt' lbl' (<[vpn := PageTableEntry_new p (Z.lor (map_perm a) PTE_V)]> am) (<[vpn := p]> D) →
     ¬ owned (falloc s) p → 0 <= p < FRAME_END → pm_page (mem s') p = ∅ →
     sp_step (λ _, True) 3 s s' lbl lbl' → root_ppn pt' = root_ppn pt →
     Q (set_frames (<[vpn := p]> (data_frames a)) a, pt') s') →
  wp (MapArea_map_one a pt vpn) Q s.
Proof.
  intros Hc Hu Ham HD Ha Hperm Hav HQ. unfold MapArea_map_one.
  apply wp_bind. eapply wp_translate_valid; [done|done|]. rewrite Ham.
  apply wp_bind. eapply wp_sp_frame_alloc; [done|lia|].
  intros p s1 Hc1 Hl1 Hnew Hz1 Harcs1 Hst1 _. pose proof Hl1 as (Ho1 & Hap1 & Hlp1 & Hpr).
  apply wp_bind, wp_modify.
  destruct (sp_core_write s1 pt lbl am D (λ m, pm_zero m p) p Hc1 Hlp1) as [Hc2 _].
  { intros q Hq. by apply pm_page_zero_ne. }
  apply wp_bind, wp_modify. apply wp_bind. unfold frames_insert. rewrite Ha.
  apply wp_bind, wp_ret, wp_ret. apply wp_bind.
  assert (sp_core (set_arcs (<[p := 1]>) (set_mem (λ m, pm_zero m p) s1)) pt lbl am (<[vpn := p]> D)) as Hc3.
  { eapply sp_arc_new; [done|done|]. intros q. by apply refs_insert. }
  pose proof (Hst1 (λ m, pm_zero m p) (λ q Hq, pm_page_zero_ne _ _ _ Hq)) as Hst3.
  eapply wp_sp_map; [exact Hc3|done|done|done|destruct Hst3; simpl in *; lia|].
  intros s4 pt4 lbl4 Hc4 Hst4 _ Hroot. apply wp_ret. eapply HQ; [done|done|done| | |done].
  - destruct (step_keep _ _ _ _ _ _ Hst4 p) as (_ & _ & ->); [done|done|done|]. simpl.
    unfold pm_page, pm_zero. by rewrite lookup_insert_eq.
  - eapply sp_step_weaken; [| |by eapply (sp_step_trans _ _ 1 2)]; done.
Qed.

(** Out of memory, the page stays unmapped and the call still returns. *)
Lemma wp_sp_map_one_oom a s pt lbl am D vpn (Q : MapArea F * PageTable → machine A → Prop) :
  sp_core s pt lbl am D → user_vpn vpn → am !! vpn = None → avail (falloc s) = 0%nat →
  Q (a, pt) s → wp (MapArea_map_one a pt vpn) Q s.
Proof.
  intros Hc Hu Ham Hav HQ. unfold MapArea_map_one.
  apply wp_bind. eapply wp_translate_valid; [done|done|]. rewrite Ham.
  apply wp_bind. eapply wp_sp_frame_alloc; [done|intros _; by apply wp_ret|].
  intros p s1 _ _ _ _ _ _ Hav1. lia.
Qed.

Lemma wp_frames_remove s pt lbl am D frames vpn (Q : bool * gmap Z Z → machine A → Prop) :
  sp_core s pt lbl am D → frames !! vpn = D !! vpn →
  (∀ s', sp_core s' pt lbl am (delete vpn D) → mem s' = mem s →
     sp_step (λ q, D !! vpn ≠ Some q ∨ (0 < refs (delete vpn D) q + ext q)%nat) 0 s s' lbl lbl →
     Q (bool_decide (is_Some (D !! vpn)), delete vpn frames) s') →
  wp (frames_remove frames vpn) Q s.
Proof.
  intros Hc Hf HQ. unfold frames_remove. rewrite Hf. destruct (D !! vpn) as [p|] eqn:HD.
  - apply wp_bind. eapply (wp_sp_arc_drop _ _ _ _ _ (delete vpn D)); [done|intros; by apply refs_delete|].
    intros s' Hc' Hm Hst. apply wp_ret. apply HQ; [done|done|].
    eapply sp_step_weaken; [|done|done]. intros q [Hq|Hq]; [left; congruence|by right].
  - apply wp_ret. rewrite bool_decide_eq_false_2 in HQ by (by intros [??]).
    rewrite !delete_id in HQ by done. apply HQ; [done|done|]. apply sp_step_refl.
Qed.

(** What unmapping a page means: its frame is released and its entry
    cleared. *)
Definition unmaps_page (f : MapArea F → PageTable → Z → M (machine A) (MapArea F * PageTable)) : Prop :=
  ∀ a s pt lbl am D vpn (Q : MapArea F * PageTable → machine A → Prop),
  sp_core s pt lbl am D → covered am D → user_vpn vpn → map_type a = Framed →
  data_frames a !! vpn = D !! vpn →
  (∀ s', sp_core s' pt lbl (delete vpn am) (delete vpn D) →
     sp_step (kept D [vpn]) 0 s s' lbl lbl →
     Q (set_frames (delete vpn (data_frames a)) a, pt) s') →
  wp (f a pt vpn) Q s.

(** The two halves of it: release the frame, then clear the entry if the page
    is this area's. *)
Lemma wp_remove_then_unmap s pt lbl am D frames vpn (tracked : bool → bool)
    (Q : gmap Z Z → machine A → Prop) :
  sp_core s pt lbl am D → covered am D → user_vpn vpn → frames !! vpn = D !! vpn →
  tracked true = true →
  (∀ s', sp_core s' pt lbl (delete vpn am) (delete vpn D) →
     sp_step (kept D [vpn]) 0 s s' lbl lbl → Q (delete vpn frames) s') →
  wp (let! (had_frame, frames) := frames_remove frames vpn in
      let! pte := translate_valid pt vpn in
      (if tracked had_frame && bool_decide (is_Some pte)
       then PageTable_unmap pt vpn ;;; m_ret tt else m_ret tt) ;;;
      m_ret frames) Q s.
Proof.
  intros Hc Hcov Hu Hf Htr HQ. apply wp_bind. eapply wp_frames_remove; [done|done|].
  intros s1 Hc1 Hm1 Hst1. rewrite <- del_all_single in Hst1.
  assert (sp_step (kept D [vpn]) 0 s s1 lbl lbl) as Hst1'.
  { eapply sp_step_weaken; [|done|done]. intros q [Hq|Hq]; [left; apply Hq; set_solver|by right]. }
  apply wp_bind. eapply wp_translate_valid; [done|done|]. apply wp_bind.
  destruct (tracked _ && bool_decide (is_Some (am !! vpn))) eqn:Hb.
  - apply wp_bind. eapply wp_sp_unmap; [done|done|]. intros b s2 Hc2 Hst2 _. do 2 apply wp_ret.
    apply HQ; [done|]. eapply sp_step_weaken; [| |by eapply (sp_step_trans _ _ 0 0)]; [|done]. naive_solver.
  - do 2 apply wp_ret. apply HQ; [|done].
    assert (am !! vpn = None) as Ham.
    { destruct (am !! vpn) as [e|] eqn:He; [|done]. apply Hcov in He. rewrite He in Hb.
      rewrite !bool_decide_eq_true_2, Htr in Hb by (by eexists). done. }
    by rewrite (delete_id am).
Qed.

Lemma unmap_one_unmaps : unmaps_page MapArea_unmap_one.
Proof.
  intros a s pt lbl am D vpn Q Hc Hcov Hu Hmt Hf HQ. unfold MapArea_unmap_one.
  rewrite decide_True by done.
  pose proof (wp_remove_then_unmap s pt lbl am D (data_frames a) vpn (λ h, h || negb (lazy a))
    (λ fr s', Q (set_frames fr a, pt) s') Hc Hcov Hu Hf eq_refl HQ) as Hw.
  unfold wp, m_bind, m_ret in *. repeat case_match; naive_solver.
Qed.

Lemma covered_insert am D v p flags :
  covered am D → 0 <= p < FRAME_END → 0 <= flags < 256 →
  covered (<[v := PageTableEntry_new p flags]> am) (<[v := p]> D).
Proof.
  intros Hcov Hp Hf w e. rewrite !lookup_insert_Some.
  intros [[<- <-]|[Hne He]].
  - left. rewrite PTE_new_ppn by lia. done.
  - right. split; [done|]. by apply Hcov.
Qed.

Lemma covered_delete am D v : covered am D → covered (delete v am) (delete v D).
Proof. intros Hcov w e. rewrite !lookup_delete_Some. intros [??]. split; auto. Qed.

Lemma covered_delete_am am D v : covered am D → covered (delete v am) D.
Proof. intros Hcov w e. rewrite lookup_delete_Some. intros [??]. auto. Qed.

Lemma covered_protect am D v flags : covered am D → 0 <= flags < 256 →
  covered (alter (set_flags flags) v am) D.
Proof.
  intros Hcov Hf w e. destruct (decide (w = v)) as [->|Hne].
  - rewrite lookup_alter_eq. intros (e' & He & ->)%fmap_Some. rewrite set_flags_ppn by done. by apply Hcov.
  - rewrite lookup_alter_ne by done. apply Hcov.
Qed.

(** ** Ranges of pages *)

Lemma sp_step_owned K b s s' pt pt' lbl lbl' am am' D D' p :
  sp_core s pt lbl am D → sp_core s' pt' lbl' am' D' → sp_step K b s s' lbl lbl' →
  K p → owned (falloc s) p → owned (falloc s') p.
Proof.
  intros Hc Hc' Hst HK Ho. destruct (lbl !! p) as [x|] eqn:Hl.
  - destruct Hc' as [[_ _ Hown] _ _ _ _]. apply Hown. exists x.
    eapply lookup_weaken; [done|apply Hst].
  - by destruct (step_keep _ _ _ _ _ _ Hst p HK Ho Hl).
Qed.

(** The entries a permission gives a set of fresh frames. *)
Definition entries (perm : Z) (fr : gmap Z Z) : gmap Z Z :=
  (λ p, PageTableEntry_new p (Z.lor perm PTE_V)) <$> fr.

Lemma wp_sp_map_pages vs : ∀ a s pt lbl am D (Q : MapArea F * PageTable → machine A → Prop),
  sp_core s pt lbl am D → NoDup vs →
  (∀ v, v ∈ vs → user_vpn v ∧ am !! v = None ∧ D !! v = None ∧ data_frames a !! v = None) →
  0 <= map_perm a < 256 → (3 * length vs <= avail (falloc s))%nat →
  (∀ fr s' pt' lbl',
     (∀ v, is_Some (fr !! v) ↔ v ∈ vs) →
     sp_core s' pt' lbl' (entries (map_perm a) fr ∪ am) (fr ∪ D) →
     (∀ v p, fr !! v = Some p → ¬ owned (falloc s) p ∧ 0 <= p < FRAME_END ∧ pm_page (mem s') p = ∅) →
     sp_step (λ _, True) (3 * length vs) s s' lbl lbl' → root_ppn pt' = root_ppn pt →
     Q (set_frames (fr ∪ data_frames a) a, pt') s') →
  wp (m_fold (λ '(a, pt) vpn, MapArea_map_one a pt vpn) vs (a, pt)) Q s.
Proof.
  induction vs as [|v vs IH]; intros a s pt lbl am D Q Hc Hnd Hvs Hperm Hav HQ.
  - apply wp_ret. specialize (HQ ∅ s pt lbl). unfold entries in HQ.
    rewrite fmap_empty, !(left_id_L ∅ (∪)) in HQ.
    replace (set_frames (data_frames a) a) with a in HQ by by destruct a.
    apply HQ; [|done|done|apply sp_step_refl|done].
    intros w. rewrite lookup_empty. split; [by intros [??]|set_solver].
  - apply NoDup_cons in Hnd as [Hv Hnd]. destruct (Hvs v) as (Hu & Ham & HD & Ha); [set_solver|].
    simpl in Hav. apply wp_bind. eapply wp_sp_map_one; [done|done|done|done|done|done|lia|].
    intros p s1 pt1 lbl1 Hc1 Hnew Hpr Hz1 Hst1 Hr1.
    eapply IH; [exact Hc1|done| |done|destruct Hst1; lia|].
    { intros w Hw. assert (w ≠ v) by (intros ->; done). simpl. rewrite !lookup_insert_ne by done.
      apply Hvs. set_solver. }
    simpl. intros fr s2 pt2 lbl2 Hdom Hc2 Hfr Hst2 Hr2.
    assert (fr !! v = None) as Hfv by (apply eq_None_not_Some; by rewrite Hdom).
    specialize (HQ (<[v := p]> fr) s2 pt2 lbl2). unfold entries in *.
    rewrite fmap_insert, <- !insert_union_l, !insert_union_r in HQ
      by (rewrite ?lookup_fmap, Hfv; done).
    apply HQ; [|done| | |congruence].
    + intros w. rewrite lookup_insert_is_Some, Hdom. set_unfold. destruct (decide (v = w)); naive_solver.
    + intros w q [[<- <-]|[_ Hq]]%lookup_insert_Some.
      * split_and!; [done|lia|lia|].
        destruct (sp_owned _ _ _ _ _ Hc1 p) as [Hop Hlp].
        { rewrite (sp_arcs _ _ _ _ _ Hc1), count_of_is_Some.
          pose proof (refs_pos (<[v:=p]> D) v p (lookup_insert_eq _ _ _)). lia. }
        destruct (step_keep _ _ _ _ _ _ Hst2 p I Hop Hlp) as (_ & _ & ->). done.
      * destruct (Hfr w q Hq) as (Hno & ? & ?). split; [|done]. intros Ho. apply Hno.
        by eapply (sp_step_owned _ _ s s1).
    + eapply sp_step_weaken; [| |by eapply sp_step_trans]; [done|simpl; lia].
Qed.

Lemma wp_sp_unmap_pages f vs : unmaps_page f →
  ∀ a s pt lbl am D (Q : MapArea F * PageTable → machine A → Prop),
  sp_core s pt lbl am D → covered am D → map_type a = Framed →
  (∀ v, v ∈ vs → user_vpn v ∧ data_frames a !! v = D !! v) →
  (∀ s', sp_core s' pt lbl (del_all am vs) (del_all D vs) →
     sp_step (kept D vs) 0 s s' lbl lbl →
     Q (set_frames (del_all (data_frames a) vs) a, pt) s') →
  wp (m_fold (λ '(a, pt) vpn, f a pt vpn) vs (a, pt)) Q s.
Proof.
  intros Hf. induction vs as [|v vs IH]; intros a s pt lbl am D Q Hc Hcov Hmt Hvs HQ.
  - apply wp_ret. rewrite !del_all_nil in HQ.
    replace (set_frames (data_frames a) a) with a in HQ by by destruct a.
    apply HQ; [done|]. apply sp_step_refl.
  - destruct (Hvs v) as [Hu Ha]; [set_solver|]. apply wp_bind.
    eapply Hf; [done|done|done|done|done|]. intros s1 Hc1 Hst1.
    eapply IH; [exact Hc1|by apply covered_delete|done| |].
    { intros w Hw. destruct (Hvs w) as [Hwu Hwa]; [set_solver|]. split; [done|]. simpl.
      destruct (decide (w = v)) as [->|Hne]; [by rewrite !lookup_delete_eq|].
      by rewrite !lookup_delete_ne. }
    intros s2 Hc2 Hst2. rewrite !del_all_cons in HQ. apply HQ; [done|].
    eapply sp_step_weaken; [|done|by eapply (sp_step_trans _ _ 0 0)].
    intros q [Hq1 Hq2]%(kept_app D [v] vs). by rewrite del_all_single in Hq2.
Qed.

(** Changing the flags of a range. *)
Definition flags_in (vs : list Z) (flags v e : Z) : Z :=
  if decide (v ∈ vs) then set_flags flags e else e.
Definition protect_map (vs : list Z) (flags : Z) (am : gmap Z Z) : gmap Z Z :=
  map_imap (λ v e, Some (flags_in vs flags v e)) am.

Lemma lookup_protect_map vs flags am v :
  protect_map vs flags am !! v = flags_in vs flags v <$> am !! v.
Proof. unfold protect_map. rewrite map_lookup_imap. by destruct (am !! v). Qed.

Lemma set_flags_twice flags e : 0 <= flags < 256 → set_flags flags (set_flags flags e) = set_flags flags e.
Proof. intros Hf. unfold set_flags at 1. by rewrite set_flags_ppn. Qed.

Lemma protect_map_app vs1 vs2 flags am : 0 <= flags < 256 →
  protect_map vs2 flags (protect_map vs1 flags am) = protect_map (vs1 ++ vs2) flags am.
Proof.
  intros Hf. apply map_eq. intros v. rewrite !lookup_protect_map. destruct (am !! v) as [e|]; [|done].
  cbn [fmap option_fmap option_map]. f_equal. unfold flags_in.
  destruct (decide (v ∈ vs1)), (decide (v ∈ vs2)), (decide (v ∈ vs1 ++ vs2)); try set_solver.
  by apply set_flags_twice.
Qed.

Lemma protect_map_nil flags am : protect_map [] flags am = am.
Proof. apply map_eq. intros w. rewrite lookup_protect_map. by destruct (am !! w). Qed.

Lemma covered_protect_map am D vs flags : covered am D → 0 <= flags < 256 →
  covered (protect_map vs flags am) D.
Proof.
  intros Hcov Hf v e. rewrite lookup_protect_map. intros (e' & He & ->)%fmap_Some.
  unfold flags_in. case_decide; [rewrite set_flags_ppn by done|]; by apply Hcov.
Qed.

Lemma wp_sp_protect_pages vs flags : ∀ s pt lbl am D (Q : unit → machine A → Prop),
  sp_core s pt lbl am D → (∀ v, v ∈ vs → user_vpn v) → NoDup vs →
  0 <= flags < 256 → Z.testbit flags 0 = true →
  (∀ s', sp_core s' pt lbl (protect_map vs flags am) D →
     sp_step (λ _, True) 0 s s' lbl lbl → arcs s' = arcs s → Q tt s') →
  wp (m_for vs (λ vpn, PageTable_change_pte_flags pt vpn flags ;;; m_ret tt)) Q s.
Proof.
  induction vs as [|v vs IH]; intros s pt lbl am D Q Hc Hvs Hnd Hf Hb HQ.
  - apply wp_ret. apply HQ; [|apply sp_step_refl|done].
    by rewrite protect_map_nil.
  - apply NoDup_cons in Hnd as [Hv Hnd].
    apply wp_bind, wp_bind. eapply wp_sp_protect; [done|apply Hvs; set_solver|done|done|].
    intros b s1 Hc1 Hst1 Ha1. apply wp_ret. eapply IH; [exact Hc1| |done|done|done|].
    { intros w Hw. apply Hvs. set_solver. }
    intros s2 Hc2 Hst2 Ha2. apply HQ; [| |congruence].
    + replace (protect_map (v :: vs) flags am) with (protect_map vs flags (alter (set_flags flags) v am)); [done|].
      apply map_eq. intros w. rewrite !lookup_protect_map. unfold flags_in.
      destruct (decide (w = v)) as [->|Hne].
      * rewrite lookup_alter_eq. destruct (am !! v); [|done]. cbn [fmap option_fmap option_map].
        rewrite decide_False by done. by rewrite decide_True by set_solver.
      * rewrite lookup_alter_ne by done. destruct (am !! w); [|done]. cbn [fmap option_fmap option_map].
        destruct (decide (w ∈ vs)); [by rewrite decide_True by set_solver|by rewrite decide_False by set_solver].
    + eapply sp_step_weaken; [|done|by eapply (sp_step_trans _ _ 0 0)]. done.
Qed.
End area.
End space.
