(* ===== verification/AddressSpace.v ===== *)
(** * Correctness of the address-space operations

    The invariant of a [MemorySet] and what its operations do under it:
    creating and removing areas, [munmap], [mprotect], and dropping the whole
    space. *)

From stdpp Require Import base gmap list numbers list_numbers option fin_maps sets sorting.
From S2P Require Import Prelude Address FrameAllocator Machine PageTable MapArea MemorySet Space.

(** ** Lists of areas *)

Section areas.
Context {F : Type}.
Implicit Types (a b : MapArea F) (l : list (MapArea F)).

Definition in_area a (v : Z) : Prop := area_start a <= v < area_end a.

Record area_wf a : Prop := {
  aw_range : 0 <= area_start a <= area_end a;
  aw_end : area_end a <= 2 ^ 26;
  aw_type : map_type a = Framed;
  aw_perm : 0 <= map_perm a < 256;
  aw_frames v p : data_frames a !! v = Some p → in_area a v;
}.

Definition area_disj a b : Prop := ∀ v, in_area a v → in_area b v → False.

Fixpoint areas_wf l : Prop :=
  match l with
  | [] => True
  | a :: l => area_wf a ∧ Forall (area_disj a) l ∧ areas_wf l
  end.

(** The areas hold the frames of [D] in their ranges. *)
Definition agree l (D : gmap Z Z) : Prop :=
  ∀ a v, a ∈ l → in_area a v → data_frames a !! v = D !! v.

(** ... and no others. *)
Definition within l (D : gmap Z Z) : Prop := ∀ v, is_Some (D !! v) → ∃ a, a ∈ l ∧ in_area a v.

Lemma areas_wf_elem l a : areas_wf l → a ∈ l → area_wf a.
Proof.
  induction l as [|b l IH]; simpl; [set_solver|]. intros (Hb & _ & Hl) [->|Ha]%elem_of_cons; auto.
Qed.

Lemma areas_wf_disj l1 a l2 b : areas_wf (l1 ++ a :: l2) → b ∈ l1 ++ l2 → area_disj a b.
Proof.
  induction l1 as [|c l1 IH]; simpl; intros (Hc & Hd & Hl) Hb.
  - eapply Forall_forall; [exact Hd|]. done.
  - apply elem_of_cons in Hb as [->|Hb]; [|by apply IH].
    intros v Hav Hcv. apply Forall_app in Hd as [_ Hd]. apply Forall_cons in Hd as [Hd _]. by apply (Hd v).
Qed.

Lemma areas_wf_app l1 l2 : areas_wf (l1 ++ l2) ↔
  areas_wf l1 ∧ areas_wf l2 ∧ (∀ a b, a ∈ l1 → b ∈ l2 → area_disj a b).
Proof.
  induction l1 as [|a l1 IH]; simpl; [set_solver|]. rewrite IH, Forall_app, !Forall_forall. split.
  - intros (Ha & [Hd1 Hd2] & H1 & H2 & H12). split_and!; [done..|].
    intros x y [->|Hx]%elem_of_cons Hy; auto.
  - intros ((Ha & Hd1 & H1) & H2 & H12). split_and!; try done.
    + intros y Hy. apply H12; [by left|done].
    + intros x y Hx Hy. apply H12; [by right|done].
Qed.

Lemma area_pages a : area_wf a →
  VPNRange_iter (vpn_range a) = seqZ (area_start a) (area_end a - area_start a).
Proof.
  intros [Hr He _ _ _]. apply VPNRange_iter_seqZ; unfold area_start, area_end in *; [|lia].
  unfold is_usize, USIZE. lia.
Qed.

Lemma in_seqZ a v : v ∈ seqZ (area_start a) (area_end a - area_start a) ↔ in_area a v.
Proof. rewrite elem_of_seqZ. unfold in_area. lia. Qed.

Lemma in_area_user a v : area_wf a → in_area a v → user_vpn v.
Proof. intros [Hr He _ _ _] Hv. unfold in_area, user_vpn in *. lia. Qed.

Lemma set_frames_twice fr fr' a : set_frames fr (set_frames fr' a) = set_frames fr a.
Proof. done. Qed.

Lemma frames_in_order_empty : frames_in_order ∅ = [].
Proof. unfold frames_in_order. by rewrite map_to_list_empty. Qed.

Lemma frames_all_gone a : area_wf a →
  del_all (data_frames a) (seqZ (area_start a) (area_end a - area_start a)) = ∅.
Proof.
  intros Hwf. apply map_eq. intros v. rewrite lookup_del_all, lookup_empty. case_decide as Hv; [done|].
  apply eq_None_not_Some. intros [p Hp]. apply Hv, in_seqZ. by eapply aw_frames.
Qed.
End areas.

(** ** [munmap] *)

(** The pages [unmap_range] takes from an area: the overlap, and when the hole
    is in the middle also everything behind it. *)
Definition lost {F} (start_vpn end_vpn : Z) (a : MapArea F) : list Z :=
  if protected_area a || (area_end a <=? start_vpn) || (end_vpn <=? area_start a) then []
  else
    let overlap_start := Z.max (area_start a) start_vpn in
    let overlap_end := Z.min (area_end a) end_vpn in
    if (area_start a <? start_vpn) && (end_vpn <? area_end a)
    then seqZ overlap_start (area_end a - overlap_start)
    else seqZ overlap_start (overlap_end - overlap_start).

Section space_ops.
Context {A : Type} {FA : FrameAllocator A} {inv : A → Prop} {owned : A → Z → Prop} {avail : A → nat}.
Context `{HFS : !FrameAllocatorSpec A inv owned avail}.
Context (ext : Z → nat) {F : Type}.
Implicit Types (s : machine A) (pt : PageTable) (lbl : gmap Z node) (am D : gmap Z Z).
Implicit Types (a b : MapArea F) (l : list (MapArea F)) (ms : MemorySet F).

#[local] Abbreviation sp_core := (sp_core (inv:=inv) (owned:=owned) ext).
#[local] Abbreviation sp_step := (sp_step (owned:=owned) (avail:=avail)).
#[local] Abbreviation kept := (kept ext).

Record ms_inv s ms lbl am D : Prop := {
  mi_core : sp_core s (page_table ms) lbl am D;
  mi_covered : covered am D;
  mi_areas : areas_wf (areas ms);
  mi_agree : agree (areas ms) D;
  mi_within : within (areas ms) D;
}.

Lemma overlap_page_unmaps :
  unmaps_page (inv:=inv) (owned:=owned) (avail:=avail) ext (F:=F) unmap_overlap_page.
Proof.
  intros a s pt lbl am D vpn Q Hc Hcov Hu Hmt Hf HQ. unfold unmap_overlap_page.
  case_decide as Hd; [by eapply (unmap_one_unmaps ext)|].
  assert (D !! vpn = None) as HD by (rewrite <- Hf; by apply eq_None_not_Some).
  assert (am !! vpn = None) as Ham.
  { destruct (am !! vpn) eqn:He; [|done]. apply Hcov in He. congruence. }
  apply wp_bind. eapply (wp_translate_valid ext); [done|done|]. rewrite Ham.
  rewrite bool_decide_eq_false_2 by (by intros [??]). rewrite andb_false_r.
  apply wp_bind, wp_ret, wp_ret. rewrite !delete_id in HQ by (done || congruence).
  replace (set_frames (data_frames a) a) with a in HQ by by destruct a.
  apply HQ; [done|]. apply sp_step_refl.
Qed.

Lemma tail_page_unmaps :
  unmaps_page (inv:=inv) (owned:=owned) (avail:=avail) ext (F:=F) unmap_tail_page.
Proof.
  intros a s pt lbl am D vpn Q Hc Hcov Hu Hmt Hf HQ. unfold unmap_tail_page.
  pose proof (wp_remove_then_unmap ext s pt lbl am D (data_frames a) vpn (λ h, h || negb (lazy a))
    (λ fr s', Q (set_frames fr a, pt) s') Hc Hcov Hu Hf eq_refl HQ) as Hw.
  revert Hw. unfold wp, m_bind, m_ret. simpl.
  destruct (frames_remove (data_frames a) vpn s) as [[[h fr] s1]|]; [|done].
  destruct ((h || negb (lazy a)) && bool_decide _); [|done].
  by destruct (PageTable_unmap pt vpn s1) as [[]|].
Qed.

(** What is left of an area after losing the pages [vs]. *)
Record shrunk (vs : list Z) a a' : Prop := {
  sh_wf : area_wf a';
  sh_frames : data_frames a' = del_all (data_frames a) vs;
  sh_range v : in_area a' v ↔ in_area a v ∧ v ∉ vs;
  sh_perm : map_perm a' = map_perm a;
  sh_kind : kind a' = kind a;
  sh_type : area_type a' = area_type a;
  sh_lazy : lazy a' = lazy a;
}.

Lemma lost_in_area start_vpn end_vpn a v : v ∈ lost start_vpn end_vpn a → in_area a v.
Proof.
  unfold lost, in_area. repeat case_match; rewrite ?elem_of_seqZ; try set_solver; lia.
Qed.

Lemma shrunk_refl a : area_wf a → shrunk [] a a.
Proof. intros Hwf. split; try done; [by rewrite del_all_nil|set_solver]. Qed.

(** Shrinking to a subrange. *)
Lemma shrunk_range (va : option Z) a vs r :
  area_wf a → (∀ v, v ∈ vs → in_area a v) → 0 <= vr_start r <= vr_end r → vr_end r <= 2 ^ 26 →
  (∀ v, vr_start r <= v < vr_end r ↔ in_area a v ∧ v ∉ vs) →
  let a' := set_range r (set_frames (del_all (data_frames a) vs) a) in
  shrunk vs a (match va with Some va => set_start_va va a' | None => a' end).
Proof.
  intros Hwf Hvs Hr He Hin a'. pose proof Hwf as [_ _ Ht Hp Hf].
  assert (∀ v p, del_all (data_frames a) vs !! v = Some p → vr_start r <= v < vr_end r) as Hdel.
  { intros v p. rewrite lookup_del_all. case_decide; [done|]. intros Hv. apply Hin. split; [|done].
    by eapply Hf. }
  destruct va; (split; [split; simpl; try done|done|intros v; apply Hin|done..]).
Qed.

Lemma fold_unmap_area f a s pt lbl am D vs (Q : MapArea F * PageTable → machine A → Prop) :
  unmaps_page (inv:=inv) (owned:=owned) (avail:=avail) ext f →
  sp_core s pt lbl am D → covered am D → area_wf a → agree [a] D → (∀ v, v ∈ vs → in_area a v) →
  (∀ s', sp_core s' pt lbl (del_all am vs) (del_all D vs) → sp_step (kept D vs) 0 s s' lbl lbl →
     Q (set_frames (del_all (data_frames a) vs) a, pt) s') →
  wp (m_fold (λ '(a, pt) vpn, f a pt vpn) vs (a, pt)) Q s.
Proof.
  intros Hf Hc Hcov Hwf Hag Hvs HQ. eapply (wp_sp_unmap_pages ext f vs); [done|done|done|apply Hwf| |done].
  intros v Hv. split; [eapply in_area_user; eauto|]. apply Hag; [set_solver|auto].
Qed.

Lemma covered_del_all am D vs : covered am D → covered (del_all am vs) (del_all D vs).
Proof. intros Hcov v e. rewrite !lookup_del_all. case_decide; [done|]. apply Hcov. Qed.

Lemma wp_unmap_partial a s pt lbl am D start_vpn end_vpn (Q : MapArea F * PageTable → machine A → Prop) :
  sp_core s pt lbl am D → covered am D → area_wf a → agree [a] D → protected_area a = false →
  start_vpn < end_vpn → start_vpn < area_end a → area_start a < end_vpn →
  ¬ (start_vpn <= area_start a ∧ area_end a <= end_vpn) →
  let vs := lost start_vpn end_vpn a in
  (∀ a' s', sp_core s' pt lbl (del_all am vs) (del_all D vs) → sp_step (kept D vs) 0 s s' lbl lbl →
     shrunk vs a a' → Q (a', pt) s') →
  wp (unmap_partial a pt start_vpn end_vpn) Q s.
Proof.
  intros Hc Hcov Hwf Hag Hprot Hse Hs He Hpart vs HQ. pose proof Hwf as [Hr Hend _ _ _].
  unfold unmap_partial. set (os := Z.max (area_start a) start_vpn). set (oe := Z.min (area_end a) end_vpn).
  assert (vs = if (area_start a <? start_vpn) && (end_vpn <? area_end a)
               then seqZ os (area_end a - os) else seqZ os (oe - os)) as Hvs.
  { unfold vs, lost. rewrite Hprot. simpl.
    destruct (Z.leb_spec (area_end a) start_vpn); [lia|]. by destruct (Z.leb_spec end_vpn (area_start a)); [lia|]. }
  apply wp_bind. eapply fold_unmap_area; [apply overlap_page_unmaps|done|done|done|done| |].
  { intros v Hv%elem_of_seqZ. unfold in_area. lia. }
  intros s1 Hc1 Hst1. set (vs1 := seqZ os (oe - os)) in *.
  destruct (Z.eqb_spec os (area_start a)) as [Hos|Hos]; [|destruct (Z.eqb_spec oe (area_end a)) as [Hoe|Hoe]].
  - destruct (Z.ltb_spec (area_start a) start_vpn); [lia|]. simpl in Hvs. fold vs1 in Hvs. rewrite Hvs in HQ.
    apply wp_ret, HQ; [done|done|].
    eapply (shrunk_range (Some (VirtAddr_from_VirtPageNum oe))); [done| | | |].
    { intros v Hv%elem_of_seqZ. unfold in_area. lia. }
    all: unfold VPNRange_new; destruct (Z.leb_spec oe (area_end a)); simpl; try lia.
    intros v. unfold vs1, in_area. rewrite elem_of_seqZ. lia.
  - destruct (Z.ltb_spec end_vpn (area_end a)); [lia|]. rewrite andb_false_r in Hvs. fold vs1 in Hvs.
    rewrite Hvs in HQ. apply wp_ret, HQ; [done|done|].
    eapply (shrunk_range None); [done| | | |].
    { intros v Hv%elem_of_seqZ. unfold in_area. lia. }
    all: unfold VPNRange_new; destruct (Z.leb_spec (area_start a) os); simpl; try lia.
    intros v. unfold vs1, in_area. rewrite elem_of_seqZ. lia.
  - destruct (Z.ltb_spec (area_start a) start_vpn); [|lia]. destruct (Z.ltb_spec end_vpn (area_end a)); [|lia].
    simpl in Hvs. apply wp_bind.
    assert (vs = vs1 ++ seqZ oe (area_end a - oe)) as Hvs2.
    { rewrite Hvs. unfold vs1. replace oe with (os + (oe - os)) at 2 by lia. rewrite <- seqZ_app by lia. f_equal. lia. }
    eapply (wp_sp_unmap_pages ext); [apply tail_page_unmaps|done|by apply covered_del_all|apply Hwf| |].
    { intros v Hv%elem_of_seqZ. assert (in_area a v) by (unfold in_area; lia).
      split; [by eapply in_area_user|]. simpl. rewrite !lookup_del_all. case_decide; [done|]. apply Hag; [set_solver|done]. }
    intros s2 Hc2 Hst2. rewrite Hvs2, !del_all_app in HQ. apply wp_ret, HQ; [done| |].
    { eapply sp_step_weaken; [|done|by eapply (sp_step_trans _ _ 0 0)]. intros q Hq. by apply kept_app in Hq. }
    rewrite <- Hvs2, set_frames_twice. simpl. rewrite <- del_all_app, <- Hvs2.
    eapply (shrunk_range None); [done| | | |].
    { rewrite Hvs. intros v Hv%elem_of_seqZ. unfold in_area. lia. }
    all: unfold VPNRange_new; destruct (Z.leb_spec (area_start a) os); simpl; try lia.
    intros v. rewrite Hvs. unfold in_area. rewrite elem_of_seqZ. lia.
Qed.

(** The areas after [unmap_range]: each is what is left of one of the old
    areas, and every old area that keeps a page is still there. *)
Record remains (st en : Z) l l' : Prop := {
  rm_wf : areas_wf l';
  rm_from a' : a' ∈ l' → ∃ a, a ∈ l ∧ shrunk (lost st en a) a a';
  rm_kept a v : a ∈ l → in_area a v → v ∉ lost st en a →
    ∃ a', a' ∈ l' ∧ shrunk (lost st en a) a a';
}.

Lemma remains_cons_gone st en a l l' :
  (∀ v, in_area a v → v ∈ lost st en a) → remains st en l l' → remains st en (a :: l) l'.
Proof.
  intros Ha [Hwf Hfrom Hkept]. split; [done| |].
  - intros a' Ha'. destruct (Hfrom a' Ha') as (b & Hb & Hs). exists b. split; [by right|done].
  - intros b v [->|Hb]%elem_of_cons Hv Hl; [by apply Ha in Hv|eauto].
Qed.

Lemma remains_cons st en a a' l l' :
  Forall (area_disj a) l → shrunk (lost st en a) a a' → remains st en l l' →
  remains st en (a :: l) (a' :: l').
Proof.
  intros Hd Hs [Hwf Hfrom Hkept]. split.
  - simpl. split_and!; [apply Hs| |done]. apply Forall_forall. intros b' Hb' v Hv Hbv.
    destruct (Hfrom b' Hb') as (b & Hb & Hsb). apply (sh_range _ _ _ Hs) in Hv as [Hv _].
    destruct (proj1 (sh_range _ _ _ Hsb v) Hbv) as [Hbv' _]. by eapply (proj1 (Forall_forall _ _) Hd b Hb v).
  - intros c' [->|Hc']%elem_of_cons; [exists a; split; [by left|done]|].
    destruct (Hfrom c' Hc') as (b & Hb & Hsb). exists b. split; [by right|done].
  - intros b v [->|Hb]%elem_of_cons Hv Hl; [exists a'; split; [by left|done]|].
    destruct (Hkept b v Hb Hv Hl) as (b' & Hb' & Hsb). exists b'. split; [by right|done].
Qed.

Lemma agree_del_all a l D vs :
  Forall (area_disj a) l → (∀ v, v ∈ vs → in_area a v) → agree (a :: l) D → agree l (del_all D vs).
Proof.
  intros Hd Hvs Hag b v Hb Hv. rewrite lookup_del_all. case_decide as Hin.
  - exfalso. eapply (proj1 (Forall_forall _ _) Hd b Hb v); [by apply Hvs|done].
  - apply Hag; [by right|done].
Qed.

Lemma lost_none st en a :
  protected_area a || (area_end a <=? st) || (en <=? area_start a) = true → lost st en a = [].
Proof. intros H. unfold lost. by rewrite H. Qed.

Lemma lost_all st en a :
  protected_area a || (area_end a <=? st) || (en <=? area_start a) = false →
  st <= area_start a → area_end a <= en → lost st en a = seqZ (area_start a) (area_end a - area_start a).
Proof.
  intros H H1 H2. unfold lost. rewrite H. destruct (Z.ltb_spec (area_start a) st); [lia|]. simpl.
  by rewrite Z.max_l, Z.min_l by lia.
Qed.

Lemma wp_unmap_range_list st en l : st < en → ∀ s pt lbl am D
    (Q : list (MapArea F) * PageTable → machine A → Prop),
  sp_core s pt lbl am D → covered am D → areas_wf l → agree l D →
  (∀ l' s', let vs := l ≫= lost st en in
     sp_core s' pt lbl (del_all am vs) (del_all D vs) → sp_step (kept D vs) 0 s s' lbl lbl →
     remains st en l l' → Q (l', pt) s') →
  wp (unmap_range_list l pt st en) Q s.
Proof.
  intros Hse. induction l as [|a l IH]; intros s pt lbl am D Q Hc Hcov Hwf Hag HQ.
  { apply wp_ret. apply HQ; simpl; rewrite ?del_all_nil; [done|apply sp_step_refl|]. split; [done|set_solver..]. }
  destruct Hwf as (Ha & Hd & Hl). cbn [unmap_range_list].
  assert (∀ s1 l' s', sp_step (kept D (lost st en a)) 0 s s1 lbl lbl →
    sp_core s' pt lbl (del_all (del_all am (lost st en a)) (l ≫= lost st en))
      (del_all (del_all D (lost st en a)) (l ≫= lost st en)) →
    sp_step (kept (del_all D (lost st en a)) (l ≫= lost st en)) 0 s1 s' lbl lbl →
    remains st en (a :: l) l' → Q (l', pt) s') as HQ'.
  { intros s1 l' s' Hst1 Hc' Hst' Hr. apply HQ; csimpl; rewrite ?del_all_app; [done| |done].
    eapply sp_step_weaken; [|done|by eapply (sp_step_trans _ _ 0 0)]. intros q Hq. by apply kept_app in Hq. }
  clear HQ. pose proof (lost_in_area st en a) as Hlost.
  destruct (protected_area a || (area_end a <=? st) || (en <=? area_start a)) eqn:Hskip.
  - pose proof (lost_none _ _ _ Hskip) as Hnone. apply wp_bind.
    eapply (IH s pt lbl am D); [done|done|done|intros b v Hb; apply Hag; by right|].
    intros l' s' vs Hc' Hst' Hr. apply wp_ret. apply (HQ' s); rewrite ?Hnone, ?del_all_nil;
      [apply sp_step_refl|done|done|].
    apply remains_cons; [done|by rewrite Hnone; apply shrunk_refl|done].
  - apply orb_false_iff in Hskip as Hskip'. destruct Hskip' as [Hskip' Hes%Z.leb_gt].
    apply orb_false_iff in Hskip' as [Hprot Hee%Z.leb_gt].
    destruct ((st <=? area_start a) && (area_end a <=? en)) eqn:Hfull.
    + apply andb_true_iff in Hfull as [H1%Z.leb_le H2%Z.leb_le].
      pose proof (lost_all _ _ _ Hskip H1 H2) as Hall.
      apply wp_bind. unfold MapArea_unmap. rewrite area_pages by done. rewrite <- Hall.
      eapply fold_unmap_area; [apply unmap_one_unmaps|done|done|done| |done|].
      { intros b v ->%list_elem_of_singleton. apply Hag. by left. }
      intros s1 Hc1 Hst1. rewrite Hall, frames_all_gone by done. apply wp_bind.
      unfold MapArea_drop. simpl. rewrite frames_in_order_empty. apply wp_ret.
      eapply IH; [done|by apply covered_del_all|done|by eapply agree_del_all|].
      intros l' s' vs Hc' Hst' Hr. eapply HQ'; [done|done|done|].
      apply remains_cons_gone; [|done]. intros v Hv. by rewrite Hall, in_seqZ.
    + assert (¬ (st <= area_start a ∧ area_end a <= en)) as Hpart.
      { apply andb_false_iff in Hfull as [H%Z.leb_gt|H%Z.leb_gt]; lia. }
      apply wp_bind. eapply wp_unmap_partial; [done|done|done| |done|done|done|done|done|].
      { intros b v ->%list_elem_of_singleton. apply Hag. by left. }
      intros a' s1 Hc1 Hst1 Hs. apply wp_bind.
      eapply IH; [done|by apply covered_del_all|done|by eapply agree_del_all|].
      intros l' s' vs Hc' Hst' Hr. apply wp_ret. eapply HQ'; [done|done|done|]. by apply remains_cons.
Qed.

Lemma remains_agree st en l l' D :
  areas_wf l → agree l D → remains st en l l' → agree l' (del_all D (l ≫= lost st en)).
Proof.
  intros Hwf Hag [_ Hfrom _] a' v Ha' Hv. destruct (Hfrom a' Ha') as (a & Ha & Hs).
  rewrite (sh_frames _ _ _ Hs), !lookup_del_all. destruct (proj1 (sh_range _ _ _ Hs v) Hv) as [Hva Hnl].
  rewrite decide_False by done. rewrite decide_False; [by apply Hag|].
  intros (b & Hvb & Hb)%list_elem_of_bind. assert (in_area b v) as Hbv by (by eapply lost_in_area).
  apply list_elem_of_split in Ha as (l1 & l2 & ->).
  assert (b = a ∨ b ∈ l1 ++ l2) as [->|Hb'] by set_solver; [done|].
  by apply (areas_wf_disj l1 a l2 b Hwf Hb' v).
Qed.

Lemma remains_within st en l l' D :
  within l D → remains st en l l' → within l' (del_all D (l ≫= lost st en)).
Proof.
  intros Hin [_ _ Hkept] v [p Hp]. rewrite lookup_del_all in Hp. case_decide as Hv; [done|].
  destruct (Hin v) as (a & Ha & Hav); [by eexists|].
  assert (v ∉ lost st en a) as Hnl. { intros Hl. apply Hv, list_elem_of_bind. eauto. }
  destruct (Hkept a v Ha Hav Hnl) as (a' & Ha' & Hs). exists a'. split; [done|].
  by apply (sh_range _ _ _ Hs).
Qed.

(** [unmap_range] on a well-formed space. *)
Lemma wp_unmap_range s ms lbl am D start end_ (Q : MemorySet F → machine A → Prop) :
  ms_inv s ms lbl am D →
  (∀ ms' s', let vs := areas ms ≫= lost (VirtAddr_floor start) (VirtAddr_ceil end_) in
     ms_inv s' ms' lbl (del_all am vs) (del_all D vs) → sp_step (kept D vs) 0 s s' lbl lbl →
     page_table ms' = page_table ms → Q ms' s') →
  VirtAddr_floor start < VirtAddr_ceil end_ →
  wp (unmap_range ms start end_) Q s.
Proof.
  intros [Hc Hcov Hwf Hag Hin] HQ Hse. unfold unmap_range.
  destruct (Z.leb_spec (VirtAddr_ceil end_) (VirtAddr_floor start)); [lia|].
  apply wp_bind. eapply wp_unmap_range_list; [done|done|done|done|done|].
  intros l' s' vs Hc' Hst' Hr. apply wp_ret. apply HQ; [|done|done]. split; simpl.
  - done.
  - by apply covered_del_all.
  - apply Hr.
  - by eapply remains_agree.
  - by eapply remains_within.
Qed.

(** ** [mprotect] *)

Lemma perm_flags_range perm : 0 <= map_perm_to_pte_flags perm < 256.
Proof. unfold map_perm_to_pte_flags. repeat case_match; vm_compute; split; congruence. Qed.

Lemma perm_flags_valid perm : Z.testbit (map_perm_to_pte_flags perm) 0 = true.
Proof. unfold map_perm_to_pte_flags. by repeat case_match. Qed.

(** The two halves of a split hold the frames of their ranges. *)
Lemma split_off_spec a v D :
  area_wf a → agree [a] D → area_start a <= v <= area_end a →
  ∃ lo hi, MapArea_split_off a v = Ret (lo, hi) ∧
    area_wf lo ∧ area_wf hi ∧ agree [lo; hi] D ∧
    area_start lo = area_start a ∧ area_end lo = v ∧ area_start hi = v ∧ area_end hi = area_end a ∧
    map_perm lo = map_perm a ∧ map_perm hi = map_perm a.
Proof.
  intros Hwf Hag Hv. pose proof Hwf as [Hr He Ht Hp Hf]. unfold MapArea_split_off.
  destruct (Z.leb_spec (area_start a) v); [|lia]. destruct (Z.leb_spec v (area_end a)); [|lia]. simpl.
  rewrite decide_True by done. unfold frames_split_off. do 2 eexists. split; [done|].
  unfold area_start, area_end, VPNRange_new in *. simpl.
  destruct (Z.leb_spec (vr_start (vpn_range a)) v); [|lia].
  destruct (Z.leb_spec v (vr_end (vpn_range a))); [|lia]. simpl.
  split_and!; try done.
  - split; unfold area_start, area_end, in_area; simpl; try done; [lia|lia|].
    intros w p [Hw Hlt]%map_lookup_filter_Some. apply Hf in Hw. unfold in_area, area_start, area_end in *. simpl in *. lia.
  - split; unfold area_start, area_end, in_area; simpl; try done; [lia|].
    intros w p [Hw Hlt]%map_lookup_filter_Some. apply Hf in Hw. unfold in_area, area_start, area_end in *. simpl in *. lia.
  - assert (∀ w (P : Z * Z → Prop) `{!∀ x, Decision (P x)}, in_area a w → (∀ p, P (w, p)) →
      filter P (data_frames a) !! w = D !! w) as Hfil.
    { intros w P HP Hw Hall. rewrite <- (Hag a w) by (set_solver || done).
      destruct (data_frames a !! w) as [p|] eqn:Hdw.
      - by apply map_lookup_filter_Some.
      - apply map_lookup_filter_None. by left. }
    intros b w Hb. set_unfold in Hb. unfold in_area, area_start, area_end in *.
    destruct Hb as [->|[->|[]]]; simpl; intros Hw; (apply Hfil; [lia|simpl; intros; lia]).
Qed.

Lemma wp_apply_perm a s pt lbl am D perm (Q : MapArea F → machine A → Prop) :
  sp_core s pt lbl am D → area_wf a →
  (∀ s', sp_core s' pt lbl (protect_map (seqZ (area_start a) (area_end a - area_start a))
                              (map_perm_to_pte_flags perm) am) D →
     sp_step (λ _, True) 0 s s' lbl lbl → arcs s' = arcs s → Q (set_perm perm a) s') →
  wp (MapArea_apply_perm a pt perm) Q s.
Proof.
  intros Hc Hwf HQ. unfold MapArea_apply_perm. apply wp_bind. rewrite area_pages by done.
  eapply (wp_sp_protect_pages ext); [done| |apply NoDup_seqZ|apply perm_flags_range|apply perm_flags_valid|].
  { intros v Hv%in_seqZ. by eapply in_area_user. }
  intros s' Hc' Hst' Ha'. by apply wp_ret, HQ.
Qed.

(** The pages of an area [change_protection] touches. *)
Definition touched (st en : Z) a : list Z :=
  let ms := Z.max (area_start a) st in
  let me := Z.min (area_end a) en in
  seqZ ms (me - ms).

Lemma touched_in st en a v : v ∈ touched st en a ↔ in_area a v ∧ st <= v < en.
Proof. unfold touched, in_area. rewrite elem_of_seqZ. lia. Qed.

(** Consecutive areas from [x] to [y]. *)
Fixpoint chain (x : Z) l (y : Z) : Prop :=
  match l with
  | [] => x = y
  | b :: l => area_start b = x ∧ chain (area_end b) l y
  end.

Lemma chain_le x l y : Forall area_wf l → chain x l y → x <= y.
Proof.
  revert x. induction l as [|b l IH]; simpl; intros x Hwf Hc; [lia|].
  apply Forall_cons in Hwf as [[Hr _ _ _ _] Hwf]. destruct Hc as [<- Hc]. apply IH in Hc; [lia|done].
Qed.

Lemma chain_in x l y b v : Forall area_wf l → chain x l y → b ∈ l → in_area b v → x <= v < y.
Proof.
  revert x. induction l as [|c l IH]; simpl; intros x Hwf Hc Hb Hv; [set_solver|].
  apply Forall_cons in Hwf as [Hcw Hwf]. destruct Hc as [<- Hc]. pose proof (chain_le _ _ _ Hwf Hc).
  pose proof (aw_range _ Hcw). apply elem_of_cons in Hb as [->|Hb]; [unfold in_area in Hv; lia|].
  pose proof (IH _ Hwf Hc Hb Hv). lia.
Qed.

Lemma chain_cover x l y v : chain x l y → x <= v < y → ∃ b, b ∈ l ∧ in_area b v.
Proof.
  revert x. induction l as [|c l IH]; simpl; intros x Hc Hv; [lia|]. destruct Hc as [<- Hc].
  destruct (decide (v < area_end c)).
  - exists c. split; [by left|]. unfold in_area. lia.
  - destruct (IH (area_end c) Hc) as (b & Hb & Hbv); [lia|]. exists b. split; [by right|done].
Qed.

Lemma chain_areas_wf x l y : Forall area_wf l → chain x l y → areas_wf l.
Proof.
  revert x. induction l as [|c l IH]; simpl; intros x Hwf Hc; [done|]. destruct Hc as [<- Hc].
  apply Forall_cons in Hwf as [Hcw Hwf]. split_and!; [done| |by eapply IH].
  apply Forall_forall. intros b Hb v Hv Hbv. pose proof (chain_in _ _ _ _ _ Hwf Hc Hb Hbv).
  unfold in_area in Hv. lia.
Qed.

(** The pieces of an area: they tile it, hold its frames, and have the new
    permission exactly inside the range. *)
Record pieces_of (st en perm : Z) a l (D : gmap Z Z) : Prop := {
  po_wf : Forall area_wf l;
  po_chain : chain (area_start a) l (area_end a);
  po_agree : agree l D;
  po_perm b v : b ∈ l → in_area b v → map_perm b = if decide (st <= v < en) then perm else map_perm a;
}.

Lemma area_start_perm perm a : area_start (set_perm perm a) = area_start a.
Proof. done. Qed.
Lemma area_end_perm perm a : area_end (set_perm perm a) = area_end a.
Proof. done. Qed.

Lemma set_perm_wf perm a : 0 <= perm < 256 → area_wf a → area_wf (set_perm perm a).
Proof. intros Hp [Hr He Ht _ Hf]. by split. Qed.

Lemma agree_cons a l D : agree (a :: l) D ↔ agree [a] D ∧ agree l D.
Proof.
  unfold agree. split.
  - intros H. split; intros b v Hb; apply H; set_solver.
  - intros [H1 H2] b v [->|Hb]%elem_of_cons; [apply H1; set_solver|by apply H2].
Qed.

Lemma agree_set_perm perm a D : agree [set_perm perm a] D ↔ agree [a] D.
Proof.
  split; intros Hag b v ->%list_elem_of_singleton Hv.
  - rewrite <- (Hag (set_perm perm a) v); [done|set_solver|exact Hv].
  - rewrite <- (Hag a v); [done|set_solver|exact Hv].
Qed.

Lemma pieces_tile st en perm a l D v : pieces_of st en perm a l D →
  (∃ b, b ∈ l ∧ in_area b v) ↔ in_area a v.
Proof.
  intros [Hwf Hch _ _]. split.
  - intros (b & Hb & Hv). by eapply chain_in.
  - intros Hv. by eapply chain_cover.
Qed.

Lemma wp_protect_area a s pt lbl am D st en perm (Q : list (MapArea F) → machine A → Prop) :
  sp_core s pt lbl am D → area_wf a → agree [a] D → st < en → 0 <= perm < 256 →
  (∀ l s', sp_core s' pt lbl (protect_map (touched st en a) (map_perm_to_pte_flags perm) am) D →
     sp_step (λ _, True) 0 s s' lbl lbl → arcs s' = arcs s → pieces_of st en perm a l D → Q l s') →
  wp (protect_area a pt st en perm) Q s.
Proof.
  intros Hc Hwf Hag Hse Hperm HQ. pose proof (aw_range _ Hwf) as Hr. unfold protect_area, touched in *.
  destruct ((area_end a <=? st) || (en <=? area_start a)) eqn:Hskip.
  { assert (area_end a <= st ∨ en <= area_start a) as Hout.
    { apply orb_true_iff in Hskip as [?%Z.leb_le|?%Z.leb_le]; auto. }
    apply wp_ret. rewrite seqZ_nil, protect_map_nil in HQ by lia.
    apply HQ; [done|apply sp_step_refl|done|]. split; [by constructor|done|done|].
    intros b v ->%list_elem_of_singleton Hv. rewrite decide_False; [done|]. unfold in_area in Hv. lia. }
  apply orb_false_iff in Hskip as [H1%Z.leb_gt H2%Z.leb_gt].
  set (ms := Z.max (area_start a) st) in *. set (me := Z.min (area_end a) en) in *.
  assert (area_start a <= ms <= me ∧ me <= area_end a) as Hm by lia.
  assert (∀ b v, ms <= area_start b → area_end b <= me → in_area b v → st <= v < en) as Hin.
  { intros b v. unfold in_area. lia. }
  destruct (Z.eqb_spec ms (area_start a)) as [Hs|Hs], (Z.eqb_spec me (area_end a)) as [Hd|Hd]; simpl.
  - apply wp_bind. eapply wp_apply_perm; [done|done|]. intros s' Hc' Hst' Ha'. apply wp_ret.
    rewrite Hs, Hd in HQ. apply HQ; [done|done|done|]. split.
    + apply Forall_singleton. by apply set_perm_wf.
    + done.
    + by apply agree_set_perm.
    + intros b v ->%list_elem_of_singleton Hv. rewrite decide_True; [done|]. eapply Hin; [| |done]; rewrite ?area_start_perm, ?area_end_perm; lia.
  - destruct (split_off_spec a me D Hwf Hag) as (lo & hi & -> & Hlo & Hhi & Hag' & L1 & L2 & R1 & R2 & P1 & P2); [lia|].
    apply agree_cons in Hag' as [Haglo Haghi].
    apply wp_bind. eapply wp_apply_perm; [done|done|]. intros s' Hc' Hst' Ha'. apply wp_ret.
    rewrite L1, L2 in Hc'. rewrite Hs in HQ. apply HQ; [done|done|done|]. split.
    + rewrite !Forall_cons, Forall_nil. auto 6 using set_perm_wf.
    + simpl. by rewrite <- L2 in R1.
    + apply agree_cons. split; [by apply agree_set_perm|done].
    + intros b v Hb Hv. set_unfold in Hb. destruct Hb as [->|[->|[]]].
      * rewrite decide_True; [done|]. eapply Hin; [| |done]; rewrite ?area_start_perm, ?area_end_perm; lia.
      * rewrite decide_False; [done|]. unfold in_area in Hv. lia.
  - destruct (split_off_spec a ms D Hwf Hag) as (lo & hi & -> & Hlo & Hhi & Hag' & L1 & L2 & R1 & R2 & P1 & P2); [lia|].
    apply agree_cons in Hag' as [Haglo Haghi].
    apply wp_bind. eapply wp_apply_perm; [done|done|]. intros s' Hc' Hst' Ha'. apply wp_ret.
    rewrite R1, R2 in Hc'. rewrite Hd in HQ. apply HQ; [done|done|done|]. split.
    + rewrite !Forall_cons, Forall_nil. auto 6 using set_perm_wf.
    + simpl. by rewrite <- L2 in R1.
    + apply agree_cons. split; [done|by apply agree_set_perm].
    + intros b v Hb Hv. set_unfold in Hb. destruct Hb as [->|[->|[]]].
      * rewrite decide_False; [done|]. unfold in_area in Hv. lia.
      * rewrite decide_True; [done|]. eapply Hin; [| |done]; rewrite ?area_start_perm, ?area_end_perm; lia.
  - destruct (split_off_spec a ms D Hwf Hag) as (lo & mid & -> & Hlo & Hmid & Hag' & L1 & L2 & R1 & R2 & P1 & P2); [lia|].
    apply agree_cons in Hag' as [Haglo Hagmid].
    destruct (split_off_spec mid me D Hmid Hagmid)
      as (mid' & hi & -> & Hmid' & Hhi & Hag'' & L1' & L2' & R1' & R2' & P1' & P2'); [lia|].
    apply agree_cons in Hag'' as [Hagmid' Haghi].
    apply wp_bind. eapply wp_apply_perm; [done|done|]. intros s' Hc' Hst' Ha'. apply wp_ret.
    rewrite L1', L2', R1 in Hc'. apply HQ; [done|done|done|]. split.
    + rewrite !Forall_cons, Forall_nil. auto 6 using set_perm_wf.
    + simpl. rewrite ?area_start_perm, ?area_end_perm. split_and!; [done|congruence|congruence|congruence].
    + apply agree_cons. split; [done|]. apply agree_cons. split; [by apply agree_set_perm|done].
    + intros b v Hb Hv. set_unfold in Hb. destruct Hb as [->|[->|[->|[]]]].
      * rewrite decide_False; [done|]. unfold in_area in Hv. lia.
      * rewrite decide_True; [done|]. eapply Hin; [| |done]; rewrite ?area_start_perm, ?area_end_perm; lia.
      * rewrite decide_False; [congruence|]. unfold in_area in Hv. lia.
Qed.

(** The areas after [change_protection]. *)
Record reprotected (st en perm : Z) l l' (D : gmap Z Z) : Prop := {
  rp_wf : areas_wf l';
  rp_agree : agree l' D;
  rp_tile v : (∃ b, b ∈ l' ∧ in_area b v) ↔ (∃ a, a ∈ l ∧ in_area a v);
  rp_perm b v : b ∈ l' → in_area b v →
    ∃ a, a ∈ l ∧ in_area a v ∧ map_perm b = if decide (st <= v < en) then perm else map_perm a;
}.

Lemma wp_protect_list st en perm l : st < en → 0 <= perm < 256 → ∀ s pt lbl am D
    (Q : list (MapArea F) → machine A → Prop),
  sp_core s pt lbl am D → areas_wf l → agree l D →
  (∀ l' s', sp_core s' pt lbl (protect_map (l ≫= touched st en) (map_perm_to_pte_flags perm) am) D →
     sp_step (λ _, True) 0 s s' lbl lbl → arcs s' = arcs s → reprotected st en perm l l' D → Q l' s') →
  wp (protect_list l pt st en perm) Q s.
Proof.
  intros Hse Hperm. induction l as [|a l IH]; intros s pt lbl am D Q Hc Hwf Hag HQ; simpl.
  { apply wp_ret. apply HQ; [by rewrite protect_map_nil|apply sp_step_refl|done|]. by split; try set_solver. }
  destruct Hwf as (Ha & Hd & Hl). apply agree_cons in Hag as [Haga Hagl].
  apply wp_bind. eapply wp_protect_area; [done..|]. intros pieces s1 Hc1 Hst1 Ha1 Hp.
  apply wp_bind. eapply IH; [exact Hc1|done|done|]. intros l' s2 Hc2 Hst2 Ha2 [Rwf Rag Rtile Rperm].
  apply wp_ret. csimpl in HQ. rewrite (protect_map_app ext) in Hc2 by apply perm_flags_range.
  apply HQ; [done| |congruence|].
  { eapply sp_step_weaken; [|done|by eapply (sp_step_trans _ _ 0 0)]. done. }
  assert (∀ v, (∃ b, b ∈ pieces ∧ in_area b v) ↔ in_area a v) as Htile by (intros v; by eapply pieces_tile).
  split.
  - apply areas_wf_app. split_and!; [eapply chain_areas_wf; apply Hp|done|].
    intros b c Hb Hcl v Hbv Hcv. assert (in_area a v) as Hav by (apply Htile; eauto).
    destruct (proj1 (Rtile v)) as (d & Hdl & Hdv); [eauto|].
    by eapply (proj1 (Forall_forall _ _) Hd d Hdl v).
  - intros b v [Hb|Hb]%elem_of_app; [by eapply po_agree|by apply Rag].
  - intros v. setoid_rewrite elem_of_app. setoid_rewrite elem_of_cons. split.
    + intros (b & [Hb|Hb] & Hv).
      * exists a. split; [by left|]. apply Htile. eauto.
      * destruct (proj1 (Rtile v)) as (d & Hdl & Hdv); eauto.
    + intros (b & [->|Hb] & Hv).
      * apply Htile in Hv as (c & Hc' & Hcv). eauto.
      * destruct (proj2 (Rtile v)) as (d & Hdl & Hdv); eauto.
  - intros b v [Hb|Hb]%elem_of_app Hv.
    + exists a. split_and!; [by left|apply Htile; eauto|]. by eapply po_perm.
    + destruct (Rperm b v Hb Hv) as (c & Hcl & Hcv & ?). exists c. split_and!; [by right|done|done].
Qed.

(** ... and its check that the whole range is mapped. *)
Lemma covered_end_gen l c : ∀ acc,
  match foldl (λ next_end a,
    if (area_start a <=? c) && (c <? area_end a) then
      Some (match next_end with Some cur => Z.max cur (area_end a) | None => area_end a end)
    else next_end) acc l with
  | None => acc = None ∧ ∀ a, a ∈ l → ¬ in_area a c
  | Some e => acc = Some e ∨ ∃ a, a ∈ l ∧ in_area a c ∧ area_end a = e
  end.
Proof.
  induction l as [|a l IH]; intros acc; simpl; [destruct acc; [by left|split; [done|set_solver]]|].
  destruct (Z.leb_spec (area_start a) c), (Z.ltb_spec c (area_end a)); simpl.
  2-4: specialize (IH acc); case_match; [destruct IH as [?|(b & ? & ?)]; [by left|right; exists b; set_solver]|];
       destruct IH as [? IH]; split; [done|]; intros b [->|Hb]%elem_of_cons; [unfold in_area; lia|auto].
  specialize (IH (Some (match acc with Some cur => Z.max cur (area_end a) | None => area_end a end))).
  case_match; [|by destruct IH]. destruct IH as [[= <-]|(b & ? & ?)]; [|right; exists b; set_solver].
  destruct acc as [cur|]; [|right; exists a; unfold in_area; set_solver by lia].
  destruct (Z.max_spec cur (area_end a)) as [[_ ->]|[_ ->]]; [|by left].
  right. exists a. unfold in_area. set_solver by lia.
Qed.

Lemma protect_covered_spec fuel l : ∀ cursor en, cursor <= en → en - cursor <= Z.of_nat fuel →
  ∃ b : bool, protect_covered fuel l cursor en = Finished b ∧
    (b = true ↔ ∀ v, cursor <= v < en → ∃ a, a ∈ l ∧ in_area a v).
Proof.
  induction fuel as [|fuel IH]; intros cursor en Hle Hf; simpl; destruct (Z.ltb_spec cursor en); try lia.
  - exists true. split; [done|]. split; [|done]. intros _ v Hv. lia.
  - pose proof (covered_end_gen l cursor None) as Hcov. fold (covered_end l cursor) in Hcov.
    destruct (covered_end l cursor) as [e|].
    + destruct Hcov as [?|(a & Ha & Hac & He)]; [done|]. unfold in_area in Hac.
      destruct (IH (Z.min e en) en) as (b & -> & Hb); [lia|lia|]. exists b. split; [done|]. rewrite Hb. split.
      * intros Hall v Hv. destruct (decide (v < e)); [|apply Hall; lia]. exists a. split; [done|]. unfold in_area. lia.
      * intros Hall v Hv. apply Hall. lia.
    + destruct Hcov as [_ Hnone]. exists false. split; [done|]. split; [done|]. intros Hall.
      destruct (Hall cursor) as (a & Ha & Hac); [lia|]. by apply Hnone in Hac.
  - exists true. split; [done|]. split; [|done]. intros _ v Hv. lia.
Qed.
End space_ops.
