(* ===== verification/Mmap.v ===== *)
(** * mmap, munmap, mprotect and the life of an address space

    What the operations of [MemorySet] do to the pages a user program sees,
    and that a space gives back every frame it took. *)

From stdpp Require Import base gmap list numbers list_numbers option fin_maps sets sorting.
From S2P Require Import Prelude Address FrameAllocator Machine PageTable MapArea MemorySet Space.
From S2P Require Import AddressSpace.

Section mmap.
Context {A : Type} {FA : FrameAllocator A} {inv : A → Prop} {owned : A → Z → Prop} {avail : A → nat}.
Context `{HFS : !FrameAllocatorSpec A inv owned avail}.
Context (ext : Z → nat) {F : Type}.
Implicit Types (s : machine A) (pt : PageTable) (lbl : gmap Z node) (am D : gmap Z Z).
Implicit Types (a b : MapArea F) (l : list (MapArea F)) (ms : MemorySet F).

#[local] Abbreviation sp_core := (sp_core (inv:=inv) (owned:=owned) ext).
#[local] Abbreviation sp_step := (sp_step (owned:=owned) (avail:=avail)).
#[local] Abbreviation ms_inv := (ms_inv (inv:=inv) (owned:=owned) ext (F:=F)).
#[local] Abbreviation kept := (kept ext).

(** What a user program sees at a page: its flags and its contents. *)
Definition user_page s ms (v : Z) : option (Z * gmap Z Z) :=
  (λ e, (PageTableEntry_flags e, pm_page (mem s) (PageTableEntry_ppn e)))
    <$> PageTable_translate (mem s) (page_table ms) v.

Lemma user_page_view s ms lbl am D v : ms_inv s ms lbl am D → user_vpn v →
  user_page s ms v = (λ e, (PageTableEntry_flags e, pm_page (mem s) (PageTableEntry_ppn e))) <$> am !! v.
Proof. intros [Hc _ _ _ _] Hv. unfold user_page. by rewrite (sp_view _ _ _ _ _ _ Hc). Qed.

Lemma held_arc s ms lbl am D v p : ms_inv s ms lbl am D → D !! v = Some p → is_Some (arcs s !! p).
Proof.
  intros [Hc _ _ _ _] Hv. rewrite (sp_arcs _ _ _ _ _ _ Hc). apply count_of_is_Some.
  pose proof (refs_pos D v p Hv). lia.
Qed.

(** A page whose entry and frame both survive looks the same. *)
Lemma user_page_same K n s s' ms ms' lbl lbl' am am' D D' v :
  ms_inv s ms lbl am D → ms_inv s' ms' lbl' am' D' → user_vpn v → am' !! v = am !! v →
  sp_step K n s s' lbl lbl' → (∀ p, D !! v = Some p → K p) → user_page s' ms' v = user_page s ms v.
Proof.
  intros Hi Hi' Hv Ham Hst HK. rewrite !(user_page_view _ _ _ _ _ v) by done. rewrite Ham.
  destruct (am !! v) as [e|] eqn:He; simpl; [|done]. do 2 f_equal.
  pose proof (mi_covered _ _ _ _ _ _ Hi v e He) as HD.
  destruct (sp_owned _ _ _ _ _ _ (mi_core _ _ _ _ _ _ Hi) (PageTableEntry_ppn e)) as [Ho Hl].
  { by eapply held_arc. }
  by destruct (step_keep _ _ _ _ _ _ Hst _ (HK _ HD) Ho Hl) as (_ & _ & ->).
Qed.

(** ** munmap *)

(** The pages [munmap] takes away. *)
Definition munmapped (st en : Z) ms (v : Z) : Prop :=
  ∃ a, a ∈ areas ms ∧ protected_area a = false ∧ in_area a v ∧ area_start a < en ∧ st <= v ∧
    (v < en ∨ (area_start a < st ∧ en < area_end a)).

Lemma lost_in st en a v : v ∈ lost st en a ↔
  protected_area a = false ∧ in_area a v ∧ area_start a < en ∧ st <= v ∧
    (v < en ∨ (area_start a < st ∧ en < area_end a)).
Proof.
  unfold lost, in_area.
  destruct (protected_area a); simpl; [split; [set_solver|naive_solver]|].
  destruct (Z.leb_spec (area_end a) st); simpl; [split; [set_solver|lia]|].
  destruct (Z.leb_spec en (area_start a)); simpl; [split; [set_solver|lia]|].
  destruct (Z.ltb_spec (area_start a) st), (Z.ltb_spec en (area_end a)); simpl;
    rewrite elem_of_seqZ; lia.
Qed.

Lemma munmapped_lost st en ms v : v ∈ areas ms ≫= lost st en ↔ munmapped st en ms v.
Proof.
  rewrite list_elem_of_bind. unfold munmapped. split.
  - intros (a & ? & ?). exists a. by rewrite <- lost_in.
  - intros (a & ? & ?). exists a. by rewrite lost_in.
Qed.


(** ** mprotect *)

(** An area mprotect may not make writable: a shared mapping of a file opened
    read-only. *)
Definition write_denied (perm : Z) a : Prop :=
  ∃ meta, mmap_meta a = Some meta ∧ meta_file_backed meta = true ∧ meta_shared meta = true ∧
    meta_file_writable meta = false ∧ contains perm MP_W = true.

Lemma protect_denied_spec l st en perm : protect_denied l st en perm = true ↔
  ∃ a, a ∈ l ∧ area_start a < en ∧ st < area_end a ∧ write_denied perm a.
Proof.
  unfold protect_denied, write_denied. rewrite existsb_exists. split.
  - intros (a & Ha%list_elem_of_In & H). exists a. split; [done|].
    apply andb_true_iff in H as [[H1%Z.ltb_lt H2%Z.ltb_lt]%andb_true_iff H].
    split_and!; [done|done|]. destruct (mmap_meta a) as [meta|]; [|done]. exists meta.
    rewrite !andb_true_iff, negb_true_iff in H. naive_solver.
  - intros (a & Ha & H1 & H2 & meta & Hm & Hb & Hs & Hw & Hp). exists a.
    split; [by apply list_elem_of_In|]. rewrite Hm, Hb, Hs, Hw, Hp. simpl.
    apply andb_true_iff. split; [|done]. apply andb_true_iff. rewrite !Z.ltb_lt. done.
Qed.

Lemma protect_range am D l st en flags :
  covered am D → within l D →
  protect_map (l ≫= touched st en) flags am = protect_map (seqZ st (en - st)) flags am.
Proof.
  intros Hcov Hin. apply map_eq. intros v. rewrite !lookup_protect_map.
  destruct (am !! v) as [e|] eqn:He; [|done]. cbn [fmap option_fmap option_map]. f_equal.
  unfold flags_in. destruct (Hin v) as (a & Ha & Hv); [by rewrite (Hcov v e He)|].
  destruct (decide (v ∈ l ≫= touched st en)) as [H1|H1], (decide (v ∈ seqZ st (en - st))) as [H2|H2]; try done.
  - exfalso. apply list_elem_of_bind in H1 as (b & Hb & _). apply touched_in in Hb as [_ Hb].
    apply H2, elem_of_seqZ. lia.
  - exfalso. apply H1, list_elem_of_bind. exists a. split; [|done]. apply touched_in.
    apply elem_of_seqZ in H2. lia || (split; [done|lia]).
Qed.

Lemma set_flags_flags flags e : 0 <= flags < 256 → PageTableEntry_flags (set_flags flags e) = flags.
Proof. intros. unfold set_flags. apply PTE_new_flags; [apply PTE_ppn_range|done]. Qed.

Definition all_mapped ms (st en : Z) : Prop :=
  ∀ v, st <= v < en → ∃ a, a ∈ areas ms ∧ in_area a v.
Definition denied ms (st en perm : Z) : Prop :=
  ∃ a, a ∈ areas ms ∧ area_start a < en ∧ st < area_end a ∧ write_denied perm a.

Lemma wp_change_protection s ms lbl am D start end_ perm
    (Q : looped (result unit ProtectError) * MemorySet F → machine A → Prop) :
  let st := VirtAddr_floor start in
  let en := VirtAddr_ceil end_ in
  ms_inv s ms lbl am D → st < en → 0 <= perm < 256 →
  (¬ all_mapped ms st en → Q (Finished (Err PE_Unmapped), ms) s) →
  (all_mapped ms st en → denied ms st en perm → Q (Finished (Err PE_AccessDenied), ms) s) →
  (∀ l' s', let ms' := mkMemorySet (page_table ms) l' in
     all_mapped ms st en → ¬ denied ms st en perm →
     ms_inv s' ms' lbl (protect_map (seqZ st (en - st)) (map_perm_to_pte_flags perm) am) D →
     sp_step (λ _, True) 0 s s' lbl lbl → reprotected st en perm (areas ms) l' D →
     Q (Finished (Ok tt), ms') s') →
  wp (change_protection ms start end_ perm) Q s.
Proof.
  intros st en Hi Hse Hperm HQu HQd HQ. pose proof Hi as [Hc Hcov Hwf Hag Hin]. unfold change_protection.
  fold st. fold en. destruct (Z.leb_spec en st); [lia|].
  destruct (protect_covered_spec ext (Z.to_nat (en - st)) (areas ms) st en) as (b & -> & Hb); [lia|lia|].
  destruct b.
  2: { apply wp_ret, HQu. intros Hall. by pose proof (proj2 Hb Hall). }
  assert (all_mapped ms st en) as Hall by exact (proj1 Hb eq_refl).
  destruct (protect_denied (areas ms) st en perm) eqn:Hden.
  { apply wp_ret, HQd; [done|]. by apply (proj1 (protect_denied_spec _ _ _ _)). }
  apply wp_bind. eapply wp_protect_list; [done|done|done|done|done|].
  intros l' s' Hc' Hst Ha Hr. rewrite (protect_range am D) in Hc' by done.
  apply wp_ret, HQ; [done| | |done|done].
  { intros Hd. apply (proj2 (protect_denied_spec _ _ _ _)) in Hd. congruence. }
  split; try done; [|apply Hr|apply Hr|].
  - apply covered_protect_map; [done|apply perm_flags_range].
  - intros v Hv. destruct (Hin v Hv) as (a & Haa & Hav). apply (rp_tile _ _ _ _ _ _ Hr). eauto.
Qed.


(** ** mmap *)

Lemma lor_V_range perm : 0 <= perm < 256 → 0 <= Z.lor perm PTE_V < 256.
Proof. intros Hp. by apply (lor_flag_range perm 0). Qed.

Lemma covered_entries am D perm fr :
  covered am D → 0 <= perm < 256 → (∀ v p, fr !! v = Some p → 0 <= p < FRAME_END) →
  covered (entries perm fr ∪ am) (fr ∪ D).
Proof.
  intros Hcov Hp Hfr v e. rewrite !lookup_union_Some_raw. unfold entries. rewrite lookup_fmap.
  intros [(p & Hv & ->)%fmap_Some|[Hv%fmap_None He]].
  - left. pose proof (Hfr v p Hv). rewrite PTE_new_ppn; [done|lia|by apply lor_V_range].
  - right. split; [done|]. by apply Hcov.
Qed.

(** Pushing an area that holds no frames yet and overlaps no other. *)
Definition fresh_area ms a : Prop :=
  area_wf a ∧ data_frames a = ∅ ∧ ∀ b, b ∈ areas ms → area_disj b a.

(** An address space with one more area, whose pages have the frames [fr]. *)
Lemma ms_inv_push s s' ms lbl lbl' am D a perm fr pt' :
  ms_inv s ms lbl am D → fresh_area ms a → 0 <= perm < 256 →
  (∀ v, is_Some (fr !! v) ↔ in_area a v) → (∀ v p, fr !! v = Some p → 0 <= p < FRAME_END) →
  sp_core s' pt' lbl' (entries perm fr ∪ am) (fr ∪ D) →
  ms_inv s' (mkMemorySet pt' (areas ms ++ [set_frames fr a])) lbl' (entries perm fr ∪ am) (fr ∪ D).
Proof.
  intros [Hc Hcov Hwf Hag Hin] (Ha & Hfa & Hd) Hperm Hdom Hfr Hc'. split; simpl; [done| | | |].
  - by apply covered_entries.
  - apply areas_wf_app. split_and!; [done| |].
    + simpl. split_and!; [|constructor|done]. destruct Ha as [? ? ? ? _]. split; try done.
      simpl. intros v p Hv. apply Hdom. by rewrite Hv.
    + intros b c Hb ->%list_elem_of_singleton. by apply Hd.
  - intros b v [Hb|Hb%list_elem_of_singleton]%elem_of_app Hv; [|subst b].
    + rewrite lookup_union_r; [by apply Hag|]. apply eq_None_not_Some. intros Hs%Hdom.
      by apply (Hd b Hb v).
    + simpl. assert (in_area a v) as Hv' by done. apply Hdom in Hv' as [p Hp].
      by rewrite Hp, (lookup_union_Some_l _ _ _ _ Hp).
  - intros v. rewrite lookup_union_is_Some. intros [Hs%Hdom|(b & Hb & Hbv)%Hin].
    + exists (set_frames fr a). split; [set_solver|done].
    + exists b. split; [set_solver|done].
Qed.

(** The pages of a fresh area are free. *)
Lemma fresh_free s ms lbl am D a v : ms_inv s ms lbl am D → fresh_area ms a → in_area a v →
  user_vpn v ∧ am !! v = None ∧ D !! v = None ∧ data_frames a !! v = None.
Proof.
  intros [Hc Hcov Hwf Hag Hin] (Ha & Hfa & Hd) Hv.
  assert (D !! v = None) as HD by (apply eq_None_not_Some; intros (b & Hb & Hbv)%Hin; by apply (Hd b Hb v)).
  split_and!; [by eapply in_area_user| |done|by rewrite Hfa].
  destruct (am !! v) as [e|] eqn:He; [|done]. apply Hcov in He. by rewrite HD in He.
Qed.

Lemma wp_push_none s ms lbl am D a (Q : MemorySet F → machine A → Prop) :
  ms_inv s ms lbl am D → fresh_area ms a →
  (3 * Z.to_nat (area_end a - area_start a) <= avail (falloc s))%nat →
  (∀ fr s' pt' lbl', let ms' := mkMemorySet pt' (areas ms ++ [set_frames fr a]) in
     (∀ v, is_Some (fr !! v) ↔ in_area a v) →
     (∀ v p, fr !! v = Some p → ¬ owned (falloc s) p ∧ 0 <= p < FRAME_END ∧ pm_page (mem s') p = ∅) →
     ms_inv s' ms' lbl' (entries (map_perm a) fr ∪ am) (fr ∪ D) →
     sp_step (λ _, True) (3 * Z.to_nat (area_end a - area_start a)) s s' lbl lbl' → Q ms' s') →
  wp (MemorySet_push_none ms a) Q s.
Proof.
  intros Hi Hfresh Hav HQ. pose proof Hi as [Hc _ _ _ _]. pose proof Hfresh as (Ha & Hfa & _).
  unfold MemorySet_push_none, MapArea_map. rewrite area_pages by done. apply wp_bind.
  eapply wp_sp_map_pages; [exact Hc|apply NoDup_seqZ| |apply Ha|by rewrite length_seqZ|].
  { intros v Hv%in_seqZ. by eapply fresh_free. }
  rewrite Hfa, length_seqZ. intros fr s' pt' lbl' Hdom Hc' Hfr Hst _.
  rewrite (right_id_L ∅ (∪)). apply wp_ret.
  assert (∀ v, is_Some (fr !! v) ↔ in_area a v) as Hdom' by (intros v; by rewrite Hdom, in_seqZ).
  eapply HQ; [done|done| |exact Hst].
  eapply ms_inv_push; [done|done|apply Ha|done| |done]. intros v p Hv. by destruct (Hfr v p Hv) as (_ & ? & _).
Qed.

(** The three ways to add an eagerly mapped area. *)
Inductive mmap_call : Type :=
  | PlainArea
  | SharedArea
  | MmapArea (meta : MmapMeta) (at_ : MapAreaType).

Definition run_mmap (c : mmap_call) ms (start end_ perm : Z) : M (machine A) (MemorySet F) :=
  match c with
  | PlainArea => insert_framed_area ms start end_ perm
  | SharedArea => insert_shared_framed_area ms start end_ perm
  | MmapArea meta at_ => insert_mmap_area ms start end_ perm meta at_
  end.

Definition mmap_area (c : mmap_call) (start end_ perm : Z) : MapArea F :=
  match c with
  | PlainArea => MapArea_new start end_ Framed perm
  | SharedArea => with_shared_frames (MapArea_new start end_ Framed perm)
  | MmapArea meta at_ =>
      if meta_shared meta then
        with_area_type at_ (with_shared_frames (with_mmap_meta meta
          (MapArea_new_with_kind start end_ Framed perm Shared)))
      else with_mmap_meta meta (MapArea_new_with_type start end_ Framed perm at_)
  end.

Lemma run_mmap_push c ms start end_ perm :
  run_mmap c ms start end_ perm = MemorySet_push_none ms (mmap_area c start end_ perm).
Proof. by destruct c. Qed.

Definition range_free ms (st en : Z) : Prop :=
  ∀ a v, a ∈ areas ms → in_area a v → ¬ st <= v < en.

Lemma mmap_area_facts c start end_ perm :
  let a := mmap_area c start end_ perm in
  VirtAddr_floor start <= VirtAddr_ceil end_ →
  area_start a = VirtAddr_floor start ∧ area_end a = VirtAddr_ceil end_ ∧
  map_perm a = perm ∧ map_type a = Framed ∧ data_frames a = ∅.
Proof.
  intros a Hle. unfold a, mmap_area, area_start, area_end. destruct c as [| |[[] ???]]; simpl;
    unfold VPNRange_new; destruct (Z.leb_spec (VirtAddr_floor start) (VirtAddr_ceil end_)); simpl;
    split_and!; done || lia.
Qed.

Lemma mmap_fresh ms c start end_ perm :
  let st := VirtAddr_floor start in
  let en := VirtAddr_ceil end_ in
  0 <= st <= en → en <= 2 ^ 26 → 0 <= perm < 256 → range_free ms st en →
  fresh_area ms (mmap_area c start end_ perm).
Proof.
  intros st en Hse Hen Hperm Hfree.
  destruct (mmap_area_facts c start end_ perm) as (Hs & He & Hp & Hm & Hf); [lia|].
  split_and!; [split| |]; rewrite ?Hs, ?He, ?Hp, ?Hf; try done.
  intros b Hb v Hbv Hv. unfold in_area in Hv. rewrite Hs, He in Hv. by apply (Hfree b v Hb Hbv).
Qed.

(** mmap.  Adding a mapping of a range that overlaps no area, with enough
    free frames, succeeds for the plain, the shared and the mmap constructors
    alike: every page of the range becomes a zero-filled page with the asked
    permission, every other page keeps its flags and contents, and the space
    stays well formed with one more area, of the asked permission. *)
Theorem mmap_zeroed s ms lbl am D c start end_ perm :
  let st := VirtAddr_floor start in
  let en := VirtAddr_ceil end_ in
  ms_inv s ms lbl am D → 0 <= st <= en → en <= 2 ^ 26 → 0 <= perm < 256 → range_free ms st en →
  (3 * Z.to_nat (en - st) <= avail (falloc s))%nat →
  wp (run_mmap c ms start end_ perm) (λ ms' s',
    (∃ lbl' am' D', ms_inv s' ms' lbl' am' D') ∧
    (∃ a, areas ms' = areas ms ++ [a] ∧ map_perm a = perm ∧ ∀ v, in_area a v ↔ st <= v < en) ∧
    (∀ v, user_vpn v → user_page s' ms' v =
       if decide (st <= v < en) then Some (Z.lor perm PTE_V, ∅) else user_page s ms v)) s.
Proof.
  intros st en Hi Hse Hen Hperm Hfree Hav. rewrite run_mmap_push.
  pose proof (mmap_fresh ms c start end_ perm Hse Hen Hperm Hfree) as Hfr.
  destruct (mmap_area_facts c start end_ perm) as (Hs & He & Hp & Hm & Hf); [lia|].
  eapply wp_push_none; [done|done|by rewrite Hs, He|]. rewrite Hp.
  intros fr s' pt' lbl' ms' Hdom Hfrs Hi' Hst.
  assert (∀ v, is_Some (fr !! v) ↔ st <= v < en) as Hdom'.
  { intros v. rewrite Hdom. unfold in_area. by rewrite Hs, He. }
  split_and!; [by do 3 eexists| |].
  - eexists. split_and!; [done|done|]. intros v. rewrite <- Hdom'. by rewrite Hdom.
  - intros v Hv. case_decide as Hin.
    + rewrite (user_page_view _ _ _ _ _ v Hi' Hv). apply Hdom' in Hin as [p Hpv].
      rewrite (lookup_union_Some_l _ _ _ (PageTableEntry_new p (Z.lor perm PTE_V)))
        by (unfold entries; by rewrite lookup_fmap, Hpv).
      destruct (Hfrs v p Hpv) as (_ & Hpr & Hz). pose proof (lor_V_range perm Hperm). simpl.
      by rewrite PTE_new_ppn, PTE_new_flags, Hz by lia.
    + eapply user_page_same; [done|done|done| |done|done]. apply lookup_union_r. unfold entries.
      rewrite lookup_fmap. apply fmap_None, eq_None_not_Some. by rewrite Hdom'.
Qed.
End mmap.
