(* ===== verification/SpaceLife.v ===== *)
(** * The life of an address space

    Whatever a program does with its address space between its creation and
    its drop, the kernel gets back exactly the frames it had. *)

From stdpp Require Import base gmap list numbers list_numbers option fin_maps sets sorting relations.
From S2P Require Import Prelude Address FrameAllocator Machine PageTable MapArea MemorySet Space.
From S2P Require Import AddressSpace Mmap.

Section life.
Context {A : Type} {FA : FrameAllocator A} {inv : A → Prop} {owned : A → Z → Prop} {avail : A → nat}.
Context `{HFS : !FrameAllocatorSpec A inv owned avail}.
Context {F : Type}.
Implicit Types (s : machine A) (pt : PageTable) (lbl : gmap Z node) (am D : gmap Z Z).
Implicit Types (a b : MapArea F) (l : list (MapArea F)) (ms : MemorySet F).

#[local] Abbreviation sp_step := (sp_step (owned:=owned) (avail:=avail)).
#[local] Abbreviation ms_inv := (ms_inv (inv:=inv) (owned:=owned)).
#[local] Abbreviation frames_ok := (frames_ok (inv:=inv) (owned:=owned)).
#[local] Abbreviation dropped := (dropped (owned:=owned) (avail:=avail)).

(** ** Dropping *)

Lemma frames_in_order_spec (fr : gmap Z Z) v p : (v, p) ∈ frames_in_order fr ↔ fr !! v = Some p.
Proof. unfold frames_in_order. by rewrite merge_sort_Permutation, elem_of_map_to_list. Qed.

Lemma frames_in_order_nodup (fr : gmap Z Z) : NoDup (frames_in_order fr).*1.
Proof. unfold frames_in_order. rewrite merge_sort_Permutation. apply NoDup_fst_map_to_list. Qed.

Lemma frames_in_order_key (fr : gmap Z Z) v : v ∈ (frames_in_order fr).*1 ↔ is_Some (fr !! v).
Proof.
  rewrite list_elem_of_fmap. split.
  - intros ([w p] & -> & H%frames_in_order_spec). by exists p.
  - intros [p Hp%frames_in_order_spec]. by exists (v, p).
Qed.

Lemma frames_in_order_length (fr : gmap Z Z) : length (frames_in_order fr) = size fr.
Proof. unfold frames_in_order. by rewrite merge_sort_Permutation, length_map_to_list. Qed.

Lemma wp_drop_areas ext l : ∀ s D (Q : unit → machine A → Prop),
  frames_ok ext s D → areas_wf l → agree l D → within l D →
  (∀ s', frames_ok ext s' ∅ → dropped s s' → Q tt s') →
  wp (m_for l MapArea_drop) Q s.
Proof.
  induction l as [|a l IH]; intros s D Q Hf Hwf Hag Hin HQ; simpl.
  - assert (D = ∅) as ->.
    { apply map_empty. intros v. apply eq_None_not_Some. intros (a & Ha & _)%Hin. set_solver. }
    apply wp_ret, HQ; [done|apply (dropped_refl ext)].
  - destruct Hwf as (Ha & Hd & Hl). apply wp_bind. unfold MapArea_drop.
    eapply wp_drop_frames; [done|apply frames_in_order_nodup| |].
    { intros v p Hv%frames_in_order_spec. rewrite <- (Hag a v); [done|by left|by eapply aw_frames]. }
    intros s1 Hf1 Hd1. eapply IH; [exact Hf1|done| | |].
    + intros b v Hb Hv. rewrite lookup_del_all. case_decide as Hk; [|apply Hag; [by right|done]].
      exfalso. apply frames_in_order_key in Hk as [p Hp]. apply (aw_frames _ Ha) in Hp.
      by eapply (proj1 (Forall_forall _ _) Hd b Hb v).
    + intros v. rewrite lookup_del_all. case_decide as Hk; [by intros [??]|].
      intros Hs. destruct (Hin v Hs) as (b & [->|Hb]%elem_of_cons & Hv); [|eauto].
      exfalso. apply Hk, frames_in_order_key. rewrite (Hag a v); [done|by left|done].
    + intros s2 Hf2 Hd2. apply HQ; [done|by eapply (dropped_trans ext)].
Qed.

Lemma wp_MemorySet_drop ext s ms lbl am D (Q : unit → machine A → Prop) :
  ms_inv ext s ms lbl am D →
  (∀ s', frames_ok ext s' ∅ → mem s' = mem s →
     (∀ q, owned (falloc s') q ↔ owned (falloc s) q ∧ lbl !! q = None ∧
        (is_Some (arcs s !! q) → is_Some (arcs s' !! q))) → Q tt s') →
  wp (MemorySet_drop ms) Q s.
Proof.
  intros [Hc _ Hwf Hag Hin] HQ. pose proof (sp_core_frames _ _ _ _ _ _ Hc) as [_ Hfa Hfo].
  pose proof Hc as [Hpt _ _ _ Ho]. unfold MemorySet_drop. apply wp_bind.
  eapply wp_PageTable_drop; [done|]. intros a' Hinv' Hown' _.
  eapply (wp_drop_areas ext _ _ D); [|done|done|done|].
  - split; simpl; [done|done|]. intros q Hq. apply Hown'. by apply Ho.
  - intros s' Hf [Hm _ _ Ho' _]. apply HQ; [done|by rewrite Hm|].
    intros q. rewrite Ho'. simpl. rewrite Hown'. naive_solver.
Qed.

(** ** Reachable states *)

(** The machine before the space was created; [ext0] counts the references the
    rest of the kernel holds. *)
Section reachable.
Context (s0 : machine A).
Definition ext0 (p : Z) : nat := Z.to_nat (default 0 (arcs s0 !! p)).

(** What a process can do to its address space: map, unmap and protect ranges,
    and store to its pages. *)
Inductive space_step : MemorySet F * machine A → MemorySet F * machine A → Prop :=
  | step_mmap c start end_ perm ms s ms' s' :
      let st := VirtAddr_floor start in
      let en := VirtAddr_ceil end_ in
      0 <= st <= en → en <= 2 ^ 26 → 0 <= perm < 256 → range_free ms st en →
      (3 * Z.to_nat (en - st) <= avail (falloc s))%nat →
      run_mmap c ms start end_ perm s = Ret (ms', s') →
      space_step (ms, s) (ms', s')
  | step_munmap start end_ ms s ms' s' :
      unmap_range ms start end_ s = Ret (ms', s') → space_step (ms, s) (ms', s')
  | step_mprotect start end_ perm ms s r ms' s' :
      0 <= perm < 256 →
      change_protection ms start end_ perm s = Ret ((r, ms'), s') → space_step (ms, s) (ms', s')
  | step_store v e off data ms s :
      user_vpn v → PageTable_translate (mem s) (page_table ms) v = Some e →
      space_step (ms, s) (ms, set_mem (λ m, pm_write_bytes m (PageTableEntry_ppn e) off data) s).

(** Seen from outside: the space is well formed, what was in use before is
    untouched, the frames it holds are its own, and none is lost. *)
Record life_inv (x : MemorySet F * machine A) : Prop := {
  li_ms : ∃ lbl am D, ms_inv ext0 x.2 x.1 lbl am D ∧
    (∀ q, owned (falloc s0) q →
       owned (falloc x.2) q ∧ lbl !! q = None ∧ pm_page (mem x.2) q = pm_page (mem s0) q) ∧
    (∀ v p, D !! v = Some p → ¬ owned (falloc s0) p) ∧
    (∀ q, owned (falloc x.2) q → lbl !! q = None → arcs x.2 !! q = None → owned (falloc s0) q);
}.

(** A step that keeps what the space does not hold, and takes only frames that
    were free, preserves it. *)
Lemma life_inv_step K n ms ms' s s' lbl lbl' am am' D D' :
  ms_inv ext0 s ms lbl am D → ms_inv ext0 s' ms' lbl' am' D' → sp_step K n s s' lbl lbl' →
  (∀ q, (∀ v, D !! v ≠ Some q) → K q) →
  (∀ v p, D' !! v = Some p → D !! v = Some p ∨ ¬ owned (falloc s) p) →
  (∀ q, owned (falloc s0) q →
     owned (falloc s) q ∧ lbl !! q = None ∧ pm_page (mem s) q = pm_page (mem s0) q) →
  (∀ v p, D !! v = Some p → ¬ owned (falloc s0) p) →
  (∀ q, owned (falloc s) q → lbl !! q = None → arcs s !! q = None → owned (falloc s0) q) →
  life_inv (ms', s').
Proof.
  intros Hi Hi' Hst HK HD Hold Hown Hleak. split. exists lbl', am', D'. simpl. split_and!; [done| | |].
  - intros q Hq. destruct (Hold q Hq) as (Ho & Hl & Hp).
    assert (K q) as HKq by (apply HK; intros v Hv; by apply (Hown v q)).
    destruct (step_keep _ _ _ _ _ _ Hst q HKq Ho Hl) as (? & ? & ?). split_and!; [done|done|congruence].
  - intros v p Hv Hp. destruct (HD v p Hv) as [Hv'|Hn]; [by apply (Hown v p)|].
    apply Hn. by apply Hold.
  - intros q Ho Hl Ha. destruct (step_leak _ _ _ _ _ _ Hst q Ho Hl Ha) as (? & ? & ?). auto.
Qed.

Lemma wp_run {B} (m : M (machine A) B) (Q : B → machine A → Prop) s x s' :
  m s = Ret (x, s') → wp m Q s → Q x s'.
Proof. unfold wp. by intros ->. Qed.

Lemma life_mmap c start end_ perm ms s :
  let st := VirtAddr_floor start in
  let en := VirtAddr_ceil end_ in
  0 <= st <= en → en <= 2 ^ 26 → 0 <= perm < 256 → range_free ms st en →
  (3 * Z.to_nat (en - st) <= avail (falloc s))%nat → life_inv (ms, s) →
  wp (run_mmap c ms start end_ perm) (λ ms' s', life_inv (ms', s')) s.
Proof.
  intros st en Hse Hen Hperm Hfree Hav [(lbl & am & D & Hi & Hold & Hown & Hleak)]. simpl in *.
  destruct (mmap_area_facts (F:=F) c start end_ perm) as (Hs & He & _); [lia|].
  rewrite run_mmap_push. eapply wp_push_none; [done|by apply mmap_fresh|by rewrite Hs, He|].
  intros fr s' pt' lbl' ms' Hdom Hfr Hi' Hst. eapply (life_inv_step _ _ ms _ s); [exact Hi|exact Hi'|exact Hst|done| |done|done|done].
  intros v p [Hv|[_ Hv]]%lookup_union_Some_raw; [|by left]. right. by destruct (Hfr v p Hv).
Qed.

Lemma life_munmap start end_ ms s : life_inv (ms, s) →
  wp (unmap_range ms start end_) (λ ms' s', life_inv (ms', s')) s.
Proof.
  intros Hli. pose proof Hli as [(lbl & am & D & Hi & Hold & Hown & Hleak)]. simpl in *.
  destruct (decide (VirtAddr_floor start < VirtAddr_ceil end_)) as [Hse|Hse].
  - eapply wp_unmap_range; [done| |done]. intros ms' s' vs Hi' Hst _.
    eapply (life_inv_step _ _ ms _ s); [exact Hi|exact Hi'|exact Hst| | |done|done|done].
    + intros q Hq. left. auto.
    + intros v p. rewrite lookup_del_all. case_decide; [done|by left].
  - unfold unmap_range. destruct (Z.leb_spec (VirtAddr_ceil end_) (VirtAddr_floor start)); [|lia]. done.
Qed.

Lemma life_mprotect start end_ perm ms s : 0 <= perm < 256 → life_inv (ms, s) →
  wp (change_protection ms start end_ perm) (λ '(_, ms') s', life_inv (ms', s')) s.
Proof.
  intros Hp Hli. pose proof Hli as [(lbl & am & D & Hi & Hold & Hown & Hleak)]. simpl in *.
  destruct (decide (VirtAddr_floor start < VirtAddr_ceil end_)) as [Hse|Hse].
  - eapply wp_change_protection; [done|done|done|done|done|].
    intros l' s' ms' _ _ Hi' Hst _. eapply (life_inv_step _ _ ms _ s); [exact Hi|exact Hi'|exact Hst|done|auto|done|done|done].
  - unfold change_protection. destruct (Z.leb_spec (VirtAddr_ceil end_) (VirtAddr_floor start)); [|lia]. done.
Qed.

Lemma life_store v e off data ms s : user_vpn v →
  PageTable_translate (mem s) (page_table ms) v = Some e → life_inv (ms, s) →
  life_inv (ms, set_mem (λ m, pm_write_bytes m (PageTableEntry_ppn e) off data) s).
Proof.
  intros Hu Ht [(lbl & am & D & Hi & Hold & Hown & Hleak)]. simpl in *.
  pose proof Hi as [Hc Hcov Hwf Hag Hin]. rewrite (sp_view _ _ _ _ _ _ Hc v Hu) in Ht.
  set (p := PageTableEntry_ppn e). assert (D !! v = Some p) as HD by by apply Hcov.
  destruct (sp_owned _ _ _ _ _ _ Hc p) as [Hop Hlp]; [by eapply held_arc|].
  destruct (sp_core_write (inv:=inv) (owned:=owned) (avail:=avail) ext0 s (page_table ms) lbl am D (λ m, pm_write_bytes m p off data) p)
    as [Hc' Hst]; [done|done|intros q Hq; by apply pm_page_write_bytes_ne|].
  eapply (life_inv_step (λ q, q ≠ p) 0); [exact Hi| |exact Hst| | |done|done|done].
  - by split.
  - intros q Hq ->. by apply (Hq v).
  - by left.
Qed.

Lemma life_step x y : space_step x y → life_inv x → life_inv y.
Proof.
  intros Hs Hli. destruct Hs as [c start end_ perm ms s ms' s' st en H1 H2 H3 H4 H5 H|
    start end_ ms s ms' s' H|start end_ perm ms s r ms' s' Hp H|].
  - apply (wp_run _ (λ ms' s', life_inv (ms', s')) _ _ _ H). by apply life_mmap.
  - apply (wp_run _ (λ ms' s', life_inv (ms', s')) _ _ _ H). by apply life_munmap.
  - apply (wp_run _ (λ '(_, ms') s', life_inv (ms', s')) _ (r, ms') s' H). by apply life_mprotect.
  - by eapply life_store.
Qed.
End reachable.

(** The machine outside: every [Arc] counts at least one reference and its frame
    is allocated. *)
Definition arcs_ok s : Prop :=
  ∀ p n, arcs s !! p = Some n → 0 < n ∧ owned (falloc s) p.

Lemma life_new s0 : inv (falloc s0) → (1 <= avail (falloc s0))%nat → arcs_ok s0 →
  (kernel_token s0 ≠ 0 → owned (falloc s0) (kernel_root s0)) →
  wp MemorySet_new_bare (λ ms s, life_inv s0 (ms, s)) s0.
Proof.
  intros Hinv Hav Harcs Hk. apply wp_bind, wp_PageTable_new; [done|done|done|].
  intros s root pt Hok Hnew Ht _ Hm Hown Ha _ _. apply wp_ret. split. simpl.
  assert (∀ q, owned (falloc s0) q → q ≠ root) as Hne by (intros q Hq ->; done).
  exists {[root := Root]}, ∅, ∅. split_and!.
  - split; try done; [split; try done| |].
    + intros v [??]. done.
    + intros p. rewrite refs_empty, Ha. unfold ext0, count_of. simpl.
      destruct (arcs s0 !! p) as [n|] eqn:Hp; simpl; [|done]. destruct (Harcs p n Hp).
      rewrite decide_False by lia. f_equal. lia.
    + rewrite Ha. intros p [n Hp]. destruct (Harcs p n Hp) as [_ Ho]. split; [apply Hown; by right|].
      rewrite lookup_singleton_ne; [done|]. intros ->. done.
    + intros a v Ha'. simpl in Ha'. set_solver.
    + intros v [??]. done.
  - intros q Hq. split_and!; [apply Hown; by right| |by apply Hm, Hne].
    rewrite lookup_singleton_ne; [done|]. intros ->. done.
  - done.
  - intros q Hq Hl _. apply Hown in Hq as [->|Hq]; [|done]. by rewrite lookup_singleton_eq in Hl.
Qed.

End life.

(** ** Examples: a space on the machine after boot *)

#[local] Abbreviation k_inv := (sfa_inv 100).
#[local] Abbreviation k_owned := (sfa_owned 100).

(** Pages 1 to 3 mapped readable and writable for the user. *)
Definition demo_run : M kmachine (MemorySet unit) :=
  let! ms := MemorySet_new_bare in
  run_mmap PlainArea ms 0x1000 0x4000 (Z.lor (Z.lor MP_R MP_W) MP_U).
Definition demo : MemorySet unit * kmachine :=
  match demo_run boot_machine with
  | Ret x => x
  | Panic => (mkMemorySet (mkPageTable 0 []) [], boot_machine)
  end.

Lemma demo_life : life_inv (inv:=k_inv) (owned:=k_owned) boot_machine demo.
Proof.
  assert (wp demo_run (λ ms s, life_inv (inv:=k_inv) (owned:=k_owned) boot_machine (ms, s)) boot_machine) as H.
  { apply wp_bind. eapply wp_mono with (P := λ ms s,
      life_inv (inv:=k_inv) (owned:=k_owned) boot_machine (ms, s) ∧ areas ms = [] ∧
      (9 <= sfa_avail (falloc s))%nat).
    - assert (wp MemorySet_new_bare (λ (ms : MemorySet unit) s, areas ms = [] ∧
        (9 <= sfa_avail (falloc s))%nat) boot_machine) as Hr by (vm_compute; split; [done|lia]).
      pose proof (life_new (F:=unit) (inv:=k_inv) (owned:=k_owned) boot_machine boot_machine_inv) as Hl.
      unfold wp in *. destruct (MemorySet_new_bare boot_machine) as [[ms s]|]; [|done].
      split; [|done]. apply Hl; [vm_compute; lia|by intros p n|]. intros _. apply boot_machine_kernel_root.
    - intros ms s (Hl & Ha & Hav). apply (life_mmap boot_machine); try done.
      + intros a v Hin. rewrite Ha in Hin. set_solver. }
  unfold demo, wp in *. destruct (demo_run boot_machine) as [[ms s]|]; done.
Qed.

Lemma demo_range : 0 <= VirtAddr_floor 0x1000 <= VirtAddr_ceil 0x4000 ∧
  VirtAddr_ceil 0x4000 <= 2 ^ 26 ∧ 0 <= 22 < 256.
Proof. by vm_compute. Qed.



Lemma mmap_zeroed_witness :
  wp (run_mmap SharedArea demo.1 0x8000 0x9001 (Z.lor MP_R MP_U)) (λ ms' s',
    user_page s' ms' 8 = Some (19, ∅) ∧ user_page s' ms' 9 = Some (19, ∅) ∧
    user_page s' ms' 1 = user_page demo.2 demo.1 1) demo.2.
Proof.
  destruct demo_life as [(lbl & am & D & Hi & _)].
  eapply wp_mono; [apply (mmap_zeroed (ext0 boot_machine) demo.2 demo.1 lbl am D SharedArea 0x8000 0x9001
    (Z.lor MP_R MP_U) Hi); try by vm_compute|].
  - intros a v Ha Hv. vm_compute in Ha. apply list_elem_of_singleton in Ha. subst.
    unfold in_area in Hv. vm_compute (area_start _) in Hv. vm_compute (area_end _) in Hv.
    change (¬ (8 <= v < 10)). lia.
  - vm_compute. lia.
  - intros ms' s' (_ & _ & Hp). rewrite !Hp by (unfold user_vpn; lia). split_and!; by vm_compute.
Defined.

