(* ===== verification/Cow.v ===== *)
(** * Copy on write (from_existed_user, handle_cow_fault)

    fork shares every frame between parent and child and takes the write
    permission of private pages away on both sides; the first store to such a
    page faults, and the fault handler copies the page unless no one else holds
    it. *)

From stdpp Require Import base gmap list numbers list_numbers option fin_maps sets sorting relations.
From S2P Require Import Prelude Address FrameAllocator Machine PageTable MapArea MemorySet Space.
From S2P Require Import AddressSpace Mmap SpaceLife.

Section cow.
Context {A : Type} {FA : FrameAllocator A} {inv : A → Prop} {owned : A → Z → Prop} {avail : A → nat}.
Context `{HFS : !FrameAllocatorSpec A inv owned avail}.
Context {F : Type}.
Implicit Types (s : machine A) (pt : PageTable) (lbl : gmap Z node) (am D : gmap Z Z).
Implicit Types (a b : MapArea F) (l : list (MapArea F)) (ms : MemorySet F) (ext : Z → nat).

#[local] Abbreviation sp_step := (sp_step (owned:=owned) (avail:=avail)).
#[local] Abbreviation sp_core := (sp_core (inv:=inv) (owned:=owned)).
#[local] Abbreviation ms_inv := (ms_inv (inv:=inv) (owned:=owned)).

(** ** Two address spaces side by side *)

(** A space is not affected by the steps of another one that keep its table;
    what its frames are referenced by outside may change. *)
Lemma sp_core_other ext ext' K n s s' pt lbl lbl2 lbl2' am D :
  sp_core ext s pt lbl am D → sp_step K n s s' lbl2 lbl2' → lbl ##ₘ lbl2 →
  (∀ q, is_Some (lbl !! q) → K q) → inv (falloc s') →
  (∀ p, arcs s' !! p = count_of (refs D p + ext' p)) →
  (∀ p, is_Some (arcs s' !! p) → owned (falloc s') p ∧ lbl !! p = None) →
  sp_core ext' s' pt lbl am D ∧ lbl ##ₘ lbl2'.
Proof.
  intros [[Hwf Hinv Hown] Hv Hd Ha Ho] Hst Hdisj HK Hinv' Ha' Ho'.
  assert (∀ q, is_Some (lbl !! q) → lbl2 !! q = None) as Hl2.
  { intros q [x Hx]. by eapply map_disjoint_Some_l. }
  assert (∀ q, is_Some (lbl !! q) → owned (falloc s') q ∧ lbl2' !! q = None ∧
    pm_page (mem s') q = pm_page (mem s) q) as Hk.
  { intros q Hq. apply (step_keep _ _ _ _ _ _ Hst); auto. }
  split; [split; try done|].
  - split; [|done|intros q Hq; by apply Hk]. destruct Hwf as [Htree Hfr Hnd].
    split; [|done|done]. eapply pt_tree_ext; [done|]. intros q Hq. by apply Hk.
  - intros v Hvu. rewrite (translate_ext (mem s) pt lbl); [by apply Hv|apply Hwf| |done].
    intros q Hq. by apply Hk.
  - apply map_disjoint_spec. intros q x y Hx Hy. destruct (Hk q) as (_ & Hn & _); [by eexists|congruence].
Qed.

Section pair.
Context (ext : Z → nat).

(** Parent and child: each counts the other's references as external. *)
Record pair_inv s ptp lblp amp Dp ptc lblc amc Dc : Prop := {
  pi_parent : sp_core (λ p, refs Dc p + ext p)%nat s ptp lblp amp Dp;
  pi_child : sp_core (λ p, refs Dp p + ext p)%nat s ptc lblc amc Dc;
  pi_disj : lblp ##ₘ lblc;
}.

Lemma pair_protect_parent s ptp lblp amp Dp ptc lblc amc Dc vpn flags (Q : bool → machine A → Prop) :
  pair_inv s ptp lblp amp Dp ptc lblc amc Dc →
  user_vpn vpn → 0 <= flags < 256 → Z.testbit flags 0 = true →
  (∀ r s', pair_inv s' ptp lblp (alter (set_flags flags) vpn amp) Dp ptc lblc amc Dc →
     sp_step (λ _, True) 0 s s' lblp lblp → arcs s' = arcs s → Q r s') →
  wp (PageTable_change_pte_flags ptp vpn flags) Q s.
Proof.
  intros [Hp Hc Hd] Hu Hf Hb HQ. eapply wp_sp_protect; [exact Hp|done|done|done|].
  intros r s' Hp' Hst Ha. apply HQ; [|done|done]. split; [done| |done].
  eapply sp_core_other; [exact Hc|exact Hst|by symmetry|done|apply Hp'| |].
  - intros p. rewrite Ha. apply Hc.
  - intros p. rewrite Ha. intros Hs. destruct (sp_owned _ _ _ _ _ _ Hc p Hs) as [_ Hl]. split; [|done].
    apply (sp_owned _ _ _ _ _ _ Hp'). by rewrite Ha.
Qed.

Lemma pair_map_child s ptp lblp amp Dp ptc lblc amc Dc vpn ppn flags (Q : PageTable → machine A → Prop) :
  pair_inv s ptp lblp amp Dp ptc lblc amc Dc →
  user_vpn vpn → 0 <= ppn < FRAME_END → 0 <= flags < 256 → (2 <= avail (falloc s))%nat →
  (∀ s' ptc' lblc',
     pair_inv s' ptp lblp amp Dp ptc' lblc' (<[vpn := PageTableEntry_new ppn (Z.lor flags PTE_V)]> amc) Dc →
     sp_step (λ _, True) 2 s s' lblc lblc' → arcs s' = arcs s → Q ptc' s') →
  wp (PageTable_map ptc vpn ppn flags) Q s.
Proof.
  intros [Hp Hc Hd] Hu Hpr Hf Hav HQ. eapply wp_sp_map; [exact Hc|done|done|done|done|].
  intros s' ptc' lblc' Hc' Hst Ha _. eapply HQ; [|done|done].
  destruct (sp_core_other _ (λ p, refs Dc p + ext p)%nat _ _ _ _ _ _ _ _ _ _ Hp Hst Hd) as [Hp' Hd'].
  - done.
  - apply Hc'.
  - intros p. rewrite Ha. apply Hp.
  - intros p. rewrite Ha. intros Hs. destruct (sp_owned _ _ _ _ _ _ Hp p Hs) as [_ Hl]. split; [|done].
    apply (sp_owned _ _ _ _ _ _ Hc'). by rewrite Ha.
  - by split.
Qed.

(** The child takes a reference to a frame of the parent. *)
Lemma pair_clone s ptp lblp amp Dp ptc lblc amc Dc v p :
  pair_inv s ptp lblp amp Dp ptc lblc amc Dc → is_Some (arcs s !! p) → Dc !! v = None →
  pair_inv (set_arcs (alter (Z.add 1) p) s) ptp lblp amp Dp ptc lblc amc (<[v := p]> Dc).
Proof.
  intros [Hp Hc Hd] Hs Hv.
  assert (∀ q, refs (<[v := p]> Dc) q = (hit q p + refs Dc q)%nat) as Hr by (intros; by apply refs_insert).
  pose proof (sp_arc_clone _ _ _ _ _ _ _ _ Hc Hs Hr) as Hc'. split; [|done|done].
  destruct Hp as [[Hwf Hinv Hown] Hv' Hd' Ha Ho]. split; try done.
  - intros q. rewrite (sp_arcs _ _ _ _ _ _ Hc'). f_equal. lia.
  - intros q. simpl. rewrite lookup_alter_is_Some. apply Ho.
Qed.

(** A step of one of the spaces, seen on the frames neither table uses. *)
Lemma sp_step_union_r K n s s' lbl2 lbl lbl' :
  sp_step K n s s' lbl lbl' → sp_step K n s s' (lbl2 ∪ lbl) (lbl2 ∪ lbl').
Proof.
  intros [L P E T V]. split; [by apply map_union_mono_l| | |done|done].
  - intros p HK Ho [H2 Hl]%lookup_union_None. destruct (P p HK Ho Hl) as (? & ? & ?).
    split_and!; [done|by apply lookup_union_None|done].
  - intros p Ho [H2 Hl]%lookup_union_None Ha. destruct (E p Ho Hl Ha) as (? & ? & ?).
    split_and!; [done|by apply lookup_union_None|done].
Qed.

Lemma sp_step_union_l K n s s' lbl lbl2 :
  sp_step K n s s' lbl lbl → sp_step K n s s' (lbl ∪ lbl2) (lbl ∪ lbl2).
Proof.
  intros [L P E T V]. split; [done| | |done|done].
  - intros p HK Ho [Hl H2]%lookup_union_None. destruct (P p HK Ho Hl) as (? & ? & ?).
    split_and!; [done|by apply lookup_union_None|done].
  - intros p Ho [Hl H2]%lookup_union_None Ha. destruct (E p Ho Hl Ha) as (? & ? & ?).
    split_and!; [done|by apply lookup_union_None|done].
Qed.

Lemma sp_step_clone s p lbl : sp_step (λ _, True) 0 s (set_arcs (alter (Z.add 1) p) s) lbl lbl.
Proof.
  split; simpl; [done|done| |done|lia]. intros q Ho Hl Ha. split_and!; [done|done|].
  destruct (decide (q = p)) as [->|Hne]; [|by rewrite lookup_alter_ne in Ha].
  rewrite lookup_alter_eq in Ha. by apply fmap_None in Ha.
Qed.

(** ** One page *)

(** What fork makes of an entry, in the parent and in the child. *)
Definition fork_parent_pte a (e : Z) : Z :=
  let flags := PageTableEntry_flags e in
  if decide (kind a = Shared) then
    if contains (map_perm a) MP_W && negb (contains flags PTE_W)
    then set_flags (Z.lor flags PTE_W) e else e
  else
    if contains (map_perm a) MP_W && contains flags PTE_W
    then set_flags (Z.ldiff flags PTE_W) e else e.

Definition fork_child_flags a (flags : Z) : Z :=
  if decide (kind a = Shared) then
    if contains (map_perm a) MP_W then Z.lor flags PTE_W else Z.ldiff flags PTE_W
  else
    if contains (map_perm a) MP_W then Z.ldiff flags PTE_W else flags.

Definition fork_child_pte a (e : Z) : Z :=
  PageTableEntry_new (PageTableEntry_ppn e) (Z.lor (fork_child_flags a (PageTableEntry_flags e)) PTE_V).

Lemma flags_range e : 0 <= PageTableEntry_flags e < 256.
Proof. unfold PageTableEntry_flags. rewrite (land_mask _ 8) by done. apply Z.mod_pos_bound. lia. Qed.

Lemma ldiff_range x y : 0 <= x < 256 → 0 <= Z.ldiff x y < 256.
Proof.
  intros Hx. assert (0 <= Z.ldiff x y <= x); [|lia]. apply Z.ldiff_le; [lia|].
  apply Z.bits_inj'. intros i Hi. rewrite !Z.ldiff_spec, Z.bits_0. by destruct (Z.testbit x i), (Z.testbit y i).
Qed.

Lemma fork_child_flags_range a flags : 0 <= flags < 256 → 0 <= fork_child_flags a flags < 256.
Proof.
  intros Hf. unfold fork_child_flags. repeat case_match; try done.
  all: solve [by apply (lor_flag_range flags 2)|by apply ldiff_range].
Qed.

Lemma valid_flag e : PageTableEntry_is_valid e = true → Z.testbit (PageTableEntry_flags e) 0 = true.
Proof. intros Hv. rewrite PTE_flags_bit by lia. by rewrite <- is_valid_bit. Qed.

Lemma lor_W_valid flags : Z.testbit flags 0 = true → Z.testbit (Z.lor flags PTE_W) 0 = true.
Proof. intros H. by rewrite Z.lor_spec, H. Qed.
Lemma ldiff_W_valid flags : Z.testbit flags 0 = true → Z.testbit (Z.ldiff flags PTE_W) 0 = true.
Proof. intros H. by rewrite Z.ldiff_spec, H. Qed.

Lemma lor_V_id flags : Z.testbit flags 0 = true → Z.lor flags PTE_V = flags.
Proof.
  intros Hb. apply Z.bits_inj'. intros i Hi. rewrite Z.lor_spec. destruct (decide (i = 0)) as [->|Hne].
  - by rewrite Hb.
  - change PTE_V with (Z.shiftl 1 0). rewrite Z.shiftl_spec, (testbit_small 1 1) by lia. apply orb_false_r.
Qed.

(** Changing the parent's entry, or not. *)
Lemma wp_fork_parent a s ptp lblp amp Dp ptc lblc amc Dc vpn e (c : bool) flags
    (Q : unit → machine A → Prop) :
  pair_inv s ptp lblp amp Dp ptc lblc amc Dc → user_vpn vpn → amp !! vpn = Some e →
  0 <= flags < 256 → Z.testbit flags 0 = true →
  fork_parent_pte a e = (if c then set_flags flags e else e) →
  (∀ s', pair_inv s' ptp lblp (alter (fork_parent_pte a) vpn amp) Dp ptc lblc amc Dc →
     sp_step (λ _, True) 0 s s' (lblp ∪ lblc) (lblp ∪ lblc) → arcs s' = arcs s → Q tt s') →
  wp (if c then PageTable_change_pte_flags ptp vpn flags ;;; m_ret tt else m_ret tt) Q s.
Proof.
  intros Hpi Hu He Hf Hb Hpte HQ.
  assert (alter (fork_parent_pte a) vpn amp = <[vpn := fork_parent_pte a e]> amp) as Halt.
  { apply map_eq. intros w. destruct (decide (w = vpn)) as [->|Hne].
    - by rewrite lookup_alter_eq, He, lookup_insert_eq.
    - by rewrite lookup_alter_ne, lookup_insert_ne. }
  rewrite Halt, Hpte in HQ. destruct c.
  - apply wp_bind. eapply pair_protect_parent; [done|done|done|done|]. intros r s' Hpi' Hst Ha.
    apply wp_ret, HQ; [|by apply sp_step_union_l|done].
    replace (<[vpn := set_flags flags e]> amp) with (alter (set_flags flags) vpn amp); [done|].
    apply map_eq. intros w. destruct (decide (w = vpn)) as [->|Hne].
    + by rewrite lookup_alter_eq, He, lookup_insert_eq.
    + by rewrite lookup_alter_ne, lookup_insert_ne.
  - apply wp_ret, HQ; [by rewrite insert_id|apply sp_step_refl|done].
Qed.

(** ... then mapping the page in the child. *)
Lemma wp_fork_child a s ptp lblp amp Dp ptc lblc amc Dc vpn e new_area
    (Q : MapArea F * PageTable → machine A → Prop) :
  pair_inv s ptp lblp amp Dp ptc lblc amc Dc → user_vpn vpn →
  0 <= PageTableEntry_ppn e < FRAME_END → (2 <= avail (falloc s))%nat →
  data_frames new_area !! vpn = None →
  (∀ s' ptc' lblc',
     pair_inv s' ptp lblp amp Dp ptc' lblc' (<[vpn := fork_child_pte a e]> amc) Dc →
     sp_step (λ _, True) 2 s s' (lblp ∪ lblc) (lblp ∪ lblc') →
     Q (set_frames (<[vpn := PageTableEntry_ppn e]> (data_frames new_area)) new_area, ptc') s') →
  wp (let! child_pt := PageTable_map ptc vpn (PageTableEntry_ppn e)
                         (fork_child_flags a (PageTableEntry_flags e)) in
      let! frames := frames_insert (data_frames new_area) vpn (PageTableEntry_ppn e) in
      m_ret (set_frames frames new_area, child_pt)) Q s.
Proof.
  intros Hpi Hu Hp Hav Hna HQ. apply wp_bind.
  eapply pair_map_child; [done|done|done|apply fork_child_flags_range, flags_range|done|].
  intros s' ptc' lblc' Hpi' Hst _. unfold frames_insert. rewrite Hna. apply wp_bind, wp_bind, wp_ret, wp_ret, wp_ret.
  eapply HQ; [done|]. by apply sp_step_union_r.
Qed.

(** A page whose frame the parent's area tracks. *)
Lemma wp_fork_tracked a s ptp lblp amp Dp ptc lblc amc Dc vpn e new_area
    (Q : MapArea F * PageTable → machine A → Prop) :
  let ppn := PageTableEntry_ppn e in
  let src_flags := PageTableEntry_flags e in
  pair_inv s ptp lblp amp Dp ptc lblc amc Dc → user_vpn vpn →
  amp !! vpn = Some e → Dp !! vpn = Some ppn → Dc !! vpn = None →
  data_frames new_area !! vpn = None → (2 <= avail (falloc s))%nat →
  (∀ s' ptc' lblc',
     pair_inv s' ptp lblp (alter (fork_parent_pte a) vpn amp) Dp ptc' lblc'
       (<[vpn := fork_child_pte a e]> amc) (<[vpn := ppn]> Dc) →
     sp_step (λ _, True) 2 s s' (lblp ∪ lblc) (lblp ∪ lblc') →
     Q (set_frames (<[vpn := ppn]> (data_frames new_area)) new_area, ptc') s') →
  wp (arc_clone ppn ;;;
      if bool_decide (kind a = Shared)
      then fork_shared_page a ptp vpn src_flags ppn new_area ptc
      else fork_private_page a ptp vpn src_flags ppn new_area ptc) Q s.
Proof.
  intros ppn src_flags Hpi Hu He HDp HDc Hna Hav HQ.
  assert (is_Some (arcs s !! ppn)) as Harc.
  { rewrite (sp_arcs _ _ _ _ _ _ (pi_parent _ _ _ _ _ _ _ _ _ Hpi)), count_of_is_Some.
    pose proof (refs_pos Dp vpn ppn HDp). lia. }
  assert (0 <= ppn < FRAME_END) as Hpr.
  { destruct (sp_owned _ _ _ _ _ _ (pi_parent _ _ _ _ _ _ _ _ _ Hpi) ppn Harc) as [Ho _].
    eapply spec_owned_range; [apply Hpi|done]. }
  assert (Z.testbit src_flags 0 = true) as Hb.
  { apply valid_flag. eapply translate_is_valid.
    rewrite (sp_view _ _ _ _ _ _ (pi_parent _ _ _ _ _ _ _ _ _ Hpi) vpn Hu). exact He. }
  pose proof (flags_range e) as Hfr. apply wp_bind, wp_modify.
  pose proof (pair_clone _ _ _ _ _ _ _ _ _ vpn ppn Hpi Harc HDc) as Hpi1.
  pose proof (sp_step_clone s ppn (lblp ∪ lblc)) as Hst1.
  set (s1 := set_arcs (alter (Z.add 1) ppn) s) in *.
  assert (∀ c flags, 0 <= flags < 256 → Z.testbit flags 0 = true →
    fork_parent_pte a e = (if c : bool then set_flags flags e else e) →
    wp ((if c then PageTable_change_pte_flags ptp vpn flags ;;; m_ret tt else m_ret tt) ;;;
        let! child_pt := PageTable_map ptc vpn ppn (fork_child_flags a src_flags) in
        let! frames := frames_insert (data_frames new_area) vpn ppn in
        m_ret (set_frames frames new_area, child_pt)) Q s1) as Hgen.
  { intros c flags Hf Hbf Hpte. apply wp_bind. eapply wp_fork_parent; [done|done|done|done|done|done|].
    intros s2 Hpi2 Hst2 _. eapply (wp_fork_child a); [exact Hpi2|done|done| |done|].
    { destruct Hst2; simpl in *; lia. }
    intros s3 ptc' lblc' Hpi3 Hst3. eapply HQ; [done|].
    eapply (sp_step_seq 2 0 2); [done|exact Hst1|]. eapply (sp_step_seq 2 0 2); [done|exact Hst2|done]. }
  revert Hgen. unfold fork_parent_pte, fork_child_flags. fold src_flags.
  destruct (decide (kind a = Shared)) as [Hk|Hk]; intros Hgen.
  - rewrite bool_decide_eq_true_2 by done. unfold fork_shared_page.
    destruct (contains (map_perm a) MP_W).
    + specialize (Hgen (negb (contains src_flags PTE_W)) (Z.lor src_flags PTE_W)).
      simpl in Hgen. apply wp_bind_assoc. apply Hgen; [by apply (lor_flag_range _ 2)|by apply lor_W_valid|done].
    + apply (Hgen false src_flags); done.
  - rewrite bool_decide_eq_false_2 by done. unfold fork_private_page.
    specialize (Hgen (contains (map_perm a) MP_W && contains src_flags PTE_W) (Z.ldiff src_flags PTE_W)).
    apply Hgen; [by apply ldiff_range|by apply ldiff_W_valid|done].
Qed.

(** ** One area *)

(** The frame the child gets at a page. *)
Definition forked (amp Dp : gmap Z Z) (v : Z) : option Z := _ ← amp !! v; Dp !! v.

Definition set_at (v : Z) (o : option Z) (m : gmap Z Z) : gmap Z Z := partial_alter (λ _, o) v m.

Lemma lookup_set_at v o m w : set_at v o m !! w = if decide (w = v) then o else m !! w.
Proof.
  unfold set_at. case_decide as H; [subst; by rewrite lookup_partial_alter_eq|by rewrite lookup_partial_alter_ne].
Qed.

(** What one iteration of either loop does. *)
Definition forks_page a ptp (vpn : Z) (f : MapArea F * PageTable → M (machine A) (MapArea F * PageTable)) : Prop :=
  ∀ s lblp amp Dp ptc lblc amc Dc new_area (Q : MapArea F * PageTable → machine A → Prop),
  pair_inv s ptp lblp amp Dp ptc lblc amc Dc → covered amp Dp → data_frames a !! vpn = Dp !! vpn →
  amc !! vpn = None → Dc !! vpn = None →
  data_frames new_area !! vpn = None → (2 <= avail (falloc s))%nat →
  (∀ s' ptc' lblc',
     pair_inv s' ptp lblp (alter (fork_parent_pte a) vpn amp) Dp ptc' lblc'
       (set_at vpn (fork_child_pte a <$> amp !! vpn) amc) (set_at vpn (forked amp Dp vpn) Dc) →
     sp_step (λ _, True) 2 s s' (lblp ∪ lblc) (lblp ∪ lblc') →
     Q (set_frames (set_at vpn (forked amp Dp vpn) (data_frames new_area)) new_area, ptc') s') →
  wp (f (new_area, ptc)) Q s.

Lemma set_at_same v m : m !! v = None → set_at v None m = m.
Proof. intros H. apply map_eq. intros w. rewrite lookup_set_at. case_decide; congruence. Qed.

Lemma alter_none (f : Z → Z) v (m : gmap Z Z) : m !! v = None → alter f v m = m.
Proof.
  intros H. apply map_eq. intros w. destruct (decide (w = v)) as [->|Hne].
  - by rewrite lookup_alter_eq, H.
  - by rewrite lookup_alter_ne.
Qed.

(** The tracked case of both, and the skipped one. *)
Lemma forks_tracked a ptp vpn (f : MapArea F * PageTable → M (machine A) (MapArea F * PageTable)) alt :
  user_vpn vpn →
  (∀ new_area ptc, f (new_area, ptc) =
     let! pte := translate_valid ptp vpn in
     match pte with
     | None => m_ret (new_area, ptc)
     | Some e =>
         match data_frames a !! vpn with
         | Some ppn =>
             arc_clone ppn ;;;
             if bool_decide (kind a = Shared)
             then fork_shared_page a ptp vpn (PageTableEntry_flags e) ppn new_area ptc
             else fork_private_page a ptp vpn (PageTableEntry_flags e) ppn new_area ptc
         | None => alt new_area ptc e
         end
     end) → forks_page a ptp vpn f.
Proof.
  intros Hu Hf s lblp amp Dp ptc lblc amc Dc new_area Q Hpi Hcov Hfr Hamc HDc Hna Hav HQ.
  rewrite Hf. apply wp_bind. eapply wp_translate_valid; [apply Hpi|done|].
  unfold forked in HQ. destruct (amp !! vpn) as [e|] eqn:He; simpl in HQ.
  - pose proof (Hcov vpn e He) as HD. rewrite Hfr, HD. rewrite HD in HQ.
    eapply wp_fork_tracked; [done|done|done|done|done|done|done|]. intros s' ptc' lblc' Hpi' Hst.
    by eapply HQ.
  - apply wp_ret. rewrite !set_at_same, alter_none in HQ by done.
    replace (set_frames (data_frames new_area) new_area) with new_area in HQ by by destruct new_area.
    eapply HQ; [done|]. apply sp_step_refl.
Qed.

Lemma fork_page_forks a ptp vpn : user_vpn vpn → forks_page a ptp vpn (λ st, fork_page a ptp st vpn).
Proof. intros Hu. eapply forks_tracked; [done|]. intros. reflexivity. Qed.

Lemma fork_sparse_forks a ptp vpn ppn : user_vpn vpn → data_frames a !! vpn = Some ppn →
  forks_page a ptp vpn (λ st, fork_sparse_page a ptp st (vpn, ppn)).
Proof.
  intros Hu Hf. eapply (forks_tracked _ _ _ _ (λ _ _ _, m_panic)); [done|]. intros. rewrite Hf. reflexivity.
Qed.

(** The loop over the pages of an area. *)
Record forked_pages a (vs : list Z) (amp amp' Dp amc amc' Dc Dc' fr fr' : gmap Z Z) : Prop := {
  fp_parent v : amp' !! v = if decide (v ∈ vs) then fork_parent_pte a <$> amp !! v else amp !! v;
  fp_child v : amc' !! v = if decide (v ∈ vs) then fork_child_pte a <$> amp !! v else amc !! v;
  fp_held v : Dc' !! v = if decide (v ∈ vs) then forked amp Dp v else Dc !! v;
  fp_frames v : fr' !! v = if decide (v ∈ vs) then forked amp Dp v else fr !! v;
}.

Lemma covered_fork_parent a amp Dp v : covered amp Dp → covered (alter (fork_parent_pte a) v amp) Dp.
Proof.
  intros Hcov w e. destruct (decide (w = v)) as [->|Hne]; [|rewrite lookup_alter_ne by done; apply Hcov].
  rewrite lookup_alter_eq. intros (e' & He & ->)%fmap_Some. rewrite (Hcov v e' He). f_equal.
  unfold fork_parent_pte. pose proof (flags_range e').
  repeat case_match; try done; rewrite set_flags_ppn; try done.
  all: solve [by apply (lor_flag_range _ 2)|by apply ldiff_range].
Qed.

Lemma wp_fork_loop {X} (key : X → Z) a ptp (f : MapArea F * PageTable → X → M (machine A) (MapArea F * PageTable)) xs :
  (∀ x, x ∈ xs → forks_page a ptp (key x) (λ st, f st x)) → NoDup (key <$> xs) →
  ∀ s lblp amp Dp ptc lblc amc Dc new_area (Q : MapArea F * PageTable → machine A → Prop),
  pair_inv s ptp lblp amp Dp ptc lblc amc Dc → covered amp Dp →
  (∀ x, x ∈ xs → data_frames a !! key x = Dp !! key x ∧ amc !! key x = None ∧
     Dc !! key x = None ∧ data_frames new_area !! key x = None) →
  (2 * length xs <= avail (falloc s))%nat →
  (∀ s' amp' ptc' lblc' amc' Dc' fr', pair_inv s' ptp lblp amp' Dp ptc' lblc' amc' Dc' →
     covered amp' Dp →
     forked_pages a (key <$> xs) amp amp' Dp amc amc' Dc Dc' (data_frames new_area) fr' →
     sp_step (λ _, True) (2 * length xs) s s' (lblp ∪ lblc) (lblp ∪ lblc') →
     Q (set_frames fr' new_area, ptc') s') →
  wp (m_fold f xs (new_area, ptc)) Q s.
Proof.
  induction xs as [|x xs IH]; intros Hf Hnd s lblp amp Dp ptc lblc amc Dc new_area Q Hpi Hcov Hxs Hav HQ.
  - apply wp_ret. specialize (HQ s amp ptc lblc amc Dc (data_frames new_area)).
    replace (set_frames (data_frames new_area) new_area) with new_area in HQ by by destruct new_area.
    apply HQ; [done|done| |apply sp_step_refl]. split; intros v; by rewrite decide_False by set_solver.
  - csimpl in *. apply NoDup_cons in Hnd as [Hx Hnd].
    destruct (Hxs x) as (Ha & Hamc & HDc & Hna); [set_solver|].
    apply wp_bind. eapply (Hf x); [set_solver|exact Hpi|done|done|done|done|done|lia|].
    intros s1 ptc1 lblc1 Hpi1 Hst1.
    assert (∀ y, y ∈ xs → key y ≠ key x) as Hne.
    { intros y Hy Heq. apply Hx. rewrite <- Heq. by apply list_elem_of_fmap_2. }
    eapply IH; [set_solver|done|exact Hpi1|by apply covered_fork_parent| |destruct Hst1; lia|].
    { intros y Hy. simpl. rewrite !lookup_set_at, !decide_False by auto. apply Hxs. set_solver. }
    intros s2 amp2 ptc2 lblc2 amc2 Dc2 fr2 Hpi2 Hcov2 [Fp Fc Fh Ff] Hst2.
    eapply HQ; [done|done| |by eapply (sp_step_seq _ 2 (2 * length xs)); [lia|..]]. simpl in Ff.
    assert (∀ v, v ≠ key x → alter (fork_parent_pte a) (key x) amp !! v = amp !! v) as Halt
      by (intros v Hv; by rewrite lookup_alter_ne).
    assert (∀ v, v ≠ key x → forked (alter (fork_parent_pte a) (key x) amp) Dp v = forked amp Dp v) as Hfk
      by (intros v Hv; unfold forked; by rewrite Halt).
    split; intros v; rewrite ?Fp, ?Fc, ?Fh, ?Ff; rewrite ?lookup_set_at;
      (destruct (decide (v = key x)) as [->|Hv];
       [rewrite (decide_False (P:=key x ∈ key <$> xs)) by done; rewrite ?(decide_True (P:=key x ∈ key x :: _)) by (by left);
        rewrite ?decide_True by done; by rewrite ?lookup_alter_eq|]);
      (destruct (decide (v ∈ key <$> xs)) as [Hin|Hin];
       [rewrite decide_True by (by right)|rewrite decide_False by (rewrite not_elem_of_cons; auto)]);
      by rewrite ?Halt, ?Hfk.
Qed.

(** Frames [fork_area] may need for the child's tables. *)
Definition fork_cost a : nat :=
  if area_end a - area_start a <=? FULL_VPN_SCAN_LIMIT
  then 2 * Z.to_nat (area_end a - area_start a) else 2 * size (data_frames a).

(** A child area: its parent's with the frames of the pages that were
    mapped. *)
Definition child_area a (fr : gmap Z Z) : MapArea F := set_frames fr (MapArea_from_another a).

Lemma child_area_range a fr : area_wf a →
  area_start (child_area a fr) = area_start a ∧ area_end (child_area a fr) = area_end a.
Proof.
  intros [[_ Hr] _ _ _ _]. unfold child_area, MapArea_from_another, VPNRange_new.
  destruct (Z.leb_spec (area_start a) (area_end a)); [done|lia].
Qed.

Lemma wp_fork_area s ptp lblp amp Dp lblc amc Dc (child : MemorySet F) a
    (Q : MemorySet F → machine A → Prop) :
  pair_inv s ptp lblp amp Dp (page_table child) lblc amc Dc → covered amp Dp →
  area_wf a → agree [a] Dp → (∀ v, in_area a v → amc !! v = None ∧ Dc !! v = None) →
  (fork_cost a <= avail (falloc s))%nat →
  (∀ s' amp' ptc' lblc' amc' Dc' fr', pair_inv s' ptp lblp amp' Dp ptc' lblc' amc' Dc' →
     covered amp' Dp →
     forked_pages a (seqZ (area_start a) (area_end a - area_start a)) amp amp' Dp amc amc' Dc Dc' ∅ fr' →
     sp_step (λ _, True) (fork_cost a) s s' (lblp ∪ lblc) (lblp ∪ lblc') →
     Q (mkMemorySet ptc' (areas child ++ [child_area a fr'])) s') →
  wp (fork_area ptp child a) Q s.
Proof.
  intros Hpi Hcov Hwf Hag Hfree Hav HQ. unfold fork_area, fork_cost in *.
  pose proof (aw_range _ Hwf) as Hr. pose proof (aw_end _ Hwf) as He.
  assert (saturating_sub (area_end a) (area_start a) = area_end a - area_start a) as ->
    by (unfold saturating_sub; lia).
  assert (∀ v, in_area a v → data_frames a !! v = Dp !! v ∧ amc !! v = None ∧ Dc !! v = None ∧
    data_frames (MapArea_from_another a) !! v = None) as Hpage.
  { intros v Hv. destruct (Hfree v Hv). split_and!; [apply Hag; [set_solver|done]|done..]. }
  apply wp_bind. destruct (Z.leb_spec (area_end a - area_start a) FULL_VPN_SCAN_LIMIT).
  - rewrite area_pages by done. eapply (wp_fork_loop id); [| |done|done| |by rewrite length_seqZ|].
    + intros v Hv%in_seqZ. apply fork_page_forks. by eapply in_area_user.
    + rewrite list_fmap_id. apply NoDup_seqZ.
    + intros v Hv%in_seqZ. by apply Hpage.
    + rewrite list_fmap_id, length_seqZ. intros s' amp' ptc' lblc' amc' Dc' fr' Hpi' Hcov' Hfp Hst.
      apply wp_ret. by eapply HQ.
  - eapply (wp_fork_loop fst); [|apply frames_in_order_nodup|done|done| |by rewrite frames_in_order_length|].
    + intros [v p] Hv%frames_in_order_spec. apply fork_sparse_forks; [|done].
      eapply in_area_user; [done|]. by eapply aw_frames.
    + intros [v p] Hv%frames_in_order_spec. apply Hpage. by eapply aw_frames.
    + rewrite frames_in_order_length. intros s' amp' ptc' lblc' amc' Dc' fr' Hpi' Hcov' [Fp Fc Fh Ff] Hst.
      apply wp_ret. eapply HQ; [done|done| |done].
      assert (∀ v, in_area a v → v ∉ (frames_in_order (data_frames a)).*1 → amp !! v = None) as Hnone.
      { intros v Hv Hk. destruct (amp !! v) as [e|] eqn:Hev; [|done]. exfalso. apply Hk, frames_in_order_key.
        destruct (Hpage v Hv) as (-> & _). by rewrite (Hcov v e Hev). }
      assert (∀ v, v ∈ (frames_in_order (data_frames a)).*1 → in_area a v) as Hkey.
      { intros v [p Hp]%frames_in_order_key. by eapply aw_frames. }
      split; intros v; rewrite ?Fp, ?Fc, ?Fh, ?Ff;
        (destruct (decide (v ∈ seqZ _ _)) as [Hv|Hv]; rewrite in_seqZ in Hv;
         [|rewrite decide_False by auto; done]);
        (destruct (decide (v ∈ (frames_in_order (data_frames a)).*1)) as [Hk|Hk]; [done|]);
        unfold forked; rewrite (Hnone v Hv Hk); simpl; try done; by apply Hfree.
Qed.

(** ** All areas *)

(** After forking the areas [done]: [amp0] is the parent's table before. *)
Record fork_inv (done : list (MapArea F)) s ptp lblp (amp0 amp : gmap Z Z) Dp (child : MemorySet F) lblc amc Dc : Prop := {
  fk_pair : pair_inv s ptp lblp amp Dp (page_table child) lblc amc Dc;
  fk_covered : covered amp Dp;
  fk_child_covered : covered amc Dc;
  fk_areas : Forall2 (λ a b, ∃ fr, b = child_area a fr) done (areas child);
  fk_wf : areas_wf (areas child);
  fk_agree : agree (areas child) Dc;
  fk_done a v : a ∈ done → in_area a v →
    amp !! v = fork_parent_pte a <$> amp0 !! v ∧ amc !! v = fork_child_pte a <$> amp0 !! v ∧
    Dc !! v = forked amp0 Dp v;
  fk_rest v : (∀ a, a ∈ done → ¬ in_area a v) → amp !! v = amp0 !! v ∧ amc !! v = None ∧ Dc !! v = None;
}.

Lemma fork_child_pte_ppn a e : 0 <= PageTableEntry_ppn e < 2 ^ 44 →
  PageTableEntry_ppn (fork_child_pte a e) = PageTableEntry_ppn e.
Proof.
  intros Hp. unfold fork_child_pte. apply PTE_new_ppn; [done|].
  apply (lor_flag_range _ 0); [|lia]. apply fork_child_flags_range, flags_range.
Qed.

Lemma covered_forked a amp Dp v e : covered amp Dp →
  fork_child_pte a <$> amp !! v = Some e → forked amp Dp v = Some (PageTableEntry_ppn e).
Proof.
  intros Hcov (e' & He & ->)%fmap_Some. unfold forked. rewrite He. simpl. rewrite (Hcov v e' He).
  by rewrite fork_child_pte_ppn by apply PTE_ppn_range.
Qed.

Lemma child_area_wf a fr : area_wf a → (∀ v, is_Some (fr !! v) → in_area a v) → area_wf (child_area a fr).
Proof.
  intros Hwf Hfr. destruct (child_area_range a fr Hwf) as [Hs He]. destruct Hwf as [Hr Hen Ht Hp _].
  split; rewrite ?Hs, ?He; try done. intros v p Hv. unfold in_area. rewrite Hs, He. apply Hfr. by exists p.
Qed.

Lemma child_areas_back (done l' : list (MapArea F)) c v :
  Forall2 (λ a b, ∃ fr, b = child_area a fr) done l' → (∀ d, d ∈ done → area_wf d) →
  c ∈ l' → in_area c v → ∃ d, d ∈ done ∧ in_area d v.
Proof.
  intros HF Hwf Hc Hv. apply list_elem_of_lookup in Hc as [i Hi].
  destruct (Forall2_lookup_r _ _ _ _ _ HF Hi) as (d & Hd & fr & ->).
  assert (d ∈ done) as Hdd by (by eapply list_elem_of_lookup_2). exists d. split; [done|].
  unfold in_area in *. by destruct (child_area_range d fr (Hwf d Hdd)) as [<- <-].
Qed.

Lemma fork_inv_step done s s' ptp lblp amp0 amp amp' Dp child ptc' lblc lblc' amc amc' Dc Dc' a fr' :
  fork_inv done s ptp lblp amp0 amp Dp child lblc amc Dc → area_wf a →
  (∀ b, b ∈ done → area_wf b ∧ area_disj b a) →
  pair_inv s' ptp lblp amp' Dp ptc' lblc' amc' Dc' → covered amp' Dp → covered amp0 Dp →
  forked_pages a (seqZ (area_start a) (area_end a - area_start a)) amp amp' Dp amc amc' Dc Dc' ∅ fr' →
  fork_inv (done ++ [a]) s' ptp lblp amp0 amp' Dp (mkMemorySet ptc' (areas child ++ [child_area a fr']))
    lblc' amc' Dc'.
Proof.
  intros [Kp Kc Kcc Ka Kwf Kag Kd Kr] Ha Hdone Hpi' Hcov' Hcov0 [Fp Fc Fh Ff].
  assert (∀ v, in_area a v → amp !! v = amp0 !! v ∧ amc !! v = None ∧ Dc !! v = None) as Hnew.
  { intros v Hv. apply Kr. intros b Hb Hbv. destruct (Hdone b Hb) as [_ Hd]. by apply (Hd v). }
  assert (∀ v, in_area a v → amp' !! v = fork_parent_pte a <$> amp0 !! v ∧
    amc' !! v = fork_child_pte a <$> amp0 !! v ∧ Dc' !! v = forked amp0 Dp v ∧ fr' !! v = Dc' !! v) as Hin.
  { intros v Hv. destruct (Hnew v Hv) as (Hamp & _ & _). rewrite Fp, Fc, Fh, Ff.
    rewrite !decide_True by by apply in_seqZ. unfold forked. rewrite Hamp. done. }
  assert (∀ v, ¬ in_area a v → amp' !! v = amp !! v ∧ amc' !! v = amc !! v ∧ Dc' !! v = Dc !! v ∧ fr' !! v = None) as Hout.
  { intros v Hv. rewrite Fp, Fc, Fh, Ff. rewrite !decide_False by by rewrite in_seqZ. done. }
  assert (∀ v, Decision (in_area a v)) as Hdec by (intros v; unfold in_area; apply _).
  assert (∀ v, is_Some (fr' !! v) → in_area a v) as Hfr.
  { intros v Hs. destruct (decide (in_area a v)) as [|Hv]; [done|].
    destruct (Hout v Hv) as (_ & _ & _ & Hn). rewrite Hn in Hs. by destruct Hs. }
  destruct (child_area_range a fr' Ha) as [Hcs Hce].
  assert (∀ c v, c ∈ areas child → in_area c v → ∃ d, d ∈ done ∧ in_area d v) as Hback.
  { intros c v. apply child_areas_back; [done|]. intros d Hd. by apply Hdone. }
  split; simpl; try done.
  - intros v e He. destruct (decide (in_area a v)) as [Hv|Hv].
    + destruct (Hin v Hv) as (_ & Hc & Hd & _). rewrite Hc in He. rewrite Hd. by eapply covered_forked.
    + destruct (Hout v Hv) as (_ & Hc & Hd & _). rewrite Hd. apply Kcc. by rewrite <- Hc.
  - apply Forall2_app; [done|]. constructor; [by eexists|constructor].
  - apply areas_wf_app. split_and!; [done| |].
    + simpl. split_and!; [by apply child_area_wf|constructor|done].
    + intros c d Hc ->%list_elem_of_singleton v Hcv Hdv. unfold in_area in Hdv. rewrite Hcs, Hce in Hdv.
      destruct (Hback c v Hc Hcv) as (x & Hx & Hxv). destruct (Hdone x Hx) as [_ Hd]. by apply (Hd v).
  - intros c v [Hc|Hc]%elem_of_app Hv.
    + destruct (Hback c v Hc Hv) as (x & Hx & Hxv). rewrite (Kag c v Hc Hv).
      destruct (Hout v) as (_ & _ & -> & _); [|done]. intros Hav. destruct (Hdone x Hx) as [_ Hd]. by apply (Hd v).
    + apply list_elem_of_singleton in Hc as ->. apply Hin. unfold in_area in *. by rewrite Hcs, Hce in Hv.
  - intros b v [Hb|Hb]%elem_of_app Hv.
    2: { apply list_elem_of_singleton in Hb as ->. by destruct (Hin v Hv) as (? & ? & ? & _). }
    destruct (Hout v) as (-> & -> & -> & _); [|by apply Kd].
    intros Hav. destruct (Hdone b Hb) as [_ Hd]. by apply (Hd v).
  - intros v Hv. destruct (Hout v) as (-> & -> & -> & _); [apply Hv; set_solver|].
    apply Kr. intros b Hb. apply Hv. set_solver.
Qed.

Lemma wp_fork_areas todo : ∀ done s ptp lblp amp0 amp Dp child lblc amc Dc
    (Q : MemorySet F → machine A → Prop),
  fork_inv done s ptp lblp amp0 amp Dp child lblc amc Dc → covered amp0 Dp →
  areas_wf (done ++ todo) → agree (done ++ todo) Dp →
  (sum_list (fork_cost <$> todo) <= avail (falloc s))%nat →
  (∀ s' amp' child' lblc' amc' Dc', fork_inv (done ++ todo) s' ptp lblp amp0 amp' Dp child' lblc' amc' Dc' →
     sp_step (λ _, True) (sum_list (fork_cost <$> todo)) s s' (lblp ∪ lblc) (lblp ∪ lblc') → Q child' s') →
  wp (m_fold (fork_area ptp) todo child) Q s.
Proof.
  induction todo as [|a todo IH]; intros done s ptp lblp amp0 amp Dp child lblc amc Dc Q Hk Hcov0 Hwf Hag Hav HQ.
  - apply wp_ret. eapply HQ; [by rewrite app_nil_r|apply sp_step_refl].
  - csimpl in *. pose proof (areas_wf_elem _ a Hwf) as Ha. assert (a ∈ done ++ a :: todo) as Hin by set_solver.
    assert (∀ b, b ∈ done → area_wf b ∧ area_disj b a) as Hdone.
    { intros b Hb. split; [apply (areas_wf_elem _ b Hwf); set_solver|].
      intros v Hbv Hav'. apply (areas_wf_disj _ _ _ b Hwf) with (v := v); [set_solver|done|done]. }
    apply wp_bind. eapply wp_fork_area; [apply Hk|apply Hk|by apply Ha| | |lia|].
    { intros b v ->%list_elem_of_singleton. by apply Hag. }
    { intros v Hv. apply (fk_rest _ _ _ _ _ _ _ _ _ _ _ Hk). intros b Hb Hbv. destruct (Hdone b Hb) as [_ Hd].
      by apply (Hd v). }
    intros s1 amp1 ptc1 lblc1 amc1 Dc1 fr1 Hpi1 Hcov1 Hfp1 Hst1.
    replace (done ++ a :: todo) with ((done ++ [a]) ++ todo) in * by by rewrite <- app_assoc.
    eapply (IH (done ++ [a]) s1 ptp lblp amp0); [|done|done|done|destruct Hst1; lia|].
    + eapply fork_inv_step; [exact Hk|by apply Ha|done|exact Hpi1|done|done|exact Hfp1].
    + intros s2 amp2 child2 lblc2 amc2 Dc2 Hk2 Hst2. eapply HQ; [done|].
      by eapply (sp_step_seq _ (fork_cost a) (sum_list (fork_cost <$> todo))).
Qed.
End pair.

#[export] Instance in_area_dec a v : Decision (in_area a v).
Proof. unfold in_area. apply _. Defined.

Lemma child_within l l' D :
  Forall2 (λ a b, ∃ fr, b = child_area a fr) l l' → areas_wf l →
  (∀ v, (∀ a, a ∈ l → ¬ in_area a v) → D !! v = None) → within l' D.
Proof.
  intros HF Hwf Hr v Hs. destruct (decide (Exists (λ a, in_area a v) l)) as [He|He].
  - apply Exists_exists in He as (a & Ha & Hv). pose proof (areas_wf_elem _ a Hwf Ha) as Haw.
    apply list_elem_of_lookup in Ha as [i Hi].
    destruct (Forall2_lookup_l _ _ _ _ _ HF Hi) as (b & Hb & fr & ->).
    exists (child_area a fr). split; [by eapply list_elem_of_lookup_2|].
    unfold in_area in *. by destruct (child_area_range a fr Haw) as [-> ->].
  - rewrite Hr in Hs; [by destruct Hs|]. intros a Ha Hv. apply He, Exists_exists. eauto.
Qed.

(** fork, on a well-formed parent. *)
Lemma wp_from_existed_user ext s parent lblp amp Dp (Q : MemorySet F → machine A → Prop) :
  ms_inv ext s parent lblp amp Dp →
  (kernel_token s ≠ 0 → owned (falloc s) (kernel_root s)) →
  (1 + sum_list (fork_cost <$> areas parent) <= avail (falloc s))%nat →
  (∀ s' amp' child lblc amc Dc, fork_inv ext (areas parent) s' (page_table parent) lblp amp amp' Dp child lblc amc Dc →
     within (areas child) Dc →
     sp_step (λ _, True) (1 + sum_list (fork_cost <$> areas parent)) s s' lblp (lblp ∪ lblc) → Q child s') →
  wp (from_existed_user parent) Q s.
Proof.
  intros Hi Hk Hav HQ. pose proof Hi as [Hc Hcov Hwf Hag Hin]. pose proof Hc as [Hpt Hv Hd Ha Ho].
  unfold from_existed_user. apply wp_bind, wp_bind. apply wp_PageTable_new; [apply Hpt|lia|done|].
  intros s1 root pt1 Hok1 Hnew Ht1 _ Hm1 Hown1 Ha1 Htok Hav1. apply wp_ret.
  assert (sp_step (λ _, True) 1 s s1 ∅ {[root := Root]}) as Hst1.
  { split; [apply map_empty_subseteq| | |done|lia].
    - intros q _ Hq _. assert (q ≠ root) by (intros ->; done).
      split_and!; [apply Hown1; by right|by rewrite lookup_singleton_ne|by apply Hm1].
    - intros q Hq Hl Haq. rewrite Ha1 in Haq. apply Hown1 in Hq as [->|Hq]; [|done].
      by rewrite lookup_singleton_eq in Hl. }
  destruct (sp_core_other ext (λ p, refs ∅ p + ext p)%nat _ _ _ _ _ _ _ _ _ _ Hc Hst1) as [Hc1 Hd1].
  { apply map_disjoint_empty_r. }
  { done. }
  { apply Hok1. }
  { intros p. rewrite Ha1, refs_empty. apply Ha. }
  { intros p. rewrite Ha1. intros Hs. destruct (Ho p Hs) as [Hop Hlp]. split; [|done]. apply Hown1. by right. }
  assert (fork_inv ext [] s1 (page_table parent) lblp amp amp Dp (mkMemorySet pt1 []) {[root := Root]} ∅ ∅) as Hk1.
  { split; try done; [split; try done| |].
    - split; try done.
      + intros v [??]. done.
      + intros p. by rewrite refs_empty, Ha1, Ha.
      + intros p. rewrite Ha1. intros Hs. destruct (Ho p Hs) as [Hop Hlp]. split; [apply Hown1; by right|].
        apply lookup_singleton_ne. intros ->. done.
    - intros a v Hx. by apply not_elem_of_nil in Hx.
    - intros a v Hx. by apply not_elem_of_nil in Hx. }
  eapply (wp_fork_areas ext (areas parent) []); [exact Hk1|done|done|done|lia|].
  intros s2 amp2 child lblc amc Dc Hk2 Hst2. eapply HQ; [done| |].
  - destruct Hk2 as [_ _ _ Ka _ _ _ Kr]. eapply child_within; [done|done|]. intros v Hno. by apply Kr.
  - eapply (sp_step_seq _ 1 (sum_list (fork_cost <$> areas parent))); [done| |exact Hst2].
    apply (sp_step_union_r _ _ _ _ lblp) in Hst1. by rewrite (right_id_L ∅ (∪)) in Hst1.
Qed.

(** ** The fault handler *)

Lemma sp_core_refs ext ext' s pt lbl am D D' :
  (∀ q, refs D q + ext q = refs D' q + ext' q)%nat → sp_core ext s pt lbl am D → sp_core ext' s pt lbl am D'.
Proof. intros Hr [Hpt Hv Hd Ha Ho]. split; try done. intros p. by rewrite <- Hr. Qed.

(** Replacing the frame at a page by a loose one: the new [Arc] is inserted and
    the old one dropped. *)
Lemma wp_replace_frame {B} ext s pt lbl am D v p old fr f (K : gmap Z Z → M (machine A) B)
    (Q : B → machine A → Prop) :
  sp_core ext s pt lbl am D → loose (owned:=owned) s lbl p → D !! v = Some old → fr !! v = Some old →
  (2 <= refs D old + ext old)%nat →
  (∀ q, q ≠ p → pm_page (f (mem s)) q = pm_page (mem s) q) →
  (∀ s', sp_core ext s' pt lbl am (<[v := p]> D) →
     sp_step (λ _, True) 0 (set_arcs (<[p := 1]>) (set_mem f s)) s' lbl lbl → mem s' = f (mem s) →
     wp (K (<[v := p]> fr)) Q s') →
  wp (m_modify (set_mem f) ;;; arc_new p ;;; let! fr' := frames_insert fr v p in K fr') Q s.
Proof.
  intros Hc Hl HD Hfr Hrefs Hf HQ. pose proof Hl as (Hop & Hap & Hlp & Hpr).
  do 2 apply wp_bind, wp_modify. apply wp_bind. unfold frames_insert. rewrite Hfr. apply wp_bind.
  destruct (sp_core_write (avail:=avail) _ _ _ _ _ _ f p Hc Hlp Hf) as [Hc1 _].
  assert (D !! v ≠ Some p) as Hne.
  { intros HDp. pose proof (refs_pos D v p HDp). rewrite (sp_arcs _ _ _ _ _ _ Hc), count_of_pos in Hap by lia. done. }
  assert (∀ q, refs (<[v := p]> D) q + hit q old = hit q p + refs D q)%nat as Hswap.
  { intros q. rewrite (refs_delete D v old q HD), <- insert_delete_eq.
    rewrite refs_insert by apply lookup_delete_eq. lia. }
  set (s1 := set_arcs (<[p := 1]>) (set_mem f s)) in *.
  assert (sp_core (λ q, hit q p + ext q)%nat s1 pt lbl am D) as Hc2.
  { destruct Hc1 as [Hpt Hv Hd Ha Ho]. split; try done; simpl in *.
    - by destruct Hpt.
    - intros q. unfold hit. destruct (decide (q = p)) as [->|Hq].
      + rewrite lookup_insert_eq. rewrite Ha in Hap. unfold count_of in *. case_decide; [|done].
        rewrite decide_False by lia. f_equal. lia.
      + rewrite lookup_insert_ne by done. apply Ha.
    - intros q [<-|[_ Hs]]%lookup_insert_is_Some; [done|by apply Ho]. }
  eapply (wp_sp_arc_drop _ _ _ _ _ _ (delete v D)); [exact Hc2|intros q; by apply refs_delete|].
  intros s2 Hc3 Hm Hst. apply wp_ret. apply HQ; [|  |by rewrite Hm].
  - eapply sp_core_refs; [|exact Hc3]. intros q. pose proof (Hswap q) as Hs. rewrite (refs_delete D v old q HD) in Hs. cbv beta. lia.
  - eapply sp_step_weaken; [|done|exact Hst]. intros q _. destruct (decide (q = old)) as [->|]; [|by left].
    right. rewrite (refs_delete D v old old HD) in Hrefs. unfold hit in *. rewrite decide_True in Hrefs by done. lia.
Qed.

(** The handler's view of a page: a writable area whose entry is not. *)
Definition needs_cow s ms (v : Z) : Prop :=
  ∃ a fl bytes, a ∈ areas ms ∧ in_area a v ∧ contains (map_perm a) MP_W = true ∧
    user_page s ms v = Some (fl, bytes) ∧ contains fl PTE_W = false.

Lemma areas_unique l a b v : areas_wf l → a ∈ l → b ∈ l → in_area a v → in_area b v → a = b.
Proof.
  intros Hwf Ha Hb Hav Hbv. apply list_elem_of_split in Ha as (l1 & l2 & ->).
  apply elem_of_app in Hb as [Hb|[->|Hb]%elem_of_cons]; [|done|];
    exfalso; eapply (areas_wf_disj _ _ _ b Hwf); [set_solver|done|done|set_solver|done|done].
Qed.

Lemma writable_flag e : PageTableEntry_writable e = contains (PageTableEntry_flags e) PTE_W.
Proof.
  rewrite writable_bit. change PTE_W with (Z.shiftl 1 2). rewrite contains_bit by lia.
  by rewrite PTE_flags_bit by lia.
Qed.

Lemma find_area_spec l v :
  match list_find (λ a, Is_true (area_contains a v)) l with
  | Some (i, a) => l !! i = Some a ∧ in_area a v
  | None => ∀ a, a ∈ l → ¬ in_area a v
  end.
Proof.
  assert (∀ a, Is_true (area_contains a v) ↔ in_area a v) as Hiff.
  { intros a. unfold area_contains, in_area. rewrite Is_true_true, andb_true_iff, Z.leb_le, Z.ltb_lt. done. }
  destruct (list_find _ l) as [[i a]|] eqn:Hf.
  - apply list_find_Some in Hf as (Hi & Ha & _). by apply Hiff in Ha.
  - apply list_find_None in Hf. intros a Ha Hv. rewrite Forall_forall in Hf. by apply (Hf a Ha), Hiff.
Qed.

(** Setting the flags of one page. *)
Lemma ms_inv_flags ext s s' ms lbl am D v flags :
  ms_inv ext s ms lbl am D → 0 <= flags < 256 →
  sp_core ext s' (page_table ms) lbl (alter (set_flags flags) v am) D →
  ms_inv ext s' ms lbl (alter (set_flags flags) v am) D.
Proof. intros [Hc Hcov Hwf Hag Hin] Hf Hc'. split; try done. by apply covered_protect. Qed.

(** A resolved fault, for the invariants: the page's entry gets [W] and either
    keeps its frame or moves to a fresh copy; a private page ends up with a
    frame nobody else refers to. *)
Record cow_result ext s s' ms ms' lbl lbl' (am am' D D' : gmap Z Z) (v : Z) : Prop := {
  cr_inv : ms_inv ext s' ms' lbl' am' D';
  cr_step : sp_step (λ _, True) 3 s s' lbl lbl';
  cr_areas : Forall2 (λ a b, ∃ fr, b = set_frames fr a) (areas ms) (areas ms');
  cr_entry : ∃ e e', am !! v = Some e ∧ am' !! v = Some e' ∧
    PageTableEntry_flags e' = Z.lor (PageTableEntry_flags e) PTE_W ∧
    pm_page (mem s') (PageTableEntry_ppn e') = pm_page (mem s) (PageTableEntry_ppn e);
  cr_other w : w ≠ v → am' !! w = am !! w;
  cr_held : D' = D ∨ ∃ p, D' = <[v := p]> D ∧ ¬ owned (falloc s) p;
  cr_sole a : a ∈ areas ms → in_area a v → kind a ≠ Shared →
    ∃ p, D' !! v = Some p ∧ (refs D' p + ext p = 1)%nat;
}.

Lemma same_areas_refl l : Forall2 (λ a b, ∃ fr, b = set_frames fr a) l l.
Proof. apply Forall_Forall2_diag, Forall_forall. intros a _. exists (data_frames a). by destruct a. Qed.

Lemma wp_cow_restore ext s ms lbl am D v e (Q : bool * MemorySet F → machine A → Prop) :
  ms_inv ext s ms lbl am D → user_vpn v → am !! v = Some e →
  (∀ a, a ∈ areas ms → in_area a v → kind a ≠ Shared →
     ∃ p, D !! v = Some p ∧ (refs D p + ext p = 1)%nat) →
  (∀ s' am', cow_result ext s s' ms ms lbl lbl am am' D D v → Q (true, ms) s') →
  wp (PageTable_change_pte_flags (page_table ms) v (Z.lor (PageTableEntry_flags e) PTE_W) ;;; m_ret (true, ms)) Q s.
Proof.
  intros Hi Hu He Hsole HQ. pose proof Hi as [Hc Hcov _ _ _].
  set (flags := Z.lor (PageTableEntry_flags e) PTE_W).
  assert (0 <= flags < 256) as Hf by (apply (lor_flag_range _ 2); [apply flags_range|lia]).
  assert (Z.testbit flags 0 = true) as Hb.
  { apply lor_W_valid, valid_flag. eapply translate_is_valid.
    rewrite (sp_view _ _ _ _ _ _ Hc v Hu). exact He. }
  apply wp_bind. eapply wp_sp_protect; [exact Hc|done|done|done|]. intros r s' Hc' Hst Ha.
  apply wp_ret. eapply HQ. split.
  - eapply ms_inv_flags; [exact Hi|exact Hf|exact Hc'].
  - eapply sp_step_weaken; [| |exact Hst]; [done|lia].
  - apply same_areas_refl.
  - exists e, (set_flags flags e). rewrite lookup_alter_eq, He, set_flags_flags, set_flags_ppn by done.
    split_and!; [done|done|done|].
    destruct (sp_owned _ _ _ _ _ _ Hc (PageTableEntry_ppn e)) as [Ho Hl]; [by eapply held_arc, Hcov|].
    by destruct (step_keep _ _ _ _ _ _ Hst _ I Ho Hl) as (_ & _ & ->).
  - intros w Hne. by rewrite lookup_alter_ne.
  - by left.
  - done.
Qed.

(** Replacing an area by one with the same range. *)
Lemma areas_replace l i a a' D D' :
  areas_wf l → agree l D → within l D → l !! i = Some a → area_wf a' →
  (∀ v, in_area a' v ↔ in_area a v) → (∀ v, in_area a v → data_frames a' !! v = D' !! v) →
  (∀ v, ¬ in_area a v → D' !! v = D !! v) →
  areas_wf (<[i := a']> l) ∧ agree (<[i := a']> l) D' ∧ within (<[i := a']> l) D'.
Proof.
  intros Hwf Hag Hin Hi Ha' Hr Hfr HD. pose proof (lookup_lt_Some _ _ _ Hi) as Hlt.
  assert (∀ b, b ∈ <[i := a']> l → b = a' ∨ (b ∈ l ∧ area_disj a b)) as Hb.
  { intros b Hb. rewrite insert_take_drop in Hb by done.
    rewrite <- (take_drop_middle l i a Hi) in Hwf.
    apply elem_of_app in Hb as [Hb|[->|Hb]%elem_of_cons]; [right|by left|right];
      (split; [|apply (areas_wf_disj _ _ _ b Hwf); set_solver]);
      rewrite <- (take_drop_middle l i a Hi); set_solver. }
  split_and!.
  - rewrite insert_take_drop by done. rewrite <- (take_drop_middle l i a Hi) in Hwf.
    apply areas_wf_app in Hwf as (H1 & (H2 & H3 & H4) & H5). apply areas_wf_app. split_and!; [done| |].
    + simpl. split_and!; [done| |done]. eapply Forall_impl; [exact H3|]. intros b Hd v Hv. apply Hd. by apply Hr.
    + intros b c Hb' [->|Hc]%elem_of_cons v Hbv Hcv.
      * eapply (H5 b a); [done|set_solver|done|by apply Hr].
      * eapply (H5 b c); [done|set_solver|done|done].
  - intros b v Hbl Hv. destruct (Hb b Hbl) as [->|[Hbl' Hd]]; [by apply Hfr, Hr|].
    rewrite HD by (intros Hav; by apply (Hd v)). by apply Hag.
  - intros v Hs. destruct (decide (in_area a v)) as [Hv|Hv].
    + exists a'. split; [|by apply Hr]. eapply list_elem_of_lookup_2, list_lookup_insert_eq, Hlt.
    + rewrite HD in Hs by done. destruct (Hin v Hs) as (b & Hbl & Hbv). exists b. split; [|done].
      apply list_elem_of_lookup in Hbl as [j Hj]. apply list_elem_of_lookup. exists j.
      rewrite list_lookup_insert_ne; [done|]. intros <-. congruence.
Qed.

Lemma insert_area_wf a v p : area_wf a → in_area a v →
  area_wf (set_frames (<[v := p]> (data_frames a)) a).
Proof.
  intros [? ? ? ? Hfr] Hv. split; try done. simpl.
  intros w q [[<- _]|[_ Hq]]%lookup_insert_Some; [done|]. by eapply Hfr.
Qed.

Lemma wp_cow_copy ext s ms lbl am D v e i a (Q : bool * MemorySet F → machine A → Prop) :
  let old := PageTableEntry_ppn e in
  let new_flags := Z.lor (PageTableEntry_flags e) PTE_W in
  ms_inv ext s ms lbl am D → areas ms !! i = Some a → in_area a v → am !! v = Some e →
  (2 <= refs D old + ext old)%nat → (3 <= avail (falloc s))%nat →
  (∀ s' ms' lbl' am' D', cow_result ext s s' ms ms' lbl lbl' am am' D D' v → Q (true, ms') s') →
  wp (let! new_frame := frame_alloc in
      match new_frame with
      | None => m_ret (false, ms)
      | Some new_ppn =>
          copy_page new_ppn old ;;;
          arc_new new_ppn ;;;
          let! frames := frames_insert (data_frames a) v new_ppn in
          let! pt := PageTable_map (page_table ms) v new_ppn new_flags in
          m_ret (true, mkMemorySet pt (<[i := set_frames frames a]> (areas ms)))
      end) Q s.
Proof.
  intros old new_flags Hi Hai Hav He Hrefs Hfree HQ. pose proof Hi as [Hc Hcov Hwf Hag Hin].
  assert (a ∈ areas ms) as Haa by (by eapply list_elem_of_lookup_2).
  pose proof (areas_wf_elem _ a Hwf Haa) as Haw. pose proof (in_area_user _ _ Haw Hav) as Hu.
  pose proof (Hcov v e He) as HD. fold old in HD.
  assert (0 <= new_flags < 256) as Hf by (apply (lor_flag_range _ 2); [apply flags_range|lia]).
  apply wp_bind. eapply wp_sp_frame_alloc; [exact Hc|lia|].
  intros p s1 Hc1 Hl1 Hnew _ Harcs1 Hst1 Hav1. pose proof Hl1 as (Hop1 & Hap1 & Hlp1 & Hpr).
  assert (p ≠ old) as Hne.
  { intros ->. rewrite (sp_arcs _ _ _ _ _ _ Hc1), count_of_pos in Hap1 by lia. done. }
  assert (∀ q, q ≠ p → pm_page (pm_copy (mem s1) p old) q = pm_page (mem s1) q) as Hcp.
  { intros q Hq. by apply pm_page_copy_ne. }
  specialize (Hst1 (λ m, pm_copy m p old) Hcp).
  eapply (wp_replace_frame ext s1 _ lbl am D v p old _ (λ m, pm_copy m p old)); [exact Hc1|done|done| |done|done|].
  { rewrite <- HD. by apply Hag. }
  intros s2 Hc2 Hst2 Hm2. apply wp_bind.
  eapply wp_sp_map; [exact Hc2|done|done|done|destruct Hst2; simpl in *; lia|].
  intros s3 pt3 lbl3 Hc3 Hst3 _ _. apply wp_ret.
  assert (0 <= Z.lor new_flags PTE_V < 256) as HfV by by apply lor_V_range.
  eapply HQ. split.
  - destruct (areas_replace (areas ms) i a (set_frames (<[v := p]> (data_frames a)) a) D (<[v := p]> D))
      as (Hwf' & Hag' & Hin'); [done|done|done|done|by apply insert_area_wf|done| | |].
    { intros w Hw. simpl. destruct (decide (w = v)) as [->|Hwv]; [by rewrite !lookup_insert_eq|].
      rewrite !lookup_insert_ne by done. by apply Hag. }
    { intros w Hw. rewrite lookup_insert_ne; [done|]. intros <-. done. }
    split; try done. apply covered_insert; [done|lia|done].
  - eapply (sp_step_seq 3 1 2); [done|exact Hst1|]. by eapply (sp_step_seq 2 0 2).
  - simpl. rewrite insert_take_drop by (by eapply lookup_lt_Some).
    rewrite <- (take_drop_middle (areas ms) i a Hai) at 1. apply Forall2_app; [apply same_areas_refl|].
    constructor; [by eexists|apply same_areas_refl].
  - exists e, (PageTableEntry_new p (Z.lor new_flags PTE_V)). rewrite lookup_insert_eq, PTE_new_flags, PTE_new_ppn
      by (done || lia). split_and!; [done|done| |].
    + apply lor_V_id, lor_W_valid, valid_flag. eapply translate_is_valid.
      rewrite (sp_view _ _ _ _ _ _ Hc v Hu). exact He.
    + destruct (sp_owned _ _ _ _ _ _ Hc2 p) as [Ho2 Hl2].
      { rewrite (sp_arcs _ _ _ _ _ _ Hc2). apply count_of_is_Some.
        pose proof (refs_pos (<[v:=p]> D) v p (lookup_insert_eq _ _ _)). lia. }
      destruct (step_keep _ _ _ _ _ _ Hst3 p I Ho2 Hl2) as (_ & _ & ->). rewrite Hm2, pm_page_copy_eq.
      rewrite <- (Hcp old) by done. destruct (sp_owned _ _ _ _ _ _ Hc old) as [Ho Hl]; [by eapply held_arc|].
      by destruct (step_keep _ _ _ _ _ _ Hst1 old I Ho Hl) as (_ & _ & Hx).
  - intros w Hwv. by rewrite lookup_insert_ne.
  - right. by exists p.
  - intros b _ _ _. exists p. split; [by rewrite lookup_insert_eq|].
    rewrite (sp_arcs _ _ _ _ _ _ Hc1) in Hap1. unfold count_of in Hap1. case_decide as Hz; [|done].
    rewrite <- insert_delete_eq, refs_insert by apply lookup_delete_eq. unfold hit.
    rewrite decide_True by done. pose proof (refs_mono D (delete v D) p (delete_subseteq _ _)). lia.
Qed.

Lemma wp_handle_cow_fault ext s ms lbl am D addr (Q : bool * MemorySet F → machine A → Prop) :
  let v := VirtAddr_floor (VirtAddr_from_usize addr) in
  ms_inv ext s ms lbl am D → (3 <= avail (falloc s))%nat →
  (¬ needs_cow s ms v → Q (false, ms) s) →
  (∀ s' ms' lbl' am' D', needs_cow s ms v → cow_result ext s s' ms ms' lbl lbl' am am' D D' v →
     Q (true, ms') s') →
  wp (handle_cow_fault ms addr) Q s.
Proof.
  intros v Hi Hav HQf HQt. pose proof Hi as [Hc Hcov Hwf Hag Hin]. unfold handle_cow_fault. fold v.
  pose proof (find_area_spec (areas ms) v) as Hfind.
  destruct (list_find _ (areas ms)) as [[i a]|].
  2: { apply wp_ret. apply HQf. intros (a & fl & bs & Ha & Hv & _).
       by apply Hfind in Hv. }
  destruct Hfind as [Hai Hv]. assert (a ∈ areas ms) as Haa by (by eapply list_elem_of_lookup_2).
  pose proof (areas_wf_elem _ a Hwf Haa) as Haw. pose proof (in_area_user _ _ Haw Hv) as Hu.
  assert (∀ b fl bs, b ∈ areas ms → in_area b v → user_page s ms v = Some (fl, bs) →
    b = a ∧ ∃ e, am !! v = Some e ∧ fl = PageTableEntry_flags e) as Huniq.
  { intros b fl bs Hb Hbv Hp. split; [by eapply areas_unique|].
    rewrite (user_page_view _ _ _ _ _ _ v Hi Hu) in Hp. apply fmap_Some in Hp as (e & He & [= -> _]). eauto. }
  destruct (contains (map_perm a) MP_W) eqn:HW; simpl.
  2: { apply wp_ret. apply HQf. intros (b & fl & bs & Hb & Hbv & HWb & Hp & _).
       destruct (Huniq _ _ _ Hb Hbv Hp) as [-> _]. congruence. }
  apply wp_bind. eapply wp_translate_valid; [exact Hc|done|]. destruct (am !! v) as [e|] eqn:He.
  2: { apply wp_ret. apply HQf. intros (b & fl & bs & Hb & Hbv & _ & Hp & _).
       destruct (Huniq _ _ _ Hb Hbv Hp) as [_ (e & ? & _)]. congruence. }
  rewrite writable_flag. destruct (contains (PageTableEntry_flags e) PTE_W) eqn:HWe.
  { apply wp_ret. apply HQf. intros (b & fl & bs & Hb & Hbv & _ & Hp & HWf).
    destruct (Huniq _ _ _ Hb Hbv Hp) as [_ (e' & He' & ->)]. congruence. }
  assert (needs_cow s ms v) as Hneed.
  { exists a, (PageTableEntry_flags e), (pm_page (mem s) (PageTableEntry_ppn e)). split_and!; try done.
    by rewrite (user_page_view _ _ _ _ _ _ v Hi Hu), He. }
  case_bool_decide as Hk.
  { eapply wp_cow_restore; [done|done|done| |].
    - intros b Hb Hbv Hbk. by rewrite (areas_unique _ b a v Hwf Hb Haa Hbv Hv) in Hbk.
    - intros s' am' Hr. by eapply HQt. }
  pose proof (Hcov v e He) as HD. rewrite (Hag a v Haa Hv), HD.
  unfold arc_strong_count. apply wp_bind. unfold wp at 1.
  rewrite (sp_arcs _ _ _ _ _ _ Hc). pose proof (refs_pos D v _ HD) as Hpos. rewrite count_of_pos by lia. simpl.
  destruct (Z.eqb_spec (Z.of_nat (refs D (PageTableEntry_ppn e) + ext (PageTableEntry_ppn e))) 1) as [H1|H1].
  - eapply wp_cow_restore; [done|done|done| |].
    + intros _ _ _ _. exists (PageTableEntry_ppn e). split; [done|lia].
    + intros s' am' Hr. by eapply HQt.
  - eapply wp_cow_copy; [done|done|done|done|lia|done|].
    intros s' ms' lbl' am' D' Hr. by eapply HQt.
Qed.
(** [C8] The copy-on-write fault handler.  On a well-formed space (with enough
    frames), a fault is resolved exactly when the page lies in a writable area,
    is mapped, and is not yet writable; otherwise nothing changes and the
    handler reports a genuine fault.  A resolved page becomes writable with
    the contents it had, every other page of the space and every frame anyone
    else refers to keeps its contents, and a page of a private area is then
    held by this space alone, so that later stores reach no one else. *)
Theorem cow_fault_exact ext s ms lbl am D addr :
  let v := VirtAddr_floor (VirtAddr_from_usize addr) in
  ms_inv ext s ms lbl am D → (3 <= avail (falloc s))%nat →
  wp (handle_cow_fault ms addr) (λ '(ok, ms') s',
    (ok = true ↔ needs_cow s ms v) ∧
    (ok = false → s' = s ∧ ms' = ms) ∧
    (ok = true → ∃ lbl' am' D' fl bytes, ms_inv ext s' ms' lbl' am' D' ∧
       user_page s ms v = Some (fl, bytes) ∧ user_page s' ms' v = Some (Z.lor fl PTE_W, bytes) ∧
       (∀ w, user_vpn w → w ≠ v → user_page s' ms' w = user_page s ms w) ∧
       (∀ q, (0 < ext q)%nat → pm_page (mem s') q = pm_page (mem s) q) ∧
       (∀ a, a ∈ areas ms → in_area a v → kind a ≠ Shared →
          ∃ p, D' !! v = Some p ∧ (refs D' p + ext p = 1)%nat))) s.
Proof.
  intros v Hi Hav. eapply wp_handle_cow_fault; [done|done|naive_solver|].
  intros s' ms' lbl' am' D' Hneed [Hi' Hst _ (e & e' & He & He' & Hfl & Hpg) Hoth _ Hsole].
  fold v in He, He', Hoth, Hsole, Hneed |- *. split_and!; [done|done|]. intros _.
  assert (user_vpn v) as Hu by (apply (sp_dom _ _ _ _ _ _ (mi_core _ _ _ _ _ _ Hi)); by rewrite He).
  exists lbl', am', D', (PageTableEntry_flags e), (pm_page (mem s) (PageTableEntry_ppn e)).
  split_and!; [done| | | | |done].
  - by rewrite (user_page_view _ _ _ _ _ _ v Hi Hu), He.
  - rewrite (user_page_view _ _ _ _ _ _ v Hi' Hu), He'. simpl. by rewrite Hfl, Hpg.
  - intros w Hw Hne. eapply user_page_same; [done|done|done|by apply Hoth|done|done].
  - intros q Hq. pose proof (mi_core _ _ _ _ _ _ Hi) as Hc. destruct (sp_owned _ _ _ _ _ _ Hc q) as [Ho Hl].
    { rewrite (sp_arcs _ _ _ _ _ _ Hc). apply count_of_is_Some. lia. }
    by destruct (step_keep _ _ _ _ _ _ Hst q I Ho Hl) as (_ & _ & ->).
Qed.
End cow.
