(* ===== verification/Fork.v ===== *)
(** * fork behaves like copying the address space

    Parent and child after [from_existed_user], each storing to its pages and
    taking copy-on-write faults: what each of them reads is what it would read
    had fork copied every page. *)

From stdpp Require Import base gmap list numbers list_numbers option fin_maps sets sorting relations.
From S2P Require Import Prelude Address FrameAllocator Machine PageTable MapArea MemorySet Space.
From S2P Require Import AddressSpace Mmap SpaceLife Cow.

(** ** A store by the processor *)

(** The contents of a page after storing bytes at an offset. *)
Definition write_page (pg : gmap Z Z) (off : Z) (data : list Z) : gmap Z Z :=
  pm_page (pm_write_bytes {[0 := pg]} 0 off data) 0.

Lemma pm_page_write_eq m p i w : pm_page (pm_write m p i w) p = <[i := w]> (pm_page m p).
Proof. unfold pm_write. unfold pm_page at 1. by rewrite lookup_insert_eq. Qed.

Lemma write_bytes_page data : ∀ m m' p q off, pm_page m p = pm_page m' q →
  pm_page (pm_write_bytes m p off data) p = pm_page (pm_write_bytes m' q off data) q.
Proof.
  induction data as [|b data IH]; intros m m' p q off H; simpl; [done|]. apply IH.
  unfold pm_write_byte. rewrite !pm_page_write_eq. unfold pm_word. by rewrite H.
Qed.

Lemma write_page_eq m p off data :
  pm_page (pm_write_bytes m p off data) p = write_page (pm_page m p) off data.
Proof. unfold write_page. apply write_bytes_page. unfold pm_page at 2. by rewrite lookup_singleton_eq. Qed.

Section store.
Context {A : Type} {FA : FrameAllocator A} {F : Type}.
Implicit Types (ms : MemorySet F).

(** A store to page [vpn]: when the entry does not allow it the processor
    traps, the handler runs, and the store is retried if it succeeded. *)
Definition try_store ms (vpn off : Z) (data : list Z) : M (machine A) bool :=
  let! s := m_get in
  match PageTable_translate (mem s) (page_table ms) vpn with
  | Some e =>
      if PageTableEntry_writable e
      then m_modify (set_mem (λ m, pm_write_bytes m (PageTableEntry_ppn e) off data)) ;;; m_ret true
      else m_ret false
  | None => m_ret false
  end.

Definition user_store ms (vpn off : Z) (data : list Z) : M (machine A) (MemorySet F) :=
  let! stored := try_store ms vpn off data in
  if stored : bool then m_ret ms
  else
    let! (resolved, ms) := handle_cow_fault ms (vpn * PAGE_SIZE) in
    if resolved : bool then try_store ms vpn off data ;;; m_ret ms else m_ret ms.
End store.

(** ** Two spaces *)

Section duo.
Context {A : Type} {FA : FrameAllocator A} {inv : A → Prop} {owned : A → Z → Prop} {avail : A → nat}.
Context `{HFS : !FrameAllocatorSpec A inv owned avail}.
Context {F : Type} (ext : Z → nat) (wr : Z → bool).
Implicit Types (s : machine A) (lbl : gmap Z node) (am D : gmap Z Z) (x y ms : MemorySet F).

#[local] Abbreviation sp_step := (sp_step (owned:=owned) (avail:=avail)).
#[local] Abbreviation ms_inv := (ms_inv (inv:=inv) (owned:=owned)).

(** The pages a process may write. *)
Definition writable_at (l : list (MapArea F)) (v : Z) : bool :=
  existsb (λ a, area_contains a v && contains (map_perm a) MP_W) l.

(** One of the spaces: all its areas are private and allow writing the pages of
    [wr], an entry that allows stores is one of these, and its frame is held
    once. *)
Record side (e' : Z → nat) s ms lbl am D : Prop := {
  sd_inv : ms_inv e' s ms lbl am D;
  sd_private a : a ∈ areas ms → kind a ≠ Shared;
  sd_wr v : writable_at (areas ms) v = wr v;
  sd_flag v e : am !! v = Some e → contains (PageTableEntry_flags e) PTE_W = true →
    wr v = true ∧ (refs D (PageTableEntry_ppn e) + e' (PageTableEntry_ppn e) = 1)%nat;
}.

Definition other D (p : Z) : nat := (refs D p + ext p)%nat.

Record duo s x lblx amx Dx y lbly amy Dy : Prop := {
  duo_x : side (other Dy) s x lblx amx Dx;
  duo_y : side (other Dx) s y lbly amy Dy;
  duo_disj : lblx ##ₘ lbly;
}.

Lemma duo_sym s x lblx amx Dx y lbly amy Dy :
  duo s x lblx amx Dx y lbly amy Dy → duo s y lbly amy Dy x lblx amx Dx.
Proof. intros [Hx Hy Hd]. by split. Qed.

Lemma floor_page v : user_vpn v → VirtAddr_floor (VirtAddr_from_usize (v * PAGE_SIZE)) = v.
Proof.
  intros [H0 H1]. rewrite VirtAddr_from_usize_mod. unfold VirtAddr_floor, PAGE_SIZE.
  rewrite Z.mod_small by lia. by rewrite Z.div_mul.
Qed.

Lemma writable_at_spec l v : writable_at l v = true ↔
  ∃ a, a ∈ l ∧ in_area a v ∧ contains (map_perm a) MP_W = true.
Proof.
  unfold writable_at. rewrite existsb_exists. split; intros (a & Ha & H); exists a.
  - apply list_elem_of_In in Ha. apply andb_true_iff in H as [H ?]. split_and!; try done.
    unfold area_contains in H. apply andb_true_iff in H as [H1 H2]. unfold in_area. lia.
  - split; [by apply list_elem_of_In|]. destruct H as [Hv ->]. unfold area_contains, in_area in *.
    apply andb_true_iff. split; [|done]. apply andb_true_iff. lia.
Qed.

(** A side survives what keeps its table and the frames held only by it. *)
Lemma side_change e1 e2 s s' ms lbl am D :
  side e1 s ms lbl am D → sp_core (inv:=inv) (owned:=owned) e2 s' (page_table ms) lbl am D →
  (∀ v p, D !! v = Some p → (refs D p + e1 p = 1)%nat → e2 p = e1 p) →
  side e2 s' ms lbl am D.
Proof.
  intros [[Hc Hcov Hwf Hag Hin] Hpr Hwr Hfl] Hc' He. split; [by split|done|done|].
  intros v e Hv HW. destruct (Hfl v e Hv HW) as [? H1]. split; [done|]. by rewrite (He v) by auto.
Qed.

(** Storing through an entry that allows it. *)
Lemma duo_write s x lblx amx Dx y lbly amy Dy v e off data :
  duo s x lblx amx Dx y lbly amy Dy → amx !! v = Some e → contains (PageTableEntry_flags e) PTE_W = true →
  let p := PageTableEntry_ppn e in
  let s' := set_mem (λ m, pm_write_bytes m p off data) s in
  duo s' x lblx amx Dx y lbly amy Dy ∧ Dx !! v = Some p ∧
  (∀ w, w ≠ v → Dx !! w ≠ Some p) ∧ (∀ w, Dy !! w ≠ Some p).
Proof.
  intros [Hx Hy Hd] He HW p s'. destruct (sd_flag _ _ _ _ _ _ Hx v e He HW) as [Hwr Hsole]. fold p in Hsole.
  pose proof (sd_inv _ _ _ _ _ _ Hx) as Hix. pose proof (sd_inv _ _ _ _ _ _ Hy) as Hiy.
  pose proof (mi_covered _ _ _ _ _ _ Hix v e He) as HD. fold p in HD.
  rewrite (refs_delete Dx v p p HD) in Hsole. unfold hit, other in Hsole. rewrite decide_True in Hsole by done.
  pose proof (held_arc _ _ _ _ _ _ _ _ Hix HD) as Harc.
  destruct (sp_owned _ _ _ _ _ _ (mi_core _ _ _ _ _ _ Hix) p Harc) as [Ho Hlx].
  destruct (sp_owned _ _ _ _ _ _ (mi_core _ _ _ _ _ _ Hiy) p Harc) as [_ Hly].
  split_and!; [|done| |].
  - destruct (sp_core_write (inv:=inv) (owned:=owned) (avail:=avail) _ s _ _ _ _ (λ m, pm_write_bytes m p off data) p
      (mi_core _ _ _ _ _ _ Hix) Hlx) as [Hcx _]; [intros q Hq; by apply pm_page_write_bytes_ne|].
    destruct (sp_core_write (inv:=inv) (owned:=owned) (avail:=avail) _ s _ _ _ _ (λ m, pm_write_bytes m p off data) p
      (mi_core _ _ _ _ _ _ Hiy) Hly) as [Hcy _]; [intros q Hq; by apply pm_page_write_bytes_ne|].
    split; [by eapply side_change|by eapply side_change|done].
  - intros w Hw HDw. assert (delete v Dx !! w = Some p) as Hdw by by rewrite lookup_delete_ne.
    pose proof (refs_pos _ _ _ Hdw). lia.
  - intros w HDw. pose proof (refs_pos _ _ _ HDw). lia.
Qed.

(** References after the handler: at a frame that was allocated, no more than
    before. *)
Lemma cow_refs_le s (D D' : gmap Z Z) v p :
  D' = D ∨ (∃ pn, D' = <[v := pn]> D ∧ ¬ owned (falloc s) pn) → owned (falloc s) p →
  (refs D' p <= refs D p)%nat.
Proof.
  intros [->|(pn & -> & Hn)] Hp; [done|]. rewrite <- insert_delete_eq, refs_insert by apply lookup_delete_eq.
  unfold hit. rewrite decide_False by (intros ->; done). apply refs_mono, delete_subseteq.
Qed.

Lemma same_areas_wr l l' : Forall2 (λ a b : MapArea F, ∃ fr, b = set_frames fr a) l l' →
  (∀ v, writable_at l' v = writable_at l v) ∧ (∀ b, b ∈ l' → ∃ a, a ∈ l ∧ kind b = kind a).
Proof.
  intros HF. split.
  - intros v. unfold writable_at. induction HF as [|a b l l' [fr ->] HF IH]; simpl; [done|]. by rewrite IH.
  - intros b Hb. apply list_elem_of_lookup in Hb as [i Hi].
    destruct (Forall2_lookup_r _ _ _ _ _ HF Hi) as (a & Ha & fr & ->).
    exists a. split; [by eapply list_elem_of_lookup_2|done].
Qed.

Lemma duo_cow s s' x x' lblx lblx' amx amx' Dx Dx' y lbly amy Dy v :
  duo s x lblx amx Dx y lbly amy Dy → wr v = true →
  cow_result (inv:=inv) (owned:=owned) (avail:=avail) (other Dy) s s' x x' lblx lblx' amx amx' Dx Dx' v →
  duo s' x' lblx' amx' Dx' y lbly amy Dy.
Proof.
  intros [[Hix Hpx Hwx Hfx] Hy Hd] Hwr [Hi' Hst Har (e & e' & He & He' & _ & _) Hoth Hheld Hsole].
  pose proof (sd_inv _ _ _ _ _ _ Hy) as Hiy. pose proof (mi_core _ _ _ _ _ _ Hiy) as Hcy.
  pose proof (mi_core _ _ _ _ _ _ Hi') as Hc'. destruct (same_areas_wr _ _ Har) as [Hwr' Hkind].
  assert (∀ p, is_Some (arcs s !! p) → owned (falloc s) p) as Hown by (intros p Hp; by apply (sp_owned _ _ _ _ _ _ Hcy)).
  assert (∀ D w p, D = Dx ∨ D = Dy → D !! w = Some p → owned (falloc s) p) as Hheldown.
  { intros D w p [->| ->] Hw; apply Hown; [exact (held_arc _ _ _ _ _ _ _ _ Hix Hw)|exact (held_arc _ _ _ _ _ _ _ _ Hiy Hw)]. }
  destruct (sp_core_other _ (other Dx') _ _ _ _ _ _ _ _ _ _ Hcy Hst) as [Hcy' Hd'].
  - by symmetry.
  - done.
  - apply Hc'.
  - intros p. rewrite (sp_arcs _ _ _ _ _ _ Hc'). unfold other. f_equal. lia.
  - intros p Hp. split; [by apply (sp_owned _ _ _ _ _ _ Hc')|].
    destruct (arcs s !! p) as [n|] eqn:Ha.
    { by apply (sp_owned _ _ _ _ _ _ Hcy p); rewrite Ha. }
    apply eq_None_not_Some. intros Hl. assert (owned (falloc s) p) as Ho.
    { by apply (ok_owned _ _ _ (sp_pt _ _ _ _ _ _ Hcy)). }
    pose proof (cow_refs_le _ _ _ _ _ Hheld Ho) as Hle.
    rewrite (sp_arcs _ _ _ _ _ _ Hcy) in Ha. rewrite (sp_arcs _ _ _ _ _ _ Hc'), count_of_is_Some in Hp.
    unfold count_of, other in *. case_decide; [lia|done].
  - split; [split| |by symmetry].
    + done.
    + intros b (a & Ha & ->)%Hkind. by apply Hpx.
    + intros w. by rewrite Hwr'.
    + intros w ew Hew HW. destruct (decide (w = v)) as [->|Hne].
      * split; [done|]. pose proof (mi_covered _ _ _ _ _ _ Hi' v ew Hew) as HDv.
        destruct (mi_within _ _ _ _ _ _ Hix v) as (a & Ha & Hav);
          [by rewrite (mi_covered _ _ _ _ _ _ Hix v e He)|].
        destruct (Hsole a Ha Hav (Hpx a Ha)) as (p & Hp & H1). congruence.
      * rewrite Hoth in Hew by done. destruct (Hfx w ew Hew HW) as [? H1]. split; [done|].
        pose proof (mi_covered _ _ _ _ _ _ Hix w ew Hew) as HDw.
        pose proof (cow_refs_le _ _ _ _ _ Hheld (Hheldown Dx w _ (or_introl eq_refl) HDw)).
        assert (Dx' !! w = Some (PageTableEntry_ppn ew)) as HDw'.
        { destruct Hheld as [->|(pn & -> & _)]; [done|]. by rewrite lookup_insert_ne. }
        pose proof (refs_pos _ _ _ HDw'). lia.
    + eapply side_change; [done|done|]. intros w p HDw H1. pose proof (refs_pos _ _ _ HDw).
      pose proof (cow_refs_le _ _ _ _ _ Hheld (Hheldown Dy w _ (or_intror eq_refl) HDw)). unfold other in *. lia.
Qed.

(** ** What a process reads *)

Definition contents s ms (v : Z) : option (gmap Z Z) := snd <$> user_page s ms v.

Lemma contents_view e' s ms lbl am D v : ms_inv e' s ms lbl am D → user_vpn v →
  contents s ms v = (λ e, pm_page (mem s) (PageTableEntry_ppn e)) <$> am !! v.
Proof.
  intros Hi Hv. unfold contents. rewrite (user_page_view _ _ _ _ _ _ v Hi Hv). by destruct (am !! v).
Qed.

(** The effect of a store on the page [v] of a process that has its own copy of
    every page. *)
Definition abs_store (v : Z) (pg : option (gmap Z Z)) (op : Z * Z * list Z) : option (gmap Z Z) :=
  let '(w, off, data) := op in
  if bool_decide (w = v) && wr v then (λ pg, write_page pg off data) <$> pg else pg.

Lemma duo_write_contents s x lblx amx Dx y lbly amy Dy v e off data :
  duo s x lblx amx Dx y lbly amy Dy → amx !! v = Some e → contains (PageTableEntry_flags e) PTE_W = true →
  let s' := set_mem (λ m, pm_write_bytes m (PageTableEntry_ppn e) off data) s in
  duo s' x lblx amx Dx y lbly amy Dy ∧
  (∀ w, user_vpn w → contents s' x w = abs_store w (contents s x w) (v, off, data)) ∧
  (∀ w, user_vpn w → contents s' y w = contents s y w).
Proof.
  intros Hduo He HW s'. destruct (duo_write _ _ _ _ _ _ _ _ _ v e off data Hduo He HW) as (Hduo' & HD & Hx & Hy).
  fold s' in Hduo'. split; [done|]. destruct Hduo as [Sx Sy _], Hduo' as [Sx' Sy' _].
  destruct (sd_flag _ _ _ _ _ _ Sx v e He HW) as [Hwr _]. destruct Sx as [Ix _ _ _], Sx' as [Ix' _ _ _].
  destruct Sy as [Iy _ _ _], Sy' as [Iy' _ _ _]. split.
  - intros w Hw. rewrite (contents_view _ _ _ _ _ _ w Ix' Hw), (contents_view _ _ _ _ _ _ w Ix Hw). simpl.
    destruct (decide (v = w)) as [<-|Hne].
    + rewrite bool_decide_eq_true_2, Hwr, He by done. simpl. by rewrite write_page_eq.
    + rewrite bool_decide_eq_false_2 by done. simpl. destruct (amx !! w) as [ew|] eqn:Hew; simpl; [|done].
      f_equal. apply pm_page_write_bytes_ne. intros Heq. apply (Hx w); [done|].
      rewrite (mi_covered _ _ _ _ _ _ Ix w ew Hew). by rewrite Heq.
  - intros w Hw. rewrite (contents_view _ _ _ _ _ _ w Iy' Hw), (contents_view _ _ _ _ _ _ w Iy Hw).
    destruct (amy !! w) as [ew|] eqn:Hew; simpl; [|done].
    f_equal. apply pm_page_write_bytes_ne. intros Heq. apply (Hy w).
    rewrite (mi_covered _ _ _ _ _ _ Iy w ew Hew). by rewrite Heq.
Qed.

Lemma duo_cow_contents s s' x x' lblx lblx' amx amx' Dx Dx' y lbly amy Dy v :
  duo s x lblx amx Dx y lbly amy Dy → duo s' x' lblx' amx' Dx' y lbly amy Dy →
  cow_result (inv:=inv) (owned:=owned) (avail:=avail) (other Dy) s s' x x' lblx lblx' amx amx' Dx Dx' v →
  (∀ w, user_vpn w → contents s' x' w = contents s x w) ∧
  (∀ w, user_vpn w → contents s' y w = contents s y w).
Proof.
  intros [Sx Sy _] [_ Sy' _] [Hi' Hst _ (e & e' & He & He' & _ & Hpg) Hoth _ _].
  destruct Sx as [Ix _ _ _], Sy as [Iy _ _ _], Sy' as [Iy' _ _ _]. split; intros w Hw.
  - destruct (decide (w = v)) as [->|Hne].
    + rewrite (contents_view _ _ _ _ _ _ v Hi' Hw), (contents_view _ _ _ _ _ _ v Ix Hw), He, He'. simpl. by rewrite Hpg.
    + unfold contents. f_equal. eapply user_page_same; [exact Ix|exact Hi'|done|by apply Hoth|exact Hst|done].
  - rewrite (contents_view _ _ _ _ _ _ w Iy' Hw), (contents_view _ _ _ _ _ _ w Iy Hw).
    destruct (amy !! w) as [ew|] eqn:Hew; simpl; [|done]. f_equal.
    pose proof (mi_covered _ _ _ _ _ _ Iy w ew Hew) as HD. pose proof (held_arc _ _ _ _ _ _ _ _ Iy HD) as Ha.
    destruct (sp_owned _ _ _ _ _ _ (mi_core _ _ _ _ _ _ Ix) _ Ha) as [Ho Hl].
    by destruct (step_keep _ _ _ _ _ _ Hst _ I Ho Hl) as (_ & _ & ->).
Qed.

(** The store traps. *)
Lemma wp_store_fault s x lblx amx Dx y lbly amy Dy v off data (Q : MemorySet F → machine A → Prop) :
  duo s x lblx amx Dx y lbly amy Dy → user_vpn v → (3 <= avail (falloc s))%nat →
  (∀ e, amx !! v = Some e → contains (PageTableEntry_flags e) PTE_W = false) →
  (∀ s' x' lblx' amx' Dx', duo s' x' lblx' amx' Dx' y lbly amy Dy →
     (avail (falloc s) <= 3 + avail (falloc s'))%nat →
     (∀ w, user_vpn w → contents s' x' w = abs_store w (contents s x w) (v, off, data)) →
     (∀ w, user_vpn w → contents s' y w = contents s y w) → Q x' s') →
  wp (let! (resolved, ms) := handle_cow_fault x (v * PAGE_SIZE) in
      if resolved : bool then try_store ms v off data ;;; m_ret ms else m_ret ms) Q s.
Proof.
  intros Hduo Hv Hav HnW HQ. pose proof Hduo as [[Ix Px Wx Fx] _ _].
  apply wp_bind. eapply wp_handle_cow_fault; [exact Ix|done| |]; rewrite floor_page by done.
  - intros Hno. apply wp_ret. eapply HQ; [done|lia| |done]. intros w Hw. simpl.
    destruct (decide (v = w)) as [<-|Hne]; [|by rewrite bool_decide_eq_false_2].
    rewrite bool_decide_eq_true_2 by done. simpl. destruct (wr v) eqn:Hwr; [|done].
    rewrite (contents_view _ _ _ _ _ _ v Ix Hv). destruct (amx !! v) as [e|] eqn:He; [|done].
    exfalso. apply Hno. rewrite <- Wx in Hwr. apply writable_at_spec in Hwr as (a & Ha & Hav' & HW).
    eexists a, _, _. split_and!; [done|done|done| |by apply (HnW e)].
    by rewrite (user_page_view _ _ _ _ _ _ v Ix Hv), He.
  - intros s1 x1 lblx1 amx1 Dx1 (a & fl & bs & Ha & Hav' & HWa & _) Hr.
    assert (wr v = true) as Hwr by (rewrite <- Wx; apply writable_at_spec; eauto).
    pose proof (duo_cow _ _ _ _ _ _ _ _ _ _ _ _ _ _ _ Hduo Hwr Hr) as Hduo1.
    destruct (duo_cow_contents _ _ _ _ _ _ _ _ _ _ _ _ _ _ _ Hduo Hduo1 Hr) as [Hx1 Hy1].
    destruct Hr as [Hi1 Hst1 _ (e & e1 & He & He1 & Hfl & _) _ _ _].
    assert (contains (PageTableEntry_flags e1) PTE_W = true) as HW1.
    { rewrite Hfl. change PTE_W with (Z.shiftl 1 2). rewrite contains_bit, Z.lor_spec by lia. apply orb_true_r. }
    unfold try_store. apply wp_bind, wp_bind, wp_get.
    rewrite (sp_view _ _ _ _ _ _ (mi_core _ _ _ _ _ _ Hi1) v Hv), He1, writable_flag, HW1.
    apply wp_bind, wp_modify, wp_ret, wp_ret.
    destruct (duo_write_contents _ _ _ _ _ _ _ _ _ v e1 off data Hduo1 He1 HW1) as (Hduo2 & Hx2 & Hy2).
    eapply HQ; [done|simpl; destruct Hst1; lia| |].
    + intros w Hw. by rewrite Hx2, Hx1.
    + intros w Hw. by rewrite Hy2, Hy1.
Qed.

Lemma wp_user_store s x lblx amx Dx y lbly amy Dy v off data (Q : MemorySet F → machine A → Prop) :
  duo s x lblx amx Dx y lbly amy Dy → user_vpn v → (3 <= avail (falloc s))%nat →
  (∀ s' x' lblx' amx' Dx', duo s' x' lblx' amx' Dx' y lbly amy Dy →
     (avail (falloc s) <= 3 + avail (falloc s'))%nat →
     (∀ w, user_vpn w → contents s' x' w = abs_store w (contents s x w) (v, off, data)) →
     (∀ w, user_vpn w → contents s' y w = contents s y w) → Q x' s') →
  wp (user_store x v off data) Q s.
Proof.
  intros Hduo Hv Hav HQ. pose proof Hduo as [[Ix _ _ _] _ _].
  pose proof (mi_core _ _ _ _ _ _ Ix) as Cx. unfold user_store, try_store at 1.
  apply wp_bind, wp_bind, wp_get. rewrite (sp_view _ _ _ _ _ _ Cx v Hv).
  destruct (amx !! v) as [e|] eqn:He.
  2: { apply wp_ret. eapply wp_store_fault; [done|done|done| |done]. congruence. }
  rewrite writable_flag. destruct (contains (PageTableEntry_flags e) PTE_W) eqn:HW.
  - apply wp_bind, wp_modify, wp_ret, wp_ret.
    destruct (duo_write_contents _ _ _ _ _ _ _ _ _ v e off data Hduo He HW) as (Hduo' & Hx & Hy).
    eapply HQ; [done|simpl; lia|done|done].
  - apply wp_ret. eapply wp_store_fault; [done|done|done| |done]. congruence.
Qed.

(** ** Any sequence of stores *)

Inductive Side : Type := Parent | Child.

Definition store_op : Type := Side * (Z * Z * list Z).

Fixpoint run_stores (ops : list store_op) (sp : MemorySet F * MemorySet F)
    : M (machine A) (MemorySet F * MemorySet F) :=
  match ops with
  | [] => m_ret sp
  | (Parent, (v, off, data)) :: ops =>
      let! parent := user_store sp.1 v off data in run_stores ops (parent, sp.2)
  | (Child, (v, off, data)) :: ops =>
      let! child := user_store sp.2 v off data in run_stores ops (sp.1, child)
  end.

(** The stores of one process. *)
Definition stores_of (d : Side) (ops : list store_op) : list (Z * Z * list Z) :=
  omap (λ '(d', op), match d, d' with
                     | Parent, Parent | Child, Child => Some op
                     | _, _ => None
                     end) ops.

Lemma wp_run_stores ops : ∀ s x lblx amx Dx y lbly amy Dy (Q : MemorySet F * MemorySet F → machine A → Prop),
  duo s x lblx amx Dx y lbly amy Dy → Forall (λ '(_, (v, _, _)), user_vpn v) ops →
  (3 * length ops <= avail (falloc s))%nat →
  (∀ x' y' s',
     (∀ w, user_vpn w → contents s' x' w = foldl (abs_store w) (contents s x w) (stores_of Parent ops)) →
     (∀ w, user_vpn w → contents s' y' w = foldl (abs_store w) (contents s y w) (stores_of Child ops)) →
     Q (x', y') s') →
  wp (run_stores ops (x, y)) Q s.
Proof.
  induction ops as [|[[] [[v off] data]] ops IH]; intros s x lblx amx Dx y lbly amy Dy Q Hduo Hops Hav HQ.
  - apply wp_ret. by apply HQ.
  - apply Forall_cons in Hops as [Hv Hops]. simpl in Hav. apply wp_bind. simpl.
    eapply wp_user_store; [exact Hduo|done|lia|]. intros s1 x1 lblx1 amx1 Dx1 Hduo1 Hav1 Hx1 Hy1.
    eapply IH; [exact Hduo1|done|lia|]. intros x2 y2 s2 Hx2 Hy2. apply HQ.
    + intros w Hw. simpl. by rewrite Hx2, Hx1.
    + intros w Hw. by rewrite Hy2, Hy1.
  - apply Forall_cons in Hops as [Hv Hops]. simpl in Hav. apply wp_bind. simpl.
    eapply wp_user_store; [apply duo_sym; exact Hduo|done|lia|]. intros s1 y1 lbly1 amy1 Dy1 Hduo1 Hav1 Hy1 Hx1.
    eapply IH; [apply duo_sym; exact Hduo1|done|lia|]. intros x2 y2 s2 Hx2 Hy2. apply HQ.
    + intros w Hw. by rewrite Hx2, Hx1.
    + intros w Hw. simpl. by rewrite Hy2, Hy1.
Qed.
End duo.

(** ** fork *)

Section fork.
Context {A : Type} {FA : FrameAllocator A} {inv : A → Prop} {owned : A → Z → Prop} {avail : A → nat}.
Context `{HFS : !FrameAllocatorSpec A inv owned avail}.
Context {F : Type}.
Implicit Types (s : machine A) (lbl : gmap Z node) (am D : gmap Z Z) (ms : MemorySet F) (a : MapArea F).

#[local] Abbreviation sp_step := (sp_step (owned:=owned) (avail:=avail)).
#[local] Abbreviation ms_inv := (ms_inv (inv:=inv) (owned:=owned)).
#[local] Abbreviation duo := (duo (inv:=inv) (owned:=owned)).

(** Only pages of writable areas have entries that allow stores. *)
Definition flags_ok s ms : Prop := ∀ a v fl bytes, a ∈ areas ms → in_area a v →
  user_page s ms v = Some (fl, bytes) → contains fl PTE_W = true → contains (map_perm a) MP_W = true.

Lemma ldiff_W flags : contains (Z.ldiff flags PTE_W) PTE_W = false.
Proof.
  change PTE_W with (Z.shiftl 1 2). rewrite contains_bit by lia.
  rewrite Z.ldiff_spec, Z.shiftl_spec, Z.sub_diag by lia. simpl. apply andb_false_r.
Qed.

Lemma lor_V_W flags : contains (Z.lor flags PTE_V) PTE_W = contains flags PTE_W.
Proof.
  change PTE_W with (Z.shiftl 1 2). rewrite !contains_bit, Z.lor_spec by lia. apply orb_false_r.
Qed.

(** fork leaves no private page writable on either side. *)
Lemma fork_parent_no_W a e : kind a ≠ Shared →
  (contains (PageTableEntry_flags e) PTE_W = true → contains (map_perm a) MP_W = true) →
  contains (PageTableEntry_flags (fork_parent_pte a e)) PTE_W = false.
Proof.
  intros Hk Hok. unfold fork_parent_pte. rewrite decide_False by done.
  destruct (contains (map_perm a) MP_W), (contains (PageTableEntry_flags e) PTE_W) eqn:HW; simpl; try done.
  - rewrite set_flags_flags by (apply ldiff_range, flags_range). apply ldiff_W.
  - by specialize (Hok eq_refl).
Qed.

Lemma fork_child_no_W a e : kind a ≠ Shared →
  (contains (PageTableEntry_flags e) PTE_W = true → contains (map_perm a) MP_W = true) →
  contains (PageTableEntry_flags (fork_child_pte a e)) PTE_W = false.
Proof.
  intros Hk Hok. unfold fork_child_pte.
  rewrite PTE_new_flags; [|apply PTE_ppn_range|apply lor_V_range, fork_child_flags_range, flags_range].
  rewrite lor_V_W. unfold fork_child_flags. rewrite decide_False by done.
  destruct (contains (map_perm a) MP_W); [apply ldiff_W|].
  destruct (contains (PageTableEntry_flags e) PTE_W); [by specialize (Hok eq_refl)|done].
Qed.

Lemma fork_parent_ppn a e : PageTableEntry_ppn (fork_parent_pte a e) = PageTableEntry_ppn e.
Proof.
  unfold fork_parent_pte. pose proof (flags_range e).
  repeat case_match; try done; rewrite set_flags_ppn; try done.
  all: solve [by apply (lor_flag_range _ 2)|by apply ldiff_range].
Qed.

Lemma child_areas_same (l l' : list (MapArea F)) :
  Forall2 (λ a b, ∃ fr, b = child_area a fr) l l' → areas_wf l →
  (∀ v, writable_at l' v = writable_at l v) ∧ (∀ b, b ∈ l' → ∃ a, a ∈ l ∧ kind b = kind a).
Proof.
  intros HF Hwf. split.
  - intros v. induction HF as [|a b l l' [fr ->] HF IH]; [done|]. destruct Hwf as (Ha & _ & Hl).
    unfold writable_at in *. simpl. rewrite IH by done. f_equal. f_equal. unfold area_contains.
    by destruct (child_area_range a fr Ha) as [-> ->].
  - intros b Hb. apply list_elem_of_lookup in Hb as [i Hi].
    destruct (Forall2_lookup_r _ _ _ _ _ HF Hi) as (a & Ha & fr & ->).
    exists a. split; [by eapply list_elem_of_lookup_2|done].
Qed.

Lemma fork_duo ext s s' parent child lblp lblc amp amp' amc Dp Dc n :
  ms_inv ext s parent lblp amp Dp → (∀ a, a ∈ areas parent → kind a ≠ Shared) → flags_ok s parent →
  fork_inv (inv:=inv) (owned:=owned) ext (areas parent) s' (page_table parent) lblp amp amp' Dp child lblc amc Dc →
  within (areas child) Dc → sp_step (λ _, True) n s s' lblp (lblp ∪ lblc) →
  duo ext (writable_at (areas parent)) s' parent lblp amp' Dp child lblc amc Dc ∧
  (∀ w, user_vpn w → contents s' parent w = contents s parent w) ∧
  (∀ w, user_vpn w → contents s' child w = contents s parent w).
Proof.
  intros Hi Hpriv Hok [[Pp Pc Pd] Kc Kcc Ka Kwf Kag Kd Kr] Hcin Hst.
  pose proof Hi as [Hc Hcov Hwf Hag Hin]. destruct (child_areas_same _ _ Ka Hwf) as [Hcwr Hckind].
  assert (∀ v e, amp' !! v = Some e ∨ amc !! v = Some e → ∃ a, a ∈ areas parent ∧ in_area a v) as Hwhere.
  { intros v e [He|He].
    - apply Hin. by rewrite (Kc v e He).
    - destruct (Hcin v) as (b & Hb & Hv); [by rewrite (Kcc v e He)|].
      apply (child_areas_back _ _ b v Ka); [|done|done]. intros d Hd. by apply (areas_wf_elem _ d Hwf). }
  assert (∀ v e0 a, amp !! v = Some e0 → a ∈ areas parent → in_area a v →
    contains (PageTableEntry_flags e0) PTE_W = true → contains (map_perm a) MP_W = true) as Hok'.
  { intros v e0 a He Ha Hav. eapply (Hok a v); [done|done|].
    rewrite (user_page_view _ _ _ _ _ _ v Hi), He; [done|]. eapply in_area_user; [|done]. by apply (areas_wf_elem _ a Hwf). }
  assert (∀ w, (∃ a, amp' !! w = fork_parent_pte a <$> amp !! w ∧ amc !! w = fork_child_pte a <$> amp !! w) ∨
    (amp !! w = None ∧ amp' !! w = None ∧ amc !! w = None)) as Hall.
  { intros w. destruct (decide (Exists (λ a, in_area a w) (areas parent))) as [He|He].
    - apply Exists_exists in He as (a & Ha & Hv). destruct (Kd a w Ha Hv) as (? & ? & _). left. eauto.
    - right. assert (∀ a, a ∈ areas parent → ¬ in_area a w) as Hno
        by (intros a Ha Hv; apply He, Exists_exists; eauto).
      destruct (Kr w Hno) as (-> & -> & _). split_and!; try done.
      all: destruct (amp !! w) as [e|] eqn:Hew; [|done]; exfalso;
        destruct (Hin w) as (a & Ha & Hv); [by rewrite (Hcov w e Hew)|by apply (Hno a)]. }
  assert (ms_inv (other ext Dc) s' parent lblp amp' Dp) as Ip by by split.
  assert (ms_inv (other ext Dp) s' child lblc amc Dc) as Ic by by split.
  assert (∀ v e, amp !! v = Some e → pm_page (mem s') (PageTableEntry_ppn e) = pm_page (mem s) (PageTableEntry_ppn e)) as Hpg.
  { intros v e He. destruct (sp_owned _ _ _ _ _ _ Hc (PageTableEntry_ppn e)) as [Ho Hl].
    { eapply held_arc; [done|]. by apply Hcov. }
    by destruct (step_keep _ _ _ _ _ _ Hst _ I Ho Hl) as (_ & _ & ->). }
  split_and!.
  - split; [split; [done|done|done|]|split; [done| |done|]|done].
    + intros v e He HW. exfalso. destruct (Hwhere v e (or_introl He)) as (a & Ha & Hv).
      destruct (Kd a v Ha Hv) as (Hp & _ & _). rewrite Hp in He. apply fmap_Some in He as (e0 & He0 & ->).
      rewrite fork_parent_no_W in HW; [done|by apply Hpriv|by eapply Hok'].
    + intros b (a & Ha & ->)%Hckind. by apply Hpriv.
    + intros v e He HW. exfalso. destruct (Hwhere v e (or_intror He)) as (a & Ha & Hv).
      destruct (Kd a v Ha Hv) as (_ & Hp & _). rewrite Hp in He. apply fmap_Some in He as (e0 & He0 & ->).
      rewrite fork_child_no_W in HW; [done|by apply Hpriv|by eapply Hok'].
  - intros w Hw. rewrite (contents_view _ _ _ _ _ _ w Ip Hw), (contents_view _ _ _ _ _ _ w Hi Hw).
    destruct (Hall w) as [(a & -> & _)|(-> & -> & _)]; [|done].
    destruct (amp !! w) as [e|] eqn:He; simpl; [|done]. f_equal. rewrite fork_parent_ppn. by eapply Hpg.
  - intros w Hw. rewrite (contents_view _ _ _ _ _ _ w Ic Hw), (contents_view _ _ _ _ _ _ w Hi Hw).
    destruct (Hall w) as [(a & _ & ->)|(-> & _ & ->)]; [|done].
    destruct (amp !! w) as [e|] eqn:He; simpl; [|done]. f_equal.
    rewrite fork_child_pte_ppn by apply PTE_ppn_range. by eapply Hpg.
Qed.

(** [C3] fork behaves as if it copied every page.  Fork a well-formed space whose
    areas are private, then let parent and child store to their pages in any
    order, each store that faults going through the copy-on-write handler.  At
    the end each process reads, at every page, exactly what it would had it
    started from its own copy of the pages at the time of the fork and only its
    own stores (to pages of writable areas) had happened. *)
Theorem fork_is_copy ext s parent lbl am D ops :
  let wr := writable_at (areas parent) in
  ms_inv ext s parent lbl am D → (∀ a, a ∈ areas parent → kind a ≠ Shared) → flags_ok s parent →
  (kernel_token s ≠ 0 → owned (falloc s) (kernel_root s)) →
  Forall (λ '(_, (v, _, _)), user_vpn v) ops →
  (1 + sum_list (fork_cost <$> areas parent) + 3 * length ops <= avail (falloc s))%nat →
  wp (let! child := from_existed_user parent in run_stores ops (parent, child)) (λ '(p, c) s',
    ∀ w, user_vpn w →
      contents s' p w = foldl (abs_store wr w) (contents s parent w) (stores_of Parent ops) ∧
      contents s' c w = foldl (abs_store wr w) (contents s parent w) (stores_of Child ops)) s.
Proof.
  intros wr Hi Hpriv Hok Hk Hops Hav. apply wp_bind.
  eapply wp_from_existed_user; [done|done|lia|]. intros s1 amp1 child lblc amc Dc Hfork Hin Hst.
  destruct (fork_duo _ _ _ _ _ _ _ _ _ _ _ _ _ Hi Hpriv Hok Hfork Hin Hst) as (Hduo & Hp & Hc).
  eapply wp_run_stores; [exact Hduo|done|destruct Hst; lia|].
  intros x y s2 Hx Hy w Hw. rewrite Hx, Hy, Hp, Hc by done. done.
Qed.
End fork.

(** ** Examples *)

#[local] Abbreviation k_inv := (sfa_inv 100).
#[local] Abbreviation k_owned := (sfa_owned 100).

Lemma demo_flags : flags_ok demo.2 demo.1.
Proof.
  intros a v fl bytes Ha _ _ _. vm_compute in Ha. apply list_elem_of_singleton in Ha. subst. by vm_compute.
Qed.

Lemma demo_private a : a ∈ areas demo.1 → kind a ≠ Shared.
Proof. intros Ha. vm_compute in Ha. apply list_elem_of_singleton in Ha. by subst. Qed.

Lemma demo_kernel_root : k_owned (falloc demo.2) (kernel_root demo.2).
Proof. split; [by vm_compute|]. vm_compute. set_solver. Qed.

(** The child stores to page 1, then the parent to pages 1 and 2. *)
Definition demo_stores : list store_op :=
  [(Child, (1, 0, [65; 66])); (Parent, (1, 8, [67])); (Parent, (2, 0, [68]))].

Lemma fork_is_copy_witness :
  wp (let! child := from_existed_user demo.1 in run_stores demo_stores (demo.1, child)) (λ '(p, c) s',
    contents s' p 1 = Some {[1 := 67]} ∧ contents s' c 1 = Some {[0 := 65 + 66 * 256]} ∧
    contents s' p 2 = Some {[0 := 68]} ∧ contents s' c 2 = Some ∅) demo.2.
Proof.
  destruct demo_life as [(lbl & am & D & Hi & _)].
  eapply wp_mono; [apply (fork_is_copy (ext0 boot_machine) demo.2 demo.1 lbl am D demo_stores Hi
    demo_private demo_flags (λ _, demo_kernel_root)); [repeat constructor; done|vm_compute; lia]|].
  intros [p c] s' Hw.
  destruct (Hw 1 ltac:(unfold user_vpn; lia)) as [-> ->].
  destruct (Hw 2 ltac:(unfold user_vpn; lia)) as [-> ->].
  clear. split_and!; vm_compute; reflexivity.
Defined.

(** The parent after a fork. *)
Definition demo_fork : MemorySet unit * kmachine :=
  match from_existed_user demo.1 demo.2 with
  | Ret x => x
  | Panic => demo
  end.

Lemma demo_fork_inv : ∃ ext lbl am D,
  ms_inv (inv:=k_inv) (owned:=k_owned) ext demo_fork.2 demo.1 lbl am D.
Proof.
  destruct demo_life as [(lbl & am & D & Hi & _)]. unfold demo_fork.
  assert (wp (from_existed_user demo.1) (λ _ s, ∃ ext lbl am D,
    ms_inv (inv:=k_inv) (owned:=k_owned) ext s demo.1 lbl am D) demo.2) as H.
  { eapply wp_from_existed_user; [exact Hi|intros _; apply demo_kernel_root|vm_compute; lia|].
    intros s' amp' child lblc amc Dc [[Hp _ _] Hc _ _ _ _ _ _] _ _. eexists _, _, _, _. destruct Hi. by split. }
  unfold wp in H. destruct (from_existed_user demo.1 demo.2) as [[c s]|]; done.
Qed.

Lemma cow_fault_exact_witness :
  wp (handle_cow_fault demo.1 0x1008) (λ '(ok, ms') s', ok = true ∧
    fst <$> user_page s' ms' 1 = Some 23 ∧ user_page s' ms' 2 = user_page demo_fork.2 demo.1 2) demo_fork.2.
Proof.
  destruct demo_fork_inv as (ext & lbl & am & D & Hi).
  eapply wp_mono; [apply (cow_fault_exact ext demo_fork.2 demo.1 lbl am D 0x1008 Hi); vm_compute; lia|].
  intros [ok ms'] s' (Hok & _ & Hdone).
  assert (ok = true) as ->.
  { apply Hok. eexists (default (MapArea_new 0 0 Framed 0) (head (areas demo.1))), 19, _.
    clear. split_and!; [vm_compute; by left|vm_compute; done..]. }
  destruct Hdone as (lbl' & am' & D' & fl & bytes & _ & Hp & Hp' & Hoth & _); [done|].
  change (VirtAddr_floor (VirtAddr_from_usize 0x1008)) with 1 in *. split_and!; [reflexivity| |].
  - rewrite Hp'. clear -Hp. vm_compute in Hp. injection Hp as <- <-. reflexivity.
  - apply Hoth; [unfold user_vpn|]; lia.
Defined.

