(* ===== verification/Demand.v ===== *)
(** * Demand paging

    [handle_demand_fault] of os/src/mm/memory_set.rs: a page of a lazy area gets
    its frame when it is first touched.  What a program sees of a page is what
    is mapped there, or what a fault would put there; resolving a fault does not
    change it. *)

From stdpp Require Import base gmap list numbers list_numbers option fin_maps sets sorting strings.
From S2P Require Import Prelude Address FrameAllocator Machine PageTable MapArea MemorySet Space.
From S2P Require Import AddressSpace Mmap SpaceLife Cow Fork.

Section demand.
Context {A : Type} {FA : FrameAllocator A} {inv : A → Prop} {owned : A → Z → Prop} {avail : A → nat}.
Context `{HFS : !FrameAllocatorSpec A inv owned avail}.
Context {FS F I : Type} {FO : FileOps FS F I} (ext : Z → nat).
Implicit Types (s : fstate A (FS:=FS)) (m : machine A) (lbl : gmap Z node) (am D : gmap Z Z).
Implicit Types (a b : MapArea F) (l : list (MapArea F)) (ms : MemorySet F).

#[local] Abbreviation sp_core := (sp_core (inv:=inv) (owned:=owned) ext).
#[local] Abbreviation sp_step := (sp_step (owned:=owned) (avail:=avail)).
#[local] Abbreviation ms_inv := (ms_inv (inv:=inv) (owned:=owned) ext (F:=F)).

Lemma wp_lift {B} (p : M (machine A) B) (Q : B → fstate A → Prop) s :
  wp p (λ x m', Q x (mkFstate m' (fs s) (page_cache s))) (mach s) → wp (lift p) Q s.
Proof. unfold wp, lift. by destruct (p (mach s)) as [[x m']|]. Qed.

(** Every frame the areas hold is mapped. *)
Definition full am D : Prop := ∀ v, is_Some (D !! v) → is_Some (am !! v).

(** What a fault puts at page [v] of a lazy area. *)
Definition backing a (v : Z) (f : FS) : gmap Z Z :=
  match file_back a with
  | None => ∅
  | Some (file, base) => write_page ∅ 0 (read_at_kernel file (base +w ((v -w area_start a) *w PAGE_SIZE)) f)
  end.

Definition lazy_at ms (v : Z) : option (MapArea F) :=
  snd <$> list_find (λ a, Is_true (lazy a && area_contains a v)) (areas ms).

(** What the program sees at a page, touched or not. *)
Definition seen s ms (v : Z) : option (gmap Z Z) :=
  match user_page (mach s) ms v with
  | Some (_, bytes) => Some bytes
  | None => (λ a, backing a v (fs s)) <$> lazy_at ms v
  end.

Lemma lazy_find l v :
  match list_find (λ a, Is_true (lazy a && area_contains a v)) l with
  | Some (i, a) => l !! i = Some a ∧ in_area a v ∧ lazy a = true
  | None => ∀ a, a ∈ l → in_area a v → lazy a = false
  end.
Proof.
  assert (Hiff : ∀ a, Is_true (lazy a && area_contains a v) ↔ lazy a = true ∧ in_area a v).
  { intros a. unfold area_contains, in_area. rewrite Is_true_true, !andb_true_iff, Z.leb_le, Z.ltb_lt. done. }
  destruct (list_find _ l) as [[i a]|] eqn:Hf.
  - apply list_find_Some in Hf as (Hi & Ha & _). apply Hiff in Ha. naive_solver.
  - apply list_find_None in Hf. intros a Ha Hv. rewrite Forall_forall in Hf.
    destruct (lazy a) eqn:E; [|done]. exfalso. by apply (Hf a Ha), Hiff.
Qed.

(** Lists of areas that differ only in the frames held find the same area. *)
Lemma lazy_at_same ms ms' v : Forall2 (λ a b, ∃ fr, b = set_frames fr a) (areas ms) (areas ms') →
  backing <$> lazy_at ms' v = backing <$> lazy_at ms v.
Proof.
  unfold lazy_at. induction 1 as [|a b l l' [fr ->] Hl IH]; [done|]. cbn [list_find].
  change (lazy (set_frames fr a) && area_contains (set_frames fr a) v) with (lazy a && area_contains a v).
  case_decide; [done|]. rewrite <- !option_fmap_compose in IH. rewrite <- !option_fmap_compose.
  by destruct (list_find _ l) as [[]|], (list_find _ l') as [[]|].
Qed.

Lemma lazy_at_unique ms lbl am D a v m : ms_inv m ms lbl am D → a ∈ areas ms → in_area a v → lazy a = true →
  lazy_at ms v = Some a.
Proof.
  intros Hi Ha Hv Hl. unfold lazy_at. pose proof (lazy_find (areas ms) v) as Hf.
  destruct (list_find _ (areas ms)) as [[i b]|]; [|by rewrite (Hf a Ha Hv) in Hl].
  destruct Hf as (Hb & Hbv & _). cbn. f_equal. eapply areas_unique; [apply Hi|by eapply list_elem_of_lookup_2|done..].
Qed.

(** What a resolved fault gives. *)
Record demanded s s' ms ms' lbl lbl' am am' D D' a (v : Z) : Prop := mkDemanded {
  dm_area : a ∈ areas ms ∧ in_area a v ∧ lazy a = true;
  dm_inv : ms_inv (mach s') ms' lbl' am' D';
  dm_full : full am' D';
  dm_same : Forall2 (λ a b, ∃ fr, b = set_frames fr a) (areas ms) (areas ms');
  dm_step : sp_step (λ _, True) 3 (mach s) (mach s') lbl lbl';
  dm_entry : ∃ p, am' = <[v := PageTableEntry_new p (Z.lor (map_perm a) PTE_V)]> am ∧ D' = <[v := p]> D ∧
    ¬ owned (falloc (mach s)) p ∧ 0 <= p < FRAME_END ∧ pm_page (mem (mach s')) p = backing a v (fs s);
  dm_fs : fs s' = fs s ∧ page_cache s' = page_cache s;
}.

(** Mapping one page of one area of the space. *)
Lemma wp_map_page s ms lbl am D v i a (Q : MapArea F * PageTable → machine A → Prop) :
  ms_inv (mach s) ms lbl am D → full am D → areas ms !! i = Some a → in_area a v → am !! v = None →
  (3 <= avail (falloc (mach s)))%nat →
  (∀ p pt' lbl' m', let a' := set_frames (<[v := p]> (data_frames a)) a in
     let ms' := mkMemorySet pt' (<[i := a']> (areas ms)) in
     ms_inv m' ms' lbl' (<[v := PageTableEntry_new p (Z.lor (map_perm a) PTE_V)]> am) (<[v := p]> D) →
     Forall2 (λ a b, ∃ fr, b = set_frames fr a) (areas ms) (areas ms') →
     sp_step (λ _, True) 3 (mach s) m' lbl lbl' → ¬ owned (falloc (mach s)) p → 0 <= p < FRAME_END →
     pm_page (mem m') p = ∅ → Q (a', pt') m') →
  wp (MapArea_map_one a (page_table ms) v) Q (mach s).
Proof.
  intros Hi Hfull Hai Hv Ham Hav HQ. pose proof Hi as [Hc Hcov Hwf Hag Hin].
  assert (Haa : a ∈ areas ms) by (by eapply list_elem_of_lookup_2). pose proof (areas_wf_elem _ a Hwf Haa) as Haw.
  assert (HD : D !! v = None) by (apply eq_None_not_Some; intros Hs%Hfull; rewrite Ham in Hs; by destruct Hs).
  eapply wp_sp_map_one; [exact Hc|by eapply in_area_user|done|done| |apply Haw|done|].
  { rewrite (Hag a v Haa Hv). done. }
  intros p m' pt' lbl' Hc' Hnew Hpr Hz Hst _. eapply HQ; [| |exact Hst|done|done|done].
  - destruct (areas_replace (areas ms) i a (set_frames (<[v := p]> (data_frames a)) a) D (<[v := p]> D))
      as (Hwf' & Hag' & Hin'); [done|done|done|done|by apply insert_area_wf|done| | |].
    { intros w Hw. cbn. destruct (decide (w = v)) as [->|Hne]; [by rewrite !lookup_insert_eq|].
      rewrite !lookup_insert_ne by done. by apply Hag. }
    { intros w Hw. rewrite lookup_insert_ne; [done|]. intros <-. done. }
    split; try done. apply covered_insert; [done|lia|apply lor_V_range, Haw].
  - cbn [areas]. rewrite insert_take_drop by (by eapply lookup_lt_Some).
    rewrite <- (take_drop_middle (areas ms) i a Hai) at 1. apply Forall2_app; [apply same_areas_refl|].
    constructor; [by eexists|apply same_areas_refl].
Qed.

Lemma full_insert am D v e p : full am D → full (<[v := e]> am) (<[v := p]> D).
Proof.
  intros Hf w. rewrite !lookup_insert_is_Some. destruct (decide (v = w)); [by left|]. intros [?|[_ Hw]]; [done|].
  right. split; [done|]. by apply Hf.
Qed.

Lemma wp_handle_demand_fault s ms lbl am D addr (Q : bool * MemorySet F → fstate A → Prop) :
  let v := VirtAddr_floor (VirtAddr_from_usize addr) in
  ms_inv (mach s) ms lbl am D → full am D → (3 <= avail (falloc (mach s)))%nat →
  (is_Some (am !! v) ∨ lazy_at ms v = None → Q (false, ms) s) →
  (∀ s' ms' lbl' am' D' a, am !! v = None → lazy_at ms v = Some a →
     demanded s s' ms ms' lbl lbl' am am' D D' a v → Q (true, ms') s') →
  wp (handle_demand_fault ms addr) Q s.
Proof.
  intros v Hi Hfull Hav HQf HQt. unfold handle_demand_fault. fold v. unfold lazy_at in *.
  pose proof (lazy_find (areas ms) v) as Hf. destruct (list_find _ (areas ms)) as [[i a]|];
    [|by apply wp_ret, HQf; right]. destruct Hf as (Hai & Hv & Hl). cbn [fmap option_fmap option_map snd] in HQf, HQt.
  assert (Haa : a ∈ areas ms) by (by eapply list_elem_of_lookup_2). pose proof Hi as [Hc Hcov Hwf Hag Hin].
  pose proof (areas_wf_elem _ a Hwf Haa) as Haw. pose proof (in_area_user _ _ Haw Hv) as Hu.
  apply wp_bind, wp_lift. eapply wp_translate_valid; [exact Hc|done|]. destruct s as [m f pc]. cbn [mach fs page_cache] in *.
  destruct (am !! v) as [e|] eqn:Ham; [by apply wp_ret, HQf; left|].
  apply wp_bind, wp_lift. eapply (wp_map_page (mkFstate m f pc)); [exact Hi|done|exact Hai|done|done|done|].
  cbn [mach fs page_cache]. intros p pt' lbl' m1 Hi1 Hsame1 Hst1 Hnew Hpr Hz. pose proof (mi_core _ _ _ _ _ _ Hi1) as Hc1.
  assert (HfV : 0 <= Z.lor (map_perm a) PTE_V < 256) by (apply lor_V_range, Haw).
  apply wp_bind, wp_lift. eapply wp_translate_valid; [exact Hc1|done|]. rewrite lookup_insert_eq. cbn [mach fs page_cache].
  rewrite PTE_new_ppn by (done || lia).
  destruct (file_back a) as [[file base]|] eqn:Efb; cbn [fmap option_fmap option_map].
  - apply wp_bind, wp_get, wp_bind, wp_lift, wp_modify. cbn [mach fs page_cache]. apply wp_ret.
    set (data := read_at_kernel file _ f). set (g := λ x, pm_write_bytes x p 0 data).
    assert (Hlp : lbl' !! p = None).
    { apply (sp_owned _ _ _ _ _ _ Hc1). eapply (held_arc _ _ _ _ _ _ v p Hi1). apply lookup_insert_eq. }
    assert (Hg : ∀ q, q ≠ p → pm_page (g (mem m1)) q = pm_page (mem m1) q) by (intros q; apply pm_page_write_bytes_ne).
    destruct (sp_core_write (avail:=avail) _ _ _ _ _ _ g p Hc1 Hlp Hg) as [Hc2 Hst2].
    eapply (HQt _ _ lbl'); [done|done|]. split; cbn [mach fs page_cache]; [done| |by apply full_insert|done| | |done].
    + destruct Hi1. by split.
    + split; [apply Hst1| | |apply Hst1|apply Hst1].
      * intros q _ Hq Hlq. destruct (step_keep _ _ _ _ _ _ Hst1 q Logic.I Hq Hlq) as (H1 & H2 & H3). split_and!; [done|done|].
        cbn [set_mem mem]. rewrite Hg; [done|]. intros ->. done.
      * apply Hst1.
    + exists p. split_and!; [done|done|done|lia|lia|]. unfold backing. rewrite Efb. cbn [set_mem mem]. unfold g.
      by rewrite write_page_eq, Hz.
  - apply wp_ret. eapply (HQt _ _ lbl'); [done|done|]. split; cbn [mach fs page_cache]; try done; [by apply full_insert|].
    exists p. split_and!; [done|done|done|lia|lia|]. unfold backing. by rewrite Efb.
Qed.

Lemma demanded_view s s' ms ms' lbl lbl' am am' D D' a v : ms_inv (mach s) ms lbl am D → am !! v = None →
  demanded s s' ms ms' lbl lbl' am am' D D' a v →
  user_page (mach s) ms v = None ∧ user_page (mach s') ms' v = Some (Z.lor (map_perm a) PTE_V, backing a v (fs s)) ∧
  (∀ w, user_vpn w → w ≠ v → user_page (mach s') ms' w = user_page (mach s) ms w).
Proof.
  intros Hi Ham [(Ha & Hv & Hl) Hi' _ _ Hst (p & -> & -> & Hnew & Hpr & Hpg) _].
  pose proof (areas_wf_elem _ a (mi_areas _ _ _ _ _ _ Hi) Ha) as Haw. pose proof (in_area_user _ _ Haw Hv) as Hu.
  assert (HfV : 0 <= Z.lor (map_perm a) PTE_V < 256) by (apply lor_V_range, Haw). split_and!.
  - rewrite (user_page_view _ _ _ _ _ _ v Hi Hu), Ham. done.
  - rewrite (user_page_view _ _ _ _ _ _ v Hi' Hu), lookup_insert_eq. cbn [fmap option_fmap option_map].
    rewrite PTE_new_ppn, PTE_new_flags by (done || lia). by rewrite Hpg.
  - intros w Hw Hne. eapply user_page_same; [exact Hi|exact Hi'|done|by rewrite lookup_insert_ne|exact Hst|done].
Qed.

Lemma demanded_seen s s' ms ms' lbl lbl' am am' D D' a v w : ms_inv (mach s) ms lbl am D → am !! v = None →
  demanded s s' ms ms' lbl lbl' am am' D D' a v → user_vpn w → seen s' ms' w = seen s ms w.
Proof.
  intros Hi Ham Hd Hw. destruct (demanded_view _ _ _ _ _ _ _ _ _ _ _ _ Hi Ham Hd) as (Hno & Hyes & Hother).
  destruct Hd as [(Ha & Hv & Hl) _ _ Hsame _ _ [Hfs _]]. unfold seen. destruct (decide (w = v)) as [->|Hne].
  - rewrite Hno, Hyes. by rewrite (lazy_at_unique _ _ _ _ a v _ Hi Ha Hv Hl).
  - rewrite (Hother w Hw Hne). destruct (user_page (mach s) ms w) as [[fl bytes]|]; [done|].
    pose proof (lazy_at_same ms ms' w Hsame) as He. rewrite Hfs.
    destruct (lazy_at ms' w), (lazy_at ms w); cbn in *; try done. by injection He as ->.
Qed.

(** [C17] Demand paging is transparent.  On a well-formed space with enough free
    frames, a demand fault is resolved exactly when the page lies in a lazy area
    and is not mapped; otherwise nothing changes and the handler reports a
    genuine fault.  A resolved page gets the area's permission and its backing
    contents: the bytes of the file at the page's offset (zeros behind them), or
    zeros for anonymous memory.  No page, touched or not, looks different to the
    program afterwards, no frame anyone else refers to changes, and the space
    stays well formed. *)
Theorem demand_fault_exact s ms lbl am D addr :
  let v := VirtAddr_floor (VirtAddr_from_usize addr) in
  ms_inv (mach s) ms lbl am D → full am D → (3 <= avail (falloc (mach s)))%nat →
  wp (handle_demand_fault ms addr) (λ '(ok, ms') s',
    (ok = true ↔ user_vpn v ∧ user_page (mach s) ms v = None ∧ is_Some (lazy_at ms v)) ∧
    (ok = false → s' = s ∧ ms' = ms) ∧
    (ok = true → ∃ a lbl' am' D', lazy_at ms v = Some a ∧ ms_inv (mach s') ms' lbl' am' D' ∧ full am' D' ∧
       user_page (mach s') ms' v = Some (Z.lor (map_perm a) PTE_V, backing a v (fs s)) ∧
       (∀ w, user_vpn w → w ≠ v → user_page (mach s') ms' w = user_page (mach s) ms w) ∧
       (∀ w, user_vpn w → seen s' ms' w = seen s ms w) ∧
       (∀ q, (0 < ext q)%nat → pm_page (mem (mach s')) q = pm_page (mem (mach s)) q) ∧
       fs s' = fs s ∧ page_cache s' = page_cache s)) s.
Proof.
  intros v Hi Hfull Hav. eapply wp_handle_demand_fault; [exact Hi|done|done| |].
  - fold v. intros Hno. split_and!; [|done|done]. split; [done|]. intros (Hu & Hp & Hl).
    rewrite (user_page_view _ _ _ _ _ _ v Hi Hu) in Hp. destruct Hno as [[e He]|He]; [by rewrite He in Hp|].
    rewrite He in Hl. by destruct Hl.
  - fold v. intros s' ms' lbl' am' D' a Ham Hl Hd.
    destruct (demanded_view _ _ _ _ _ _ _ _ _ _ _ _ Hi Ham Hd) as (Hno & Hyes & Hother).
    pose proof (dm_area _ _ _ _ _ _ _ _ _ _ _ _ Hd) as (Ha & Hv & _).
    pose proof (in_area_user _ _ (areas_wf_elem _ a (mi_areas _ _ _ _ _ _ Hi) Ha) Hv) as Hu. split_and!; [|done|].
    { split; [|done]. intros _. split; [exact Hu|]. split; [exact Hno|by rewrite Hl]. }
    intros _. exists a, lbl', am', D'. split_and!; [done|apply Hd|apply Hd|done|done| | |apply Hd|apply Hd].
    + intros w Hw. by eapply demanded_seen.
    + intros q Hq. pose proof (mi_core _ _ _ _ _ _ Hi) as Hc. destruct (sp_owned _ _ _ _ _ _ Hc q) as [Ho Hlq].
      { rewrite (sp_arcs _ _ _ _ _ _ Hc). apply count_of_is_Some. lia. }
      by destruct (step_keep _ _ _ _ _ _ (dm_step _ _ _ _ _ _ _ _ _ _ _ _ Hd) q Logic.I Ho Hlq) as (_ & _ & ->).
Qed.

(** Adding an area whose pages come later. *)
Lemma ms_inv_push_lazy m ms lbl am D a : ms_inv m ms lbl am D → fresh_area ms a →
  ms_inv m (mkMemorySet (page_table ms) (areas ms ++ [a])) lbl am D.
Proof.
  intros Hi Hfresh. pose proof Hi as [Hc Hcov Hwf Hag Hin]. pose proof Hfresh as (Ha & Hfa & Hd). split; cbn [page_table areas]; [done|done| | |].
  - apply areas_wf_app. split_and!; [done|by split_and!|]. intros b c Hb ->%list_elem_of_singleton. by apply Hd.
  - intros b v [Hb| ->%list_elem_of_singleton]%elem_of_app Hv; [by apply Hag|].
    by destruct (fresh_free _ _ _ _ _ _ _ v Hi Hfresh Hv) as (_ & _ & -> & ->).
  - intros v (b & Hb & Hbv)%Hin. exists b. split; [set_solver|done].
Qed.
End demand.

(** ** Examples: a lazy file mapping at page 8 of the demo space *)

(** One file, whose contents are the state of the file system. *)
#[local] Instance one_file : FileOps (list Z) unit unit := {
  file_path _ := None;
  file_inode _ := None;
  inode_ptr _ := EmptyString;
  read_at_kernel _ off content := take 4096 (drop (Z.to_nat off) content);
  write_at _ _ data content := (Z.of_nat (length data), content);
}.

Definition lazy_demo : MemorySet unit :=
  insert_lazy_file_area demo.1 0x8000 0xA000 (Z.lor (Z.lor MP_R MP_W) MP_U) tt 4093
    (mkMmapMeta false true true false).
Definition lazy_state : fstate _ (FS:=list Z) := mkFstate demo.2 (replicate 4093 0 ++ [65; 66; 67]) ∅.

#[local] Abbreviation k_inv := (sfa_inv 100).
#[local] Abbreviation k_owned := (sfa_owned 100).

Lemma lazy_demo_inv : ∃ lbl am D,
  ms_inv (inv:=k_inv) (owned:=k_owned) (ext0 boot_machine) (mach lazy_state) lazy_demo lbl am D ∧ full am D.
Proof.
  destruct demo_life as [(lbl & am & D & Hi & _)]. exists lbl, am, D. split.
  - apply ms_inv_push_lazy; [exact Hi|]. split; [|split; [done|]].
    + by split.
    + intros b Hb v Hv Hw. vm_compute in Hb. apply list_elem_of_singleton in Hb. subst b.
      change (1 <= v < 4) in Hv. change (8 <= v < 10) in Hw. lia.
  - intros v Hv. destruct (mi_within _ _ _ _ _ _ Hi v Hv) as (a & Ha & Hav).
    vm_compute in Ha. apply list_elem_of_singleton in Ha. subst a.
    change (1 <= v < 4) in Hav. assert (user_vpn v) as Hu by (unfold user_vpn; lia).
    assert (v = 1 ∨ v = 2 ∨ v = 3) as [->|[->| ->]] by lia;
      rewrite <- (sp_view _ _ _ _ _ _ (mi_core _ _ _ _ _ _ Hi) _ Hu); vm_compute; by eexists.
Qed.

Lemma demand_fault_exact_witness :
  wp (handle_demand_fault lazy_demo 0x8123) (λ '(ok, ms') s', ok = true ∧
    user_page (mach s') ms' 8 = Some (23, {[0 := 65 + 66 * 256 + 67 * 65536]})) lazy_state.
Proof.
  destruct lazy_demo_inv as (lbl & am & D & Hi & Hf).
  eapply wp_mono; [apply (demand_fault_exact (ext0 boot_machine) lazy_state lazy_demo lbl am D 0x8123 Hi Hf); vm_compute; lia|].
  intros [ok ms'] s' (Hok & _ & Hdone). change (VirtAddr_floor (VirtAddr_from_usize 0x8123)) with 8 in *.
  assert (ok = true) as ->.
  { apply Hok. clear. split_and!; [unfold user_vpn; lia|by vm_compute|vm_compute; by eexists]. }
  split; [done|]. destruct Hdone as (a & _ & _ & _ & Hl & _ & _ & -> & _); [done|].
  clear -Hl. vm_compute in Hl. injection Hl as <-. by vm_compute.
Defined.
