(* ===== verification/UserCopy.v ===== *)
(** * Copying between the kernel and user memory (os/src/syscall/user_mem.rs)

    The copy routines of the system calls.  When a buffer is not accessible as it
    stands they resolve it page by page, as a fault would: pages of lazy areas
    are brought in, and pages shared copy-on-write are made private.  The space
    of the current process, [current_process().with_memory_set_mut], is passed
    explicitly; UserMem.v has the translations and the copy loops. *)

From stdpp Require Import base gmap list numbers list_numbers option fin_maps sets sorting strings.
From S2P Require Import Prelude Errno Address FrameAllocator Machine PageTable UserMem MapArea MemorySet Space.
From S2P Require Import AddressSpace Mmap SpaceLife Cow Fork Demand.

Inductive UserReadPolicy : Type := StrictChecked | DemandPaged.
Inductive UserWritePolicy : Type := DemandCowWithForkFallback | RelaxedReadableMapping.

Section copy.
Context {A : Type} {FA : FrameAllocator A} {FS F I : Type} {FO : FileOps FS F I}.
Implicit Types (ms : MemorySet F).

#[local] Abbreviation kstate := (fstate A (FS:=FS)).

(** [page_table.translate(vpn)] *)
Definition token_translate (token vpn : Z) : M kstate (option Z) :=
  let! s := m_get in m_ret (PageTable_translate (mem (mach s)) (PageTable_from_token token) vpn).

(** [va = next_page.max(va + 1)] *)
Definition next_va (va : Z) : Z := Z.max ((va / PAGE_SIZE +w 1) *w PAGE_SIZE) (va +w 1).

(** Bring the page in if it is missing; whether that is not needed or worked. *)
Definition resolve_missing (token va : Z) ms : M kstate (bool * MemorySet F) :=
  let vpn := VirtAddr_floor (VirtAddr_from_usize va) in
  let! pte := token_translate token vpn in
  if (match pte with Some e => negb (PageTableEntry_is_valid e) | None => true end)
  then handle_demand_fault ms va else m_ret (true, ms).

(** One page of [try_resolve_user_readable]. *)
Definition resolve_readable_page (token va : Z) ms : M kstate (bool * MemorySet F) :=
  let vpn := VirtAddr_floor (VirtAddr_from_usize va) in
  let! (ok, ms) := resolve_missing token va ms in
  if negb ok then m_ret (false, ms)
  else
    let! pte := token_translate token vpn in
    m_ret (match pte with
           | None => false
           | Some e =>
               let flags := PageTableEntry_flags e in
               negb (negb (PageTableEntry_is_valid e) || negb (contains flags PTE_U) || negb (contains flags PTE_R))
           end, ms).

(** One page of [try_resolve_user_cow_writable]. *)
Definition resolve_writable_page (token va : Z) ms : M kstate (bool * MemorySet F) :=
  let vpn := VirtAddr_floor (VirtAddr_from_usize va) in
  let! (ok, ms) := resolve_missing token va ms in
  if negb ok then m_ret (false, ms)
  else
    let! pte := token_translate token vpn in
    match pte with
    | None => m_ret (false, ms)
    | Some e =>
        let flags := PageTableEntry_flags e in
        if negb (PageTableEntry_is_valid e) || negb (contains flags PTE_U) then m_ret (false, ms)
        else
          let! (ok, ms) := if negb (contains flags PTE_W) then lift (handle_cow_fault ms va) else m_ret (true, ms) in
          if negb ok then m_ret (false, ms)
          else
            let! pte := token_translate token vpn in
            m_ret (match pte with
                   | None => false
                   | Some e =>
                       let flags := PageTableEntry_flags e in
                       negb (negb (PageTableEntry_is_valid e) || negb (contains flags PTE_U) || negb (contains flags PTE_W))
                   end, ms)
    end.

(** The loop over the pages of the buffer. *)
Fixpoint resolve_loop (page : Z → MemorySet F → M kstate (bool * MemorySet F)) (fuel : nat) (va end_ : Z) ms
    : M kstate (looped bool * MemorySet F) :=
  if va <? end_ then
    match fuel with
    | O => m_ret (OutOfFuel, ms)
    | S fuel =>
        let! (ok, ms) := page va ms in
        if negb ok then m_ret (Finished false, ms) else resolve_loop page fuel (next_va va) end_ ms
    end
  else m_ret (Finished true, ms).
Definition try_resolve (page : Z → MemorySet F → M kstate (bool * MemorySet F)) (ptr len : Z) ms
    : M kstate (looped bool * MemorySet F) :=
  if len =? 0 then m_ret (Finished true, ms)
  else
    match checked_add ptr len with
    | None => m_ret (Finished false, ms)
    | Some end_ => resolve_loop page (page_fuel len) ptr end_ ms
    end.
Definition try_resolve_user_readable (token ptr len : Z) ms : M kstate (looped bool * MemorySet F) :=
  try_resolve (resolve_readable_page token) ptr len ms.
Definition try_resolve_user_cow_writable (token ptr len : Z) ms : M kstate (looped bool * MemorySet F) :=
  try_resolve (resolve_writable_page token) ptr len ms.

(** Running a translation of UserMem.v on the current memory. *)
Definition on_mem {B} (f : pmem → looped (outcome B)) : M kstate (looped B) :=
  let! s := m_get in
  match f (mem (mach s)) with
  | OutOfFuel => m_ret OutOfFuel
  | Finished (Ret b) => m_ret (Finished b)
  | Finished Panic => m_panic
  end.
Definition looped_bind {X Y} (m : M kstate (looped X * MemorySet F)) (k : X → MemorySet F → M kstate (looped Y * MemorySet F))
    : M kstate (looped Y * MemorySet F) :=
  let! (r, ms) := m in
  match r with
  | OutOfFuel => m_ret (OutOfFuel, ms)
  | Finished x => k x ms
  end.
Definition with_ms {X} ms (m : M kstate (looped X)) : M kstate (looped X * MemorySet F) := let! r := m in m_ret (r, ms).
Definition done {X} (x : X) ms : M kstate (looped X * MemorySet F) := m_ret (Finished x, ms).

Definition checked_slices (token ptr len : Z) (w : bool) ms : M kstate (looped (option (list slice)) * MemorySet F) :=
  with_ms ms (on_mem (λ m, translated_byte_buffer_checked m token ptr len w)).
Definition unchecked_slices (token ptr len : Z) ms : M kstate (looped (option (list slice)) * MemorySet F) :=
  looped_bind (with_ms ms (on_mem (λ m, translated_byte_buffer (page_fuel len) m token ptr len))) (λ sls, done (Some sls)).
Definition read_mapped (token ptr len : Z) ms : M kstate (looped bool * MemorySet F) :=
  with_ms ms (let! s := m_get in m_ret (is_user_read_mapped (mem (mach s)) token ptr len)).

Definition translated_user_read_buffer (policy : UserReadPolicy) (token ptr len : Z) ms
    : M kstate (looped (option (list slice)) * MemorySet F) :=
  if len =? 0 then done (Some []) ms
  else
    match policy with
    | StrictChecked => checked_slices token ptr len false ms
    | DemandPaged =>
        looped_bind (checked_slices token ptr len false ms) (λ r ms,
        match r with
        | Some buffers => done (Some buffers) ms
        | None =>
            looped_bind (try_resolve_user_readable token ptr len ms) (λ ok ms,
            if ok : bool then checked_slices token ptr len false ms else done None ms)
        end)
    end.

(** [named_fork]: the name of the process starts with "fork". *)
Definition legacy_fork_write_fallback (named_fork : bool) (token ptr len : Z) ms
    : M kstate (looped (option (list slice)) * MemorySet F) :=
  if negb named_fork then done None ms
  else
    looped_bind (read_mapped token ptr len ms) (λ mapped ms,
    if negb mapped then done None ms
    else
      looped_bind (checked_slices token ptr len false ms) (λ r ms,
      match r with
      | None => done None ms
      | Some _ => unchecked_slices token ptr len ms
      end)).

Definition translated_user_write_buffer (policy : UserWritePolicy) (named_fork : bool) (token ptr len : Z) ms
    : M kstate (looped (option (list slice)) * MemorySet F) :=
  if len =? 0 then done (Some []) ms
  else
    looped_bind (checked_slices token ptr len true ms) (λ r ms,
    match r with
    | Some buffers => done (Some buffers) ms
    | None =>
        match policy with
        | DemandCowWithForkFallback =>
            looped_bind (try_resolve_user_cow_writable token ptr len ms) (λ ok ms,
            looped_bind (if ok : bool then checked_slices token ptr len true ms else done None ms) (λ r ms,
            match r with
            | Some buffers => done (Some buffers) ms
            | None => legacy_fork_write_fallback named_fork token ptr len ms
            end))
        | RelaxedReadableMapping =>
            looped_bind (read_mapped token ptr len ms) (λ mapped ms,
            if mapped : bool then unchecked_slices token ptr len ms else done None ms)
        end
    end).

(** The copy loop over the slices, [copy_to_slices], on the machine. *)
Definition write_slices (slices : list slice) (data : list Z) ms : M kstate (looped (result unit Z) * MemorySet F) :=
  let! s := m_get in
  match copy_to_slices (mem (mach s)) slices data 0 with
  | Panic => m_panic
  | Ret (m, offset) =>
      lift (m_modify (set_mem (λ _, m))) ;;;
      done (if offset =? Z.of_nat (length data) then Ok tt else Err (errno EFAULT)) ms
  end.
Definition read_slices (slices : list slice) (n : nat) ms : M kstate (looped (result (list Z) Z) * MemorySet F) :=
  let! s := m_get in
  match copy_from_slices (mem (mach s)) slices (replicate n 0) 0 with
  | Panic => m_panic
  | Ret (bytes, offset) => done (if offset =? Z.of_nat n then Ok bytes else Err (errno EFAULT)) ms
  end.

Definition copy_to_user (policy : UserWritePolicy) (named_fork : bool) (token dst : Z) (data : list Z) ms
    : M kstate (looped (result unit Z) * MemorySet F) :=
  if bool_decide (data = []) then done (Ok tt) ms
  else
    looped_bind (translated_user_write_buffer policy named_fork token dst (Z.of_nat (length data)) ms) (λ r ms,
    match r with
    | None => done (Err (errno EFAULT)) ms
    | Some slices => write_slices slices data ms
    end).

(** The callback of [for_each_user_write_slice] runs on memory and its own
    captured state [T]. *)
Definition on_pmem {T B} (p : M (pmem * T) B) (t : T) : M kstate (B * T) :=
  let! s := m_get in
  match p (mem (mach s), t) with
  | Panic => m_panic
  | Ret (b, (m, t)) => lift (m_modify (set_mem (λ _, m))) ;;; m_ret (b, t)
  end.
Definition range_mapped (token ptr len : Z) (w : bool) ms : M kstate (looped bool * MemorySet F) :=
  with_ms ms (let! s := m_get in m_ret (user_write_range_mapped (mem (mach s)) token ptr len w)).
Definition walk_slices {T} (f : slice → M (pmem * T) (result Z Z)) (t : T) (token ptr len : Z) (w : bool) ms
    : M kstate (looped (result Z Z * T) * MemorySet F) :=
  let! (r, t) := on_pmem (walk_user_write_slices f token ptr len w) t in
  m_ret (match r with OutOfFuel => OutOfFuel | Finished r => Finished (r, t) end, ms).

Definition for_each_user_write_slice {T} (policy : UserWritePolicy) (named_fork : bool) (token ptr len : Z)
    (f : slice → M (pmem * T) (result Z Z)) (t : T) ms : M kstate (looped (result Z Z * T) * MemorySet F) :=
  if len =? 0 then done (Ok 0, t) ms
  else
    looped_bind (range_mapped token ptr len true ms) (λ mapped ms,
    if mapped : bool then walk_slices f t token ptr len true ms
    else
      match policy with
      | DemandCowWithForkFallback =>
          looped_bind (try_resolve_user_cow_writable token ptr len ms) (λ ok ms,
          looped_bind (if ok : bool then range_mapped token ptr len true ms else done false ms) (λ mapped ms,
          if mapped : bool then walk_slices f t token ptr len true ms
          else
            looped_bind (legacy_fork_write_fallback named_fork token ptr len ms) (λ r ms,
            match r with
            | None => done (Err (errno EFAULT), t) ms
            | Some slices =>
                let! (r, t) := on_pmem (run_write_callback f slices) t in
                done (r, t) ms
            end)))
      | RelaxedReadableMapping =>
          looped_bind (range_mapped token ptr len false ms) (λ mapped ms,
          if mapped : bool then walk_slices f t token ptr len false ms
          else done (Err (errno EFAULT), t) ms)
      end).

Definition copy_to_user_inline (policy : UserWritePolicy) (named_fork : bool) (token dst : Z) (data : list Z) ms
    : M kstate (looped (result unit Z) * MemorySet F) :=
  if bool_decide (data = []) then done (Ok tt) ms
  else if dst =? 0 then done (Err (errno EFAULT)) ms
  else
    looped_bind (for_each_user_write_slice policy named_fork token dst (Z.of_nat (length data)) (inline_copy data) 0 ms)
      (λ '(r, offset) ms,
      done (match r with
            | Err e => Err e
            | Ok _ => if offset =? Z.of_nat (length data) then Ok tt else Err (errno EFAULT)
            end) ms).

(** [write_value_to_user::<T>] of a value with bytes [data]. *)
Definition write_value_to_user (policy : UserWritePolicy) (named_fork : bool) (token dst : Z) (data : list Z) ms
    : M kstate (looped (result unit Z) * MemorySet F) :=
  if dst =? 0 then done (Err (errno EFAULT)) ms
  else copy_to_user_inline policy named_fork token dst data ms.

(** [copy_from_user] into a buffer of [n] bytes; the bytes are returned. *)
Definition copy_from_user (policy : UserReadPolicy) (token src : Z) (n : nat) ms
    : M kstate (looped (result (list Z) Z) * MemorySet F) :=
  if decide (n = 0%nat) then done (Ok []) ms
  else
    looped_bind (translated_user_read_buffer policy token src (Z.of_nat n) ms) (λ r ms,
    match r with
    | None => done (Err (errno EFAULT)) ms
    | Some slices => read_slices slices n ms
    end).

(** [read_from_user::<T>], as the [size_of::<T>()] bytes of the value. *)
Definition read_from_user (policy : UserReadPolicy) (token src : Z) (n : nat) ms
    : M kstate (looped (result (list Z) Z) * MemorySet F) :=
  if src =? 0 then done (Err (errno EFAULT)) ms else copy_from_user policy token src n ms.

Definition ensure_user_readable (policy : UserReadPolicy) (token ptr len : Z) ms : M kstate (looped bool * MemorySet F) :=
  if len =? 0 then done true ms
  else looped_bind (translated_user_read_buffer policy token ptr len ms) (λ r ms, done (bool_decide (is_Some r)) ms).
Definition ensure_user_writable (policy : UserWritePolicy) (named_fork : bool) (token ptr len : Z) ms
    : M kstate (looped bool * MemorySet F) :=
  if len =? 0 then done true ms
  else looped_bind (translated_user_write_buffer policy named_fork token ptr len ms) (λ r ms, done (bool_decide (is_Some r)) ms).
End copy.
