(* ===== verification/UserCopySafe.v ===== *)
(** * What the copy routines give a system call

    On a well-formed space, a copy from or to user memory resolves lazy and
    copy-on-write pages on the way and is, for the program, a plain read or
    write of its bytes. *)

From stdpp Require Import base gmap list numbers list_numbers option fin_maps sets sorting strings.
From S2P Require Import Prelude Errno Address FrameAllocator Machine PageTable UserMem MapArea MemorySet Space.
From S2P Require Import AddressSpace Mmap SpaceLife Cow Fork Demand UserCopy.

Lemma contains_lor_W fl i : 0 <= i → i ≠ 2 → contains (Z.lor fl PTE_W) (Z.shiftl 1 i) = contains fl (Z.shiftl 1 i).
Proof.
  intros Hi Hne. rewrite !contains_bit, Z.lor_spec by done. change PTE_W with (2 ^ 2).
  rewrite Z.pow2_bits_false by lia. by rewrite orb_false_r.
Qed.

Lemma contains_W_lor fl : contains (Z.lor fl PTE_W) PTE_W = true.
Proof.
  change PTE_W with (Z.shiftl 1 2). rewrite contains_bit, Z.lor_spec by done.
  change (Z.shiftl 1 2) with (2 ^ 2). rewrite Z.pow2_bits_true by lia. by rewrite orb_true_r.
Qed.

Lemma readable_flag e : PageTableEntry_readable e = contains (PageTableEntry_flags e) PTE_R.
Proof.
  rewrite readable_bit. change PTE_R with (Z.shiftl 1 1). rewrite contains_bit by lia.
  by rewrite PTE_flags_bit by lia.
Qed.

Lemma page_of_low va : 0 <= va < 2 ^ 38 → page_of va = va / PAGE_SIZE.
Proof.
  intros Hva. rewrite page_of_div. apply Z.mod_small.
  unfold PAGE_SIZE. split; [apply Z.div_pos|apply Z.div_lt_upper_bound]; lia.
Qed.

Lemma user_vpn_low va : 0 <= va < 2 ^ 38 → user_vpn (va / PAGE_SIZE).
Proof. intros Hva. rewrite <- page_of_low by done. by apply page_of_user. Qed.

Lemma Forall2_and_l {X Y} (P : X → Prop) (R : X → Y → Prop) l k :
  Forall P l → Forall2 R l k → Forall2 (λ x y, P x ∧ R x y) l k.
Proof. intros Hp H. induction H; inversion Hp; constructor; auto. Qed.

Section view.
Context {A : Type} {FA : FrameAllocator A} {inv : A → Prop} {owned : A → Z → Prop} {avail : A → nat}.
Context `{HFS : !FrameAllocatorSpec A inv owned avail}.
Context {FS F I : Type} {FO : FileOps FS F I} (ext : Z → nat).
Implicit Types (s : fstate A (FS:=FS)) (lbl : gmap Z node) (am D : gmap Z Z) (ms : MemorySet F).

#[local] Abbreviation sp_step := (sp_step (owned:=owned) (avail:=avail)).
#[local] Abbreviation ms_inv := (ms_inv (inv:=inv) (owned:=owned) ext (F:=F)).

(** The flags a page has, or would get from a fault. *)
Definition page_flags s ms (v : Z) : option Z :=
  match user_page (mach s) ms v with
  | Some (fl, _) => Some fl
  | None => (λ a, Z.lor (map_perm a) PTE_V) <$> lazy_at ms v
  end.
Definition area_writes ms (v : Z) : bool :=
  existsb (λ a, area_contains a v && contains (map_perm a) MP_W) (areas ms).

(** May the program read or write the page, if need be after a fault? *)
Definition may_read s ms (v : Z) : bool :=
  match page_flags s ms v with Some fl => contains fl PTE_U && contains fl PTE_R | None => false end.
Definition may_write s ms (v : Z) : bool :=
  match page_flags s ms v with
  | Some fl => contains fl PTE_U && (contains fl PTE_W || area_writes ms v)
  | None => false
  end.

(** The byte the program sees at an address. *)
Definition page_byte (pg : gmap Z Z) (k : Z) : Z := byte_of_word (default 0 (pg !! (k / 8))) (k mod 8).
Definition user_byte s ms (va : Z) : option Z :=
  (λ pg, page_byte pg (va mod PAGE_SIZE)) <$> seen s ms (va / PAGE_SIZE).
Definition user_read s ms (va : Z) : option Z :=
  if may_read s ms (va / PAGE_SIZE) then user_byte s ms va else None.

(** A frame behind a page the program can store to is held once. *)
Definition sole am D : Prop := ∀ v e, am !! v = Some e → contains (PageTableEntry_flags e) PTE_W = true →
  (refs D (PageTableEntry_ppn e) + ext (PageTableEntry_ppn e) = 1)%nat.

Lemma area_writes_spec ms v :
  area_writes ms v = true ↔ ∃ a, a ∈ areas ms ∧ in_area a v ∧ contains (map_perm a) MP_W = true.
Proof.
  unfold area_writes. rewrite existsb_exists. unfold area_contains, in_area.
  setoid_rewrite andb_true_iff. setoid_rewrite andb_true_iff. setoid_rewrite Z.leb_le. setoid_rewrite Z.ltb_lt.
  setoid_rewrite list_elem_of_In. naive_solver.
Qed.

#[local] Abbreviation same := (Forall2 (λ a b : MapArea F, ∃ fr, b = set_frames fr a)).

Lemma same_trans (l1 l2 l3 : list (MapArea F)) : same l1 l2 → same l2 l3 → same l1 l3.
Proof.
  intros H. revert l3. induction H as [|a b l1 l2 [fr ->] _ IH]; intros l3 H3; inversion H3 as [|? c ? ? [fr' ->]]; subst;
    constructor; [by exists fr'|by apply IH].
Qed.

Lemma area_writes_same ms ms' v : same (areas ms) (areas ms') → area_writes ms' v = area_writes ms v.
Proof. unfold area_writes. induction 1 as [|a b l l' [fr ->] _ IH]; [done|]. cbn [existsb]. by rewrite IH. Qed.

(** Everything between the start of a copy, [s0] and [ms0], and a point on the
    way: pages may have been brought in or made private. *)
Record resolved (P0 : Prop) s0 ms0 s ms (k : nat) lbl am D : Prop := {
  rv_inv : ms_inv (mach s) ms lbl am D;
  rv_full : full am D;
  rv_avail : (k <= avail (falloc (mach s)))%nat;
  rv_root : root_ppn (page_table ms) = root_ppn (page_table ms0);
  rv_areas : same (areas ms0) (areas ms);
  rv_seen v : user_vpn v → seen s ms v = seen s0 ms0 v;
  rv_flags v : user_vpn v → page_flags s ms v = page_flags s0 ms0 v ∨
    area_writes ms0 v = true ∧ page_flags s ms v = (λ fl, Z.lor fl PTE_W) <$> page_flags s0 ms0 v;
  rv_ext q : (0 < ext q)%nat → pm_page (mem (mach s)) q = pm_page (mem (mach s0)) q;
  rv_fs : fs s = fs s0 ∧ page_cache s = page_cache s0;
  rv_sole : P0 → sole am D;
}.

Lemma resolved_refl (P0 : Prop) s ms k lbl am D : ms_inv (mach s) ms lbl am D → full am D →
  (k <= avail (falloc (mach s)))%nat → (P0 → sole am D) → resolved P0 s ms s ms k lbl am D.
Proof. intros. split; [done|done|done|done|apply same_areas_refl|done|by left|done|done|done]. Qed.

Lemma resolved_may P0 s0 ms0 s ms k lbl am D v : resolved P0 s0 ms0 s ms k lbl am D → user_vpn v →
  may_read s ms v = may_read s0 ms0 v ∧ may_write s ms v = may_write s0 ms0 v.
Proof.
  intros Hr Hv. unfold may_read, may_write. rewrite (area_writes_same _ _ v (rv_areas _ _ _ _ _ _ _ _ _ Hr)).
  destruct (rv_flags _ _ _ _ _ _ _ _ _ Hr v Hv) as [->|[Hw ->]]; [done|].
  destruct (page_flags s0 ms0 v) as [fl|]; [|done]. cbn [fmap option_fmap option_map]. rewrite contains_W_lor, Hw, !orb_true_r.
  unfold PTE_U, PTE_R. by rewrite !contains_lor_W by lia.
Qed.

(** The root of the table stays where it is. *)
Lemma root_same s s' ms ms' lbl lbl' am am' D D' K b : ms_inv (mach s) ms lbl am D →
  ms_inv (mach s') ms' lbl' am' D' → sp_step K b (mach s) (mach s') lbl lbl' →
  root_ppn (page_table ms') = root_ppn (page_table ms).
Proof.
  intros Hi Hi' Hst. pose proof (ok_wf _ _ _ (sp_pt _ _ _ _ _ _ (mi_core _ _ _ _ _ _ Hi))) as Hw.
  pose proof (ok_wf _ _ _ (sp_pt _ _ _ _ _ _ (mi_core _ _ _ _ _ _ Hi'))) as Hw'. symmetry.
  apply (wf_root _ _ _ Hw'). eapply lookup_weaken; [|apply Hst]. by apply (root_label _ _ _ Hw).
Qed.

Lemma root_range s ms lbl am D : ms_inv (mach s) ms lbl am D → 0 <= root_ppn (page_table ms) < 2 ^ 44.
Proof.
  intros Hi. pose proof (sp_pt _ _ _ _ _ _ (mi_core _ _ _ _ _ _ Hi)) as Hok.
  assert (owned (falloc (mach s)) (root_ppn (page_table ms))) as Ho.
  { apply (ok_owned _ _ _ Hok). by rewrite (root_label _ _ _ (ok_wf _ _ _ Hok)). }
  pose proof (spec_owned_range _ _ (ok_inv _ _ _ Hok) Ho). lia.
Qed.

Lemma ext_kept s s' ms lbl lbl' am D K b q : ms_inv (mach s) ms lbl am D → (∀ p, K p) →
  sp_step K b (mach s) (mach s') lbl lbl' → (0 < ext q)%nat → pm_page (mem (mach s')) q = pm_page (mem (mach s)) q.
Proof.
  intros Hi HK Hst Hq. pose proof (mi_core _ _ _ _ _ _ Hi) as Hc. destruct (sp_owned _ _ _ _ _ _ Hc q) as [Ho Hl].
  { rewrite (sp_arcs _ _ _ _ _ _ Hc). apply count_of_is_Some. lia. }
  by destruct (step_keep _ _ _ _ _ _ Hst q (HK q) Ho Hl) as (_ & _ & ->).
Qed.

Lemma lazy_at_rel ms ms' v : same (areas ms) (areas ms') →
  option_Forall2 (λ a b, ∃ fr, b = set_frames fr a) (lazy_at ms v) (lazy_at ms' v).
Proof.
  unfold lazy_at. induction 1 as [|a b l l' [fr ->] Hl IH]; [constructor|]. cbn [list_find].
  change (lazy (set_frames fr a) && area_contains (set_frames fr a) v) with (lazy a && area_contains a v).
  case_decide; [constructor; by exists fr|]. rewrite <- !option_fmap_compose.
  destruct (list_find _ l) as [[]|], (list_find _ l') as [[]|]; inversion IH; by constructor.
Qed.

(** A fresh frame is held by no page. *)
Lemma fresh_unheld s ms lbl am D p : ms_inv (mach s) ms lbl am D → ¬ owned (falloc (mach s)) p →
  (refs D p + ext p = 0)%nat.
Proof.
  intros Hi Ho. pose proof (mi_core _ _ _ _ _ _ Hi) as Hc.
  destruct (decide (refs D p + ext p = 0)%nat) as [|Hne]; [done|]. exfalso. apply Ho.
  apply (sp_owned _ _ _ _ _ _ Hc). rewrite (sp_arcs _ _ _ _ _ _ Hc). apply count_of_is_Some. lia.
Qed.

Lemma sole_demand s ms lbl am D v p fl : ms_inv (mach s) ms lbl am D → full am D → am !! v = None →
  ¬ owned (falloc (mach s)) p → 0 <= p < FRAME_END → 0 <= fl < 256 → sole am D →
  sole (<[v := PageTableEntry_new p fl]> am) (<[v := p]> D).
Proof.
  intros Hi Hf Ham Ho Hp Hfl Hs w e. pose proof (fresh_unheld _ _ _ _ _ _ Hi Ho) as Hz.
  assert (D !! v = None) as HD by (apply eq_None_not_Some; intros H%Hf; rewrite Ham in H; by destruct H).
  rewrite refs_insert by done. unfold hit. rewrite lookup_insert_Some. intros [[<- <-]|[Hne He]] Hw.
  - rewrite PTE_new_ppn by (done || lia). rewrite decide_True by done. lia.
  - pose proof (Hs w e He Hw) as H1. case_decide as Hq; [rewrite Hq in H1; lia|lia].
Qed.

Lemma sole_cow s s' ms ms' lbl lbl' am am' D D' v : ms_inv (mach s) ms lbl am D →
  cow_result (inv:=inv) (owned:=owned) (avail:=avail) ext (mach s) (mach s') ms ms' lbl lbl' am am' D D' v →
  (∀ a, a ∈ areas ms → kind a ≠ Shared) → sole am D → sole am' D'.
Proof.
  intros Hi Hr Hk Hs w e' He' Hw. pose proof (cr_inv _ _ _ _ _ _ _ _ _ _ _ _ Hr) as Hi'.
  pose proof (mi_covered _ _ _ _ _ _ Hi' w e' He') as HDw'. destruct (decide (w = v)) as [->|Hne].
  - destruct (cr_entry _ _ _ _ _ _ _ _ _ _ _ _ Hr) as (e & _ & He & _).
    destruct (mi_within _ _ _ _ _ _ Hi v) as (a & Ha & Hv); [by rewrite (mi_covered _ _ _ _ _ _ Hi v e He)|].
    destruct (cr_sole _ _ _ _ _ _ _ _ _ _ _ _ Hr a Ha Hv (Hk a Ha)) as (p & Hp & Hsole).
    rewrite HDw' in Hp. by injection Hp as ->.
  - rewrite (cr_other _ _ _ _ _ _ _ _ _ _ _ _ Hr w Hne) in He'. pose proof (Hs w e' He' Hw) as H1.
    set (q := PageTableEntry_ppn e') in *. pose proof (mi_covered _ _ _ _ _ _ Hi w e' He') as HDw. fold q in HDw.
    destruct (cr_held _ _ _ _ _ _ _ _ _ _ _ _ Hr) as [->|(p & -> & Ho)]; [done|].
    pose proof (fresh_unheld _ _ _ _ _ _ Hi Ho) as Hz. assert (q ≠ p) as Hqp by (intros ->; lia).
    rewrite <- insert_delete_eq, refs_insert by apply lookup_delete_eq. unfold hit. rewrite decide_False by done.
    destruct (D !! v) as [q0|] eqn:HDv; [|by rewrite delete_id].
    pose proof (refs_delete D v q0 q HDv) as Hd. unfold hit in Hd. case_decide as Hq; [|lia]. exfalso.
    pose proof (refs_pos (delete v D) w q). rewrite lookup_delete_ne in H by done. specialize (H HDw). lia.
Qed.

Section steps.
Context (P0 : Prop) (s0 : fstate A (FS:=FS)) (ms0 : MemorySet F).
Context (HP0 : P0 → ∀ a, a ∈ areas ms0 → kind a ≠ Shared).
#[local] Abbreviation resolved := (resolved P0 s0 ms0).

Lemma resolved_demand s ms k lbl am D s' ms' lbl' am' D' a v :
  resolved s ms (3 + k) lbl am D → am !! v = None →
  demanded (inv:=inv) (owned:=owned) (avail:=avail) ext s s' ms ms' lbl lbl' am am' D D' a v →
  resolved s' ms' k lbl' am' D'.
Proof.
  intros Hr Ham Hd. pose proof (rv_inv _ _ _ _ _ _ _ _ _ Hr) as Hi.
  destruct (demanded_view _ _ _ _ _ _ _ _ _ _ _ _ _ Hi Ham Hd) as (Hno & Hyes & Hoth).
  pose proof (dm_step _ _ _ _ _ _ _ _ _ _ _ _ _ Hd) as Hst. pose proof (dm_same _ _ _ _ _ _ _ _ _ _ _ _ _ Hd) as Hsame.
  destruct (dm_area _ _ _ _ _ _ _ _ _ _ _ _ _ Hd) as (Ha & Hv & Hl).
  split; [apply Hd|apply Hd| | | | | | | |].
  - pose proof (step_avail _ _ _ _ _ _ Hst). pose proof (rv_avail _ _ _ _ _ _ _ _ _ Hr). lia.
  - rewrite <- (rv_root _ _ _ _ _ _ _ _ _ Hr). eapply root_same; [exact Hi|apply Hd|exact Hst].
  - eapply same_trans; [apply Hr|exact Hsame].
  - intros w Hw. rewrite <- (rv_seen _ _ _ _ _ _ _ _ _ Hr w Hw). by eapply demanded_seen.
  - intros w Hw. assert (page_flags s' ms' w = page_flags s ms w) as ->; [|by apply Hr].
    unfold page_flags. destruct (decide (w = v)) as [->|Hne].
    + rewrite Hno, Hyes. by rewrite (lazy_at_unique _ _ _ _ _ a v _ Hi Ha Hv Hl).
    + rewrite (Hoth w Hw Hne). destruct (user_page (mach s) ms w) as [[]|]; [done|].
      by destruct (lazy_at_rel ms ms' w Hsame) as [? ? [fr ->]|].
  - intros q Hq. rewrite <- (rv_ext _ _ _ _ _ _ _ _ _ Hr q Hq). eapply ext_kept; [exact Hi| |exact Hst|done]; done.
  - destruct (dm_fs _ _ _ _ _ _ _ _ _ _ _ _ _ Hd) as [-> ->]. apply Hr.
  - intros HP. destruct (dm_entry _ _ _ _ _ _ _ _ _ _ _ _ _ Hd) as (p & -> & -> & Ho & Hp & _).
    eapply sole_demand; [exact Hi|apply Hr|done|done|done| |by apply Hr].
    apply lor_V_range. by apply (areas_wf_elem _ a (mi_areas _ _ _ _ _ _ Hi) Ha).
Qed.

Lemma resolved_cow s ms k lbl am D m' ms' lbl' am' D' v :
  resolved s ms (3 + k) lbl am D → needs_cow (mach s) ms v →
  cow_result (inv:=inv) (owned:=owned) (avail:=avail) ext (mach s) m' ms ms' lbl lbl' am am' D D' v →
  let s' := mkFstate m' (fs s) (page_cache s) in
  resolved s' ms' k lbl' am' D' ∧
  (∀ w, user_vpn w → w ≠ v → user_page (mach s') ms' w = user_page (mach s) ms w) ∧
  (∃ fl bytes, user_page (mach s) ms v = Some (fl, bytes) ∧ user_page (mach s') ms' v = Some (Z.lor fl PTE_W, bytes)).
Proof.
  intros Hr Hneed Hc s'. pose proof (rv_inv _ _ _ _ _ _ _ _ _ Hr) as Hi.
  pose proof (cr_inv _ _ _ _ _ _ _ _ _ _ _ _ Hc) as Hi'. pose proof (cr_step _ _ _ _ _ _ _ _ _ _ _ _ Hc) as Hst.
  pose proof (cr_areas _ _ _ _ _ _ _ _ _ _ _ _ Hc) as Hsame.
  destruct (cr_entry _ _ _ _ _ _ _ _ _ _ _ _ Hc) as (e & e' & He & He' & Hfl & Hpg).
  assert (user_vpn v) as Hu by (apply (sp_dom _ _ _ _ _ _ (mi_core _ _ _ _ _ _ Hi)); by rewrite He).
  assert (∀ w, user_vpn w → w ≠ v → user_page (mach s') ms' w = user_page (mach s) ms w) as Hoth.
  { intros w Hw Hne. eapply user_page_same; [exact Hi|exact Hi'|done|by apply Hc|exact Hst|done]. }
  pose proof (user_page_view _ _ _ _ _ _ v Hi Hu) as Hv. rewrite He in Hv. cbn [fmap option_fmap option_map] in Hv.
  assert (user_page (mach s') ms' v = Some (Z.lor (PageTableEntry_flags e) PTE_W, pm_page (mem (mach s)) (PageTableEntry_ppn e))) as Hv'.
  { change (mach s') with m'. rewrite (user_page_view _ _ _ _ _ _ v Hi' Hu), He'. cbn [fmap option_fmap option_map]. by rewrite Hfl, Hpg. }
  split; [|split; [done|by exists (PageTableEntry_flags e), (pm_page (mem (mach s)) (PageTableEntry_ppn e))]].
  split; [done| | | | | | | |apply Hr|].
  - intros w [p Hp]. destruct (decide (w = v)) as [->|Hne]; [by rewrite He'|].
    rewrite (cr_other _ _ _ _ _ _ _ _ _ _ _ _ Hc w Hne). apply (rv_full _ _ _ _ _ _ _ _ _ Hr).
    destruct (cr_held _ _ _ _ _ _ _ _ _ _ _ _ Hc) as [->|(q & -> & _)]; [by rewrite Hp|].
    rewrite lookup_insert_ne in Hp by done. by rewrite Hp.
  - pose proof (step_avail _ _ _ _ _ _ Hst). pose proof (rv_avail _ _ _ _ _ _ _ _ _ Hr). cbn. lia.
  - rewrite <- (rv_root _ _ _ _ _ _ _ _ _ Hr). eapply (root_same s s'); [exact Hi|exact Hi'|exact Hst].
  - eapply same_trans; [apply Hr|exact Hsame].
  - intros w Hw. rewrite <- (rv_seen _ _ _ _ _ _ _ _ _ Hr w Hw). unfold seen.
    destruct (decide (w = v)) as [->|Hne]; [by rewrite Hv', Hv|]. rewrite (Hoth w Hw Hne).
    destruct (user_page (mach s) ms w) as [[]|]; [done|].
    by destruct (lazy_at_rel ms ms' w Hsame) as [? ? [fr ->]|].
  - intros w Hw. destruct (decide (w = v)) as [->|Hne].
    + right. destruct Hneed as (a & fl & bytes & Ha & Hav & HaW & Hp & HflW). rewrite Hv in Hp. injection Hp as <- <-.
      assert (area_writes ms0 v = true) as Hw0.
      { rewrite <- (area_writes_same _ _ v (rv_areas _ _ _ _ _ _ _ _ _ Hr)). apply area_writes_spec. eauto. }
      split; [done|]. assert (page_flags s' ms' v = (λ fl, Z.lor fl PTE_W) <$> page_flags s ms v) as ->.
      { unfold page_flags. by rewrite Hv', Hv. }
      destruct (rv_flags _ _ _ _ _ _ _ _ _ Hr v Hw) as [->|[_ ->]]; [done|].
      destruct (page_flags s0 ms0 v); [|done]. cbn. by rewrite <- Z.lor_assoc.
    + assert (page_flags s' ms' w = page_flags s ms w) as ->; [|by apply Hr]. unfold page_flags.
      rewrite (Hoth w Hw Hne). destruct (user_page (mach s) ms w) as [[]|]; [done|].
      by destruct (lazy_at_rel ms ms' w Hsame) as [? ? [fr ->]|].
  - intros q Hq. rewrite <- (rv_ext _ _ _ _ _ _ _ _ _ Hr q Hq). eapply (ext_kept s s'); [exact Hi| |exact Hst|done]; done.
  - intros HP. eapply (sole_cow s s'); [exact Hi|exact Hc| |by apply Hr].
    intros b Hb. pose proof (rv_areas _ _ _ _ _ _ _ _ _ Hr) as Hall.
    apply list_elem_of_lookup in Hb as [i Hb]. eapply Forall2_lookup_r in Hall as (b0 & Hb0 & fr & ->); [|exact Hb].
    apply (HP0 HP b0). by eapply list_elem_of_lookup_2.
Qed.

Lemma resolved_weaken s ms k k' lbl am D : (k' <= k)%nat → resolved s ms k lbl am D → resolved s ms k' lbl am D.
Proof. intros Hk []. split; try done. lia. Qed.

(** The page is mapped for the user, with the flag [x]. *)
Definition page_done (x : Z) s ms (v : Z) : Prop := ∃ fl bytes,
  user_page (mach s) ms v = Some (fl, bytes) ∧ contains fl PTE_U = true ∧ contains fl x = true.

Definition others (v : Z) s ms s' ms' : Prop :=
  ∀ w, user_vpn w → w ≠ v → user_page (mach s') ms' w = user_page (mach s) ms w.

Context (token : Z) (Htok : token = MemorySet_token ms0) (Hroot : 0 <= root_ppn (page_table ms0) < 2 ^ 44).

Lemma token_view s ms k lbl am D v : resolved s ms k lbl am D → user_vpn v →
  PageTable_translate (mem (mach s)) (PageTable_from_token token) v = am !! v.
Proof.
  intros Hr Hv. rewrite <- (sp_view _ _ _ _ _ _ (mi_core _ _ _ _ _ _ (rv_inv _ _ _ _ _ _ _ _ _ Hr)) v Hv).
  unfold PageTable_translate, PageTable_find_leaf_pte. rewrite (rv_root _ _ _ _ _ _ _ _ _ Hr), Htok.
  unfold MemorySet_token. by rewrite from_token_root.
Qed.

Lemma wp_token_translate s ms k lbl am D v (Q : option Z → fstate A → Prop) :
  resolved s ms k lbl am D → user_vpn v → Q (am !! v) s → wp (token_translate token v) Q s.
Proof.
  intros Hr Hv HQ. unfold token_translate. apply wp_bind, wp_get, wp_ret. by rewrite (token_view _ _ _ _ _ _ v Hr).
Qed.

Lemma entry_valid s ms k lbl am D v e : resolved s ms k lbl am D → user_vpn v → am !! v = Some e →
  PageTableEntry_is_valid e = true.
Proof. intros Hr Hv He. eapply translate_is_valid. rewrite (token_view _ _ _ _ _ _ v Hr Hv). exact He. Qed.

Lemma entry_page s ms k lbl am D v e : resolved s ms k lbl am D → user_vpn v → am !! v = Some e →
  user_page (mach s) ms v = Some (PageTableEntry_flags e, pm_page (mem (mach s)) (PageTableEntry_ppn e)).
Proof. intros Hr Hv He. by rewrite (user_page_view _ _ _ _ _ _ v (rv_inv _ _ _ _ _ _ _ _ _ Hr) Hv), He. Qed.

Lemma entry_flags s ms k lbl am D v e : resolved s ms k lbl am D → user_vpn v → am !! v = Some e →
  page_flags s ms v = Some (PageTableEntry_flags e).
Proof. intros Hr Hv He. unfold page_flags. by rewrite (entry_page _ _ _ _ _ _ _ _ Hr Hv He). Qed.

Lemma wp_resolve_missing s ms k lbl am D va (Q : bool * MemorySet F → fstate A → Prop) :
  let v := page_of va in
  resolved s ms (3 + k) lbl am D → user_vpn v →
  (page_flags s0 ms0 v = None → Q (false, ms) s) →
  (∀ s' ms' lbl' am' D' e, resolved s' ms' k lbl' am' D' → others v s ms s' ms' → am' !! v = Some e → Q (true, ms') s') →
  wp (resolve_missing token va ms) Q s.
Proof.
  intros v Hr Hv HQf HQt. unfold resolve_missing. fold (page_of va). fold v.
  pose proof (rv_inv _ _ _ _ _ _ _ _ _ Hr) as Hi. apply wp_bind.
  eapply wp_token_translate; [exact Hr|done|]. destruct (am !! v) as [e|] eqn:He.
  - rewrite (entry_valid _ _ _ _ _ _ _ _ Hr Hv He). cbn [negb]. apply wp_ret.
    eapply HQt; [eapply resolved_weaken; [|exact Hr]; lia|by intros|exact He].
  - eapply wp_handle_demand_fault; [exact Hi|apply Hr| | |].
    + pose proof (rv_avail _ _ _ _ _ _ _ _ _ Hr). lia.
    + fold (page_of va). fold v. rewrite He. intros [[]|Hl]; [done|]. apply HQf.
      assert (page_flags s ms v = None) as Hn.
      { unfold page_flags. rewrite (user_page_view _ _ _ _ _ _ v Hi Hv), He. cbn [fmap option_fmap option_map]. by rewrite Hl. }
      destruct (rv_flags _ _ _ _ _ _ _ _ _ Hr v Hv) as [Hf|[_ Hf]]; rewrite Hn in Hf; [done|].
      by destruct (page_flags s0 ms0 v).
    + fold (page_of va). fold v. intros s' ms' lbl' am' D' a _ Hl Hd.
      destruct (dm_entry _ _ _ _ _ _ _ _ _ _ _ _ _ Hd) as (p & Ham' & _).
      eapply HQt; [by eapply resolved_demand| |rewrite Ham'; apply lookup_insert_eq].
      intros w Hw Hne. by apply (demanded_view _ _ _ _ _ _ _ _ _ _ _ _ _ Hi He Hd).
Qed.

(** One page of either loop: it ends up accessible exactly when it may be. *)
Definition page_spec (c : nat) (x : Z) (may : Z → bool) (page : Z → MemorySet F → M (fstate A) (bool * MemorySet F)) : Prop :=
  ∀ s ms k lbl am D va, resolved s ms (c + k) lbl am D → user_vpn (page_of va) →
  wp (page va ms) (λ '(b, ms') s', b = may (page_of va) ∧ others (page_of va) s ms s' ms' ∧
    (b = true → page_done x s' ms' (page_of va)) ∧ ∃ lbl' am' D', resolved s' ms' k lbl' am' D') s.

Lemma resolve_readable_spec : page_spec 3 PTE_R (may_read s0 ms0) (resolve_readable_page token).
Proof.
  intros s ms k lbl am D va Hr Hv. unfold resolve_readable_page. fold (page_of va). set (v := page_of va) in *.
  apply wp_bind. eapply wp_resolve_missing; [exact Hr|done| |]; fold v.
  - intros Hn. cbn [negb]. apply wp_ret. split_and!; [unfold may_read; by rewrite Hn|by intros|done|].
    exists lbl, am, D. eapply resolved_weaken; [|exact Hr]. lia.
  - intros s' ms' lbl' am' D' e Hr' Hoth He. cbn [negb]. apply wp_bind.
    eapply wp_token_translate; [exact Hr'|done|]. apply wp_ret. rewrite He, (entry_valid _ _ _ _ _ _ _ _ Hr' Hv He).
    cbn [negb orb]. rewrite negb_orb, !negb_involutive.
    assert (may_read s0 ms0 v = contains (PageTableEntry_flags e) PTE_U && contains (PageTableEntry_flags e) PTE_R) as Hm.
    { rewrite <- (proj1 (resolved_may _ _ _ _ _ _ _ _ _ _ Hr' Hv)). unfold may_read.
      by rewrite (entry_flags _ _ _ _ _ _ _ _ Hr' Hv He). }
    split_and!; [done|done| |by exists lbl', am', D'].
    intros [HU HR]%andb_true_iff. exists (PageTableEntry_flags e), (pm_page (mem (mach s')) (PageTableEntry_ppn e)).
    split_and!; [by eapply entry_page|done|done].
Qed.

Lemma needs_cow_writes s ms v fl bytes : user_page (mach s) ms v = Some (fl, bytes) → contains fl PTE_W = false →
  needs_cow (mach s) ms v ↔ area_writes ms v = true.
Proof.
  intros Hp Hw. rewrite area_writes_spec. unfold needs_cow. split; [naive_solver|].
  intros (a & Ha & Hv & HaW). exists a, fl, bytes. by split_and!.
Qed.

Lemma resolve_writable_spec : page_spec 6 PTE_W (may_write s0 ms0) (resolve_writable_page token).
Proof.
  intros s ms k lbl am D va Hr Hv. unfold resolve_writable_page. fold (page_of va). set (v := page_of va) in *.
  apply wp_bind. eapply (wp_resolve_missing _ _ (3 + k)); [exact Hr|done| |]; fold v.
  - intros Hn. cbn [negb]. apply wp_ret. split_and!; [unfold may_write; by rewrite Hn|by intros|done|].
    exists lbl, am, D. eapply resolved_weaken; [|exact Hr]. lia.
  - intros s1 ms1 lbl1 am1 D1 e Hr1 Hoth He. cbn [negb]. apply wp_bind.
    eapply wp_token_translate; [exact Hr1|done|]. rewrite He, (entry_valid _ _ _ _ _ _ _ _ Hr1 Hv He). cbn [negb orb].
    pose proof (entry_page _ _ _ _ _ _ _ _ Hr1 Hv He) as Hp. set (fl := PageTableEntry_flags e) in *.
    assert (may_write s0 ms0 v = contains fl PTE_U && (contains fl PTE_W || area_writes ms1 v)) as Hm.
    { rewrite <- (proj2 (resolved_may _ _ _ _ _ _ _ _ _ _ Hr1 Hv)). unfold may_write.
      by rewrite (entry_flags _ _ _ _ _ _ _ _ Hr1 Hv He). }
    assert (∃ lbl' am' D', resolved s1 ms1 k lbl' am' D') as Hweak.
    { exists lbl1, am1, D1. eapply resolved_weaken; [|exact Hr1]. lia. }
    destruct (contains fl PTE_U) eqn:HU; cbn [negb]; [|by apply wp_ret]. rewrite Hm. cbn [andb].
    destruct (contains fl PTE_W) eqn:HW; cbn [negb orb]; apply wp_bind.
    + apply wp_ret. cbn [negb]. apply wp_bind. eapply wp_token_translate; [exact Hr1|done|]. apply wp_ret.
      rewrite He, (entry_valid _ _ _ _ _ _ _ _ Hr1 Hv He). fold fl. rewrite HU, HW.
      split_and!; [done|done|intros _; by eexists _, _|done].
    + apply wp_lift. eapply wp_handle_cow_fault; [apply Hr1|pose proof (rv_avail _ _ _ _ _ _ _ _ _ Hr1); lia| |];
        fold (page_of va); fold v.
      * rewrite (needs_cow_writes _ _ _ _ _ Hp HW). intros Hno%not_true_is_false. cbn [negb]. apply wp_ret.
        destruct s1. by rewrite Hno.
      * intros m2 ms2 lbl2 am2 D2 Hneed Hc. cbn [negb].
        destruct (resolved_cow _ _ _ _ _ _ _ _ _ _ _ _ Hr1 Hneed Hc) as (Hr2 & Hoth2 & fl' & bs & Hp1 & Hp2).
        rewrite Hp in Hp1. injection Hp1 as <- <-. apply wp_bind. eapply wp_token_translate; [exact Hr2|done|]. apply wp_ret.
        destruct (am2 !! v) as [e2|] eqn:He2.
        2: { by rewrite (user_page_view _ _ _ _ _ _ v (rv_inv _ _ _ _ _ _ _ _ _ Hr2) Hv), He2 in Hp2. }
        pose proof (entry_page _ _ _ _ _ _ _ _ Hr2 Hv He2) as Hp3. rewrite Hp2 in Hp3. injection Hp3 as Hfl2 _.
        apply (needs_cow_writes _ _ _ _ _ Hp HW) in Hneed.
        assert (contains (Z.lor fl PTE_W) PTE_U = true) as HU2 by (unfold PTE_U; by rewrite contains_lor_W by lia).
        rewrite (entry_valid _ _ _ _ _ _ _ _ Hr2 Hv He2), <- Hfl2, HU2, contains_W_lor, Hneed. split_and!; [done| | |by eexists _, _, _].
        -- intros w Hw Hne. rewrite (Hoth2 w Hw Hne). by apply Hoth.
        -- intros _. eexists _, _. split_and!; [exact Hp2|done|apply contains_W_lor].
Qed.

Lemma next_va_low va : 0 <= va < 2 ^ 38 → next_va va = next_page va.
Proof.
  intros Hva. pose proof (next_page_gt va). unfold next_va, next_page in *.
  assert (0 <= va / PAGE_SIZE < 2 ^ 26) by (by apply user_vpn_low).
  rewrite (wrap64_small (va / PAGE_SIZE + 1)) by (unfold is_usize, USIZE; lia).
  rewrite !wrap64_small by (unfold is_usize, USIZE, PAGE_SIZE in *; lia). lia.
Qed.

Lemma wp_resolve_loop c x may page end_ : page_spec c x may page → end_ <= 2 ^ 38 →
  ∀ fuel s ms lbl am D va, 0 <= va → (va < end_ → pages_left va end_ <= Z.of_nat fuel) →
  resolved s ms (c * fuel) lbl am D →
  wp (resolve_loop page fuel va end_ ms) (λ '(r, ms') s', ∃ lbl' am' D', resolved s' ms' 0 lbl' am' D' ∧
    (∀ w, user_vpn w → w * PAGE_SIZE < va - va mod PAGE_SIZE → user_page (mach s') ms' w = user_page (mach s) ms w) ∧
    ∃ b, r = Finished b ∧ (b = true ↔ ∀ a, va <= a < end_ → may (page_of a) = true) ∧
      (b = true → ∀ a, va <= a < end_ → page_done x s' ms' (page_of a))) s.
Proof.
  intros Hpage Hend. induction fuel as [|fuel IH]; intros s ms lbl am D va Hva Hf Hr; cbn [resolve_loop];
    destruct (Z.ltb_spec va end_) as [Hlt|Hge].
  1: { pose proof (pages_left_pos va end_ Hlt). specialize (Hf Hlt). lia. }
  1, 3: apply wp_ret; exists lbl, am, D; split; [eapply resolved_weaken; [|exact Hr]; lia|]; split; [done|];
        exists true; split_and!; [done|split; [intros _ a ?; lia|done]|intros _ a ?; lia].
  assert (user_vpn (page_of va)) as Hv by (apply page_of_user; lia). pose proof (next_page_gt va) as Hnp.
  pose proof (page_split va) as Hsplit. pose proof (page_mod_range va) as Hmr.
  assert (∀ a, va <= a < next_page va → page_of a = page_of va) as Hsame by (intros; by apply same_page_of).
  apply wp_bind. eapply wp_mono; [eapply (Hpage _ _ (c * fuel)%nat); [|exact Hv]; replace (c + c * fuel)%nat with (c * S fuel)%nat by lia; exact Hr|].
  intros [b ms1] s1 (Hb & Hoth & Hdone & lbl1 & am1 & D1 & Hr1).
  assert (∀ w, user_vpn w → w * PAGE_SIZE < va - va mod PAGE_SIZE → user_page (mach s1) ms1 w = user_page (mach s) ms w) as Hlow.
  { intros w Hw Hwl. apply Hoth; [done|]. intros ->. rewrite page_of_low in Hwl by lia. lia. }
  destruct b; cbn [negb].
  - rewrite next_va_low by lia. eapply wp_mono; [eapply (IH s1 ms1); [lia| |exact Hr1]|].
    { intros Hn. rewrite pages_left_next by lia. specialize (Hf Hlt). lia. }
    intros [r ms2] s2 (lbl2 & am2 & D2 & Hr2 & Hlow2 & b & -> & Hb2 & Hd2). exists lbl2, am2, D2. split; [done|].
    assert (next_page va mod PAGE_SIZE = 0) as Hnm by (unfold next_page; by apply Z.mod_mul).
    split; [|exists b; split; [done|split]].
    + intros w Hw Hwl. rewrite Hlow2; [by apply Hlow|done|lia].
    + rewrite Hb2. split.
      * intros Hall a Ha. destruct (Z.lt_ge_cases a (next_page va)); [by rewrite Hsame by lia|apply Hall; lia].
      * intros Hall a Ha. apply Hall. lia.
    + intros Hbt a Ha. destruct (Z.lt_ge_cases a (next_page va)); [|apply Hd2; [done|lia]].
      rewrite Hsame by lia. destruct (Hdone eq_refl) as (fl & bs & Hp & Hrest). exists fl, bs. split; [|done].
      rewrite Hlow2; [done|done|]. rewrite page_of_low by lia. rewrite Hnm. unfold next_page, PAGE_SIZE in *. lia.
  - apply wp_ret. exists lbl1, am1, D1. split; [eapply resolved_weaken; [|exact Hr1]; lia|]. split; [done|]. exists false.
    split_and!; [done| |done]. split; [done|]. intros Hall. rewrite Hb. apply Hall. lia.
Qed.

Definition access_flag (w : bool) : Z := if w then PTE_W else PTE_R.

Lemma page_access_view s ms k lbl am D (w : bool) v : resolved s ms k lbl am D → user_vpn v →
  page_access (mem (mach s)) (PageTable_from_token token) w v =
    e ← am !! v; if contains (PageTableEntry_flags e) PTE_U && contains (PageTableEntry_flags e) (access_flag w)
                 then Some (PageTableEntry_ppn e) else None.
Proof.
  intros Hr Hv. unfold page_access. rewrite (token_view _ _ _ _ _ _ v Hr Hv).
  destruct (am !! v) as [e|] eqn:He; [|done]. cbn [mbind option_bind].
  rewrite (entry_valid _ _ _ _ _ _ _ _ Hr Hv He). pose proof (rv_inv _ _ _ _ _ _ _ _ _ Hr) as Hi.
  assert (PageTableEntry_ppn e < max_user_ppn) as Hlt.
  { change max_user_ppn with FRAME_END. apply (spec_owned_range (falloc (mach s))).
    - apply (ok_inv _ _ _ (sp_pt _ _ _ _ _ _ (mi_core _ _ _ _ _ _ Hi))).
    - apply (sp_owned _ _ _ _ _ _ (mi_core _ _ _ _ _ _ Hi)). eapply held_arc; [exact Hi|].
      by apply (mi_covered _ _ _ _ _ _ Hi v e He). }
  apply Z.ltb_lt in Hlt. rewrite Hlt, andb_true_r. cbn [andb]. unfold access_flag.
  by destruct w; rewrite ?writable_flag, ?readable_flag.
Qed.

(** Where the bytes of an accessible buffer are. *)
Lemma byte_loc_view s ms k lbl am D (w : bool) va p j : resolved s ms k lbl am D → 0 <= va < 2 ^ 38 →
  byte_loc (mem (mach s)) (PageTable_from_token token) w va = Some (p, j) →
  ∃ e, am !! (va / PAGE_SIZE) = Some e ∧ p = PageTableEntry_ppn e ∧ j = va mod PAGE_SIZE ∧
    contains (PageTableEntry_flags e) PTE_U = true ∧ contains (PageTableEntry_flags e) (access_flag w) = true.
Proof.
  intros Hr Hva. unfold byte_loc. rewrite page_of_low by done.
  rewrite (page_access_view _ _ _ _ _ _ _ _ Hr) by (by apply user_vpn_low).
  destruct (am !! (va / PAGE_SIZE)) as [e|]; [|done]. cbn [mbind option_bind].
  destruct (contains (PageTableEntry_flags e) PTE_U) eqn:HU; cbn [andb]; [|done].
  destruct (contains (PageTableEntry_flags e) (access_flag w)) eqn:HX; [|done]. intros [= <- <-]. by exists e.
Qed.

Lemma done_locs s ms k lbl am D (w : bool) ptr len : resolved s ms k lbl am D → 0 <= ptr → ptr + len <= 2 ^ 38 →
  (∀ a, ptr <= a < ptr + len → page_done (access_flag w) s ms (page_of a)) →
  is_Some (byte_locs (mem (mach s)) (PageTable_from_token token) w ptr len).
Proof.
  intros Hr Hp Hend Hd. unfold byte_locs. apply mapM_is_Some, Forall_forall. intros a Ha%elem_of_seqZ.
  destruct (Hd a Ha) as (fl & bs & Hpg & HU & HX). assert (user_vpn (page_of a)) as Hv by (apply page_of_user; lia).
  change (is_Some (byte_loc (mem (mach s)) (PageTable_from_token token) w a)). unfold byte_loc. rewrite (page_access_view _ _ _ _ _ _ _ _ Hr Hv).
  rewrite (user_page_view _ _ _ _ _ _ _ (rv_inv _ _ _ _ _ _ _ _ _ Hr) Hv) in Hpg.
  apply fmap_Some in Hpg as (e & -> & [= -> ->]). cbn [mbind option_bind]. by rewrite HU, HX.
Qed.

Lemma user_read_same s ms k lbl am D va : resolved s ms k lbl am D → 0 <= va < 2 ^ 38 →
  user_read s ms va = user_read s0 ms0 va.
Proof.
  intros Hr Hva%user_vpn_low. unfold user_read, user_byte.
  by rewrite (proj1 (resolved_may _ _ _ _ _ _ _ _ _ _ Hr Hva)), (rv_seen _ _ _ _ _ _ _ _ _ Hr _ Hva).
Qed.

Lemma read_locs_view s ms k lbl am D ptr len locs : resolved s ms k lbl am D → 0 <= ptr → ptr + len <= 2 ^ 38 →
  byte_locs (mem (mach s)) (PageTable_from_token token) false ptr len = Some locs →
  mapM (user_read s0 ms0) (seqZ ptr len) = Some (read_locs (mem (mach s)) locs).
Proof.
  intros Hr Hp Hend Hl%mapM_Some. apply mapM_Some. unfold read_locs. apply Forall2_fmap_r.
  assert (Forall (λ va, 0 <= va < 2 ^ 38) (seqZ ptr len)) as Hrange.
  { apply Forall_forall. intros va Hva%elem_of_seqZ. lia. }
  eapply Forall2_impl; [apply (Forall2_and_l _ _ _ _ Hrange Hl)|].
  intros va [p j] [Hva Hloc]. cbn. destruct (byte_loc_view _ _ _ _ _ _ _ _ _ _ Hr Hva Hloc) as (e & He & -> & -> & HU & HX).
  rewrite <- (user_read_same _ _ _ _ _ _ _ Hr Hva). pose proof (user_vpn_low va Hva) as Hv.
  unfold user_read, may_read, user_byte, seen. rewrite (entry_flags _ _ _ _ _ _ _ _ Hr Hv He), HU.
  unfold access_flag in HX. rewrite HX, (entry_page _ _ _ _ _ _ _ _ Hr Hv He). done.
Qed.

(** The checked translation of a buffer in the user half. *)
Lemma checked_cases m ptr len w : 0 <= ptr → 0 <= len → ptr + len <= 2 ^ 38 →
  ∃ r, translated_byte_buffer_checked m token ptr len w = Finished (Ret r) ∧
  match r with
  | Some sls => Forall slice_wf sls ∧ byte_locs m (PageTable_from_token token) w ptr len = Some (sls ≫= slice_locs)
  | None => byte_locs m (PageTable_from_token token) w ptr len = None
  end.
Proof.
  intros Hp Hl Hend. destruct (checked_exact m token ptr len w) as (r & Hr & Hag); [unfold is_usize, USIZE; lia..|].
  exists r. split; [done|]. unfold locs_agree in Hag. destruct r as [sls|].
  - split; [eapply checked_wf; [exact Hp|exact Hr]|]. by destruct (byte_locs _ _ _ _ _).
  - destruct Hag as [Hag|Hag]; [done|]. unfold USIZE, PAGE_SIZE in Hag. lia.
Qed.

Lemma wp_checked_slices s ms ptr len w (Q : looped (option (list slice)) * MemorySet F → fstate A → Prop) :
  0 <= ptr → 0 <= len → ptr + len <= 2 ^ 38 →
  (∀ sls, Forall slice_wf sls →
     byte_locs (mem (mach s)) (PageTable_from_token token) w ptr len = Some (sls ≫= slice_locs) →
     Q (Finished (Some sls), ms) s) →
  (byte_locs (mem (mach s)) (PageTable_from_token token) w ptr len = None → Q (Finished None, ms) s) →
  wp (checked_slices token ptr len w ms) Q s.
Proof.
  intros Hp Hl Hend HS HN. unfold checked_slices, with_ms, on_mem. apply wp_bind, wp_bind, wp_get.
  destruct (checked_cases (mem (mach s)) ptr len w) as (r & -> & Hr); [done..|]. apply wp_ret, wp_ret.
  destruct r as [sls|]; [by apply HS; destruct Hr|by apply HN].
Qed.

Lemma wp_range_mapped s ms ptr len w (Q : looped bool * MemorySet F → fstate A → Prop) :
  0 <= ptr → 0 <= len → ptr + len <= 2 ^ 38 →
  Q (Finished (bool_decide (is_Some (byte_locs (mem (mach s)) (PageTable_from_token token) w ptr len))), ms) s →
  wp (range_mapped token ptr len w ms) Q s.
Proof.
  intros Hp Hl Hend HQ. unfold range_mapped, with_ms. apply wp_bind, wp_bind, wp_get, wp_ret, wp_ret.
  rewrite user_write_range_mapped_eq by done. destruct (checked_cases (mem (mach s)) ptr len w) as (r & -> & Hr); [done..|].
  destruct r as [sls|]; [destruct Hr as [_ Hr]|]; by rewrite Hr in HQ.
Qed.

Lemma wp_looped_bind {X Y} (m : M (fstate A) (looped X * MemorySet F)) k (Q : looped Y * MemorySet F → fstate A → Prop) s :
  wp m (λ '(r, ms) s, match r with Finished x => wp (k x ms) Q s | OutOfFuel => Q (OutOfFuel, ms) s end) s →
  wp (looped_bind m k) Q s.
Proof. intros H. apply wp_bind. eapply wp_mono; [exact H|]. by intros [[x|] ms] s'. Qed.

(** Resolving a buffer. *)
Lemma wp_try_resolve c (w : bool) may page s ms lbl am D ptr len (Q : looped bool * MemorySet F → fstate A → Prop) :
  page_spec c (access_flag w) may page → 0 <= ptr → 0 < len → ptr + len <= 2 ^ 38 →
  resolved s ms (c * page_fuel len) lbl am D →
  (∀ s' ms' lbl' am' D', resolved s' ms' 0 lbl' am' D' → ¬ Forall (λ a, may (a / PAGE_SIZE) = true) (seqZ ptr len) →
     Q (Finished false, ms') s') →
  (∀ s' ms' lbl' am' D', resolved s' ms' 0 lbl' am' D' → Forall (λ a, may (a / PAGE_SIZE) = true) (seqZ ptr len) →
     is_Some (byte_locs (mem (mach s')) (PageTable_from_token token) w ptr len) →
     Q (Finished true, ms') s') →
  wp (try_resolve page ptr len ms) Q s.
Proof.
  intros Hspec Hp Hl Hend Hr HN HS. unfold try_resolve. destruct (Z.eqb_spec len 0); [lia|].
  unfold checked_add. destruct (Z.ltb_spec (ptr + len) USIZE); [|unfold USIZE in *; lia].
  eapply wp_mono; [eapply (wp_resolve_loop c _ may); [exact Hspec|exact Hend|exact Hp| |exact Hr]|].
  { intros _. by apply page_fuel_enough. }
  intros [r ms'] s' (lbl' & am' & D' & Hr' & _ & b & -> & Hb & Hd).
  assert ((∀ a, ptr <= a < ptr + len → may (page_of a) = true) ↔ Forall (λ a, may (a / PAGE_SIZE) = true) (seqZ ptr len)) as Hiff.
  { rewrite Forall_forall. setoid_rewrite elem_of_seqZ.
    split; intros H' a Ha; (specialize (H' a Ha); rewrite page_of_low in * by lia; done). }
  rewrite Hiff in Hb. destruct b.
  - eapply HS; [exact Hr'|by apply Hb|]. eapply done_locs; [exact Hr'|lia|done|by apply Hd].
  - eapply HN; [exact Hr'|]. intros Hall. by apply Hb in Hall.
Qed.

End steps.

Lemma wp_read_slices s ms sls (n : nat) locs (Q : looped (result (list Z) Z) * MemorySet F → fstate A → Prop) :
  Forall slice_wf sls → locs = sls ≫= slice_locs → length locs = n → Z.of_nat n < USIZE →
  Q (Finished (Ok (read_locs (mem (mach s)) locs)), ms) s → wp (read_slices sls n ms) Q s.
Proof.
  intros Hwf -> Hlen Hus HQ. unfold read_slices. apply wp_bind, wp_get.
  rewrite copy_from_slices_eq; rewrite ?length_replicate; [|by apply slices_wf_ok|lia..].
  rewrite Z.eqb_refl. by apply wp_ret.
Qed.

Lemma wp_read_buffer s ms lbl am D ptr len (Q : looped (option (list slice)) * MemorySet F → fstate A → Prop) :
  let token := MemorySet_token ms in
  ms_inv (mach s) ms lbl am D → full am D → (3 * page_fuel len <= avail (falloc (mach s)))%nat →
  0 <= ptr → 0 < len → ptr + len <= 2 ^ 38 →
  (∀ s' ms' lbl' am' D', resolved False s ms s' ms' 0 lbl' am' D' → mapM (user_read s ms) (seqZ ptr len) = None →
     Q (Finished None, ms') s') →
  (∀ s' ms' lbl' am' D' sls, resolved False s ms s' ms' 0 lbl' am' D' → Forall slice_wf sls →
     byte_locs (mem (mach s')) (PageTable_from_token token) false ptr len = Some (sls ≫= slice_locs) →
     Q (Finished (Some sls), ms') s') →
  wp (translated_user_read_buffer DemandPaged token ptr len ms) Q s.
Proof.
  intros token Hi Hf Hav Hp Hl Hend HN HS. pose proof (root_range _ _ _ _ _ Hi) as Hroot.
  assert (∀ k, (k <= avail (falloc (mach s)))%nat → resolved False s ms s ms k lbl am D) as Hr0
    by (intros; by apply resolved_refl).
  unfold translated_user_read_buffer. destruct (Z.eqb_spec len 0); [lia|]. apply wp_looped_bind.
  apply wp_checked_slices; [lia|lia|done| |].
  { intros sls Hwf Hlocs. apply wp_ret. eapply HS; [apply Hr0; lia|done|done]. }
  intros _. unfold try_resolve_user_readable. apply wp_looped_bind.
  eapply (wp_try_resolve False s ms token eq_refl Hroot 3 false (may_read s ms)); [|done|done|done|by apply Hr0| |].
  { by apply resolve_readable_spec. }
  - intros s' ms' lbl' am' D' Hr' Hno. apply wp_ret. eapply HN; [exact Hr'|].
    apply not_Forall_Exists in Hno; [|intros; apply _]. apply mapM_None. eapply Exists_impl; [exact Hno|].
    intros a Hm%not_true_is_false. unfold user_read. by rewrite Hm.
  - intros s' ms' lbl' am' D' Hr' _ [l Hl']. apply wp_checked_slices; [lia|lia|done| |by rewrite Hl'].
    intros sls Hwf Hlocs. by eapply HS.
Qed.

Lemma resolved_view P0 s0 ms0 s ms k lbl am D va : resolved P0 s0 ms0 s ms k lbl am D → 0 <= va < 2 ^ 38 →
  user_byte s ms va = user_byte s0 ms0 va ∧ user_read s ms va = user_read s0 ms0 va.
Proof.
  intros Hr Hva. split; [|by eapply user_read_same]. unfold user_byte.
  by rewrite (rv_seen _ _ _ _ _ _ _ _ _ Hr) by (by apply user_vpn_low).
Qed.

(** [C19] Reading user memory with demand paging.  On a well-formed space with
    enough free frames, [copy_from_user] terminates without a panic.  It returns
    exactly the bytes the program sees at the addresses, also those of pages it
    has not touched yet, when every page is (or on first touch becomes) a user
    page it may read, and EFAULT otherwise.  Either way what the program can
    read stays the same at every address, no frame others refer to changes, and
    the space stays well formed. *)
Theorem copy_from_user_exact s ms lbl am D src n :
  ms_inv (mach s) ms lbl am D → full am D → (3 * page_fuel (Z.of_nat n) <= avail (falloc (mach s)))%nat →
  0 <= src → src + Z.of_nat n <= 2 ^ 38 →
  wp (copy_from_user DemandPaged (MemorySet_token ms) src n ms) (λ '(r, ms') s',
    r = Finished (match mapM (user_read s ms) (seqZ src (Z.of_nat n)) with
                  | Some bytes => Ok bytes
                  | None => Err (errno EFAULT)
                  end) ∧
    (∀ va, 0 <= va < 2 ^ 38 → user_byte s' ms' va = user_byte s ms va ∧ user_read s' ms' va = user_read s ms va) ∧
    (∀ q, (0 < ext q)%nat → pm_page (mem (mach s')) q = pm_page (mem (mach s)) q) ∧
    ∃ lbl' am' D', ms_inv (mach s') ms' lbl' am' D' ∧ full am' D') s.
Proof.
  intros Hi Hf Hav Hp Hend. unfold copy_from_user. case_decide as Hn.
  { subst n. apply wp_ret. split_and!; [done|done|done|by exists lbl, am, D]. }
  apply wp_looped_bind. eapply wp_read_buffer; [exact Hi|done|done|done|lia|done| |].
  - intros s' ms' lbl' am' D' Hr ->. apply wp_ret.
    split_and!; [done|intros; by eapply resolved_view|apply Hr|exists lbl', am', D'; split; apply Hr].
  - intros s' ms' lbl' am' D' sls Hr Hwf Hlocs.
    eapply wp_read_slices; [done|done| |unfold USIZE; lia|].
    { apply byte_locs_length in Hlocs; lia. }
    erewrite read_locs_view; [|done|by eapply root_range|exact Hr|done|done|exact Hlocs].
    split_and!; [done|intros; by eapply resolved_view|apply Hr|exists lbl', am', D'; split; apply Hr].
Qed.

(** ** Writing *)

(** Storing into a buffer whose bytes are at [locs]. *)
Definition stored s (locs : list (Z * Z)) (data : list Z) : fstate A (FS:=FS) :=
  mkFstate (set_mem (λ _, write_locs (mem (mach s)) locs data) (mach s)) (fs s) (page_cache s).

Lemma wp_write_slices s ms sls data (Q : looped (result unit Z) * MemorySet F → fstate A → Prop) :
  Forall slice_wf sls → length (sls ≫= slice_locs) = length data → Z.of_nat (length data) < USIZE →
  Q (Finished (Ok tt), ms) (stored s (sls ≫= slice_locs) data) → wp (write_slices sls data ms) Q s.
Proof.
  intros Hwf Hlen Hus HQ. unfold write_slices. apply wp_bind, wp_get.
  rewrite copy_to_slices_eq; [|by apply slices_wf_ok|lia..]. apply wp_bind, wp_lift, wp_modify.
  rewrite Z.eqb_refl. by apply wp_ret.
Qed.

Lemma refs_one D v w p (n : nat) : (refs D p + n = 1)%nat → D !! v = Some p → D !! w = Some p → v = w.
Proof.
  intros H1 Hv Hw. destruct (decide (v = w)) as [|Hne]; [done|]. exfalso.
  pose proof (refs_delete D v p p Hv) as Hd. unfold hit in Hd. rewrite decide_True in Hd by done.
  pose proof (refs_pos (delete v D) w p) as Hpos. rewrite lookup_delete_ne in Hpos by done. specialize (Hpos Hw). lia.
Qed.

Section store.
Context (s0 : fstate A (FS:=FS)) (ms0 : MemorySet F) (s : fstate A (FS:=FS)) (ms : MemorySet F).
Context (lbl : gmap Z node) (am D : gmap Z Z) (Hr : resolved True s0 ms0 s ms 0 lbl am D).
Context (Hroot : 0 <= root_ppn (page_table ms0) < 2 ^ 44).
Context (dst : Z) (data : list Z) (Hdata : Forall (λ b, 0 <= b < 256) data) (Hdst : 0 <= dst).
Context (Hend : dst + Z.of_nat (length data) <= 2 ^ 38).
Context (locs : list (Z * Z)).
Context (Hlocs : byte_locs (mem (mach s)) (PageTable_from_token (MemorySet_token ms0)) true dst (Z.of_nat (length data)) = Some locs).

Lemma locs_at (i : nat) p j : locs !! i = Some (p, j) → ∃ e, let va := dst + Z.of_nat i in
  (i < length data)%nat ∧ am !! (va / PAGE_SIZE) = Some e ∧ p = PageTableEntry_ppn e ∧ j = va mod PAGE_SIZE ∧
  contains (PageTableEntry_flags e) PTE_U = true ∧ contains (PageTableEntry_flags e) PTE_W = true.
Proof.
  intros Hi. pose proof Hlocs as Hl%mapM_Some. eapply Forall2_lookup_r in Hl as (va & Hva & Hloc); [|exact Hi].
  apply lookup_seqZ in Hva as [-> Hlt]. assert (0 <= dst + Z.of_nat i < 2 ^ 38) as Hrange by lia.
  destruct (byte_loc_view True s0 ms0 _ eq_refl Hroot _ _ _ _ _ _ _ _ _ _ Hr Hrange Hloc) as (e & He & -> & -> & HU & HW).
  exists e. cbn zeta. split_and!; [lia|done|done|done|done|done].
Qed.

Lemma locs_held (i : nat) p j : locs !! i = Some (p, j) → lbl !! p = None ∧ ext p = 0%nat ∧
  ∀ v, D !! v = Some p → v = (dst + Z.of_nat i) / PAGE_SIZE.
Proof.
  intros Hi. destruct (locs_at i p j Hi) as (e & _ & He & -> & _ & _ & HW). pose proof (rv_inv _ _ _ _ _ _ _ _ _ Hr) as Hinv.
  pose proof (mi_covered _ _ _ _ _ _ Hinv _ e He) as HD. pose proof (rv_sole _ _ _ _ _ _ _ _ _ Hr Logic.I _ e He HW) as H1.
  split; [|split].
  - apply (sp_owned _ _ _ _ _ _ (mi_core _ _ _ _ _ _ Hinv)). by eapply held_arc.
  - pose proof (refs_pos _ _ _ HD). lia.
  - intros v Hv. by eapply refs_one.
Qed.

Lemma locs_nodup : NoDup locs.
Proof.
  apply NoDup_alt. intros i j [p k] Hi Hj. destruct (locs_at i p k Hi) as (e & _ & He & Hp & Hk & _).
  destruct (locs_at j p k Hj) as (e' & _ & He' & Hp' & Hk' & _).
  assert ((dst + Z.of_nat j) / PAGE_SIZE = (dst + Z.of_nat i) / PAGE_SIZE) as Hdiv.
  { apply (locs_held i p k Hi). rewrite Hp'. by apply (mi_covered _ _ _ _ _ _ (rv_inv _ _ _ _ _ _ _ _ _ Hr)). }
  pose proof (page_split (dst + Z.of_nat i)). pose proof (page_split (dst + Z.of_nat j)). rewrite Hdiv in *. lia.
Qed.

Lemma locs_nonneg : Forall (λ l : Z * Z, 0 <= l.2) locs.
Proof. eapply Forall_impl; [by eapply byte_locs_nonneg|]. intros l Hl. cbn in Hl. lia. Qed.

#[local] Abbreviation s2 := (stored s locs data).

Lemma stored_page q : ext q ≠ 0%nat ∨ is_Some (lbl !! q) → pm_page (mem (mach s2)) q = pm_page (mem (mach s)) q.
Proof.
  intros Hq. apply write_locs_page. intros k [i Hi]%list_elem_of_lookup.
  destruct (locs_held i q k Hi) as (Hl & Hx & _). destruct Hq as [Hq|[n Hq]]; congruence.
Qed.

Lemma stored_inv : ms_inv (mach s2) ms lbl am D.
Proof.
  destruct (rv_inv _ _ _ _ _ _ _ _ _ Hr) as [Hc ? ? ? ?]. split; try done.
  apply sp_core_mem; [exact Hc|]. intros n Hn. apply stored_page. by right.
Qed.

Lemma stored_user_page v : user_vpn v → user_page (mach s2) ms v =
  (λ e, (PageTableEntry_flags e, pm_page (mem (mach s2)) (PageTableEntry_ppn e))) <$> am !! v.
Proof. intros Hv. by apply (user_page_view _ _ _ _ _ _ _ stored_inv). Qed.

Lemma stored_other va e : am !! (va / PAGE_SIZE) = Some e → va < dst ∨ dst + Z.of_nat (length data) <= va →
  pm_byte (mem (mach s2)) (PageTableEntry_ppn e) (va mod PAGE_SIZE) =
  pm_byte (mem (mach s)) (PageTableEntry_ppn e) (va mod PAGE_SIZE).
Proof.
  intros He Hout. apply write_locs_other; [|apply page_mod_range|apply locs_nonneg|done].
  intros [i Hi]%list_elem_of_lookup. destruct (locs_at _ _ _ Hi) as (e' & Hil & He' & Hp & Hj & _).
  pose proof (proj2 (proj2 (locs_held _ _ _ Hi)) _ (mi_covered _ _ _ _ _ _ (rv_inv _ _ _ _ _ _ _ _ _ Hr) _ e He)) as Hdiv.
  pose proof (page_split va). pose proof (page_split (dst + Z.of_nat i)). rewrite Hdiv in *. lia.
Qed.

Lemma stored_byte va : 0 <= va < 2 ^ 38 →
  user_byte s2 ms va = if (dst <=? va) && (va <? dst + Z.of_nat (length data)) then data !! Z.to_nat (va - dst)
                       else user_byte s0 ms0 va.
Proof.
  intros Hva. pose proof (user_vpn_low va Hva) as Hv. rewrite <- (proj1 (resolved_view _ _ _ _ _ _ _ _ _ _ Hr Hva)).
  unfold user_byte, seen. rewrite (stored_user_page _ Hv), (user_page_view _ _ _ _ _ _ _ (rv_inv _ _ _ _ _ _ _ _ _ Hr) Hv).
  destruct ((dst <=? va) && (va <? dst + Z.of_nat (length data))) eqn:Hin.
  - apply andb_true_iff in Hin as [H1%Z.leb_le H2%Z.ltb_lt].
    assert (length locs = length data) as Hlen by (apply byte_locs_length in Hlocs; lia).
    destruct (lookup_lt_is_Some_2 locs (Z.to_nat (va - dst))) as [[p j] Hi]; [lia|].
    destruct (locs_at _ _ _ Hi) as (e & _ & He & -> & -> & _). rewrite Z2Nat.id in He, Hi by lia.
    replace (dst + (va - dst)) with va in * by lia. rewrite He. cbn [fmap option_fmap option_map].
    pose proof (read_write_locs locs (mem (mach s)) data locs_nodup Hlen locs_nonneg Hdata) as Hrw.
    transitivity (read_locs (write_locs (mem (mach s)) locs data) locs !! Z.to_nat (va - dst)); [|by rewrite Hrw].
    unfold read_locs. by rewrite list_lookup_fmap, Hi.
  - apply andb_false_iff in Hin as [Hin|Hin]; rewrite ?Z.leb_gt, ?Z.ltb_ge in Hin;
      (destruct (am !! (va / PAGE_SIZE)) as [e|] eqn:He; [|done]); cbn [fmap option_fmap option_map]; f_equal;
      (eapply (stored_other va e); [exact He|lia]).
Qed.
End store.

(** Every page of the buffer may be written. *)
Definition writable s ms (ptr len : Z) : Prop := Forall (λ va, may_write s ms (va / PAGE_SIZE) = true) (seqZ ptr len).
#[export] Instance writable_dec s ms ptr len : Decision (writable s ms ptr len).
Proof. unfold writable. apply _. Defined.

(** A well-formed space in which a store reaches no one else. *)
Definition private_space s ms lbl am D : Prop :=
  ms_inv (mach s) ms lbl am D ∧ full am D ∧ sole am D ∧ ∀ a, a ∈ areas ms → kind a ≠ Shared.

(** What a write of [data] at [dst] must do. *)
Definition write_post s ms (dst : Z) (data : list Z) (r : looped (result unit Z)) s' ms' : Prop :=
  let ok := bool_decide (writable s ms dst (Z.of_nat (length data))) in
  r = Finished (if ok then Ok tt else Err (errno EFAULT)) ∧
  (∀ va, 0 <= va < 2 ^ 38 → user_byte s' ms' va =
     if ok && ((dst <=? va) && (va <? dst + Z.of_nat (length data))) then data !! Z.to_nat (va - dst)
     else user_byte s ms va) ∧
  (∀ q, (0 < ext q)%nat → pm_page (mem (mach s')) q = pm_page (mem (mach s)) q) ∧
  ∃ lbl' am' D', private_space s' ms' lbl' am' D'.

Lemma same_kind (P : MapAreaKind → Prop) (l l' : list (MapArea F)) : same l l' →
  (∀ a, a ∈ l → P (kind a)) → ∀ a, a ∈ l' → P (kind a).
Proof.
  intros Hs Hp b [i Hb]%list_elem_of_lookup. eapply Forall2_lookup_r in Hs as (b0 & Hb0 & fr & ->); [|exact Hb].
  apply (Hp b0). by eapply list_elem_of_lookup_2.
Qed.

Lemma resolved_private s ms s' ms' k lbl am D lbl' am' D' : private_space s ms lbl am D →
  resolved True s ms s' ms' k lbl' am' D' → private_space s' ms' lbl' am' D'.
Proof.
  intros (_ & _ & _ & Hk) Hr. split; [apply Hr|split; [apply Hr|split; [by apply Hr|]]].
  eapply (same_kind (λ x, x ≠ Shared)); [apply Hr|done].
Qed.

Lemma write_post_fail s ms lbl am D s' ms' lbl' am' D' dst data : private_space s ms lbl am D →
  resolved True s ms s' ms' 0 lbl' am' D' → ¬ writable s ms dst (Z.of_nat (length data)) →
  write_post s ms dst data (Finished (Err (errno EFAULT))) s' ms'.
Proof.
  intros Hps Hr Hno. unfold write_post. rewrite bool_decide_eq_false_2 by done.
  split_and!; [done|intros; by eapply resolved_view|apply Hr|]. exists lbl', am', D'. by eapply resolved_private.
Qed.

Lemma write_post_ok s ms lbl am D s' ms' lbl' am' D' dst data locs : private_space s ms lbl am D →
  resolved True s ms s' ms' 0 lbl' am' D' → writable s ms dst (Z.of_nat (length data)) →
  Forall (λ b, 0 <= b < 256) data → 0 <= dst → dst + Z.of_nat (length data) <= 2 ^ 38 →
  byte_locs (mem (mach s')) (PageTable_from_token (MemorySet_token ms)) true dst (Z.of_nat (length data)) = Some locs →
  write_post s ms dst data (Finished (Ok tt)) (stored s' locs data) ms'.
Proof.
  intros Hps Hr Hw Hdata Hdst Hend Hlocs. unfold write_post. rewrite bool_decide_eq_true_2 by done.
  pose proof (root_range _ _ _ _ _ (proj1 Hps)) as Hroot. pose proof (resolved_private _ _ _ _ _ _ _ _ _ _ _ Hps Hr) as Hps'.
  split_and!; [done| | |].
  - intros va Hva. by eapply (stored_byte s ms).
  - intros q Hq. rewrite <- (rv_ext _ _ _ _ _ _ _ _ _ Hr q Hq). eapply (stored_page s ms); [done..|]. left. lia.
  - exists lbl', am', D'. destruct Hps' as (_ & ? & ? & ?). split; [by eapply (stored_inv s ms)|done].
Qed.

Lemma locs_writable P0 s ms s' ms' k lbl am D ptr len locs : 0 <= root_ppn (page_table ms) < 2 ^ 44 →
  resolved P0 s ms s' ms' k lbl am D → 0 <= ptr → ptr + len <= 2 ^ 38 →
  byte_locs (mem (mach s')) (PageTable_from_token (MemorySet_token ms)) true ptr len = Some locs → writable s ms ptr len.
Proof.
  intros Hroot Hr Hp Hend Hl%mapM_Some. apply Forall_forall. intros va Hva. pose proof Hva as Hrange%elem_of_seqZ.
  apply list_elem_of_lookup in Hva as [i Hva]. eapply Forall2_lookup_l in Hl as ([p j] & _ & Hloc); [|exact Hva].
  assert (0 <= va < 2 ^ 38) as Hlow by lia. pose proof (user_vpn_low va Hlow) as Hv.
  destruct (byte_loc_view P0 s ms _ eq_refl Hroot _ _ _ _ _ _ _ _ _ _ Hr Hlow Hloc) as (e & He & -> & -> & HU & HW).
  rewrite <- (proj2 (resolved_may _ _ _ _ _ _ _ _ _ _ Hr Hv)). unfold may_write.
  rewrite (entry_flags _ _ _ _ _ _ _ _ _ _ _ Hr Hv He), HU. unfold access_flag in HW. by rewrite HW.
Qed.

Lemma wp_write_buffer s ms lbl am D ptr len (Q : looped (option (list slice)) * MemorySet F → fstate A → Prop) :
  private_space s ms lbl am D → (6 * page_fuel len <= avail (falloc (mach s)))%nat →
  0 <= ptr → 0 < len → ptr + len <= 2 ^ 38 →
  (∀ s' ms' lbl' am' D', resolved True s ms s' ms' 0 lbl' am' D' → ¬ writable s ms ptr len → Q (Finished None, ms') s') →
  (∀ s' ms' lbl' am' D' sls, resolved True s ms s' ms' 0 lbl' am' D' → Forall slice_wf sls → writable s ms ptr len →
     byte_locs (mem (mach s')) (PageTable_from_token (MemorySet_token ms)) true ptr len = Some (sls ≫= slice_locs) →
     Q (Finished (Some sls), ms') s') →
  wp (translated_user_write_buffer DemandCowWithForkFallback false (MemorySet_token ms) ptr len ms) Q s.
Proof.
  intros (Hi & Hf & Hs & Hk) Hav Hp Hl Hend HN HS. pose proof (root_range _ _ _ _ _ Hi) as Hroot.
  assert (∀ k, (k <= avail (falloc (mach s)))%nat → resolved True s ms s ms k lbl am D) as Hr0
    by (intros; by apply resolved_refl).
  unfold translated_user_write_buffer. destruct (Z.eqb_spec len 0); [lia|]. apply wp_looped_bind.
  apply wp_checked_slices; [lia|lia|done| |].
  { intros sls Hwf Hlocs. apply wp_ret. eapply HS; [apply Hr0; lia|done| |done]. eapply locs_writable; [done|apply (Hr0 0%nat); lia|done|done|done]. }
  intros _. unfold try_resolve_user_cow_writable. apply wp_looped_bind.
  eapply (wp_try_resolve True s ms (MemorySet_token ms) eq_refl Hroot 6 true (may_write s ms)); [|done|done|done|by apply Hr0| |].
  { by apply resolve_writable_spec. }
  - intros s' ms' lbl' am' D' Hr' Hno. apply wp_looped_bind, wp_ret, wp_ret. by eapply HN.
  - intros s' ms' lbl' am' D' Hr' Hall [l Hl']. apply wp_looped_bind, wp_checked_slices; [lia|lia|done| |by rewrite Hl'].
    intros sls Hwf Hlocs. apply wp_ret. by eapply HS.
Qed.

Lemma writable_nil s ms ptr : writable s ms ptr 0.
Proof. unfold writable. rewrite seqZ_nil by lia. constructor. Qed.

Lemma write_post_nil s ms lbl am D dst : private_space s ms lbl am D → write_post s ms dst [] (Finished (Ok tt)) s ms.
Proof.
  intros Hps. unfold write_post. rewrite bool_decide_eq_true_2 by apply writable_nil.
  split_and!; [done| |done|by exists lbl, am, D]. intros va Hva. cbn [length andb].
  destruct (Z.leb_spec dst va), (Z.ltb_spec va (dst + Z.of_nat 0)); cbn [andb]; lia || done.
Qed.


(** ** The copy without collecting slices *)

Lemma slice_first sls sl : Forall slice_wf sls → sl ∈ sls → (sl_ppn sl, sl_from sl) ∈ sls ≫= slice_locs.
Proof.
  intros Hwf Hsl. rewrite Forall_forall in Hwf. destruct (Hwf sl Hsl) as [Hf _]. apply list_elem_of_bind. exists sl.
  split; [|done]. unfold slice_locs, slice_len. rewrite seqZ_cons by lia. cbn. by left.
Qed.

Lemma wp_walk_inline s0 ms0 s ms lbl am D ptr data locs (Q : looped (result Z Z * Z) * MemorySet F → fstate A → Prop) :
  let token := MemorySet_token ms0 in
  let len := Z.of_nat (length data) in
  resolved True s0 ms0 s ms 0 lbl am D → 0 <= root_ppn (page_table ms0) < 2 ^ 44 →
  0 <= ptr → 0 < len → ptr + len <= 2 ^ 38 →
  byte_locs (mem (mach s)) (PageTable_from_token token) true ptr len = Some locs →
  Q (Finished (Ok len, len), ms) (stored s locs data) →
  wp (walk_slices (inline_copy data) 0 token ptr len true ms) Q s.
Proof.
  intros token len Hr Hroot Hp Hl Hend Hlocs HQ. pose proof (rv_inv _ _ _ _ _ _ _ _ _ Hr) as Hi.
  destruct (checked_cases token (mem (mach s)) ptr len true) as ([sls|] & Hc & Hsls); [lia..| |by rewrite Hlocs in Hsls].
  destruct Hsls as [Hwf Hl']. rewrite Hlocs in Hl'. injection Hl' as ->.
  destruct (walk_inline_exact (mem (mach s)) token lbl ptr data sls) as [Hlen Hwalk]; [|done|done|done|done| |].
  - destruct (ok_wf _ _ _ (sp_pt _ _ _ _ _ _ (mi_core _ _ _ _ _ _ Hi))) as [[Hwr Hwc] _ _]. split; [|done].
    intros n. rewrite Hwr, (rv_root _ _ _ _ _ _ _ _ _ Hr). unfold token, MemorySet_token. by rewrite from_token_root.
  - apply Forall_forall. intros sl Hsl. pose proof (slice_first _ _ Hwf Hsl) as [i Hloc]%list_elem_of_lookup.
    by eapply (locs_held s0 ms0 s ms lbl am D).
  - unfold walk_slices, on_pmem. apply wp_bind, wp_bind, wp_get. change (Z.of_nat (length data)) with len in Hwalk. rewrite Hwalk. apply wp_bind, wp_lift, wp_modify.
    by apply wp_ret, wp_ret.
Qed.

(** The copy that walks the table page by page, without collecting slices,
    does what [copy_to_user] does: under the same conditions, and for a non-null
    destination, [copy_to_user_inline] (and with it [write_value_to_user])
    terminates, succeeds on the same buffers, and leaves the program the same
    view of its memory. *)
Theorem copy_to_user_inline_private s ms lbl am D dst data :
  private_space s ms lbl am D → (6 * page_fuel (Z.of_nat (length data)) <= avail (falloc (mach s)))%nat →
  Forall (λ b, 0 <= b < 256) data → 0 < dst → dst + Z.of_nat (length data) <= 2 ^ 38 →
  wp (write_value_to_user DemandCowWithForkFallback false (MemorySet_token ms) dst data ms)
     (λ '(r, ms') s', write_post s ms dst data r s' ms') s.
Proof.
  intros Hps Hav Hdata Hdst Hend. unfold write_value_to_user, copy_to_user_inline.
  destruct (Z.eqb_spec dst 0); [lia|]. case_bool_decide as Hnil.
  { subst data. apply wp_ret. by eapply write_post_nil. }
  assert (0 < Z.of_nat (length data)) as Hl by (destruct data; [done|cbn; lia]).
  pose proof (root_range _ _ _ _ _ (proj1 Hps)) as Hroot. pose proof Hps as (Hi & Hf & Hs & Hk).
  assert (∀ k, (k <= avail (falloc (mach s)))%nat → resolved True s ms s ms k lbl am D) as Hr0
    by (intros; by apply resolved_refl).
  apply wp_looped_bind. unfold for_each_user_write_slice. destruct (Z.eqb_spec (Z.of_nat (length data)) 0); [lia|].
  apply wp_looped_bind, wp_range_mapped; [lia|lia|done|]. case_bool_decide as Hmap.
  { destruct Hmap as [locs Hlocs]. eapply wp_walk_inline; [apply (Hr0 0%nat); lia|done|lia|done|done|exact Hlocs|].
    rewrite Z.eqb_refl. apply wp_ret. eapply write_post_ok; [exact Hps|apply (Hr0 0%nat); lia| |done|lia|done|done].
    eapply locs_writable; [done|apply (Hr0 0%nat); lia|lia|done|done]. }
  apply wp_looped_bind. unfold try_resolve_user_cow_writable.
  eapply (wp_try_resolve True s ms (MemorySet_token ms) eq_refl Hroot 6 true (may_write s ms)); [|lia|done|done|by apply Hr0| |].
  { by apply resolve_writable_spec. }
  - intros s' ms' lbl' am' D' Hr' Hno. apply wp_looped_bind, wp_ret, wp_looped_bind, wp_ret, wp_ret, wp_ret.
    by eapply write_post_fail.
  - intros s' ms' lbl' am' D' Hr' Hall [locs Hlocs]. apply wp_looped_bind, wp_range_mapped; [lia|lia|done|].
    rewrite bool_decide_eq_true_2 by (by rewrite Hlocs).
    eapply wp_walk_inline; [exact Hr'|done|lia|done|done|exact Hlocs|]. rewrite Z.eqb_refl. apply wp_ret.
    eapply write_post_ok; [exact Hps|exact Hr'|done|done|lia|done|done].
Qed.
End view.

(** ** Examples: the demo space with a lazy file mapping at page 8 *)

#[local] Existing Instance one_file.
#[local] Abbreviation k_inv := (sfa_inv 100).
#[local] Abbreviation k_owned := (sfa_owned 100).

Lemma copy_from_user_exact_witness :
  wp (copy_from_user DemandPaged (MemorySet_token lazy_demo) 0x8000 3 lazy_demo)
     (λ '(r, _) _, r = Finished (Ok [65; 66; 67])) lazy_state ∧
  wp (copy_from_user DemandPaged (MemorySet_token lazy_demo) 0x9fff 2 lazy_demo)
     (λ '(r, _) _, r = Finished (Err (-14))) lazy_state.
Proof.
  destruct lazy_demo_inv as (lbl & am & D & Hi & Hf). split.
  - eapply wp_mono; [apply (copy_from_user_exact (ext0 boot_machine) lazy_state lazy_demo lbl am D 0x8000 3 Hi Hf);
      [vm_compute; lia|lia|lia]|]. intros [r ms'] s' [-> _]. clear. by vm_compute.
  - eapply wp_mono; [apply (copy_from_user_exact (ext0 boot_machine) lazy_state lazy_demo lbl am D 0x9fff 2 Hi Hf);
      [vm_compute; lia|lia|lia]|]. intros [r ms'] s' [-> _]. clear. by vm_compute.
Defined.

Lemma lazy_demo_private : ∃ lbl am D,
  private_space (inv:=k_inv) (owned:=k_owned) (ext0 boot_machine) lazy_state lazy_demo lbl am D.
Proof.
  destruct lazy_demo_inv as (lbl & am & D & Hi & Hf). exists lbl, am, D. split; [done|split; [done|split]].
  - intros v e He _. pose proof (mi_core _ _ _ _ _ _ Hi) as Hc.
    destruct (mi_within _ _ _ _ _ _ Hi v) as (a & Ha & Hav); [by rewrite (mi_covered _ _ _ _ _ _ Hi v e He)|].
    pose proof (sp_dom _ _ _ _ _ _ Hc v ltac:(by rewrite He)) as Hu.
    pose proof (sp_view _ _ _ _ _ _ Hc v Hu) as Ht. rewrite He in Ht.
    assert (∃ n, arcs (mach lazy_state) !! PageTableEntry_ppn e = Some n ∧ n = 1) as (n & Harc & ->).
    { assert (v = 1 ∨ v = 2 ∨ v = 3 ∨ v = 8 ∨ v = 9) as Hcases.
      { vm_compute in Ha. apply elem_of_cons in Ha as [->|Ha]; [change (1 <= v < 4) in Hav; lia|].
        apply list_elem_of_singleton in Ha. subst a. change (8 <= v < 10) in Hav. lia. }
      clear -Ht Hcases. destruct Hcases as [->|[->|[->|[->| ->]]]]; vm_compute in Ht; try done; injection Ht as <-;
        eexists; (split; [by vm_compute|done]). }
    rewrite (sp_arcs _ _ _ _ _ _ Hc) in Harc. unfold count_of in Harc. case_decide; [done|]. injection Harc as Harc. lia.
  - intros a Ha. vm_compute in Ha. apply elem_of_cons in Ha as [->|Ha%list_elem_of_singleton]; [done|by subst a].
Qed.


Lemma copy_to_user_inline_private_witness :
  wp (write_value_to_user DemandCowWithForkFallback false (MemorySet_token lazy_demo) 0x8fff [1; 2] lazy_demo)
     (λ '(r, ms') s', r = Finished (Ok tt) ∧ user_byte s' ms' 0x8fff = Some 1) lazy_state.
Proof.
  destruct lazy_demo_private as (lbl & am & D & Hps).
  eapply wp_mono; [apply (copy_to_user_inline_private (ext0 boot_machine) lazy_state lazy_demo lbl am D 0x8fff [1; 2] Hps);
    [vm_compute; lia|repeat constructor; lia|lia|cbn; lia]|].
  intros [r ms'] s' (-> & Hb & _). rewrite !Hb by lia. clear. split; by vm_compute.
Defined.

(** A process whose name starts with "fork" gets past the page permission: the
    kernel writes for it to a user page that is mapped read-only. *)
Lemma fork_name_writes_read_only :
  wp (let! (_, ms) := lift (change_protection demo.1 0x1000 0x2000 (Z.lor MP_R MP_U)) in
      let! s1 := m_get in
      let! (r, ms) := copy_to_user DemandCowWithForkFallback true (MemorySet_token ms) 0x1000 [65] ms in
      let! s2 := m_get in
      m_ret (r, may_write s1 ms 1, user_byte s1 ms 0x1000, user_byte s2 ms 0x1000)) (λ x _,
    x = (Finished (Ok tt), false, Some 0, Some 65)) lazy_state.
Proof. by vm_compute. Qed.
