(* ===== verification/Pipe.v ===== *)
(** * Pipes (os/src/fs/pipe.rs)

    A ring buffer shared by a read end and a write end.  The buffer is shown to
    be a first-in first-out queue of bytes; the file operations are shown to
    block, fail and succeed as a pipe should. *)

From stdpp Require Import base list numbers option.
From S2P Require Import Prelude.
#[local] Open Scope nat_scope.

(** ** The ring buffer *)

Definition DEFAULT_PIPE_CAPACITY : nat := 4096.

Record PipeBuffer : Type := mkPipe {
  buf : list Z;
  head : nat;
  tail : nat;
  plen : nat;
  read_open : bool;
  write_open : bool;
}.

Definition PipeBuffer_new (capacity : nat) : PipeBuffer :=
  mkPipe (replicate (Nat.max capacity 1) 0%Z) 0 0 0 true true.

Definition capacity (p : PipeBuffer) : nat := length (buf p).

Fixpoint read_into_loop (fuel : nat) (p : PipeBuffer) (out : list Z) (read : nat)
    : looped (PipeBuffer * list Z * nat) :=
  if (read <? length out) && (0 <? plen p) then
    match fuel with
    | O => OutOfFuel
    | S fuel =>
        let cap := capacity p in
        let chunk := Nat.min (Nat.min (cap - head p) (plen p)) (length out - read) in
        let out := splice read (take chunk (drop (head p) (buf p))) out in
        let p := mkPipe (buf p) ((head p + chunk) mod cap) (tail p) (plen p - chunk)
                   (read_open p) (write_open p) in
        read_into_loop fuel p out (read + chunk)
    end
  else Finished (p, out, read).

(** At most two iterations: up to the end of the buffer, and from its start. *)
Definition read_into (p : PipeBuffer) (out : list Z) : looped (PipeBuffer * list Z * nat) :=
  read_into_loop 2 p out 0.

Fixpoint write_from_loop (fuel : nat) (p : PipeBuffer) (data : list Z) (written : nat)
    : looped (PipeBuffer * nat) :=
  if (written <? length data) && (plen p <? capacity p) then
    match fuel with
    | O => OutOfFuel
    | S fuel =>
        let cap := capacity p in
        let space := cap - plen p in
        let chunk := Nat.min (Nat.min (cap - tail p) space) (length data - written) in
        let b := splice (tail p) (take chunk (drop written data)) (buf p) in
        let p := mkPipe b (head p) ((tail p + chunk) mod cap) (plen p + chunk)
                   (read_open p) (write_open p) in
        write_from_loop fuel p data (written + chunk)
    end
  else Finished (p, written).

Definition write_from (p : PipeBuffer) (data : list Z) : looped (PipeBuffer * nat) :=
  write_from_loop 2 p data 0.

(** ** It is a queue *)

(** The bytes in the pipe, oldest first. *)
Definition contents (p : PipeBuffer) : list Z :=
  take (plen p) (drop (head p) (buf p) ++ take (head p) (buf p)).

Record pipe_wf (p : PipeBuffer) : Prop := {
  pw_cap : 0 < capacity p;
  pw_head : head p < capacity p;
  pw_len : plen p <= capacity p;
  pw_tail : tail p = (head p + plen p) mod capacity p;
}.

Lemma mod_wrap a n : a < 2 * n → a mod n = if decide (a < n) then a else a - n.
Proof.
  intros Ha. case_decide; [by apply Nat.mod_small|].
  replace a with ((a - n) + 1 * n) at 1 by lia. rewrite Nat.Div0.mod_add. apply Nat.mod_small. lia.
Qed.

Lemma contents_length p : pipe_wf p → length (contents p) = plen p.
Proof.
  intros [Hc Hh Hl _]. unfold contents, capacity in *. rewrite length_take, length_app, length_drop, length_take. lia.
Qed.

Lemma contents_lookup p i : pipe_wf p → i < plen p →
  contents p !! i = buf p !! ((head p + i) mod capacity p).
Proof.
  intros [Hc Hh Hl _] Hi. unfold contents. rewrite lookup_take_lt by done. rewrite mod_wrap by lia.
  unfold capacity in *. case_decide.
  - rewrite lookup_app_l by (rewrite length_drop; lia). by rewrite lookup_drop.
  - rewrite lookup_app_r by (rewrite length_drop; lia). rewrite length_drop, lookup_take_lt by lia.
    f_equal. lia.
Qed.

(** One chunk taken from the front. *)
Lemma pop_chunk p chunk : pipe_wf p → chunk <= plen p → head p + chunk <= capacity p →
  let p' := mkPipe (buf p) ((head p + chunk) mod capacity p) (tail p) (plen p - chunk)
              (read_open p) (write_open p) in
  pipe_wf p' ∧ contents p = take chunk (drop (head p) (buf p)) ++ contents p'.
Proof.
  intros Hwf Hc Hh p'. pose proof Hwf as [H1 H2 H3 H4].
  assert (pipe_wf p') as Hwf'.
  { unfold p'. split; unfold capacity in *; simpl; [lia|apply Nat.mod_upper_bound; lia|lia|].
    rewrite H4, (mod_wrap (head p + chunk)) by lia. case_decide.
    - f_equal. lia.
    - rewrite (mod_wrap (head p + plen p)) by lia. rewrite decide_False by lia. rewrite Nat.mod_small; lia. }
  split; [done|]. apply list_eq_same_length with (n := plen p).
  - rewrite length_app, length_take, length_drop, contents_length by done. unfold p', capacity in *. simpl. lia.
  - by apply contents_length.
  - intros i x y Hi. rewrite contents_lookup by done. unfold capacity in *.
    destruct (decide (i < chunk)).
    + rewrite lookup_app_l by (rewrite length_take, length_drop; lia).
      rewrite lookup_take_lt, lookup_drop by lia. rewrite Nat.mod_small by lia. congruence.
    + rewrite lookup_app_r, length_take, length_drop by (rewrite length_take, length_drop; lia).
      rewrite contents_lookup; [|done|unfold p'; simpl; lia]. unfold p', capacity. simpl.
      replace ((head p + chunk) mod length (buf p) + (i - Nat.min chunk (length (buf p) - head p)))
        with ((head p + chunk) mod length (buf p) + (i - chunk)) by lia.
      rewrite Nat.Div0.add_mod_idemp_l. replace (head p + chunk + (i - chunk)) with (head p + i) by lia. congruence.
Qed.

(** One chunk put at the back. *)
Lemma push_chunk p src : pipe_wf p → length src <= capacity p - plen p → tail p + length src <= capacity p →
  let p' := mkPipe (splice (tail p) src (buf p)) (head p) ((tail p + length src) mod capacity p)
              (plen p + length src) (read_open p) (write_open p) in
  pipe_wf p' ∧ contents p' = contents p ++ src ∧ capacity p' = capacity p.
Proof.
  intros Hwf Hl Ht p'. pose proof Hwf as [H1 H2 H3 H4]. unfold capacity in *.
  assert (length (buf p') = length (buf p)) as Hcap by (unfold p'; simpl; apply splice_length; lia).
  assert (pipe_wf p') as Hwf'.
  { split; unfold capacity; rewrite ?Hcap; unfold p'; simpl; [lia|lia|lia|].
    rewrite H4, Nat.Div0.add_mod_idemp_l. f_equal. lia. }
  split_and!; [done| |done]. apply list_eq_same_length with (n := plen p + length src).
  - rewrite length_app, contents_length by done. lia.
  - by rewrite contents_length.
  - intros i x y Hi. rewrite contents_lookup; [|done|unfold p'; simpl; lia].
    unfold capacity. rewrite Hcap. unfold p'. simpl. rewrite splice_lookup by lia.
    destruct (decide (i < plen p)).
    + rewrite lookup_app_l by (rewrite contents_length by done; lia). rewrite contents_lookup by done.
      unfold capacity. rewrite decide_False; [congruence|]. rewrite H4.
      rewrite (mod_wrap (head p + i)), (mod_wrap (head p + plen p)) by lia. repeat case_decide; lia.
    + rewrite lookup_app_r, contents_length by (rewrite ?contents_length by done; (done || lia)).
      assert ((head p + i) mod length (buf p) = tail p + (i - plen p)) as ->.
      { rewrite H4, (mod_wrap (head p + i)), (mod_wrap (head p + plen p)) by lia.
        rewrite H4, (mod_wrap (head p + plen p)) in Ht by lia. repeat case_decide; lia. }
      rewrite decide_True by lia. replace (tail p + (i - plen p) - tail p) with (i - plen p) by lia. congruence.
Qed.

Definition same_ends (p p' : PipeBuffer) : Prop :=
  read_open p' = read_open p ∧ write_open p' = write_open p ∧ capacity p' = capacity p.

Lemma read_into_loop_spec fuel : ∀ p out read, pipe_wf p → read <= length out →
  (if decide (head p + plen p <= capacity p) then 1 else 2) <= fuel →
  let k := Nat.min (plen p) (length out - read) in
  ∃ p', read_into_loop fuel p out read =
      Finished (p', splice read (take k (contents p)) out, read + k) ∧
    pipe_wf p' ∧ same_ends p p' ∧ contents p' = drop k (contents p).
Proof.
  induction fuel as [|fuel IH]; intros p out read Hwf Hr Hf k; [case_decide; lia|]. simpl.
  pose proof (contents_length p Hwf) as Hcl.
  destruct (Nat.ltb_spec read (length out)), (Nat.ltb_spec 0 (plen p)); simpl.
  2-4: exists p; replace k with 0 by lia; unfold splice; simpl; rewrite Nat.add_0_r, take_drop, drop_0; done.
  pose proof Hwf as [H1 H2 H3 H4].
  set (chunk := Nat.min (Nat.min (capacity p - head p) (plen p)) (length out - read)).
  destruct (pop_chunk p chunk Hwf) as [Hwf' Hcon]; [lia|lia|]. 
  set (p1 := mkPipe _ _ _ _ _ _) in *.
  assert (length (take chunk (drop (head p) (buf p))) = chunk) as Hlc
    by (rewrite length_take, length_drop; unfold capacity in *; lia).
  set (src := take chunk (drop (head p) (buf p))) in *.
  assert (length (splice read src out) = length out) as Hlo by (apply splice_length; lia).
  pose proof (contents_length p1 Hwf') as Hcl1.
  assert (plen p1 = plen p - chunk) as Hl1 by done.
  destruct (decide (plen p1 = 0 ∨ length out = read + chunk)) as [Hend|Hmore].
  - (* nothing left to do *)
    assert (read_into_loop fuel p1 (splice read src out) (read + chunk) = Finished (p1, splice read src out, read + chunk)) as ->.
    { destruct fuel; simpl; rewrite Hlo.
      all: destruct (Nat.ltb_spec (read + chunk) (length out)), (Nat.ltb_spec 0 (plen p - chunk)); simpl; done || lia. }
    assert (k = chunk) as -> by lia. exists p1. rewrite Hcon, take_app_length', drop_app_length' by done. done.
  - destruct (IH p1 (splice read src out) (read + chunk) Hwf') as (p2 & Hl2 & Hwf2 & Hse & Hc2).
    { rewrite Hlo. lia. }
    { (* a second chunk starts at index 0 *)
      assert (head p1 = 0) as Hh1.
      { unfold p1. simpl. replace (head p + chunk) with (capacity p) by lia. apply Nat.Div0.mod_same. }
      rewrite Hh1. rewrite decide_True by (unfold p1, capacity in *; simpl; lia). case_decide; lia. }
    rewrite Hlo in Hl2. exists p2. rewrite Hl2. split_and!; [|done|done|].
    + set (k1 := Nat.min (plen p1) (length out - (read + chunk))). assert (k = chunk + k1) as -> by lia.
      f_equal. f_equal; [f_equal|lia]. rewrite Hcon, take_app_add' by done. unfold splice.
      rewrite length_app, length_take, Hcl1, Hlc.
      replace (Nat.min k1 (plen p1)) with k1 by lia.
      rewrite (app_assoc (take read out) src (drop _ _)), take_app_length' by (rewrite length_app, length_take; lia).
      rewrite drop_app_ge by (rewrite length_app, length_take; lia).
      rewrite length_app, length_take, drop_drop, <- !app_assoc. do 4 f_equal. lia.
    + rewrite Hc2, Hcon, Hlo. rewrite drop_app_ge by lia. f_equal. lia.
Qed.

Lemma write_from_loop_spec fuel : ∀ p data written, pipe_wf p → written <= length data →
  (if decide (tail p + (capacity p - plen p) <= capacity p) then 1 else 2) <= fuel →
  let k := Nat.min (capacity p - plen p) (length data - written) in
  ∃ p', write_from_loop fuel p data written = Finished (p', written + k) ∧
    pipe_wf p' ∧ same_ends p p' ∧ contents p' = contents p ++ take k (drop written data).
Proof.
  induction fuel as [|fuel IH]; intros p data written Hwf Hr Hf k; [case_decide; lia|]. simpl.
  destruct (Nat.ltb_spec written (length data)), (Nat.ltb_spec (plen p) (capacity p)); simpl.
  2-4: exists p; replace k with 0 by lia; simpl; rewrite Nat.add_0_r, app_nil_r; done.
  pose proof Hwf as [H1 H2 H3 H4].
  set (chunk := Nat.min (Nat.min (capacity p - tail p) (capacity p - plen p)) (length data - written)).
  assert (tail p < capacity p) as Htl by (rewrite H4; apply Nat.mod_upper_bound; lia).
  set (src := take chunk (drop written data)).
  assert (length src = chunk) as Hls by (unfold src; rewrite length_take, length_drop; lia).
  destruct (push_chunk p src Hwf) as (Hwf' & Hcon & Hcap); [lia|lia|]. rewrite Hls in Hwf', Hcon, Hcap.
  set (p1 := mkPipe _ _ _ _ _ _) in *. assert (plen p1 = plen p + chunk) as Hl1 by done.
  assert (same_ends p p1) as Hse1 by done.
  destruct (decide (plen p1 = capacity p ∨ length data = written + chunk)) as [Hend|Hmore].
  - assert (write_from_loop fuel p1 data (written + chunk) = Finished (p1, written + chunk)) as ->.
    { destruct fuel; simpl; rewrite Hcap;
      destruct (Nat.ltb_spec (written + chunk) (length data)), (Nat.ltb_spec (plen p + chunk) (capacity p));
        simpl; done || lia. }
    assert (k = chunk) as -> by lia. exists p1. done.
  - destruct (IH p1 data (written + chunk) Hwf') as (p2 & Hl2 & Hwf2 & Hse & Hc2).
    { lia. }
    { assert (tail p1 = 0) as Hh1.
      { unfold p1. simpl. replace (tail p + chunk) with (capacity p) by lia. apply Nat.Div0.mod_same. }
      rewrite Hh1, Hcap. rewrite decide_True by lia. case_decide; lia. }
    exists p2. rewrite Hl2, Hcap. split_and!; [|done| |].
    + f_equal. f_equal. lia.
    + destruct Hse as (E1 & E2 & E3). unfold same_ends. rewrite E1, E2, E3. done.
    + rewrite Hc2, Hcon, Hcap, <- app_assoc. f_equal. unfold src.
      replace k with (chunk + Nat.min (capacity p - plen p1) (length data - (written + chunk))) by lia.
      by rewrite take_add, drop_drop.
Qed.

Lemma read_into_spec p out : pipe_wf p →
  let k := Nat.min (plen p) (length out) in
  ∃ p', read_into p out = Finished (p', take k (contents p) ++ drop k out, k) ∧
    pipe_wf p' ∧ same_ends p p' ∧ contents p' = drop k (contents p).
Proof.
  intros Hwf k. destruct (read_into_loop_spec 2 p out 0 Hwf) as (p' & Hr & Hw & Hs & Hc); [lia|case_decide; lia|].
  rewrite Nat.sub_0_r in *. exists p'. split_and!; [|done..]. unfold read_into. rewrite Hr. fold k. unfold splice.
  rewrite length_take, contents_length by done. by replace (Nat.min k (plen p)) with k by lia.
Qed.

Lemma write_from_spec p data : pipe_wf p →
  let k := Nat.min (capacity p - plen p) (length data) in
  ∃ p', write_from p data = Finished (p', k) ∧
    pipe_wf p' ∧ same_ends p p' ∧ contents p' = contents p ++ take k data.
Proof.
  intros Hwf k. destruct (write_from_loop_spec 2 p data 0 Hwf) as (p' & Hr & Hw & Hs & Hc); [lia|case_decide; lia|].
  rewrite Nat.sub_0_r in *. exists p'. done.
Qed.

Lemma PipeBuffer_new_wf c : pipe_wf (PipeBuffer_new c) ∧ contents (PipeBuffer_new c) = [] ∧
  capacity (PipeBuffer_new c) = Nat.max c 1.
Proof.
  assert (capacity (PipeBuffer_new c) = Nat.max c 1) as Hc by (unfold capacity; apply length_replicate).
  split; [|done]. split; rewrite Hc; simpl; try lia. by rewrite Nat.Div0.mod_0_l.
Qed.

(** ** The two ends *)

(** A [PipeEnd] without its [Arc] to the buffer, which is passed explicitly:
    both ends see the same buffer. *)
Record PipeEnd : Type := mkEnd {
  readable : bool;
  writable : bool;
  nonblock : bool;
}.

Definition PipeEnd_new (readable writable : bool) : PipeEnd := mkEnd readable writable false.

Definition PipeEnd_drop (e : PipeEnd) (p : PipeBuffer) : PipeBuffer :=
  mkPipe (buf p) (head p) (tail p) (plen p)
    (if readable e then false else read_open p)
    (if writable e then false else write_open p).

Definition PipeEnd_status_flags (e : PipeEnd) : Z := if nonblock e then 2048 else 0.

Definition PipeEnd_set_status_flags (e : PipeEnd) (flags : Z) : PipeEnd :=
  mkEnd (readable e) (writable e) (negb (Z.land flags 2048 =? 0)%Z).

Definition make_pipe (capacity : nat) : PipeBuffer * PipeEnd * PipeEnd :=
  (PipeBuffer_new (Nat.max capacity DEFAULT_PIPE_CAPACITY), PipeEnd_new true false, PipeEnd_new false true).

(** What happens when the caller finds it has to wait: whether a signal is
    pending at that moment and, if not, what the other tasks do to the pipe
    before the caller runs again.  A schedule lists the successive waits. *)
Record turn : Type := mkTurn {
  signal_pending : bool;
  others : PipeBuffer → PipeBuffer;
}.

(** A call has returned, or the schedule ended while it was still waiting. *)
Inductive io (R : Type) : Type :=
| Returned (r : R)
| Asleep (p : PipeBuffer).
Arguments Returned {R} r.
Arguments Asleep {R} p.

Definition USIZE_MAX : Z := 2 ^ 64 - 1.
Definition EAGAIN_SENTINEL : Z := USIZE_MAX - 1.
Definition EINTR_SENTINEL : Z := USIZE_MAX.
Abbreviation EAGAIN_ERRNO := (-11)%Z.
Abbreviation EPIPE_ERRNO := (-32)%Z.
Definition SIGPIPE_BIT : Z := 2 ^ 12.

(** How the loop over one slice ends: with [break], with [return], or asleep. *)
Inductive slice_end (B R : Type) : Type :=
| Break (b : B)
| Return (r : R)
| Sleep (p : PipeBuffer).
Arguments Break {B R} b.
Arguments Return {B R} r.
Arguments Sleep {B R} p.

(** The [loop] for one slice of the caller's buffer. *)
Fixpoint read_slice (e : PipeEnd) (sched : list turn) (p : PipeBuffer) (slice : list Z) (total : nat)
    : looped (slice_end (list turn * PipeBuffer * list Z * nat) (PipeBuffer * Z)) :=
  if 0 <? plen p then
    match read_into p slice with
    | Finished (p, slice, n) => Finished (Break (sched, p, slice, total + n))
    | OutOfFuel => OutOfFuel
    end
  else if negb (write_open p) then Finished (Return (p, Z.of_nat total))
  else if 0 <? total then Finished (Return (p, Z.of_nat total))
  else if nonblock e then Finished (Return (p, EAGAIN_SENTINEL))
  else
    match sched with
    | [] => Finished (Sleep p)
    | t :: sched =>
        if signal_pending t then Finished (Return (p, EINTR_SENTINEL))
        else read_slice e sched (others t p) slice total
    end.

Fixpoint read_slices (e : PipeEnd) (sched : list turn) (p : PipeBuffer) (buffers : list (list Z)) (total : nat)
    : looped (io (PipeBuffer * list (list Z) * Z)) :=
  match buffers with
  | [] => Finished (Returned (p, [], Z.of_nat total))
  | slice :: rest =>
      match read_slice e sched p slice total with
      | Finished (Break (sched, p, slice, total)) =>
          match read_slices e sched p rest total with
          | Finished (Returned (p, rest, r)) => Finished (Returned (p, slice :: rest, r))
          | Finished (Asleep p) => Finished (Asleep p)
          | OutOfFuel => OutOfFuel
          end
      | Finished (Return (p, r)) => Finished (Returned (p, slice :: rest, r))
      | Finished (Sleep p) => Finished (Asleep p)
      | OutOfFuel => OutOfFuel
      end
  end.

(** The pipe, the caller's buffers and the returned value. *)
Definition PipeEnd_read (e : PipeEnd) (sched : list turn) (p : PipeBuffer) (user_buf : list (list Z))
    : looped (io (PipeBuffer * list (list Z) * Z)) :=
  read_slices e sched p user_buf 0.

(** The [while] for one slice.  Every iteration but two consumes a turn. *)
Fixpoint write_slice (fuel : nat) (e : PipeEnd) (sched : list turn) (p : PipeBuffer) (slice : list Z)
    (offset total : nat) : looped (slice_end (list turn * PipeBuffer * nat) (PipeBuffer * Z)) :=
  if offset <? length slice then
    match fuel with
    | O => OutOfFuel
    | S fuel =>
        if negb (read_open p) then Finished (Return (p, Z.of_nat total))
        else if plen p <? capacity p then
          match write_from p (drop offset slice) with
          | Finished (p, n) =>
              if n =? 0 then Finished (Break (sched, p, total + n))
              else write_slice fuel e sched p slice (offset + n) (total + n)
          | OutOfFuel => OutOfFuel
          end
        else if 0 <? total then Finished (Return (p, Z.of_nat total))
        else if nonblock e then Finished (Return (p, EAGAIN_SENTINEL))
        else
          match sched with
          | [] => Finished (Sleep p)
          | t :: sched =>
              if signal_pending t then Finished (Return (p, EINTR_SENTINEL))
              else write_slice fuel e sched (others t p) slice offset total
          end
    end
  else Finished (Break (sched, p, total)).

Fixpoint write_slices (e : PipeEnd) (sched : list turn) (p : PipeBuffer) (buffers : list (list Z)) (total : nat)
    : looped (io (PipeBuffer * Z)) :=
  match buffers with
  | [] => Finished (Returned (p, Z.of_nat total))
  | slice :: rest =>
      match write_slice (length sched + 2) e sched p slice 0 total with
      | Finished (Break (sched, p, total)) => write_slices e sched p rest total
      | Finished (Return r) => Finished (Returned r)
      | Finished (Sleep p) => Finished (Asleep p)
      | OutOfFuel => OutOfFuel
      end
  end.

Definition PipeEnd_write (e : PipeEnd) (sched : list turn) (p : PipeBuffer) (user_buf : list (list Z))
    : looped (io (PipeBuffer * Z)) :=
  write_slices e sched p user_buf 0.

(** [pending] is the pending signal set of the current task, if there is one. *)
Fixpoint wub_slice (fuel : nat) (e : PipeEnd) (sched : list turn) (p : PipeBuffer) (pending : option Z)
    (slice : list Z) (offset total : nat)
    : looped (slice_end (list turn * PipeBuffer * nat) (PipeBuffer * option Z * result Z Z)) :=
  if offset <? length slice then
    match fuel with
    | O => OutOfFuel
    | S fuel =>
        if negb (read_open p) then
          if total =? 0 then
            Finished (Return (p, (λ s, Z.lor s SIGPIPE_BIT) <$> pending, Err EPIPE_ERRNO))
          else Finished (Return (p, pending, Ok (Z.of_nat total)))
        else if plen p <? capacity p then
          match write_from p (drop offset slice) with
          | Finished (p, n) =>
              if n =? 0 then Finished (Break (sched, p, total + n))
              else wub_slice fuel e sched p pending slice (offset + n) (total + n)
          | OutOfFuel => OutOfFuel
          end
        else if 0 <? total then Finished (Return (p, pending, Ok (Z.of_nat total)))
        else if nonblock e then Finished (Return (p, pending, Err EAGAIN_ERRNO))
        else
          match sched with
          | [] => Finished (Sleep p)
          | t :: sched =>
              if signal_pending t then Finished (Return (p, pending, Ok USIZE_MAX))
              else wub_slice fuel e sched (others t p) pending slice offset total
          end
    end
  else Finished (Break (sched, p, total)).

Fixpoint wub_slices (e : PipeEnd) (sched : list turn) (p : PipeBuffer) (pending : option Z)
    (buffers : list (list Z)) (total : nat) : looped (io (PipeBuffer * option Z * result Z Z)) :=
  match buffers with
  | [] => Finished (Returned (p, pending, Ok (Z.of_nat total)))
  | slice :: rest =>
      match wub_slice (length sched + 2) e sched p pending slice 0 total with
      | Finished (Break (sched, p, total)) => wub_slices e sched p pending rest total
      | Finished (Return r) => Finished (Returned r)
      | Finished (Sleep p) => Finished (Asleep p)
      | OutOfFuel => OutOfFuel
      end
  end.

Definition PipeEnd_write_user_buffer (e : PipeEnd) (sched : list turn) (p : PipeBuffer) (pending : option Z)
    (user_buf : list (list Z)) : looped (io (PipeBuffer * option Z * result Z Z)) :=
  wub_slices e sched p pending user_buf 0.

Definition POLLIN : Z := 1.
Definition POLLOUT : Z := 4.

Definition PipeEnd_poll (e : PipeEnd) (p : PipeBuffer) (events : Z) : Z :=
  let revents := 0%Z in
  let revents :=
    if (Z.land events POLLIN =? POLLIN)%Z && readable e && ((0 <? plen p) || negb (write_open p))
    then Z.lor revents POLLIN else revents in
  if (Z.land events POLLOUT =? POLLOUT)%Z && writable e && ((plen p <? capacity p) || negb (read_open p))
  then Z.lor revents POLLOUT else revents.

(** ** The ring buffer refines a bounded queue *)

(** The operations the ends perform on the shared buffer. *)
Inductive pipe_op : Type :=
| OpRead (out : list Z)
| OpWrite (data : list Z)
| OpDrop (e : PipeEnd).

(** What an operation hands back: the caller's buffer and a count. *)
Definition pipe_step (p : PipeBuffer) (o : pipe_op) : looped (PipeBuffer * (list Z * nat)) :=
  match o with
  | OpRead out =>
      match read_into p out with
      | Finished (p, out, n) => Finished (p, (out, n))
      | OutOfFuel => OutOfFuel
      end
  | OpWrite data =>
      match write_from p data with
      | Finished (p, n) => Finished (p, ([], n))
      | OutOfFuel => OutOfFuel
      end
  | OpDrop e => Finished (PipeEnd_drop e p, ([], 0))
  end.

Fixpoint pipe_run (p : PipeBuffer) (os : list pipe_op) : looped (PipeBuffer * list (list Z * nat)) :=
  match os with
  | [] => Finished (p, [])
  | o :: os =>
      match pipe_step p o with
      | Finished (p, r) =>
          match pipe_run p os with
          | Finished (p, rs) => Finished (p, r :: rs)
          | OutOfFuel => OutOfFuel
          end
      | OutOfFuel => OutOfFuel
      end
  end.

(** The specification: a queue of at most [cap] bytes and the two open flags. *)
Record queue : Type := mkQueue { q_bytes : list Z; q_read : bool; q_write : bool }.

Definition queue_step (cap : nat) (q : queue) (o : pipe_op) : queue * (list Z * nat) :=
  match o with
  | OpRead out =>
      let n := Nat.min (length (q_bytes q)) (length out) in
      (mkQueue (drop n (q_bytes q)) (q_read q) (q_write q), (take n (q_bytes q) ++ drop n out, n))
  | OpWrite data =>
      let n := Nat.min (cap - length (q_bytes q)) (length data) in
      (mkQueue (q_bytes q ++ take n data) (q_read q) (q_write q), ([], n))
  | OpDrop e =>
      (mkQueue (q_bytes q) (if readable e then false else q_read q) (if writable e then false else q_write q), ([], 0))
  end.

Fixpoint queue_run (cap : nat) (q : queue) (os : list pipe_op) : queue * list (list Z * nat) :=
  match os with
  | [] => (q, [])
  | o :: os =>
      let '(q, r) := queue_step cap q o in
      let '(q, rs) := queue_run cap q os in (q, r :: rs)
  end.

Definition queue_of (p : PipeBuffer) : queue := mkQueue (contents p) (read_open p) (write_open p).

Lemma pipe_step_refines p o : pipe_wf p →
  ∃ p' r, pipe_step p o = Finished (p', r) ∧ pipe_wf p' ∧ capacity p' = capacity p ∧
    queue_step (capacity p) (queue_of p) o = (queue_of p', r).
Proof.
  intros Hwf. pose proof (contents_length p Hwf) as Hl.
  destruct o as [out|data|e]; unfold pipe_step, queue_step, queue_of; simpl; rewrite ?Hl.
  - destruct (read_into_spec p out Hwf) as (p' & -> & Hw & (H1 & H2 & H3) & Hc).
    eexists _, _. rewrite Hc, H1, H2. done.
  - destruct (write_from_spec p data Hwf) as (p' & -> & Hw & (H1 & H2 & H3) & Hc).
    eexists _, _. rewrite Hc, H1, H2. done.
  - eexists _, _. split; [done|]. split; [|done]. by destruct Hwf.
Qed.

(** [C13] Any sequence of reads, writes and drops of the ends, on a pipe of any
    capacity, is executed by the ring buffer exactly as by a bounded first-in
    first-out queue: every operation terminates and returns the same bytes and
    the same count, and afterwards the ring holds the bytes of the queue.  In
    particular no byte is lost, duplicated or reordered across wrap-around. *)
Theorem pipe_refines_queue c os :
  ∃ p, pipe_run (PipeBuffer_new c) os =
      Finished (p, (queue_run (Nat.max c 1) (mkQueue [] true true) os).2) ∧
    queue_of p = (queue_run (Nat.max c 1) (mkQueue [] true true) os).1 ∧ pipe_wf p.
Proof.
  destruct (PipeBuffer_new_wf c) as (Hwf & Hc & Hcap).
  assert (queue_of (PipeBuffer_new c) = mkQueue [] true true) as <- by (unfold queue_of; by rewrite Hc).
  rewrite <- Hcap. clear Hc Hcap. revert Hwf. generalize (PipeBuffer_new c).
  induction os as [|o os IH]; intros p Hwf; simpl; [by exists p|].
  destruct (pipe_step_refines p o Hwf) as (p1 & r & -> & Hw1 & Hcap & Hq). rewrite Hq.
  destruct (IH p1 Hw1) as (p2 & -> & Hq2 & Hw2). rewrite Hcap in *.
  destruct (queue_run (capacity p) (queue_of p1) os) as [q2 rs]. by exists p2.
Qed.

(** ** Reading *)

Definition lens (bs : list (list Z)) : nat := length (concat bs).

Lemma read_slice_data e sched p slice total : pipe_wf p → 0 < plen p →
  let k := Nat.min (plen p) (length slice) in
  ∃ p', read_slice e sched p slice total =
      Finished (Break (sched, p', take k (contents p) ++ drop k slice, total + k)) ∧
    pipe_wf p' ∧ same_ends p p' ∧ contents p' = drop k (contents p).
Proof.
  intros Hwf Hp k. destruct (read_into_spec p slice Hwf) as (p' & Hr & H). exists p'. split; [|done].
  apply Nat.ltb_lt in Hp. destruct sched; simpl; by rewrite Hp, Hr.
Qed.

Lemma read_slice_drained e sched p slice total : plen p = 0 → 0 < total →
  read_slice e sched p slice total = Finished (Return (p, Z.of_nat total)).
Proof. intros Hp Ht. apply Nat.ltb_lt in Ht. destruct sched; simpl; rewrite Hp, Ht; by destruct (write_open p). Qed.

Lemma read_slices_data e sched bs : ∀ p total, pipe_wf p → 0 < plen p ∨ 0 < total →
  let n := Nat.min (plen p) (lens bs) in
  ∃ p' bs', read_slices e sched p bs total = Finished (Returned (p', bs', Z.of_nat (total + n))) ∧
    pipe_wf p' ∧ same_ends p p' ∧ contents p' = drop n (contents p) ∧
    length <$> bs' = length <$> bs ∧ concat bs' = take n (contents p) ++ drop n (concat bs).
Proof.
  induction bs as [|b bs IH]; intros p total Hwf Hpos n.
  { exists p, []. unfold n, lens. simpl. rewrite Nat.min_0_r, Nat.add_0_r. done. }
  assert (lens (b :: bs) = length b + lens bs) as Hlens by (unfold lens; simpl; apply length_app).
  pose proof (contents_length p Hwf) as Hl. simpl. destruct (decide (plen p = 0)) as [Hz|Hp].
  { rewrite read_slice_drained by lia. exists p, (b :: bs). unfold n. rewrite Hz. simpl.
    rewrite Nat.add_0_r. done. }
  destruct (read_slice_data e sched p b total Hwf) as (p1 & -> & Hw1 & (A1 & A2 & A3) & Hc1); [lia|].
  set (k := Nat.min (plen p) (length b)) in *.
  assert (plen p1 = plen p - k) as Hl1 by (rewrite <- (contents_length p1 Hw1), Hc1, length_drop; lia).
  destruct (IH p1 (total + k) Hw1) as (p2 & bs2 & -> & Hw2 & (B1 & B2 & B3) & Hc2 & Hlen & Hcat); [lia|].
  rewrite Hl1 in *. set (m := Nat.min (plen p - k) (lens bs)) in *. assert (n = k + m) as Hn by lia.
  exists p2, ((take k (contents p) ++ drop k b) :: bs2). split_and!.
  - do 4 f_equal. lia.
  - done.
  - unfold same_ends. by rewrite B1, B2, B3.
  - by rewrite Hc2, Hc1, drop_drop, Hn.
  - rewrite !fmap_cons, Hlen. f_equal. rewrite length_app, length_take, length_drop. lia.
  - simpl. rewrite Hcat, Hc1, Hn, take_add, <- !app_assoc. f_equal.
    destruct (decide (length b <= plen p)) as [Hle|Hgt].
    + assert (k = length b) as -> by lia. rewrite drop_all. simpl. f_equal.
      by rewrite <- drop_drop, drop_app_length.
    + assert (m = 0) as -> by lia. simpl. by rewrite Nat.add_0_r, drop_app_le by lia.
Qed.

(** Nothing to read: the reader stops or waits. *)
Lemma read_wait e sched p bs : bs ≠ [] → plen p = 0 → PipeEnd_read e sched p bs =
  if negb (write_open p) then Finished (Returned (p, bs, 0%Z))
  else if nonblock e then Finished (Returned (p, bs, EAGAIN_SENTINEL))
  else match sched with
       | [] => Finished (Asleep p)
       | t :: sched' => if signal_pending t then Finished (Returned (p, bs, EINTR_SENTINEL))
                        else PipeEnd_read e sched' (others t p) bs
       end.
Proof.
  intros Hbs Hz. destruct bs as [|b bs]; [done|]. unfold PipeEnd_read. simpl.
  destruct sched as [|t sched]; simpl; rewrite Hz; simpl;
    destruct (write_open p), (nonblock e); simpl; try done; by destruct (signal_pending t).
Qed.

(** [PipeEnd::read], on every branch.  With bytes in the pipe it never
    waits: it moves the oldest [min (available, requested)] bytes into the
    caller's slices, in order, and leaves the rest.  With none, it reports
    end-of-file once the writer has gone, [EAGAIN] if non-blocking, [EINTR] if
    a signal is pending, and otherwise resumes after the other tasks have run. *)
Theorem pipe_read_exact e sched p bs : pipe_wf p → bs ≠ [] →
  let n := Nat.min (plen p) (lens bs) in
  (0 < plen p → ∃ p' bs', PipeEnd_read e sched p bs = Finished (Returned (p', bs', Z.of_nat n)) ∧
     pipe_wf p' ∧ same_ends p p' ∧ contents p' = drop n (contents p) ∧
     length <$> bs' = length <$> bs ∧ concat bs' = take n (contents p) ++ drop n (concat bs)) ∧
  (plen p = 0 → PipeEnd_read e sched p bs =
     if negb (write_open p) then Finished (Returned (p, bs, 0%Z))
     else if nonblock e then Finished (Returned (p, bs, EAGAIN_SENTINEL))
     else match sched with
          | [] => Finished (Asleep p)
          | t :: sched' => if signal_pending t then Finished (Returned (p, bs, EINTR_SENTINEL))
                           else PipeEnd_read e sched' (others t p) bs
          end).
Proof.
  intros Hwf Hbs n. split.
  - intros Hp. unfold PipeEnd_read. destruct (read_slices_data e sched bs p 0 Hwf) as (p' & bs' & H); eauto.
  - by apply read_wait.
Qed.

(** ** Writing *)

Definition wub_full_wait (e : PipeEnd) (sched : list turn) (p : PipeBuffer) (pending : option Z)
    (bs : list (list Z)) : looped (io (PipeBuffer * option Z * result Z Z)) :=
  if nonblock e then Finished (Returned (p, pending, Err EAGAIN_ERRNO))
  else match sched with
       | [] => Finished (Asleep p)
       | t :: sched' => if signal_pending t then Finished (Returned (p, pending, Ok USIZE_MAX))
                        else PipeEnd_write_user_buffer e sched' (others t p) pending bs
       end.

(** A slice offered to a pipe with room, or after something has been written. *)
Lemma wub_slice_room fuel e sched p pending slice total :
  pipe_wf p → read_open p = true → plen p < capacity p ∨ 0 < total →
  let n := Nat.min (capacity p - plen p) (length slice) in
  ∃ p', pipe_wf p' ∧ same_ends p p' ∧ contents p' = contents p ++ take n slice ∧
    wub_slice (S (S fuel)) e sched p pending slice 0 total =
      if n =? length slice then Finished (Break (sched, p', total + n))
      else Finished (Return (p', pending, Ok (Z.of_nat (total + n)))).
Proof.
  intros Hwf Hro Hroom n. cbn [wub_slice]. destruct (Nat.ltb_spec 0 (length slice)) as [Hs|Hs].
  2:{ exists p. replace n with 0 by lia. simpl. rewrite app_nil_r, Nat.add_0_r.
      by destruct (length slice); [|lia]. }
  rewrite Hro. simpl negb. cbv iota. destruct (Nat.ltb_spec (plen p) (capacity p)) as [Hp|Hp].
  2:{ exists p. replace n with 0 by lia. simpl. rewrite app_nil_r, Nat.add_0_r.
      destruct (length slice); [lia|]. by destruct (Nat.ltb_spec 0 total); [|lia]. }
  rewrite drop_0. destruct (write_from_spec p slice Hwf) as (p' & -> & Hw & Hse & Hc). fold n in Hc |- *.
  exists p'. split_and!; [done..|]. pose proof Hse as (E1 & E2 & E3).
  destruct (Nat.eqb_spec n 0); [lia|].
  assert (plen p' = plen p + n) as Hl'.
  { rewrite <- (contents_length p' Hw), Hc, length_app, length_take, (contents_length p Hwf). lia. }
  simpl (0 + n). rewrite E1, Hro, E3, Hl'. simpl negb. cbv iota.
  destruct (Nat.eqb_spec n (length slice)) as [->|Hne].
  - by rewrite Nat.ltb_irrefl.
  - destruct (Nat.ltb_spec n (length slice)); [|lia]. destruct (Nat.ltb_spec (plen p + n) (capacity p)); [lia|].
    by destruct (Nat.ltb_spec 0 (total + n)); [|lia].
Qed.

Lemma wub_slices_room e sched pending bs : ∀ p total,
  pipe_wf p → read_open p = true → plen p < capacity p ∨ 0 < total →
  let n := Nat.min (capacity p - plen p) (lens bs) in
  ∃ p', wub_slices e sched p pending bs total = Finished (Returned (p', pending, Ok (Z.of_nat (total + n)))) ∧
    pipe_wf p' ∧ same_ends p p' ∧ contents p' = contents p ++ take n (concat bs).
Proof.
  induction bs as [|b bs IH]; intros p total Hwf Hro Hroom n.
  { exists p. unfold n, lens. simpl. rewrite Nat.min_0_r, Nat.add_0_r, app_nil_r. done. }
  assert (lens (b :: bs) = length b + lens bs) as Hlens by (unfold lens; simpl; apply length_app).
  cbn [wub_slices]. replace (length sched + 2) with (S (S (length sched))) by lia.
  destruct (wub_slice_room (length sched) e sched p pending b total Hwf Hro Hroom)
    as (p1 & Hw1 & (A1 & A2 & A3) & Hc1 & ->).
  set (k := Nat.min (capacity p - plen p) (length b)) in *.
  assert (plen p1 = plen p + k) as Hl1.
  { rewrite <- (contents_length p1 Hw1), Hc1, length_app, length_take, (contents_length p Hwf). lia. }
  destruct (Nat.eqb_spec k (length b)) as [Hk|Hk].
  - destruct (IH p1 (total + k) Hw1) as (p2 & -> & Hw2 & (B1 & B2 & B3) & Hc2); [congruence|rewrite A3; lia|].
    rewrite A3, Hl1 in *. exists p2. split_and!.
    + do 4 f_equal. f_equal. lia.
    + done.
    + unfold same_ends. by rewrite B1, B2, B3.
    + rewrite Hc2, Hc1, <- app_assoc. f_equal. simpl.
      replace n with (k + Nat.min (capacity p - (plen p + k)) (lens bs)) by lia. rewrite Hk at 3.
      rewrite take_app_add, Hk, firstn_all. done.
  - exists p1. assert (n = k) as -> by lia. split_and!; [done..|]. simpl. by rewrite take_app_le by lia.
Qed.

(** A slice with nothing in it is skipped. *)
Lemma wub_skip e sched p pending b bs total :
  length b = 0 → wub_slices e sched p pending (b :: bs) total = wub_slices e sched p pending bs total.
Proof. intros Hb. simpl. by destruct (length sched + 2); simpl; rewrite Hb. Qed.

Lemma wub_closed e sched p pending bs : read_open p = false → 0 < lens bs →
  PipeEnd_write_user_buffer e sched p pending bs =
    Finished (Returned (p, (λ s, Z.lor s SIGPIPE_BIT) <$> pending, Err EPIPE_ERRNO)).
Proof.
  intros Hro. unfold PipeEnd_write_user_buffer, lens. induction bs as [|b bs IH]; simpl; [lia|]. rewrite length_app.
  intros Hl. destruct (decide (length b = 0)) as [Hb|Hb].
  - change (wub_slices e sched p pending (b :: bs) 0 =
      Finished (Returned (p, (λ s, Z.lor s SIGPIPE_BIT) <$> pending, Err EPIPE_ERRNO))).
    rewrite wub_skip by done. apply IH. lia.
  - replace (length sched + 2) with (S (S (length sched))) by lia. cbn [wub_slice].
    destruct (Nat.ltb_spec 0 (length b)); [|lia]. by rewrite Hro.
Qed.

Lemma wub_full e sched p pending bs : read_open p = true → capacity p <= plen p → 0 < lens bs →
  PipeEnd_write_user_buffer e sched p pending bs = wub_full_wait e sched p pending bs.
Proof.
  intros Hro Hfull. unfold wub_full_wait, PipeEnd_write_user_buffer. induction bs as [|b bs IH]; [unfold lens; simpl; lia|].
  unfold lens. simpl concat. rewrite length_app. intros Hl. destruct (decide (length b = 0)) as [Hb|Hb].
  - rewrite wub_skip by done. rewrite IH by (unfold lens; lia).
    destruct (nonblock e), sched as [|t sched]; try done. by rewrite wub_skip.
  - cbn [wub_slices]. replace (length sched + 2) with (S (length sched + 1)) by lia. cbn [wub_slice].
    destruct (Nat.ltb_spec 0 (length b)); [|lia]. rewrite Hro. simpl negb. cbv iota.
    destruct (Nat.ltb_spec (plen p) (capacity p)); [lia|]. simpl Nat.ltb. cbv iota.
    destruct (nonblock e); [done|]. destruct sched as [|t sched]; [done|].
    destruct (signal_pending t); [done|]. simpl length. by replace (S (length sched) + 1) with (length sched + 2) by lia.
Qed.

(** [PipeEnd::write_user_buffer], on every branch.  Writing to a pipe whose
    reader has gone changes nothing, raises [SIGPIPE] and fails with [EPIPE].
    With room in the pipe the call never waits: it appends the first
    [min (room, offered)] bytes.  On a full pipe it fails with [EAGAIN] if
    non-blocking, is interrupted if a signal is pending, and otherwise resumes
    after the other tasks have run. *)
Theorem pipe_write_exact e sched p pending bs : pipe_wf p → 0 < lens bs →
  let n := Nat.min (capacity p - plen p) (lens bs) in
  (read_open p = false → PipeEnd_write_user_buffer e sched p pending bs =
     Finished (Returned (p, (λ s, Z.lor s SIGPIPE_BIT) <$> pending, Err EPIPE_ERRNO))) ∧
  (read_open p = true → plen p < capacity p →
     ∃ p', PipeEnd_write_user_buffer e sched p pending bs = Finished (Returned (p', pending, Ok (Z.of_nat n))) ∧
       pipe_wf p' ∧ same_ends p p' ∧ contents p' = contents p ++ take n (concat bs)) ∧
  (read_open p = true → plen p = capacity p → PipeEnd_write_user_buffer e sched p pending bs =
     if nonblock e then Finished (Returned (p, pending, Err EAGAIN_ERRNO))
     else match sched with
          | [] => Finished (Asleep p)
          | t :: sched' => if signal_pending t then Finished (Returned (p, pending, Ok USIZE_MAX))
                           else PipeEnd_write_user_buffer e sched' (others t p) pending bs
          end).
Proof.
  intros Hwf Hl n. split_and!.
  - intros Hro. by apply wub_closed.
  - intros Hro Hp. unfold PipeEnd_write_user_buffer. apply (wub_slices_room e sched pending bs p 0); auto.
  - intros Hro Hp. apply wub_full; [done|lia|done].
Qed.

(** What [PipeEnd::write] returns for each result of [write_user_buffer]. *)
Definition write_code (r : result Z Z) : Z :=
  match r with
  | Ok n => n
  | Err e => if decide (e = EAGAIN_ERRNO) then EAGAIN_SENTINEL else 0
  end.

Lemma write_slice_wub fuel e pending slice : ∀ sched p offset total,
  write_slice fuel e sched p slice offset total =
  match wub_slice fuel e sched p pending slice offset total with
  | Finished (Break b) => Finished (Break b)
  | Finished (Return (p, _, r)) => Finished (Return (p, write_code r))
  | Finished (Sleep p) => Finished (Sleep p)
  | OutOfFuel => OutOfFuel
  end.
Proof.
  induction fuel as [|fuel IH]; intros sched p offset total; simpl;
    destruct (Nat.ltb_spec offset (length slice)) as [Ho|Ho]; try done.
  destruct (read_open p); simpl.
  - destruct (Nat.ltb_spec (plen p) (capacity p)).
    + destruct (write_from p (drop offset slice)) as [[p' n]|]; [|done]. by destruct (Nat.eqb_spec n 0).
    + destruct (Nat.ltb_spec 0 total); [done|]. destruct (nonblock e); [done|].
      destruct sched as [|t sched]; [done|]. by destruct (signal_pending t).
  - destruct (Nat.eqb_spec total 0) as [->|]; done.
Qed.

(** [PipeEnd::write] and [PipeEnd::write_user_buffer] are the same
    operation on the pipe and wait in the same places; they differ only in how
    errors are reported: [write] folds [EPIPE] into [0] (raising no signal) and
    [EAGAIN] into a sentinel. *)
Theorem pipe_write_agree e sched p pending bs :
  PipeEnd_write e sched p bs =
  match PipeEnd_write_user_buffer e sched p pending bs with
  | Finished (Returned (p', _, r)) => Finished (Returned (p', write_code r))
  | Finished (Asleep p') => Finished (Asleep p')
  | OutOfFuel => OutOfFuel
  end.
Proof.
  unfold PipeEnd_write, PipeEnd_write_user_buffer. generalize 0 as total. revert sched p.
  induction bs as [|b bs IH]; intros sched p total; [done|].
  cbn [write_slices wub_slices]. rewrite (write_slice_wub _ e pending).
  destruct (wub_slice _ _ _ _ _ _ _ _) as [[[[sched' p'] t']|[[p' pe'] r]|p']|]; try done.
Qed.

(** ** Waiting and polling *)

(** The pipe after the turns of a schedule. *)
Definition after (sched : list turn) (p : PipeBuffer) : PipeBuffer :=
  foldl (λ p t, others t p) p sched.

Definition read_ready (p : PipeBuffer) : bool := (0 <? plen p) || negb (write_open p).
Definition write_ready (p : PipeBuffer) : bool := (plen p <? capacity p) || negb (read_open p).

(** The other tasks keep the buffer well formed and send no signal. *)
Definition quiet (t : turn) : Prop :=
  signal_pending t = false ∧ ∀ p, pipe_wf p → pipe_wf (others t p).

(** A reader that need not wait. *)
Lemma read_now e sched p bs : pipe_wf p → bs ≠ [] → read_ready p = true →
  let n := Nat.min (plen p) (lens bs) in
  ∃ p' bs', PipeEnd_read e sched p bs = Finished (Returned (p', bs', Z.of_nat n)) ∧
    contents p' = drop n (contents p) ∧ concat bs' = take n (contents p) ++ drop n (concat bs).
Proof.
  intros Hwf Hbs Hr n. destruct (decide (plen p = 0)) as [Hz|Hz].
  - exists p, bs. unfold n, read_ready in *. rewrite Hz in *. simpl in *.
    rewrite read_wait, Hr by done. done.
  - unfold PipeEnd_read.
    destruct (read_slices_data e sched bs p 0 Hwf) as (p' & bs' & H1 & _ & _ & H2 & _ & H3); [lia|eauto].
Qed.

(** [C30] No lost wake-up: a blocking reader that is not interrupted returns as
    soon as, after some number [k] of turns of the other tasks, the pipe has
    bytes or has lost its writer; it then returns what that pipe offers,
    whatever would happen in later turns. *)
Theorem pipe_read_wakes e sched p bs :
  pipe_wf p → bs ≠ [] → nonblock e = false → Forall quiet sched → read_ready (after sched p) = true →
  ∃ k p' bs', let pk := after (take k sched) p in
    let n := Nat.min (plen pk) (lens bs) in
    read_ready pk = true ∧ (∀ j, j < k → read_ready (after (take j sched) p) = false) ∧
    PipeEnd_read e sched p bs = Finished (Returned (p', bs', Z.of_nat n)) ∧
    contents p' = drop n (contents pk) ∧ concat bs' = take n (contents pk) ++ drop n (concat bs).
Proof.
  intros Hwf Hbs Hnb Hq Hready. revert p Hwf Hready.
  induction Hq as [|t sched [Hsig Hpres] Hq IH]; intros p Hwf Hready.
  all: destruct (read_ready p) eqn:Hr;
    [edestruct read_now as (p' & bs' & H); [done|done|done|];
     exists 0, p', bs'; split; [done|split; [lia|exact H]]|].
  { unfold after in Hready. simpl in Hready. congruence. }
  destruct (IH (others t p)) as (k & p' & bs' & H1 & H2 & H3 & H4); [auto|done|].
  exists (S k), p', bs'. split_and!; [done| | |apply H4|apply H4].
  - intros [|j] Hj; [done|]. apply (H2 j). lia.
  - unfold read_ready in Hr. apply orb_false_iff in Hr as [Hz Hw]. apply Nat.ltb_ge in Hz.
    rewrite read_wait, Hw, Hnb, Hsig by (done || lia). done.
Qed.

(** [C31] [poll] tells the truth: it reports [POLLIN] exactly when a read would
    return without waiting, and [POLLOUT] exactly when a write would. *)
Theorem pipe_poll_exact e p pending bs : pipe_wf p → 0 < lens bs → nonblock e = false →
  (readable e = true →
     PipeEnd_poll e p POLLIN = POLLIN ↔ ∃ r, PipeEnd_read e [] p bs = Finished (Returned r)) ∧
  (writable e = true →
     PipeEnd_poll e p POLLOUT = POLLOUT ↔
       ∃ r, PipeEnd_write_user_buffer e [] p pending bs = Finished (Returned r)).
Proof.
  intros Hwf Hl Hnb. assert (bs ≠ []) as Hbs by (intros ->; unfold lens in Hl; simpl in Hl; lia).
  unfold PipeEnd_poll. split; intros He; rewrite He; simpl; rewrite ?andb_false_r.
  - fold (read_ready p). destruct (read_ready p) eqn:Hr.
    + split; [intros _|done]. destruct (read_now e [] p bs Hwf Hbs Hr) as (p' & bs' & -> & _). eauto.
    + split; [done|]. intros [r H]. unfold read_ready in Hr. apply orb_false_iff in Hr as [Hz Hw].
      apply Nat.ltb_ge in Hz. rewrite read_wait, Hw, Hnb in H by (done || lia). done.
  - fold (write_ready p). destruct (write_ready p) eqn:Hr; unfold write_ready in Hr.
    + split; [intros _|done]. apply orb_true_iff in Hr as [Hz|Hw].
      * apply Nat.ltb_lt in Hz. destruct (read_open p) eqn:Hro.
        -- destruct (wub_slices_room e [] pending bs p 0 Hwf Hro) as (p' & H & _); [auto|]. eauto.
        -- rewrite wub_closed by done. eauto.
      * apply negb_true_iff in Hw. rewrite wub_closed by done. eauto.
    + split; [done|]. intros [r H]. apply orb_false_iff in Hr as [Hz Hw].
      apply Nat.ltb_ge in Hz. apply negb_false_iff in Hw. rewrite wub_full in H by done.
      unfold wub_full_wait in H. by rewrite Hnb in H.
Qed.

(** ** Examples: a pipe whose buffer wraps around, and a reader that waits *)

(** A pipe that holds bytes 1..3 across the end of a four-byte buffer. *)
Definition wrapped : PipeBuffer := mkPipe [2; 3; 0; 1]%Z 3 2 3 true true.

Lemma wrapped_wf : pipe_wf wrapped.
Proof. split; vm_compute; lia || reflexivity. Qed.

Definition full_pipe : PipeBuffer := mkPipe [2; 3; 4; 1]%Z 3 3 4 true true.

Lemma full_pipe_wf : pipe_wf full_pipe.
Proof. split; vm_compute; lia || reflexivity. Qed.

(** The other task writes two bytes. *)
Definition writer_turn : turn :=
  mkTurn false (λ p, match write_from p [8; 9]%Z with Finished (p', _) => p' | OutOfFuel => p end).

Lemma writer_turn_quiet : quiet writer_turn.
Proof.
  split; [done|]. intros p Hwf. simpl.
  destruct (write_from_spec p [8; 9]%Z Hwf) as (p' & -> & H & _). done.
Qed.

Lemma pipe_read_exact_witness :
  ∃ p' bs', PipeEnd_read (PipeEnd_new true false) [] wrapped [[0]; [0; 0; 0]]%Z = Finished (Returned (p', bs', 3%Z)) ∧
    concat bs' = [1; 2; 3; 0]%Z.
Proof.
  destruct (proj1 (pipe_read_exact (PipeEnd_new true false) [] wrapped [[0]; [0; 0; 0]]%Z wrapped_wf ltac:(done)) ltac:(vm_compute; lia))
    as (p' & bs' & H1 & _ & _ & _ & _ & H2).
  exists p', bs'. split; [exact H1|exact H2].
Defined.

Lemma pipe_write_exact_witness :
  PipeEnd_write_user_buffer (mkEnd false true true) [] full_pipe (Some 0%Z) [[7]]%Z =
    Finished (Returned (full_pipe, Some 0%Z, Err EAGAIN_ERRNO)) ∧
  ∃ p', PipeEnd_write_user_buffer (PipeEnd_new false true) [] wrapped (Some 0%Z) [[7]; [8]]%Z =
      Finished (Returned (p', Some 0%Z, Ok 1%Z)) ∧ contents p' = [1; 2; 3; 7]%Z.
Proof.
  split.
  - exact (proj2 (proj2 (pipe_write_exact (mkEnd false true true) [] full_pipe (Some 0%Z) [[7]]%Z
      full_pipe_wf ltac:(vm_compute; lia))) eq_refl eq_refl).
  - destruct (proj1 (proj2 (pipe_write_exact (PipeEnd_new false true) [] wrapped (Some 0%Z) [[7]; [8]]%Z
      wrapped_wf ltac:(vm_compute; lia))) eq_refl ltac:(vm_compute; lia)) as (p' & H1 & _ & _ & H2).
    exists p'. split; [exact H1|exact H2].
Defined.

Lemma pipe_read_wakes_witness :
  ∃ k p' bs', read_ready (after (take k [writer_turn; writer_turn]) (PipeBuffer_new 4)) = true ∧
    PipeEnd_read (PipeEnd_new true false) [writer_turn; writer_turn] (PipeBuffer_new 4) [[0; 0]]%Z =
      Finished (Returned (p', bs', Z.of_nat (Nat.min (plen (after (take k [writer_turn; writer_turn]) (PipeBuffer_new 4))) 2))).
Proof.
  destruct (pipe_read_wakes (PipeEnd_new true false) [writer_turn; writer_turn] (PipeBuffer_new 4) [[0; 0]]%Z
    (proj1 (PipeBuffer_new_wf 4)) ltac:(done) eq_refl
    (Forall_cons_2 _ _ _ writer_turn_quiet (Forall_cons_2 _ _ _ writer_turn_quiet (Forall_nil_2 _))) eq_refl)
    as (k & p' & bs' & H1 & H2 & H3 & _).
  exists k, p', bs'. split; [exact H1|exact H3].
Defined.

Lemma pipe_poll_exact_witness :
  PipeEnd_poll (PipeEnd_new true false) wrapped POLLIN = POLLIN ↔
    ∃ r, PipeEnd_read (PipeEnd_new true false) [] wrapped [[0]]%Z = Finished (Returned r).
Proof.
  exact (proj1 (pipe_poll_exact (PipeEnd_new true false) wrapped None [[0]]%Z wrapped_wf
    ltac:(vm_compute; lia) eq_refl) eq_refl).
Defined.
