(* ===== verification/FdTable.v ===== *)
(** * Descriptor tables (os/src/task/process.rs, os/src/syscall/fs.rs)

    The descriptor tables of all processes, the reference counts of the open
    files behind them, the close-on-exec flags, the flock table, and the system
    calls that work on descriptors.  Pipes are those of Pipe.v; the other kinds
    of files are an interface.  The reference counts are shown to be the numbers
    of descriptors, whatever the processes do, so that a pipe closes exactly with
    the last descriptor of its end. *)

From stdpp Require Import base gmap list numbers list_numbers option strings.
From S2P Require Import Prelude Errno UserIface Pipe.

(** ** Open files *)

(** What the calls below use of the trait [File]. *)
Class FileTrait (O : Type) : Type := {
  f_readable : O → bool;
  f_writable : O → bool;
  f_fd_flags : O → Z;
  f_status_flags : O → Z;
  f_set_status_flags : O → Z → O;
  f_get_seals : O → option Z;
  f_add_seals : O → Z → Z * O;
  f_path : O → option string;
  f_has_inode : O → bool;
}.

(** A file object: an end of the pipe numbered [pipe], or some other file. *)
Inductive FileObj (O : Type) : Type :=
| FPipe (pipe : Z) (e : PipeEnd)
| FOther (o : O).
Arguments FPipe {O} pipe e.
Arguments FOther {O} o.

(** A process: its descriptor table, which holds names of file objects, and its
    limit on descriptors. *)
Record Proc : Type := mkProc { fd_table : list (option Z); nofile : Z }.

(** All file objects with their [Arc] counts, the pipe buffers, the tables of
    the processes, [FD_FLAGS] and [FLOCK_LOCKS]. *)
Record Files (O : Type) : Type := mkFiles {
  objs : gmap Z (FileObj O * nat);
  next_obj : Z;
  pipes : gmap Z PipeBuffer;
  next_pipe : Z;
  procs : gmap Z Proc;
  fd_flags : gmap (Z * Z) Z;
  flocks : gmap string (Z * Z);
}.
Arguments mkFiles {O} _ _ _ _ _ _ _.
Arguments objs {O} _.
Arguments next_obj {O} _.
Arguments pipes {O} _.
Arguments next_pipe {O} _.
Arguments procs {O} _.
Arguments fd_flags {O} _.
Arguments flocks {O} _.

Section calls.
Context {O : Type} {FT : FileTrait O}.
Implicit Types (K : Files O).

Definition on_objs (f : gmap Z (FileObj O * nat) → gmap Z (FileObj O * nat)) K : Files O :=
  mkFiles (f (objs K)) (next_obj K) (pipes K) (next_pipe K) (procs K) (fd_flags K) (flocks K).
Definition on_pipes (f : gmap Z PipeBuffer → gmap Z PipeBuffer) K : Files O :=
  mkFiles (objs K) (next_obj K) (f (pipes K)) (next_pipe K) (procs K) (fd_flags K) (flocks K).
Definition on_procs (f : gmap Z Proc → gmap Z Proc) K : Files O :=
  mkFiles (objs K) (next_obj K) (pipes K) (next_pipe K) (f (procs K)) (fd_flags K) (flocks K).
Definition on_flags (f : gmap (Z * Z) Z → gmap (Z * Z) Z) K : Files O :=
  mkFiles (objs K) (next_obj K) (pipes K) (next_pipe K) (procs K) (f (fd_flags K)) (flocks K).
Definition on_flocks (f : gmap string (Z * Z) → gmap string (Z * Z)) K : Files O :=
  mkFiles (objs K) (next_obj K) (pipes K) (next_pipe K) (procs K) (fd_flags K) (f (flocks K)).

(** [Arc::new], [Arc::clone] and the drop of an [Arc]: with the last one the
    object goes, and an end of a pipe is dropped. *)
Definition file_new (f : FileObj O) : M (Files O) Z := λ K,
  Ret (next_obj K, mkFiles (<[next_obj K := (f, 1%nat)]> (objs K)) (next_obj K + 1) (pipes K) (next_pipe K)
                     (procs K) (fd_flags K) (flocks K)).
Definition file_obj (id : Z) : M (Files O) (FileObj O * nat) := let! K := m_get in m_unwrap (objs K !! id).
Definition file_clone (id : Z) : M (Files O) unit :=
  let! (f, n) := file_obj id in m_modify (on_objs <[id := (f, S n)]>).
Definition file_dead (f : FileObj O) : M (Files O) unit :=
  match f with
  | FPipe k e => m_modify (on_pipes (alter (PipeEnd_drop e) k))
  | FOther _ => m_ret tt
  end.
Definition file_drop (id : Z) : M (Files O) unit :=
  let! (f, n) := file_obj id in
  if (n =? 1)%nat then m_modify (on_objs (delete id)) ;;; file_dead f
  else m_modify (on_objs <[id := (f, Nat.pred n)]>).
Definition file_set (id : Z) (g : FileObj O → FileObj O) : M (Files O) unit :=
  let! (f, n) := file_obj id in m_modify (on_objs <[id := (g f, n)]>).

(** ** The table of a process *)

Definition proc (pid : Z) : M (Files O) Proc := let! K := m_get in m_unwrap (procs K !! pid).
Definition set_table (pid : Z) (t : list (option Z)) : M (Files O) unit :=
  let! p := proc pid in m_modify (on_procs <[pid := mkProc t (nofile p)]>).

(** The first empty slot from [from] on. *)
Definition first_free (from : nat) (t : list (option Z)) : option nat :=
  (λ p, (from + p.1)%nat) <$> list_find (λ s, s = None) (drop from t).

(** [ProcessFs::alloc_fd] *)
Definition alloc_fd (limit : Z) (t : list (option Z)) : option Z * list (option Z) :=
  match first_free 0 t with
  | Some fd => if Z.of_nat fd <? limit then (Some (Z.of_nat fd), t) else (None, t)
  | None =>
      let new_fd := Z.of_nat (length t) in
      if limit <=? new_fd then (None, t) else (Some new_fd, t ++ [None])
  end.

Definition get_file (pid fd : Z) : M (Files O) (option Z) :=
  let! p := proc pid in
  match fd_table p !! Z.to_nat fd with
  | Some (Some id) => file_clone id ;;; m_ret (Some id)
  | _ => m_ret None
  end.

(** [fs.fd_table[fd] = v]: out of range it panics, and the old value is dropped. *)
Definition fd_store (pid fd : Z) (v : option Z) : M (Files O) unit :=
  let! p := proc pid in
  let! old := m_unwrap (fd_table p !! Z.to_nat fd) in
  set_table pid (<[Z.to_nat fd := v]> (fd_table p)) ;;;
  match old with Some id => file_drop id | None => m_ret tt end.

(** [fd_table.resize_with(fd + 1, || None)] when the table is shorter *)
Definition grow_to (fd : Z) (t : list (option Z)) : list (option Z) :=
  t ++ replicate (S (Z.to_nat fd) - length t) None.

Definition install_file (pid id : Z) : M (Files O) (option Z) :=
  let! p := proc pid in
  let '(r, t) := alloc_fd (nofile p) (fd_table p) in
  set_table pid t ;;;
  match r with
  | None => file_drop id ;;; m_ret None
  | Some fd => fd_store pid fd (Some id) ;;; m_ret (Some fd)
  end.

Definition install_file_at (pid fd id : Z) : M (Files O) bool :=
  let! p := proc pid in
  if nofile p <=? fd then file_drop id ;;; m_ret false
  else
    set_table pid (grow_to fd (fd_table p)) ;;;
    fd_store pid fd (Some id) ;;;
    m_ret true.

Definition take_fd (pid fd : Z) : M (Files O) (option Z) :=
  let! p := proc pid in
  match fd_table p !! Z.to_nat fd with
  | None => m_ret None
  | Some old => set_table pid (<[Z.to_nat fd := None]> (fd_table p)) ;;; m_ret old
  end.

(** ** Descriptor flags and locks *)

Definition fd_flags_get (pid fd : Z) : M (Files O) Z :=
  let! K := m_get in m_ret (default 0 (fd_flags K !! (pid, fd))).
Definition fd_flags_set (pid fd flags : Z) : M (Files O) unit :=
  m_modify (on_flags (if flags =? 0 then delete (pid, fd) else <[(pid, fd) := flags]>)).
Definition fd_flags_remove (pid fd : Z) : M (Files O) unit := m_modify (on_flags (delete (pid, fd))).
Definition flock_unlock_owner (pid fd : Z) : M (Files O) unit :=
  m_modify (on_flocks (filter (λ kv, kv.2 ≠ (pid, fd)))).

(** ** The system calls of process [pid] *)

Definition sys_close (pid fd : Z) : M (Files O) Z :=
  let! o := take_fd pid fd in
  match o with
  | None => m_ret (errno EBADF)
  | Some id => file_drop id ;;; fd_flags_remove pid fd ;;; flock_unlock_owner pid fd ;;; m_ret 0
  end.

(** One descriptor of close_range, with and without CLOSE_RANGE_CLOEXEC. *)
Definition close_range_mark (pid fd : Z) : M (Files O) unit :=
  let! o := get_file pid fd in
  match o with
  | None => m_ret tt
  | Some id => file_drop id ;;; let! cur := fd_flags_get pid fd in fd_flags_set pid fd (Z.lor cur 1)
  end.
Definition close_range_close (pid fd : Z) : M (Files O) unit :=
  let! o := take_fd pid fd in
  match o with
  | None => m_ret tt
  | Some id => file_drop id ;;; fd_flags_remove pid fd ;;; flock_unlock_owner pid fd
  end.
Definition sys_close_range (pid first last flags : Z) : M (Files O) Z :=
  if negb (Z.ldiff flags 6 =? 0) then m_ret (errno EINVAL)
  else if last <? first then m_ret (errno EINVAL)
  else
    let! p := proc pid in
    let fd_len := Z.of_nat (length (fd_table p)) in
    if (fd_len =? 0) || (fd_len <=? first) then m_ret 0
    else
      let upper := Z.min last (fd_len - 1) in
      m_for (seqZ first (upper - first + 1)) (if any_bit flags 4 then close_range_mark pid else close_range_close pid) ;;;
      m_ret 0.

Definition sys_dup (pid fd : Z) : M (Files O) Z :=
  let! file := get_file pid fd in
  match file with
  | None => m_ret (errno EBADF)
  | Some id =>
      let! new_fd := install_file pid id in
      match new_fd with
      | None => m_ret (errno EMFILE)
      | Some new_fd => fd_flags_set pid new_fd 0 ;;; m_ret new_fd
      end
  end.

Definition sys_dup3 (pid oldfd newfd flags : Z) : M (Files O) Z :=
  if negb (Z.ldiff flags (2 ^ 19) =? 0) then m_ret (errno EINVAL)
  else if oldfd =? newfd then m_ret (errno EINVAL)
  else
    let! file := get_file pid oldfd in
    match file with
    | None => m_ret (errno EBADF)
    | Some id =>
        let! p := proc pid in
        if nofile p <=? newfd then file_drop id ;;; m_ret (errno EBADF)
        else
          let! _ := install_file_at pid newfd id in
          fd_flags_set pid newfd (if any_bit flags (2 ^ 19) then 1 else 0) ;;;
          m_ret newfd
    end.

(** The methods of a file object: those of [File for PipeEnd], where the trait has
    defaults the defaults. *)
#[export] Instance FileObj_methods : FileTrait (FileObj O) := {|
  f_readable f := match f with FPipe _ e => readable e | FOther o => f_readable o end;
  f_writable f := match f with FPipe _ e => writable e | FOther o => f_writable o end;
  f_fd_flags f := match f with FPipe _ _ => 0 | FOther o => f_fd_flags o end;
  f_status_flags f := match f with FPipe _ e => PipeEnd_status_flags e | FOther o => f_status_flags o end;
  f_set_status_flags f flags :=
    match f with
    | FPipe k e => FPipe k (PipeEnd_set_status_flags e flags)
    | FOther o => FOther (f_set_status_flags o flags)
    end;
  f_get_seals f := match f with FPipe _ _ => None | FOther o => f_get_seals o end;
  f_add_seals f seals :=
    match f with FPipe _ _ => (-22, f) | FOther o => let '(r, o) := f_add_seals o seals in (r, FOther o) end;
  f_path f := match f with FPipe _ _ => None | FOther o => f_path o end;
  f_has_inode f := match f with FPipe _ _ => false | FOther o => f_has_inode o end;
|}.

(** The branch F_DUPFD of fcntl; it owns [id]. *)
Definition fcntl_dupfd (pid id arg cloexec : Z) : M (Files O) Z :=
  let! p := proc pid in
  if nofile p <=? arg then file_drop id ;;; m_ret (errno EINVAL)
  else
    let new_fd := match first_free (Z.to_nat arg) (fd_table p) with
                  | Some i => Z.of_nat i
                  | None => Z.max arg (Z.of_nat (length (fd_table p)))
                  end in
    if nofile p <=? new_fd then file_drop id ;;; m_ret (errno EMFILE)
    else
      set_table pid (grow_to new_fd (fd_table p)) ;;;
      fd_store pid new_fd (Some id) ;;;
      fd_flags_set pid new_fd cloexec ;;;
      m_ret new_fd.

Section user.
Context {U : Type} {UM : UserMemory U}.
(** [translated_ref]: the bytes behind a pointer, taken at consecutive physical
    addresses. *)
Variable peek : U → Z → nat → list Z.

(** A [Flock] is 32 bytes: [l_type] at 0, [l_whence] at 2. *)
Definition flock_whence_ok (b : list Z) : bool := existsb (Z.eqb (le_get (take 2 (drop 2 b)))) [0; 1; 2].

Definition fcntl_getlk (u : U) (arg : Z) : Z * U :=
  if arg =? 0 then (errno EFAULT, u)
  else
    match user_read u arg 32 with
    | None => (errno EFAULT, u)
    | Some _ =>
        let flock := peek u arg 32 in
        if negb (flock_whence_ok flock) then (errno EINVAL, u)
        else if negb (user_writable u arg 32) then (errno EFAULT, u)
        else let '(ok, u) := user_write u arg (le_put 2 2 ++ drop 2 flock) in (if ok then 0 else errno EFAULT, u)
    end.
Definition fcntl_setlk (u : U) (f : FileObj O) (arg : Z) : Z :=
  if arg =? 0 then errno EFAULT
  else
    match user_read u arg 32 with
    | None => errno EFAULT
    | Some _ =>
        if negb (f_has_inode f) then errno EINVAL
        else if negb (flock_whence_ok (peek u arg 32)) then errno EINVAL
        else 0
    end.

Definition sys_fcntl (u : U) (pid fd cmd arg : Z) : M (Files O) (Z * U) :=
  let! file := get_file pid fd in
  match file with
  | None => m_ret (errno EBADF, u)
  | Some id =>
      if (cmd =? 0) || (cmd =? 1030) (* F_DUPFD, F_DUPFD_CLOEXEC *) then
        let! r := fcntl_dupfd pid id arg (if cmd =? 1030 then 1 else 0) in m_ret (r, u)
      else
        let! (f, _) := file_obj id in
        let! r :=
          if cmd =? 1 (* F_GETFD *) then
            let! fl := fd_flags_get pid fd in m_ret (Z.land (Z.lor (f_fd_flags f) fl) 1, u)
          else if cmd =? 2 (* F_SETFD *) then fd_flags_set pid fd (Z.land (wrap32 arg) 1) ;;; m_ret (0, u)
          else if cmd =? 3 (* F_GETFL *) then
            m_ret (if f_readable f && f_writable f then Z.lor (f_status_flags f) 2
                   else if f_writable f then Z.lor (f_status_flags f) 1
                   else f_status_flags f, u)
          else if cmd =? 4 (* F_SETFL *) then file_set id (λ f, f_set_status_flags f (wrap32 arg)) ;;; m_ret (0, u)
          else if cmd =? 5 (* F_GETLK *) then m_ret (fcntl_getlk u arg)
          else if (cmd =? 6) || (cmd =? 7) (* F_SETLK, F_SETLKW *) then m_ret (fcntl_setlk u f arg, u)
          else if cmd =? 1034 (* F_GET_SEALS *) then
            m_ret (match f_get_seals f with Some s => s | None => errno EINVAL end, u)
          else if cmd =? 1033 (* F_ADD_SEALS *) then
            file_set id (λ f, (f_add_seals f (wrap32 arg)).2) ;;; m_ret ((f_add_seals f (wrap32 arg)).1, u)
          else m_ret (errno EINVAL, u) in
        file_drop id ;;; m_ret r
  end.

(** [make_pipe(0)], with the two ends as file objects *)
Definition new_pipe (status : Z) : M (Files O) (Z * Z) :=
  let! K := m_get in
  let k := next_pipe K in
  let '(p, r, w) := make_pipe 0 in
  let st e := if status =? 0 then e else PipeEnd_set_status_flags e status in
  m_modify (λ K, mkFiles (objs K) (next_obj K) (<[k := p]> (pipes K)) (k + 1) (procs K) (fd_flags K) (flocks K)) ;;;
  let! read_end := file_new (FPipe k (st r)) in
  let! write_end := file_new (FPipe k (st w)) in
  m_ret (read_end, write_end).

Definition sys_pipe2 (u : U) (pid fds flags : Z) : M (Files O) (Z * U) :=
  if fds =? 0 then m_ret (errno EFAULT, u)
  else if negb (Z.ldiff flags (2 ^ 19 + 2 ^ 14 + 2 ^ 11) =? 0) then m_ret (errno EINVAL, u)
  else
    let! (read_end, write_end) := new_pipe (if any_bit flags (2 ^ 11) then 2 ^ 11 else 0) in
    let! r0 := install_file pid read_end in
    match r0 with
    | None => file_drop write_end ;;; m_ret (errno EMFILE, u)
    | Some fd0 =>
        let! r1 := install_file pid write_end in
        match r1 with
        | None =>
            let! o := take_fd pid fd0 in
            match o with Some id => file_drop id | None => m_ret tt end ;;;
            m_ret (errno EMFILE, u)
        | Some fd1 =>
            let cloexec := if any_bit flags (2 ^ 19) then 1 else 0 in
            fd_flags_set pid fd0 cloexec ;;;
            fd_flags_set pid fd1 cloexec ;;;
            let '(ok, u) := user_write u fds (le_put 4 fd0 ++ le_put 4 fd1) in
            m_ret (if ok then 0 else errno EFAULT, u)
        end
    end.
End user.

(** The end of openat, timerfd_create and the like: a new file gets a descriptor. *)
Definition open_install (pid : Z) (o : O) : M (Files O) Z :=
  let! id := file_new (FOther o) in
  let! r := install_file pid id in
  match r with Some fd => m_ret fd | None => m_ret (errno EMFILE) end.

(** [new]: [TimerFdFile::new] *)
Definition sys_timerfd_create (new : Z → bool → bool → O) (pid clockid flags : Z) : M (Files O) Z :=
  if negb (existsb (Z.eqb clockid) [0; 1; 7]) then m_ret (errno EINVAL)
  else if negb (Z.ldiff flags (2 ^ 19 + 2 ^ 11) =? 0) then m_ret (errno EINVAL)
  else open_install pid (new clockid (any_bit flags (2 ^ 11)) (any_bit flags (2 ^ 19))).

(** [new]: [MemFdFile::new]; [name_str]: what [translated_str_checked] returns *)
Definition sys_memfd_create (new : bool → O) (pid name : Z) (name_str : option (list Z)) (flags : Z) : M (Files O) Z :=
  if name =? 0 then m_ret (errno EFAULT)
  else if negb (Z.ldiff flags 3 =? 0) then m_ret (errno EINVAL)
  else
    match name_str with
    | None => m_ret (errno EFAULT)
    | Some s =>
        if 249 <? Z.of_nat (length s) then m_ret (errno EINVAL)
        else
          let! id := file_new (FOther (new (any_bit flags 2))) in
          let! r := install_file pid id in
          match r with
          | None => m_ret (errno EMFILE)
          | Some fd => (if any_bit flags 1 then fd_flags_set pid fd 1 else m_ret tt) ;;; m_ret fd
          end
    end.

Definition sys_flock (pid fd operation : Z) : M (Files O) Z :=
  let! file := get_file pid fd in
  match file with
  | None => m_ret (errno EBADF)
  | Some id =>
      let! (f, _) := file_obj id in
      let! r :=
        match f_path f with
        | None => m_ret (errno EBADF)
        | Some path =>
            let! K := m_get in
            if any_bit operation 8 (* LOCK_UN *) then
              (if bool_decide (flocks K !! path = Some (pid, fd)) then m_modify (on_flocks (delete path)) else m_ret tt) ;;;
              m_ret 0
            else if negb (any_bit operation 3) (* LOCK_SH | LOCK_EX *) then m_ret (errno EINVAL)
            else
              match flocks K !! path with
              | None => m_modify (on_flocks <[path := (pid, fd)]>) ;;; m_ret 0
              | Some owner => m_ret (if bool_decide (owner = (pid, fd)) then 0 else errno EAGAIN)
              end
        end in
      file_drop id ;;; m_ret r
  end.

(** ** Processes *)

(** The descriptor part of [fork]: every open descriptor is cloned. *)
Definition fork_fds (pid child : Z) : M (Files O) unit :=
  let! p := proc pid in
  m_for (fd_table p) (λ s, match s with Some id => file_clone id | None => m_ret tt end) ;;;
  m_modify (on_procs <[child := p]>).

(** The descriptor part of the exit of a process: [fd_table.clear()]. *)
Definition exit_fds (pid : Z) : M (Files O) unit :=
  let! p := proc pid in
  set_table pid [] ;;;
  m_for (fd_table p) (λ s, match s with Some id => file_drop id | None => m_ret tt end).

(** The zombie is reaped and its pid becomes free. *)
Definition reap_fds (pid : Z) : M (Files O) unit := let! _ := proc pid in m_modify (on_procs (delete pid)).

(** The initial process: standard input and twice standard output. *)
Definition init_files (stdin stdout : O) (limit : Z) (pid : Z) : Files O :=
  mkFiles {[ 0 := (FOther stdin, 1%nat); 1 := (FOther stdout, 1%nat); 2 := (FOther stdout, 1%nat) ]} 3 ∅ 0
    {[ pid := mkProc [Some 0; Some 1; Some 2] limit ]} ∅ ∅.
End calls.

(** ** A system of processes *)

Section system.
Context {O U : Type} {FT : FileTrait O} {UM : UserMemory U}.
Variables (peek : U → Z → nat → list Z) (memfd : bool → O) (timerfd : Z → bool → bool → O).

(** What a reader or a writer does with the pipe behind a descriptor while it
    holds the lock of the buffer. *)
Definition pipe_step_fd (pid fd : Z) (reading : bool) (g : PipeBuffer → looped (PipeBuffer * nat)) : M (Files O) Z :=
  let! file := get_file pid fd in
  match file with
  | None => m_ret (errno EBADF)
  | Some id =>
      let! (f, _) := file_obj id in
      let! r :=
        match f with
        | FPipe k e =>
            if negb (Bool.eqb (readable e) reading) then m_ret (errno EBADF)
            else
              let! K := m_get in
              let! p := m_unwrap (pipes K !! k) in
              match g p with
              | Finished (p, n) => m_modify (on_pipes <[k := p]>) ;;; m_ret (Z.of_nat n)
              | OutOfFuel => m_panic
              end
        | FOther _ => m_ret 0
        end in
      file_drop id ;;; m_ret r
  end.
Definition pipe_take (n : nat) (p : PipeBuffer) : looped (PipeBuffer * nat) :=
  match read_into p (replicate n 0) with Finished (p, _, k) => Finished (p, k) | OutOfFuel => OutOfFuel end.

(** A call of a process, or a step of its life. *)
Inductive fcall : Type :=
| COpen (o : O)
| CClose (fd : Z)
| CCloseRange (first last flags : Z)
| CDup (fd : Z)
| CDup3 (oldfd newfd flags : Z)
| CFcntl (u : U) (fd cmd arg : Z)
| CPipe2 (u : U) (fds flags : Z)
| CMemfd (name : Z) (name_str : option (list Z)) (flags : Z)
| CTimerfd (clockid flags : Z)
| CFlock (fd operation : Z)
| CRead (fd : Z) (n : nat)
| CWrite (fd : Z) (data : list Z)
| CFork (child : Z)
| CExit
| CReap.

Definition do_call (pid : Z) (c : fcall) : M (Files O) Z :=
  match c with
  | COpen o => open_install pid o
  | CClose fd => sys_close pid fd
  | CCloseRange first last flags => sys_close_range pid first last flags
  | CDup fd => sys_dup pid fd
  | CDup3 oldfd newfd flags => sys_dup3 pid oldfd newfd flags
  | CFcntl u fd cmd arg => let! r := sys_fcntl peek u pid fd cmd arg in m_ret r.1
  | CPipe2 u fds flags => let! r := sys_pipe2 u pid fds flags in m_ret r.1
  | CMemfd name name_str flags => sys_memfd_create memfd pid name name_str flags
  | CTimerfd clockid flags => sys_timerfd_create timerfd pid clockid flags
  | CFlock fd operation => sys_flock pid fd operation
  | CRead fd n => pipe_step_fd pid fd true (pipe_take n)
  | CWrite fd data => pipe_step_fd pid fd false (λ p, write_from p data)
  | CFork child => fork_fds pid child ;;; m_ret child
  | CExit => exit_fds pid ;;; m_ret 0
  | CReap => reap_fds pid ;;; m_ret 0
  end.

(** Arguments of type [usize]; fork takes a free pid, and only a process that
    has exited is reaped. *)
Definition call_ok (P : gmap Z Proc) (pid : Z) (c : fcall) : bool :=
  bool_decide (is_Some (P !! pid)) &&
  match c with
  | CClose fd | CDup fd | CDup3 _ fd _ | CFlock fd _ | CCloseRange fd _ _ | CFcntl _ _ _ fd => 0 <=? fd
  | CFork child => bool_decide (P !! child = None)
  | CReap => bool_decide (fd_table <$> P !! pid = Some [])
  | _ => true
  end.

(** The calls of all processes, in the order in which they happen. *)
Fixpoint run_calls (calls : list (Z * fcall)) : M (Files O) (list Z) :=
  match calls with
  | [] => m_ret []
  | (pid, c) :: calls =>
      let! K := m_get in
      if call_ok (procs K) pid c then
        let! r := do_call pid c in
        let! rs := run_calls calls in
        m_ret (r :: rs)
      else run_calls calls
  end.
End system.

(** ** Counting references *)

(** How often [id] is in a table, and in all tables. *)
Definition slots (id : Z) (t : list (option Z)) : nat := length (filter (λ s, s = Some id) t).
Definition descs (id : Z) (P : gmap Z Proc) : nat := map_fold (λ _ p n, (slots id (fd_table p) + n)%nat) 0%nat P.

Lemma slots_app id t1 t2 : slots id (t1 ++ t2) = (slots id t1 + slots id t2)%nat.
Proof. unfold slots. by rewrite filter_app, length_app. Qed.
Lemma slots_cons id s t : slots id (s :: t) = ((if decide (s = Some id) then 1 else 0) + slots id t)%nat.
Proof. unfold slots. rewrite filter_cons. by case_decide. Qed.
Lemma slots_none id n : slots id (replicate n None) = 0%nat.
Proof. unfold slots. induction n; [done|]. by rewrite replicate_S, filter_cons_False. Qed.
Lemma slots_insert id t i s v : t !! i = Some s →
  (slots id (<[i := v]> t) + (if decide (s = Some id) then 1 else 0) = slots id t + (if decide (v = Some id) then 1 else 0))%nat.
Proof.
  intros Hi. rewrite insert_take_drop by by eapply lookup_lt_Some.
  rewrite <-(take_drop_middle t i s Hi) at 3. rewrite !slots_app, !slots_cons. lia.
Qed.
Lemma slots_elem id t : Some id ∈ t → (0 < slots id t)%nat.
Proof.
  intros H. unfold slots. destruct (filter _ t) eqn:E; [|cbn; lia].
  assert (Some id ∈ filter (λ s, s = Some id) t) as Hf by by apply list_elem_of_filter.
  rewrite E in Hf. by apply not_elem_of_nil in Hf.
Qed.

Lemma descs_delete id P pid p : P !! pid = Some p → descs id P = (slots id (fd_table p) + descs id (delete pid P))%nat.
Proof. intros Hp. unfold descs. rewrite (map_fold_delete_L _ _ pid p); [done| |done]. intros. lia. Qed.
Lemma descs_insert id P pid p p' : P !! pid = Some p →
  (descs id (<[pid := p']> P) + slots id (fd_table p) = descs id P + slots id (fd_table p'))%nat.
Proof.
  intros Hp. rewrite (descs_delete id P pid p Hp), (descs_delete id (<[pid:=p']> P) pid p') by apply lookup_insert_eq.
  rewrite delete_insert_eq. lia.
Qed.
Lemma descs_new id P pid p : P !! pid = None → descs id (<[pid := p]> P) = (slots id (fd_table p) + descs id P)%nat.
Proof.
  intros Hp. rewrite (descs_delete id (<[pid:=p]> P) pid p) by apply lookup_insert_eq. by rewrite delete_insert_id.
Qed.

(** ** Descriptors as the processes see them *)

Definition desc (P : gmap Z Proc) (pid fd : Z) : option Z := P !! pid ≫= λ p, mjoin (fd_table p !! Z.to_nat fd).

(** Descriptor [fd] of [pid] becomes [v], and nothing else changes. *)
Record upd (P : gmap Z Proc) (pid fd : Z) (v : option Z) (P' : gmap Z Proc) : Prop := {
  upd_desc : ∀ q x, 0 <= x → desc P' q x = if bool_decide (q = pid ∧ x = fd) then v else desc P q x;
  upd_limit : ∀ q, nofile <$> P' !! q = nofile <$> P !! q;
}.
Definition least_free (P : gmap Z Proc) (pid from fd : Z) : Prop :=
  from <= fd ∧ desc P pid fd = None ∧ ∀ x, from <= x < fd → desc P pid x ≠ None.

Lemma desc_refs P pid fd id : desc P pid fd = Some id → (0 < descs id P)%nat.
Proof.
  unfold desc. destruct (P !! pid) as [p|] eqn:Hp; cbn; [|done]. destruct (fd_table p !! _) as [s|] eqn:Hs; cbn; [|done].
  intros ->. rewrite (descs_delete id P pid p Hp). apply list_elem_of_lookup_2, slots_elem in Hs. lia.
Qed.
Lemma descs_desc P id : (0 < descs id P)%nat → ∃ pid fd, 0 <= fd ∧ desc P pid fd = Some id.
Proof.
  unfold descs. revert P. refine (map_fold_weak_ind (λ n P, (0 < n)%nat → ∃ pid fd, 0 <= fd ∧ desc P pid fd = Some id) _ _ _ _);
    [lia|].
  intros pid p P n Hp IH Hn. destruct (decide (0 < slots id (fd_table p))%nat) as [Ho|].
  - unfold slots in Ho. destruct (filter _ (fd_table p)) as [|s l] eqn:E; cbn in Ho; [lia|].
    assert (s ∈ filter (λ s, s = Some id) (fd_table p)) as Hs by (rewrite E; left).
    apply list_elem_of_filter in Hs as [-> Hs]. apply list_elem_of_lookup in Hs as [i Hi]. exists pid, (Z.of_nat i).
    split; [lia|]. unfold desc. by rewrite lookup_insert_eq; cbn; rewrite Nat2Z.id, Hi.
  - destruct IH as (q & fd & ? & Hd); [lia|]. exists q, fd. split; [done|]. unfold desc in *.
    rewrite lookup_insert_ne; [done|]. intros <-. by rewrite Hp in Hd.
Qed.

(** Storing into one slot of a table that has been extended with empty slots. *)
Lemma upd_store P pid p fd n v : P !! pid = Some p → 0 <= fd →
  (Z.to_nat fd < length (fd_table p) + n)%nat →
  upd P pid fd v (<[pid := mkProc (<[Z.to_nat fd := v]> (fd_table p ++ replicate n None)) (nofile p)]> P).
Proof.
  intros Hp Hfd Hlen. split.
  - intros q x Hx. unfold desc. destruct (decide (q = pid)) as [->|].
    + rewrite lookup_insert_eq, Hp. cbn. case_bool_decide as Hd.
      * destruct Hd as [_ ->]. rewrite list_lookup_insert_eq by (rewrite length_app, length_replicate; lia). done.
      * rewrite list_lookup_insert_ne by (intros ?; apply Hd; split; [done|lia]).
        destruct (decide (Z.to_nat x < length (fd_table p))%nat).
        -- by rewrite lookup_app_l.
        -- rewrite lookup_app_r, (lookup_ge_None_2 (fd_table p)) by lia.
           destruct (replicate n None !! _) as [s|] eqn:E; [|done].
           by apply lookup_replicate in E as [-> _].
    + rewrite lookup_insert_ne by done. by rewrite bool_decide_eq_false_2 by naive_solver.
  - intros q. destruct (decide (q = pid)) as [->|]; [by rewrite lookup_insert_eq, Hp|by rewrite lookup_insert_ne].
Qed.

Lemma desc_first_free P pid p from : P !! pid = Some p → 0 <= from →
  least_free P pid from (match first_free (Z.to_nat from) (fd_table p) with
                         | Some i => Z.of_nat i | None => Z.max from (Z.of_nat (length (fd_table p))) end).
Proof.
  intros Hp Hf. unfold first_free, least_free, desc. rewrite Hp. cbn.
  destruct (list_find _ _) as [[i s]|] eqn:E; cbn.
  - apply list_find_Some in E as (Hi & -> & Hb). rewrite lookup_drop in Hi. split_and!; [lia|by rewrite Nat2Z.id, Hi|].
    intros x Hx. destruct (fd_table p !! Z.to_nat x) as [s|] eqn:Hs.
    + intros Hn. cbn in Hn. subst. apply (Hb (Z.to_nat x - Z.to_nat from)%nat None); [|lia|done].
      rewrite lookup_drop. rewrite <-Hs. f_equal. lia.
    + apply lookup_ge_None in Hs. apply lookup_lt_Some in Hi. lia.
  - rewrite list_find_None, Forall_forall in E. split_and!; [lia| |].
    + rewrite lookup_ge_None_2 by lia. done.
    + intros x Hx. destruct (fd_table p !! Z.to_nat x) as [s|] eqn:Hs; [|apply lookup_ge_None in Hs; lia].
      intros Hn. cbn in Hn. subst. apply (E None); [|done]. apply list_elem_of_lookup. exists (Z.to_nat x - Z.to_nat from)%nat.
      rewrite lookup_drop, <-Hs. f_equal. lia.
Qed.

(** ** The invariant *)

Section inv.
Context {O : Type} {FT : FileTrait O}.
Implicit Types (K : Files O) (C : gmap Z (FileObj O)).

(** The pipe a file is an end of, and whether it is the reading end. *)
Definition end_of (f : FileObj O) : option (Z * bool) := match f with FPipe k e => Some (k, readable e) | FOther _ => None end.
Definition end_wf (f : FileObj O) : Prop := match f with FPipe _ e => writable e = negb (readable e) | FOther _ => True end.

Definition content K : gmap Z (FileObj O) := fst <$> objs K.
Definition rc (id : Z) K : nat := default 0%nat (snd <$> objs K !! id).

(** Every pipe has at most one object for each end, and is open at the ends that
    have one. *)
Record pipes_ok C (pp : gmap Z PipeBuffer) (np : Z) : Prop := {
  po_fresh : ∀ k p, pp !! k = Some p → k < np;
  po_wf : ∀ k p, pp !! k = Some p → pipe_wf p;
  po_end : ∀ id f k b, C !! id = Some f → end_of f = Some (k, b) → end_wf f ∧ is_Some (pp !! k);
  po_uniq : ∀ id id' f f' k b, C !! id = Some f → C !! id' = Some f' →
    end_of f = Some (k, b) → end_of f' = Some (k, b) → id = id';
  po_read : ∀ k p, pp !! k = Some p → read_open p = true ↔ ∃ id f, C !! id = Some f ∧ end_of f = Some (k, true);
  po_write : ∀ k p, pp !! k = Some p → write_open p = true ↔ ∃ id f, C !! id = Some f ∧ end_of f = Some (k, false);
}.

(** How often [id] is among the handles [h]. *)
Definition held (id : Z) (h : list Z) : nat := slots id (Some <$> h).
Lemma held_cons id x h : held id (x :: h) = ((if decide (x = id) then 1 else 0) + held id h)%nat.
Proof. unfold held. rewrite fmap_cons, slots_cons. repeat case_decide; naive_solver. Qed.

Definition hcons (s : option Z) (h : list Z) : list Z := match s with Some x => x :: h | None => h end.
Lemma held_opt id s h : held id (hcons s h) = ((if decide (s = Some id) then 1 else 0) + held id h)%nat.
Proof. destruct s as [x|]; [|by rewrite decide_False by done].
  cbn [hcons]. rewrite held_cons. repeat case_decide; naive_solver. Qed.

(** The counts are the numbers of descriptors, plus the handles [h] that running
    calls hold. *)
Record fs_inv (h : list Z) K : Prop := {
  fi_count : ∀ id, rc id K = (descs id (procs K) + held id h)%nat;
  fi_live : ∀ id f n, objs K !! id = Some (f, n) → (0 < n)%nat;
  fi_fresh : ∀ id f n, objs K !! id = Some (f, n) → id < next_obj K;
  fi_pipes : pipes_ok (content K) (pipes K) (next_pipe K);
}.

(** The state during a call: the handles, the tables, the flags and locks, and
    what the surviving files are. *)
Record st (h : list Z) (P : gmap Z Proc) (F : gmap (Z * Z) Z) (L : gmap string (Z * Z)) C K : Prop := {
  st_inv : fs_inv h K;
  st_procs : procs K = P;
  st_flags : fd_flags K = F;
  st_locks : flocks K = L;
  st_content : content K ⊆ C;
}.

Lemma st_start K : fs_inv [] K → st [] (procs K) (fd_flags K) (flocks K) (content K) K.
Proof. done. Qed.

Lemma content_lookup K id f : content K !! id = Some f ↔ ∃ n, objs K !! id = Some (f, n).
Proof. unfold content. rewrite lookup_fmap, fmap_Some. split; [intros ([? n] & ? & ->); eauto|intros [n ?]; by exists (f, n)]. Qed.

Lemma st_obj h P F L C K id : st h P F L C K → (0 < descs id P + held id h)%nat →
  ∃ f n, objs K !! id = Some (f, n) ∧ C !! id = Some f ∧ n = (descs id P + held id h)%nat.
Proof.
  intros [Hi <- _ _ Hc] Hr. pose proof (fi_count _ _ Hi id) as Hn. unfold rc in Hn.
  destruct (objs K !! id) as [[f n]|] eqn:E; cbn in Hn; [|lia]. exists f, n. split_and!; [done| |done].
  eapply lookup_weaken; [|done]. apply content_lookup. eauto.
Qed.

(** Changing the count of a live object. *)
Lemma st_recount h h' P P' F L C K id f n : st h P F L C K → objs K !! id = Some (f, n) → 
  (∀ id', id' ≠ id → descs id' P' + held id' h' = descs id' P + held id' h)%nat →
  let n' := (descs id P' + held id h')%nat in (0 < n')%nat →
  st h' P' F L C (on_procs (λ _, P') (on_objs <[id := (f, n')]> K)).
Proof.
  intros [[Hct Hl Hf Hp] HP HF HL Hc] Hid Ho n' Hn'.
  assert (content (on_procs (λ _, P') (on_objs <[id := (f, n')]> K)) = content K) as Hce.
  { unfold content. cbn. rewrite fmap_insert. apply insert_id. by rewrite lookup_fmap, Hid. }
  split; [split|done..|by rewrite Hce].
  - intros id'. unfold rc. cbn. destruct (decide (id' = id)) as [->|Hne]; [by rewrite lookup_insert_eq|].
    rewrite lookup_insert_ne by done. rewrite Ho, <-HP by done. apply Hct.
  - intros id' f' m. cbn. rewrite lookup_insert_Some. intros [[<- [= <- <-]]|[_ ?]]; [done|by eapply Hl].
  - intros id' f' m. cbn. rewrite lookup_insert_Some. intros [[<- _]|[_ ?]]; by eapply Hf.
  - by rewrite Hce.
Qed.

Lemma on_procs_objs K g P : procs K = P → on_procs (λ _, P) (on_objs g K) = on_objs g K.
Proof. destruct K. cbn. by intros ->. Qed.

Lemma clone_spec h P F L C K id : st h P F L C K → (0 < descs id P + held id h)%nat →
  wp (file_clone id) (λ _ K', st (id :: h) P F L C K') K.
Proof.
  intros Hs Hr. destruct (st_obj _ _ _ _ _ _ _ Hs Hr) as (f & n & Hid & _ & Hn).
  unfold file_clone, file_obj. apply wp_bind, wp_bind, wp_get. rewrite Hid. apply wp_ret. apply wp_modify.
  rewrite <-(on_procs_objs K _ P (st_procs _ _ _ _ _ _ Hs)).
  replace (S n) with (descs id P + held id (id :: h))%nat by (rewrite held_cons, decide_True by done; lia).
  eapply st_recount; [done..| |rewrite held_cons, decide_True by done; lia].
  intros id' Hne. rewrite held_cons, decide_False by done. lia.
Qed.

(** ** Dropping handles *)

Definition pipes_without (f : FileObj O) (pp : gmap Z PipeBuffer) : gmap Z PipeBuffer :=
  match f with FPipe k e => alter (PipeEnd_drop e) k pp | FOther _ => pp end.

Lemma pipes_without_lookup f pp k p' : pipes_without f pp !! k = Some p' →
  ∃ p, pp !! k = Some p ∧ (p' = p ∧ (∀ b, end_of f ≠ Some (k, b)) ∨
    ∃ e, f = FPipe k e ∧ p' = PipeEnd_drop e p).
Proof.
  destruct f as [j e|o]; cbn; [|intros Hp; eexists; split; [done|left; done]].
  rewrite lookup_alter_Some. intros [(<- & p & Hp & ->)|[Hne Hp]]; exists p || exists p'.
  - split; [done|]. right. eauto.
  - split; [done|]. left. split; [done|]. intros b [= ? _]. done.
Qed.

(** With one end of a pipe gone, the other end is as before. *)
Lemma end_delete C id f k b (Hu : ∀ id id' f f' k b, C !! id = Some f → C !! id' = Some f' →
    end_of f = Some (k, b) → end_of f' = Some (k, b) → id = id') : C !! id = Some f →
  (∃ id' f', delete id C !! id' = Some f' ∧ end_of f' = Some (k, b)) ↔
  (∃ id' f', C !! id' = Some f' ∧ end_of f' = Some (k, b)) ∧ end_of f ≠ Some (k, b).
Proof.
  intros Hf. split.
  - intros (id' & f' & [Hne Hf']%lookup_delete_Some & He). split; [eauto|]. intros He'. apply Hne. by eapply Hu.
  - intros [(id' & f' & Hf' & He) Hne]. exists id', f'. split; [|done]. apply lookup_delete_Some. split; [|done].
    intros <-. congruence.
Qed.

Lemma pipes_ok_delete C pp np id f : pipes_ok C pp np → C !! id = Some f →
  pipes_ok (delete id C) (pipes_without f pp) np.
Proof.
  intros [Hfr Hwf He Hu Hr Hw] Hf. split.
  - intros k p' (p & Hp & _)%pipes_without_lookup. by eapply Hfr.
  - intros k p' (p & Hp & [[-> _]|(e & _ & ->)])%pipes_without_lookup; [by eapply Hwf|].
    destruct (Hwf _ _ Hp). by split.
  - intros id' f' k b [_ Hf']%lookup_delete_Some Hk. destruct (He _ _ _ _ Hf' Hk) as [? [p Hp]]. split; [done|].
    destruct f as [j e|]; cbn; [|by eexists]. by rewrite lookup_alter_is_Some; eexists.
  - intros id1 id2 f1 f2 k b [_ H1]%lookup_delete_Some [_ H2]%lookup_delete_Some. by apply Hu.
  - intros k p' (p & Hp & Hc)%pipes_without_lookup. rewrite (end_delete C id f) by done. rewrite <-(Hr _ _ Hp).
    destruct Hc as [[-> Hne]|(e & -> & ->)]; [naive_solver|]. cbn. destruct (readable e); naive_solver.
  - intros k p' (p & Hp & Hc)%pipes_without_lookup. rewrite (end_delete C id f) by done. rewrite <-(Hw _ _ Hp).
    destruct Hc as [[-> Hne]|(e & -> & ->)]; [naive_solver|]. cbn.
    destruct (He _ _ _ _ Hf eq_refl) as [Hee _]. cbn in Hee. rewrite Hee. destruct (readable e); naive_solver.
Qed.

Lemma drop_spec h P F L C K id : st (id :: h) P F L C K → wp (file_drop id) (λ _ K', st h P F L C K') K.
Proof.
  intros Hs. destruct (st_obj _ _ _ _ _ _ id Hs) as (f & n & Hid & _ & Hn).
  { rewrite held_cons, decide_True by done. lia. }
  rewrite held_cons, decide_True in Hn by done.
  unfold file_drop, file_obj. apply wp_bind, wp_bind, wp_get. rewrite Hid. apply wp_ret.
  destruct (Nat.eqb_spec n 1) as [->|Hne].
  - apply wp_bind, wp_modify. destruct Hs as [[Hct Hl Hf Hp] HP HF HL Hc].
    assert (content K !! id = Some f) as Hcid by (apply content_lookup; eauto).
    set (K' := mkFiles (delete id (objs K)) (next_obj K) (pipes_without f (pipes K)) (next_pipe K) (procs K) (fd_flags K) (flocks K)).
    assert (st h P F L C K') as Hs'.
    { assert (content K' = delete id (content K)) as Hce by (unfold content; cbn; by rewrite fmap_delete).
      split; [split|done..|rewrite Hce; etrans; [apply delete_subseteq|done]].
      - intros id'. unfold rc. cbn. destruct (decide (id' = id)) as [->|Hne].
        + rewrite lookup_delete_eq. cbn. rewrite HP. lia.
        + rewrite lookup_delete_ne by done. specialize (Hct id'). rewrite held_cons, decide_False in Hct by done. exact Hct.
      - intros id' f' m. cbn. intros [_ ?]%lookup_delete_Some. by eapply Hl.
      - intros id' f' m. cbn. intros [_ ?]%lookup_delete_Some. by eapply Hf.
      - rewrite Hce. by apply pipes_ok_delete. }
    destruct f as [k e|o]; [apply wp_modify|apply wp_ret]; exact Hs'.
  - apply wp_modify. rewrite <-(on_procs_objs K _ P (st_procs _ _ _ _ _ _ Hs)).
    replace (Nat.pred n) with (descs id P + held id h)%nat by lia.
    eapply st_recount; [done..| |lia]. intros id' Hne'. rewrite held_cons, decide_False by done. lia.
Qed.

(** ** The table *)

Lemma st_retable h h' P P' F L C K : st h P F L C K →
  (∀ id, descs id P' + held id h' = descs id P + held id h)%nat → st h' P' F L C (on_procs (λ _, P') K).
Proof.
  intros [[Hct Hl Hf Hp] HP HF HL Hc] Hr. split; [split|done..]; [|done..].
  intros id. change (rc id (on_procs (λ _, P') K)) with (rc id K). cbn. rewrite Hr, <-HP. apply Hct.
Qed.
Lemma st_reflags h P F F' L L' C K : st h P F L C K → 
  st h P F' L' C (on_flags (λ _, F') (on_flocks (λ _, L') K)).
Proof. intros [[]]. done. Qed.

Lemma proc_spec h P F L C K pid p (Q : Proc → Files O → Prop) : st h P F L C K → P !! pid = Some p → Q p K → wp (proc pid) Q K.
Proof. intros Hs Hp HQ. apply wp_bind, wp_get. rewrite (st_procs _ _ _ _ _ _ Hs), Hp. by apply wp_ret. Qed.

Lemma set_table_spec h h' P F L C K pid p t : st h P F L C K → P !! pid = Some p →
  (∀ id, slots id t + held id h' = slots id (fd_table p) + held id h)%nat →
  wp (set_table pid t) (λ _ K', st h' (<[pid := mkProc t (nofile p)]> P) F L C K') K.
Proof.
  intros Hs Hp Ho. apply wp_bind. eapply proc_spec; [done..|]. apply wp_modify.
  replace (on_procs <[pid := mkProc t (nofile p)]> K) with (on_procs (λ _, <[pid := mkProc t (nofile p)]> P) K)
    by (unfold on_procs; by rewrite (st_procs _ _ _ _ _ _ Hs)).
  eapply st_retable; [done|]. intros id. pose proof (descs_insert id P pid p (mkProc t (nofile p)) Hp) as Hri.
  specialize (Ho id). cbn [fd_table] in Hri. lia.
Qed.

Lemma store_spec h P F L C K pid p fd id : st (id :: h) P F L C K → P !! pid = Some p →
  (Z.to_nat fd < length (fd_table p))%nat →
  wp (fd_store pid fd (Some id))
     (λ _ K', st h (<[pid := mkProc (<[Z.to_nat fd := Some id]> (fd_table p)) (nofile p)]> P) F L C K') K.
Proof.
  intros Hs Hp [old Hold]%lookup_lt_is_Some. apply wp_bind. eapply proc_spec; [done..|]. apply wp_bind. rewrite Hold. apply wp_ret.
  apply wp_bind. eapply wp_mono.
  { eapply (set_table_spec _ (hcons old h)) with (p := p); [done..|]. intros id'.
    pose proof (slots_insert id' _ _ _ (Some id) Hold) as Ho. rewrite held_cons, held_opt.
    repeat case_decide; simplify_eq; lia. }
  intros [] K' Hs'. destruct old as [old|]; [by apply drop_spec|by apply wp_ret].
Qed.

Lemma get_file_spec h P F L C K pid p fd : st h P F L C K → P !! pid = Some p →
  wp (get_file pid fd) (λ r K', r = desc P pid fd ∧ st (hcons r h) P F L C K') K.
Proof.
  intros Hs Hp. apply wp_bind. eapply proc_spec; [done..|]. 
  assert (desc P pid fd = mjoin (fd_table p !! Z.to_nat fd)) as Hd by (unfold desc; by rewrite Hp).
  destruct (fd_table p !! Z.to_nat fd) as [[id|]|]; [|by apply wp_ret..].
  apply wp_bind. eapply wp_mono; [eapply clone_spec; [done|]|].
  - cbn in Hd. apply desc_refs in Hd. lia.
  - intros [] K' HK'. by apply wp_ret.
Qed.

Lemma upd_none P pid fd : desc P pid fd = None → upd P pid fd None P.
Proof. intros Hd. split; [|done]. intros q x Hx. case_bool_decide as Hq; [|done]. by destruct Hq as [-> ->]. Qed.

Lemma upd_is_Some P pid fd v P' p : upd P pid fd v P' → P !! pid = Some p → ∃ p', P' !! pid = Some p' ∧ nofile p' = nofile p.
Proof.
  intros [_ Hl] Hp. specialize (Hl pid). rewrite Hp in Hl. cbn in Hl. destruct (P' !! pid) as [p'|]; cbn in Hl; [|done].
  exists p'. split; [done|]. congruence.
Qed.

Lemma take_spec h P F L C K pid p fd : st h P F L C K → P !! pid = Some p → 0 <= fd →
  wp (take_fd pid fd) (λ r K', r = desc P pid fd ∧ ∃ P', upd P pid fd None P' ∧ st (hcons r h) P' F L C K') K.
Proof.
  intros Hs Hp Hfd. apply wp_bind. eapply proc_spec; [done..|].
  assert (desc P pid fd = mjoin (fd_table p !! Z.to_nat fd)) as Hd by (unfold desc; by rewrite Hp).
  destruct (fd_table p !! Z.to_nat fd) as [old|] eqn:Hold.
  - apply wp_bind. eapply wp_mono.
    { eapply (set_table_spec _ (hcons old h)) with (p := p); [done..|]. intros id'.
      pose proof (slots_insert id' _ _ _ None Hold) as Ho.
      rewrite held_opt. repeat case_decide; simplify_eq; lia. }
    intros [] K' Hs'. apply wp_ret. split; [done|]. eexists; split; [|done].
    pose proof (upd_store P pid p fd 0 None Hp Hfd) as Hu. cbn [replicate] in Hu. rewrite app_nil_r in Hu. apply Hu.
    apply lookup_lt_Some in Hold. lia.
  - apply wp_ret. split; [done|]. exists P. split; [by apply upd_none|done].
Qed.

(** Putting a handle into a slot at or behind the end of the table. *)
Lemma put_spec h P F L C K pid p fd id n : st (id :: h) P F L C K → P !! pid = Some p → 0 <= fd →
  (Z.to_nat fd < length (fd_table p) + n)%nat →
  wp (set_table pid (fd_table p ++ replicate n None) ;;; fd_store pid fd (Some id))
     (λ _ K', ∃ P', upd P pid fd (Some id) P' ∧ st h P' F L C K') K.
Proof.
  intros Hs Hp Hfd Hlen. apply wp_bind. eapply wp_mono.
  { eapply (set_table_spec _ (id :: h)) with (p := p); [done..|]. intros id'. rewrite slots_app, slots_none. lia. }
  intros [] K' Hs'. eapply wp_mono; [eapply store_spec; [done|apply lookup_insert_eq|]|].
  - cbn. rewrite length_app, length_replicate. done.
  - intros [] K'' Hs''. cbn in Hs''. rewrite insert_insert_eq in Hs''. eexists. split; [|done]. by apply upd_store.
Qed.

Lemma put_then {B} h P F L C K pid p fd id n (k : M (Files O) B) Q : st (id :: h) P F L C K → P !! pid = Some p → 0 <= fd →
  (Z.to_nat fd < length (fd_table p) + n)%nat →
  (∀ P' K', upd P pid fd (Some id) P' → st h P' F L C K' → wp k Q K') →
  wp (set_table pid (fd_table p ++ replicate n None) ;;; fd_store pid fd (Some id) ;;; k) Q K.
Proof.
  intros Hs Hp Hfd Hlen Hk. pose proof (put_spec h P F L C K pid p fd id n Hs Hp Hfd Hlen) as Hput.
  unfold wp, m_bind in *. destruct (set_table _ _ K) as [[[] K1]|]; [|done].
  destruct (fd_store _ _ _ K1) as [[[] K2]|]; [|done]. destruct Hput as (P' & Hu & Hs2). by eapply Hk.
Qed.

Lemma install_spec h P F L C K pid p id : st (id :: h) P F L C K → P !! pid = Some p →
  wp (install_file pid id) (λ r K', match r with
    | None => (∀ x, 0 <= x < nofile p → desc P pid x ≠ None) ∧ st h P F L C K'
    | Some fd => least_free P pid 0 fd ∧ fd < nofile p ∧ ∃ P', upd P pid fd (Some id) P' ∧ st h P' F L C K'
    end) K.
Proof.
  intros Hs Hp. apply wp_bind. eapply proc_spec; [done..|]. pose proof (desc_first_free P pid p 0 Hp) as Hl.
  change (Z.to_nat 0) with 0%nat in Hl. specialize (Hl ltac:(done)).
  assert (∀ t, t = fd_table p → wp (set_table pid t ;;; file_drop id ;;; m_ret (None (A:=Z)))
    (λ r K', r = None ∧ st h P F L C K') K) as Hfail.
  { intros t ->. apply wp_bind. eapply wp_mono; [by eapply (set_table_spec _ (id :: h)) with (p := p)|].
    intros [] K' Hs'. rewrite insert_id in Hs' by (by destruct p). apply wp_bind. eapply wp_mono; [by apply drop_spec|].
    intros [] K'' ?. by apply wp_ret. }
  assert (∀ fd n, 0 <= fd → fd < nofile p → least_free P pid 0 fd → (Z.to_nat fd < length (fd_table p) + n)%nat →
    wp (set_table pid (fd_table p ++ replicate n None) ;;; fd_store pid fd (Some id) ;;; m_ret (Some fd))
    (λ r K', ∃ fd, r = Some fd ∧ least_free P pid 0 fd ∧ fd < nofile p ∧ ∃ P', upd P pid fd (Some id) P' ∧ st h P' F L C K') K) as Hok.
  { intros fd n H0 Hlim Hlf Hlen. eapply put_then; [done..|]. intros P' K' ??. apply wp_ret. eauto 10. }
  unfold alloc_fd. destruct (first_free 0 (fd_table p)) as [i|] eqn:E; rewrite ?E in Hl.
  - destruct (Z.ltb_spec (Z.of_nat i) (nofile p)).
    + specialize (Hok (Z.of_nat i) 0%nat). cbn [replicate] in Hok. rewrite app_nil_r in Hok.
      eapply wp_mono; [apply Hok; [lia|lia|exact Hl|]|].
      * unfold first_free in E. apply fmap_Some in E as ([j s] & Hj & ->). apply list_find_Some in Hj as (Hj & _).
        rewrite lookup_drop in Hj. apply lookup_lt_Some in Hj. cbn in *. lia.
      * by intros ? K' (fd & -> & ?).
    + eapply wp_mono; [by apply Hfail|]. intros ? K' [-> ?]. split; [|done]. intros x Hx. apply Hl. lia.
  - destruct (Z.leb_spec (nofile p) (Z.of_nat (length (fd_table p)))).
    + eapply wp_mono; [by apply Hfail|]. intros ? K' [-> ?]. split; [|done]. intros x Hx. apply Hl. lia.
    + rewrite Z.max_r in Hl by lia. specialize (Hok (Z.of_nat (length (fd_table p))) 1%nat). 
      eapply wp_mono; [apply Hok; [lia|lia|exact Hl|lia]|]. by intros ? K' (fd & -> & ?).
Qed.

(** ** Flags, locks and new files *)

Definition setflag (pid fd v : Z) (F : gmap (Z * Z) Z) : gmap (Z * Z) Z := if v =? 0 then delete (pid, fd) F else <[(pid, fd) := v]> F.
Definition unlocked (pid fd : Z) (L : gmap string (Z * Z)) : gmap string (Z * Z) := filter (λ kv, kv.2 ≠ (pid, fd)) L.

Lemma flags_spec h P F L C K g : st h P F L C K → wp (m_modify (on_flags g)) (λ _ K', st h P (g F) L C K') K.
Proof. intros [[] ? <- ? ?]. by apply wp_modify. Qed.
Lemma flags_set_spec h P F L C K pid fd v : st h P F L C K → wp (fd_flags_set pid fd v) (λ _ K', st h P (setflag pid fd v F) L C K') K.
Proof.
  intros Hs. unfold fd_flags_set, setflag. eapply wp_mono; [by apply flags_spec|]. intros [] K'. by case_match.
Qed.
Lemma locks_spec h P F L C K g : st h P F L C K → wp (m_modify (on_flocks g)) (λ _ K', st h P F (g L) C K') K.
Proof. intros [[] ? ? <- ?]. by apply wp_modify. Qed.

Lemma obj_spec h P F L C K id (Q : FileObj O * nat → Files O → Prop) :
  st h P F L C K → (0 < descs id P + held id h)%nat → (∀ f n, C !! id = Some f → Q (f, n) K) → wp (file_obj id) Q K.
Proof.
  intros Hs Hr HQ. destruct (st_obj _ _ _ _ _ _ _ Hs Hr) as (f & n & Hid & Hc & _). apply wp_bind, wp_get. rewrite Hid.
  apply wp_ret. eauto.
Qed.

(** A new object is held by its creator; its name is fresh. *)
Lemma pipes_ok_insert C pp np id f : pipes_ok C pp np → C !! id = None → end_of f = None → pipes_ok (<[id := f]> C) pp np.
Proof.
  intros [Hfr Hwf He Hu Hr Hw] Hid Hf.
  assert (∀ id' f' k b, <[id := f]> C !! id' = Some f' ∧ end_of f' = Some (k, b) ↔ C !! id' = Some f' ∧ end_of f' = Some (k, b)) as Hall.
  { intros id' f' k b. rewrite lookup_insert_Some. naive_solver. }
  split; [done|done|..].
  - intros id' f' k b H1 H2. destruct (proj1 (Hall id' f' k b)); [done|]. by eapply He.
  - intros id1 id2 f1 f2 k b H1 H2 H3 H4. destruct (proj1 (Hall id1 f1 k b)); [done|].
    destruct (proj1 (Hall id2 f2 k b)); [done|]. by eapply Hu.
  - intros k p Hp. rewrite (Hr _ _ Hp). by setoid_rewrite Hall.
  - intros k p Hp. rewrite (Hw _ _ Hp). by setoid_rewrite Hall.
Qed.

Lemma fs_inv_none h K id : fs_inv h K → next_obj K <= id → objs K !! id = None ∧ descs id (procs K) = 0%nat ∧ held id h = 0%nat.
Proof.
  intros Hi Hid. destruct (objs K !! id) as [[f n]|] eqn:E; [apply (fi_fresh _ _ Hi) in E; lia|].
  pose proof (fi_count _ _ Hi id) as Hc. unfold rc in Hc. rewrite E in Hc. cbn in Hc. split; [done|lia].
Qed.

Lemma new_spec h P F L C K o : st h P F L C K →
  wp (file_new (FOther o)) (λ id K', id = next_obj K ∧ descs id P = 0%nat ∧ st (id :: h) P F L (<[id := FOther o]> C) K') K.
Proof.
  intros [Hi HP HF HL Hc]. destruct (fs_inv_none h K (next_obj K) Hi ltac:(done)) as (Hn & Hr & Hh).
  split; [done|]. split; [by rewrite <-HP|]. pose proof Hi as [Hct Hl Hf Hp]. split; [split|done..|].
  - intros id. rewrite held_cons. unfold rc. cbn [objs procs]. destruct (decide (next_obj K = id)) as [<-|Hne].
    + rewrite lookup_insert_eq. change (1 = descs (next_obj K) (procs K) + (1 + held (next_obj K) h))%nat. lia.
    + rewrite lookup_insert_ne by done. apply Hct.
  - intros id f n. cbn. rewrite lookup_insert_Some. intros [[_ [= _ <-]]|[_ ?]]; [lia|by eapply Hl].
  - intros id f n. cbn. rewrite lookup_insert_Some. intros [[<- _]|[_ E]]; [lia|apply Hf in E; lia].
  - unfold content. cbn. rewrite fmap_insert. apply pipes_ok_insert; [done| |done]. by rewrite lookup_fmap, Hn.
  - unfold content. cbn. rewrite fmap_insert. apply insert_mono. done.
Qed.

Lemma content_fresh h K : fs_inv h K → ∀ id f, content K !! id = Some f → id < next_obj K.
Proof. intros Hi id f [n E]%content_lookup. by eapply fi_fresh. Qed.

(** Changing an object in place, keeping what end it is. *)
Lemma set_spec h P F L C K id g : st h P F L C K → (0 < descs id P + held id h)%nat →
  (∀ f, end_of (g f) = end_of f ∧ (end_wf f → end_wf (g f))) →
  wp (file_set id g) (λ _ K', st h P F L (alter g id C) K') K.
Proof.
  intros Hs Hr Hg. destruct (st_obj _ _ _ _ _ _ _ Hs Hr) as (f & n & Hid & HC & _). destruct Hs as [[Hct Hl Hf Hp] HP HF HL Hc].
  unfold file_set, file_obj. apply wp_bind, wp_bind, wp_get. rewrite Hid. apply wp_ret, wp_modify.
  assert (content (on_objs <[id := (g f, n)]> K) = alter g id (content K)) as Hce.
  { unfold content. cbn. apply map_eq. intros j. rewrite lookup_fmap. destruct (decide (j = id)) as [->|].
    - by rewrite lookup_insert_eq, lookup_alter_eq, lookup_fmap, Hid.
    - by rewrite lookup_insert_ne, lookup_alter_ne, lookup_fmap by done. }
  split; [split|done..|].
  - intros id'. unfold rc. cbn. destruct (decide (id' = id)) as [->|]; [|rewrite lookup_insert_ne by done; apply Hct].
    rewrite lookup_insert_eq. specialize (Hct id). unfold rc in Hct. by rewrite Hid in Hct.
  - intros id' f' m. cbn. rewrite lookup_insert_Some. intros [[<- [= <- <-]]|[_ ?]]; by eapply Hl.
  - intros id' f' m. cbn. rewrite lookup_insert_Some. intros [[<- _]|[_ ?]]; by eapply Hf.
  - rewrite Hce. cbn. destruct Hp as [Hfr Hwf He Hu Hrd Hwt].
    assert (∀ id' k b, (∃ f', alter g id (content K) !! id' = Some f' ∧ end_of f' = Some (k, b)) ↔
                       (∃ f', content K !! id' = Some f' ∧ end_of f' = Some (k, b))) as Hall.
    { intros id' k b. destruct (decide (id' = id)) as [->|]; [|by rewrite lookup_alter_ne]. rewrite lookup_alter_eq.
      destruct (content K !! id) as [f0|]; cbn; [|naive_solver].
      split; intros (? & [= <-] & ?); eexists; (split; [done|]); destruct (Hg f0); congruence. }
    split; [done|done|..].
    + intros id' f' k b H1 H2. destruct (proj1 (Hall id' k b)) as (f0 & H3 & H4); [by eexists|]. split; [|by eapply He].
      destruct (He _ _ _ _ H3 H4) as [Hw _]. destruct (decide (id' = id)) as [->|]; [|rewrite lookup_alter_ne in H1 by done; congruence].
      rewrite lookup_alter_eq, H3 in H1. injection H1 as <-. by apply Hg.
    + intros id1 id2 f1 f2 k b H1 H2 H3 H4. destruct (proj1 (Hall id1 k b)) as (? & ? & ?); [by eexists|].
      destruct (proj1 (Hall id2 k b)) as (? & ? & ?); [by eexists|]. by eapply Hu.
    + intros k p Hp. rewrite (Hrd _ _ Hp). by setoid_rewrite Hall.
    + intros k p Hp. rewrite (Hwt _ _ Hp). by setoid_rewrite Hall.
  - rewrite Hce. intros j. destruct (decide (j = id)) as [->|]; [rewrite !lookup_alter_eq|rewrite !lookup_alter_ne by done; apply Hc].
    rewrite HC. rewrite (proj2 (content_lookup K id f)) by eauto. done.
Qed.

(** ** What each call does *)

#[local] Ltac seq lem := apply wp_bind; eapply wp_mono; [eapply lem; try eassumption|cbn beta].

(** The file [id] gets the lowest free descriptor from [from] on, below the limit,
    or there is none. *)
Definition placed (P : gmap Z Proc) (pid : Z) (p : Proc) (from id r : Z) (P' : gmap Z Proc) : Prop :=
  r = errno EMFILE ∧ (∀ x, from <= x < nofile p → desc P pid x ≠ None) ∧ P' = P ∨
  from <= r < nofile p ∧ least_free P pid from r ∧ upd P pid r (Some id) P'.

(** The same descriptors, whatever the lengths of the tables. *)
Definition same_desc (P P' : gmap Z Proc) : Prop :=
  (∀ q x, 0 <= x → desc P' q x = desc P q x) ∧ ∀ q, nofile <$> P' !! q = nofile <$> P !! q.

Section one_call.
Variables (P : gmap Z Proc) (F : gmap (Z * Z) Z) (L : gmap string (Z * Z)) (C : gmap Z (FileObj O)) (K : Files O).
Variables (pid : Z) (p : Proc).
Hypotheses (Hs : st [] P F L C K) (Hp : P !! pid = Some p).

Lemma open_exact o : wp (open_install pid o) (λ r K', ∃ id P', descs id P = 0%nat ∧
  placed P pid p 0 id r P' ∧ st [] P' F L (<[id := FOther o]> C) K') K.
Proof.
  seq new_spec. intros id K1 (-> & Hr & Hs1). seq install_spec. intros [fd|] K2; cbn beta iota.
  - intros (Hl & Hlim & P' & Hu & Hs2). apply wp_ret. exists (next_obj K), P'. split_and!; [done| |done].
    right. pose proof (proj1 Hl). split_and!; [lia|lia|done|done].
  - intros [Hfull Hs2]. apply wp_ret. exists (next_obj K), P. split_and!; [done|left|]; done.
Qed.

Lemma close_exact fd : 0 <= fd → wp (sys_close pid fd) (λ r K',
  desc P pid fd = None ∧ r = errno EBADF ∧ (∃ P', same_desc P P' ∧ st [] P' F L C K') ∨
  desc P pid fd ≠ None ∧ r = 0 ∧ ∃ P', upd P pid fd None P' ∧ st [] P' (delete (pid, fd) F) (unlocked pid fd L) C K') K.
Proof.
  intros Hfd. seq take_spec. intros r K1 (-> & P' & Hu & Hs1). destruct (desc P pid fd) as [id|] eqn:Hd.
  - seq drop_spec. intros [] K2 Hs2. seq flags_spec. intros [] K3 Hs3. seq locks_spec. intros [] K4 Hs4.
    apply wp_ret. right. eauto 10.
  - apply wp_ret. left. split_and!; [done..|]. exists P'. split; [|done]. destruct Hu as [Hu1 Hu2]. split; [|done].
    intros q x Hx. rewrite Hu1 by done. case_bool_decide as Hq; [|done]. destruct Hq as [-> ->]. done.
Qed.

Lemma dup_exact fd : wp (sys_dup pid fd) (λ r K',
  match desc P pid fd with
  | None => r = errno EBADF ∧ st [] P F L C K'
  | Some id => ∃ P', placed P pid p 0 id r P' ∧ st [] P' (if r <? 0 then F else delete (pid, r) F) L C K'
  end) K.
Proof.
  seq get_file_spec. intros r K1 [-> Hs1]. destruct (desc P pid fd) as [id|] eqn:Hd; [|by apply wp_ret].
  seq install_spec. intros [new|] K2; cbn beta iota.
  - intros (Hl & Hlim & P' & Hu & Hs2). pose proof (proj1 Hl) as H0. seq flags_set_spec. intros [] K3 Hs3. apply wp_ret.
    exists P'. rewrite (proj2 (Z.ltb_ge new 0)) by lia. split; [|exact Hs3]. right. split_and!; [lia|lia|done|done].
  - intros [Hfull Hs2]. apply wp_ret. exists P. split; [left; done|done].
Qed.

Lemma dup3_exact oldfd newfd flags : 0 <= newfd → wp (sys_dup3 pid oldfd newfd flags) (λ r K',
  if negb (Z.ldiff flags (2 ^ 19) =? 0) || (oldfd =? newfd) then r = errno EINVAL ∧ st [] P F L C K'
  else
    match desc P pid oldfd with
    | None => r = errno EBADF ∧ st [] P F L C K'
    | Some id =>
        if nofile p <=? newfd then r = errno EBADF ∧ st [] P F L C K'
        else r = newfd ∧ ∃ P', upd P pid newfd (Some id) P' ∧
               st [] P' (setflag pid newfd (if any_bit flags (2 ^ 19) then 1 else 0) F) L C K'
    end) K.
Proof.
  intros Hn. unfold sys_dup3. destruct (negb _); [by apply wp_ret|]. destruct (oldfd =? newfd); [by apply wp_ret|]. cbn [orb].
  seq get_file_spec. intros r K1 [-> Hs1]. destruct (desc P pid oldfd) as [id|] eqn:Hd; [|by apply wp_ret].
  apply wp_bind. eapply proc_spec; [exact Hs1|done|]. destruct (nofile p <=? newfd) eqn:El.
  { seq drop_spec. intros [] K2 Hs2. by apply wp_ret. }
  unfold install_file_at. apply wp_bind, wp_bind. eapply proc_spec; [exact Hs1|done|]. rewrite El.
  eapply put_then; [exact Hs1|done|done|lia|]. intros P' K2 Hu Hs2. apply wp_ret. seq flags_set_spec. intros [] K3 Hs3.
  apply wp_ret. eauto.
Qed.

Lemma dupfd_exact id arg cloexec : st [id] P F L C K → 0 <= arg → wp (fcntl_dupfd pid id arg cloexec) (λ r K',
  if nofile p <=? arg then r = errno EINVAL ∧ st [] P F L C K'
  else ∃ P', placed P pid p arg id r P' ∧ st [] P' (if r <? 0 then F else setflag pid r cloexec F) L C K') K.
Proof.
  clear Hs. intros Hs Ha. unfold fcntl_dupfd. apply wp_bind. eapply proc_spec; [exact Hs|done|]. destruct (nofile p <=? arg) eqn:El.
  { seq drop_spec. intros [] K2 Hs2. by apply wp_ret. }
  pose proof (desc_first_free P pid p arg Hp Ha) as Hl. set (new_fd := match _ with Some _ => _ | None => _ end) in *.
  pose proof Hl as (Hge & Hfree & Hlow). destruct (Z.leb_spec (nofile p) new_fd).
  { seq drop_spec. intros [] K2 Hs2. apply wp_ret. exists P. split; [left|done]. split_and!; [done| |done].
    intros x Hx. apply Hlow. lia. }
  eapply put_then; [exact Hs|done|lia|lia|]. intros P' K2 Hu Hs2. seq flags_set_spec. intros [] K3 Hs3.
  apply wp_ret. exists P'. rewrite (proj2 (Z.ltb_ge new_fd 0)) by lia. split; [|exact Hs3].
  right. split_and!; [lia|lia|done|done].
Qed.
End one_call.

(** ** Several descriptors at once *)

Definition ids (t : list (option Z)) : list Z := omap (λ s, s) t.
Lemma held_ids id t h : held id (ids t ++ h) = (slots id t + held id h)%nat.
Proof.
  induction t as [|[x|] t IH]; [done|..]; unfold ids in *; cbn [omap list_omap app].
  - rewrite held_cons, slots_cons, IH. repeat case_decide; naive_solver lia.
  - rewrite slots_cons, decide_False by done. done.
Qed.

Lemma drop_all t : ∀ h P F L C K, st (ids t ++ h) P F L C K →
  wp (m_for t (λ s, match s with Some id => file_drop id | None => m_ret tt end)) (λ _ K', st h P F L C K') K.
Proof.
  induction t as [|[x|] t IH]; intros h P F L C K Hs; cbn [m_for]; [by apply wp_ret|..].
  - change (ids (Some x :: t) ++ h) with (x :: (ids t ++ h)) in Hs. seq drop_spec. intros [] K1 Hs1. by apply IH.
  - apply wp_bind, wp_ret. by apply IH.
Qed.
Lemma clone_all t P : (∀ id, Some id ∈ t → 0 < descs id P)%nat → ∀ h F L C K, st h P F L C K →
  wp (m_for t (λ s, match s with Some id => file_clone id | None => m_ret tt end)) (λ _ K', ∃ h', 
    (∀ id, held id h' = slots id t + held id h)%nat ∧ st h' P F L C K') K.
Proof.
  induction t as [|[x|] t IH]; intros Ht h F L C K Hs; cbn [m_for]; [by apply wp_ret; exists h|..].
  - apply wp_bind. eapply wp_mono; [eapply clone_spec; [done|]|cbn beta].
    { specialize (Ht x ltac:(left)). lia. }
    intros [] K1 Hs1. eapply wp_mono; [apply IH; [set_solver|done]|]. cbn beta. intros [] K2 (h' & Hh & Hs2).
    exists h'. split; [|done]. intros id. rewrite Hh, held_cons, slots_cons. repeat case_decide; naive_solver lia.
  - apply wp_bind, wp_ret. eapply wp_mono; [apply IH; [set_solver|done]|]. cbn beta. intros [] K2 (h' & Hh & Hs2).
    exists h'. split; [|done]. intros id. by rewrite Hh, slots_cons, decide_False.
Qed.

Section life.
Variables (P : gmap Z Proc) (F : gmap (Z * Z) Z) (L : gmap string (Z * Z)) (C : gmap Z (FileObj O)) (K : Files O).
Variables (pid : Z) (p : Proc).
Hypotheses (Hs : st [] P F L C K) (Hp : P !! pid = Some p).

Lemma fork_exact child : P !! child = None → wp (fork_fds pid child) (λ _ K', st [] (<[child := p]> P) F L C K') K.
Proof.
  intros Hc. apply wp_bind. eapply proc_spec; [done..|]. apply wp_bind. eapply wp_mono; [eapply clone_all; [|done]|].
  - intros id [i Hi]%list_elem_of_lookup. apply (desc_refs P pid (Z.of_nat i)). unfold desc. rewrite Hp. cbn. by rewrite Nat2Z.id, Hi.
  - cbn beta. intros [] K1 (h' & Hh & Hs1). apply wp_modify.
    replace (on_procs <[child:=p]> K1) with (on_procs (λ _, <[child:=p]> P) K1)
      by (unfold on_procs; by rewrite (st_procs _ _ _ _ _ _ Hs1)).
    eapply st_retable; [done|]. intros id. rewrite Hh, descs_new by done. unfold held. cbn. lia.
Qed.

Lemma exit_exact : wp (exit_fds pid) (λ _ K', st [] (<[pid := mkProc [] (nofile p)]> P) F L C K') K.
Proof.
  apply wp_bind. eapply proc_spec; [done..|]. apply wp_bind. eapply wp_mono.
  - eapply (set_table_spec _ (ids (fd_table p) ++ [])); [done..|]. intros id. rewrite held_ids. change (slots id []) with 0%nat. unfold held at 2. cbn. lia.
  - cbn beta. intros [] K1 Hs1. by apply drop_all.
Qed.

Lemma reap_exact : fd_table p = [] → wp (reap_fds pid) (λ _ K', st [] (delete pid P) F L C K') K.
Proof.
  intros Ht. apply wp_bind. eapply proc_spec; [done..|]. apply wp_modify.
  replace (on_procs (delete pid) K) with (on_procs (λ _, delete pid P) K)
    by (unfold on_procs; by rewrite (st_procs _ _ _ _ _ _ Hs)).
  eapply st_retable; [done|]. intros id. rewrite (descs_delete id P pid p Hp), Ht. change (slots id []) with 0%nat. lia.
Qed.
End life.

(** Descriptors [l] of [pid] are closed, with their flags and locks. *)
Record closed (P : gmap Z Proc) (F : gmap (Z * Z) Z) (L : gmap string (Z * Z)) (pid : Z) (l : list Z)
    (P' : gmap Z Proc) (F' : gmap (Z * Z) Z) (L' : gmap string (Z * Z)) : Prop := {
  cl_desc : ∀ q x, 0 <= x → desc P' q x = if bool_decide (q = pid ∧ x ∈ l) then None else desc P q x;
  cl_limit : ∀ q, nofile <$> P' !! q = nofile <$> P !! q;
  cl_flags : F' ⊆ F ∧ ∀ x, x ∈ l → desc P pid x ≠ None → F' !! (pid, x) = None;
  cl_locks : L' ⊆ L ∧ ∀ path x, x ∈ l → desc P pid x ≠ None → L' !! path ≠ Some (pid, x);
}.

Lemma close_one P F L C K pid p fd : st [] P F L C K → P !! pid = Some p → 0 <= fd →
  wp (close_range_close pid fd) (λ _ K', ∃ P' F' L', upd P pid fd None P' ∧ st [] P' F' L' C K' ∧
    F' = match desc P pid fd with Some _ => delete (pid, fd) F | None => F end ∧
    L' = match desc P pid fd with Some _ => unlocked pid fd L | None => L end) K.
Proof.
  intros Hs Hp Hfd. seq take_spec. intros r K1 (-> & P' & Hu & Hs1). destruct (desc P pid fd) as [id|] eqn:Hd.
  - seq drop_spec. intros [] K2 Hs2. seq flags_spec. intros [] K3 Hs3. eapply wp_mono; [by apply locks_spec|].
    intros [] K4 Hs4. eauto 10.
  - apply wp_ret. eauto 10.
Qed.

Lemma close_list pid l : Forall (λ x, 0 <= x) l → ∀ P F L C K p, st [] P F L C K → P !! pid = Some p →
  wp (m_for l (close_range_close pid)) (λ _ K', ∃ P' F' L', closed P F L pid l P' F' L' ∧ st [] P' F' L' C K') K.
Proof.
  induction 1 as [|x l Hx Hall IH]; intros P F L C K p Hs Hp; cbn [m_for].
  - apply wp_ret. exists P, F, L. split; [|done]. split; [|done|set_solver..].
    intros q y _. rewrite bool_decide_eq_false_2 by set_solver. done.
  - apply wp_bind. eapply wp_mono; [by eapply close_one|]. cbn beta. intros [] K1 (P1 & F1 & L1 & Hu & Hs1 & EF & EL).
    destruct (upd_is_Some _ _ _ _ _ _ Hu Hp) as (p1 & Hp1 & _).
    eapply wp_mono; [by eapply IH|]. cbn beta. intros [] K2 (P2 & F2 & L2 & [Hd Hl [HF1 HF2] [HL1 HL2]] & Hs2).
    exists P2, F2, L2. split; [|done]. destruct Hu as [Hud Hul].
    assert (F1 ⊆ F) as HF by (subst F1; case_match; [apply delete_subseteq|done]).
    assert (L1 ⊆ L) as HL by (subst L1; case_match; [apply map_filter_subseteq|done]).
    assert (∀ y, y ∈ l → y ≠ x → desc P pid y ≠ None → 0 <= y → desc P1 pid y ≠ None) as Hkeep.
    { intros y Hy Hne Hdy H0. rewrite Hud by done. rewrite bool_decide_eq_false_2; naive_solver. }
    split.
    + intros q y Hy. rewrite Hd, Hud by done. repeat case_bool_decide; set_solver.
    + intros q. by rewrite Hl, Hul.
    + split; [by etrans|]. intros y Hy Hdy. destruct (decide (y = x)) as [->|Hne].
      * eapply lookup_weaken_None; [|done]. subst F1. destruct (desc P pid x); [|done]. apply lookup_delete_eq.
      * apply elem_of_cons in Hy as [->|Hy]; [done|]. apply HF2; [done|]. apply Hkeep; try done.
        by eapply Forall_forall in Hall.
    + split; [by etrans|]. intros path y Hy Hdy. destruct (decide (y = x)) as [->|Hne].
      * intros E. eapply lookup_weaken in E; [|done]. subst L1. destruct (desc P pid x); [|done].
        apply map_lookup_filter_Some in E as [_ E]. done.
      * apply elem_of_cons in Hy as [->|Hy]; [done|]. apply HL2; [done|]. apply Hkeep; try done.
        by eapply Forall_forall in Hall.
Qed.

Lemma mark_list pid l : ∀ P F L C K p, st [] P F L C K → P !! pid = Some p →
  wp (m_for l (close_range_mark pid)) (λ _ K', ∃ F', (∀ q x, q = pid → x ∈ l → desc P pid x ≠ None →
      Z.testbit (default 0 (F' !! (q, x))) 0 = true) ∧
    (∀ q x, Z.testbit (default 0 (F !! (q, x))) 0 = true → Z.testbit (default 0 (F' !! (q, x))) 0 = true) ∧
    st [] P F' L C K') K.
Proof.
  induction l as [|x l IH]; intros P F L C K p Hs Hp; cbn [m_for].
  - apply wp_ret. exists F. split; [set_solver|done].
  - assert (wp (close_range_mark pid x) (λ _ K', ∃ F', (desc P pid x ≠ None → Z.testbit (default 0 (F' !! (pid, x))) 0 = true) ∧
      (∀ q y, Z.testbit (default 0 (F !! (q, y))) 0 = true → Z.testbit (default 0 (F' !! (q, y))) 0 = true) ∧
      st [] P F' L C K') K) as Hone.
    { seq get_file_spec. intros r K1 [-> Hs1]. destruct (desc P pid x) as [id|] eqn:Hd; [|apply wp_ret; by exists F].
      seq drop_spec. intros [] K2 Hs2. apply wp_bind, wp_bind, wp_get. rewrite (st_flags _ _ _ _ _ _ Hs2). apply wp_ret.
      eapply wp_mono; [by apply flags_set_spec|]. cbn beta. intros [] K3 Hs3. eexists. split_and!; [..|exact Hs3]; unfold setflag.
      all: assert (Z.testbit (Z.lor (default 0 (F !! (pid, x))) 1) 0 = true) as Hb by (rewrite Z.lor_spec; apply orb_true_r).
      all: destruct (Z.eqb_spec (Z.lor (default 0 (F !! (pid, x))) 1) 0) as [E|]; [by rewrite E in Hb|].
      - intros _. by rewrite lookup_insert_eq.
      - intros q y Hy. destruct (decide ((pid, x) = (q, y))) as [<-|]; [by rewrite lookup_insert_eq|by rewrite lookup_insert_ne]. }
    apply wp_bind. eapply wp_mono; [exact Hone|]. cbn beta. intros [] K1 (F1 & H1 & H2 & Hs1).
    eapply wp_mono; [by eapply IH|]. cbn beta. intros [] K2 (F2 & H3 & H4 & Hs2). exists F2. split_and!; [|by eauto|done].
    intros q y -> [->|Hy]%elem_of_cons Hd; [by apply H4, H1|by apply H3].
Qed.

Lemma close_range_exact P F L C K pid p first last flags : st [] P F L C K → P !! pid = Some p → 0 <= first →
  wp (sys_close_range pid first last flags) (λ r K', ∃ P' F' L', st [] P' F' L' C K' ∧
    if negb (Z.ldiff flags 6 =? 0) || (last <? first) then r = errno EINVAL ∧ P' = P ∧ F' = F ∧ L' = L
    else r = 0 ∧ if any_bit flags 4
      then P' = P ∧ L' = L ∧ ∀ x, first <= x <= last → desc P pid x ≠ None → Z.testbit (default 0 (F' !! (pid, x))) 0 = true
      else ∃ l, (∀ x, first <= x <= last ∧ desc P pid x ≠ None → x ∈ l) ∧ (∀ x, x ∈ l → first <= x <= last) ∧
             closed P F L pid l P' F' L') K.
Proof.
  intros Hs Hp Hf. unfold sys_close_range. destruct (negb _); [apply wp_ret; by exists P, F, L|].
  destruct (Z.ltb_spec last first); [apply wp_ret; by exists P, F, L|]. cbn [orb]. apply wp_bind. eapply proc_spec; [done..|].
  assert (∀ x, 0 <= x → desc P pid x ≠ None → x < Z.of_nat (length (fd_table p))) as Hopen.
  { intros x Hx Hd. unfold desc in Hd. rewrite Hp in Hd. cbn in Hd. destruct (fd_table p !! Z.to_nat x) eqn:E; [|done].
    apply lookup_lt_Some in E. lia. }
  destruct (_ || _) eqn:Eb.
  - apply wp_ret. exists P, F, L. split; [done|]. split; [done|].
    assert (∀ x, first <= x <= last → desc P pid x = None) as Hno.
    { intros x Hx. destruct (desc P pid x) eqn:E; [|done]. specialize (Hopen x ltac:(lia)). rewrite E in Hopen.
      specialize (Hopen ltac:(done)). apply orb_true_iff in Eb as [Eb%Z.eqb_eq|Eb%Z.leb_le]; lia. }
    destruct (any_bit flags 4); [split_and!; [done..|]; intros x Hx Hd; by rewrite Hno in Hd|].
    exists []. split_and!; [intros x [Hx Hd]; by rewrite Hno in Hd|set_solver|]. split; [|done|set_solver..].
    intros q x _. rewrite bool_decide_eq_false_2; [done|set_solver].
  - set (l := seqZ first _).
    assert (∀ x, x ∈ l ↔ first <= x <= Z.min last (Z.of_nat (length (fd_table p)) - 1)) as Hl.
    { intros x. unfold l. rewrite elem_of_seqZ. lia. }
    apply wp_bind. destruct (any_bit flags 4).
    + eapply wp_mono; [by eapply mark_list|]. cbn beta. intros [] K1 (F' & HF & _ & Hs1). apply wp_ret. exists P, F', L.
      split_and!; [done..|]. intros x Hx Hd. apply HF; [done| |done]. apply Hl. specialize (Hopen x ltac:(lia) Hd). lia.
    + eapply wp_mono; [eapply close_list; [|done..]|].
      * apply Forall_forall. intros x Hx%Hl. lia.
      * cbn beta. intros [] K1 (P' & F' & L' & Hc & Hs1). apply wp_ret. exists P', F', L'. split_and!; [done..|].
        exists l. split_and!; [|intros x Hx%Hl; lia|done]. intros x [Hx Hd]. apply Hl. specialize (Hopen x ltac:(lia) Hd). lia.
Qed.

(** ** Pipes *)

Lemma pipes_ok_new C pp np a b er ew p : pipes_ok C pp np → C !! a = None → C !! b = None → a ≠ b → pipe_wf p →
  readable er = true → writable er = false → readable ew = false → writable ew = true → read_open p = true → write_open p = true →
  pipes_ok (<[b := FPipe np ew]> (<[a := FPipe np er]> C)) (<[np := p]> pp) (np + 1).
Proof.
  intros [Hfr Hwf He Hu Hr Hw] Ha Hb Hab Hp E1 E2 E3 E4 E5 E6.
  assert (∀ id f, <[b := FPipe np ew]> (<[a := FPipe np er]> C) !! id = Some f ↔
    id = b ∧ f = FPipe np ew ∨ id = a ∧ f = FPipe np er ∨ C !! id = Some f) as Hall.
  { intros id f. rewrite !lookup_insert_Some. split; [naive_solver|]. intros [[-> ->]|[[-> ->]|Hc]]; [naive_solver..|].
    assert (id ≠ a ∧ id ≠ b) by (split; congruence). naive_solver. }
  assert (∀ id f x, C !! id = Some f → end_of f ≠ Some (np, x)) as Hold.
  { intros id f x Hc Hx. destruct (He _ _ _ _ Hc Hx) as [_ [q Hq]]. apply Hfr in Hq. lia. }
  split.
  - intros k q. rewrite lookup_insert_Some. intros [[<- _]|[_ Hq]]; [lia|apply Hfr in Hq; lia].
  - intros k q. rewrite lookup_insert_Some. intros [[_ <-]|[_ Hq]]; [done|by eapply Hwf].
  - intros id f k x [[-> ->]|[[-> ->]|Hc]]%Hall.
    + intros [= <- _]. cbn. rewrite E3, E4, lookup_insert_eq. by split.
    + intros [= <- _]. cbn. rewrite E1, E2, lookup_insert_eq. by split.
    + intros Hx. destruct (He _ _ _ _ Hc Hx) as [? ?]. split; [done|]. by apply lookup_insert_is_Some'; right.
  - intros id1 id2 f1 f2 k x H1%Hall H2%Hall H3 H4.
    destruct H1 as [[-> ->]|[[-> ->]|H1]], H2 as [[-> ->]|[[-> ->]|H2]]; cbn in *; simplify_eq; try done; try congruence.
    all: try (exfalso; by eapply Hold). by eapply Hu.
  - intros k q. rewrite lookup_insert_Some. setoid_rewrite Hall. intros [[<- <-]|[Hne Hq]].
    + split; [|done]. intros _. exists a, (FPipe np er). cbn. rewrite E1. naive_solver.
    + rewrite (Hr _ _ Hq). split; [naive_solver|]. intros (id & f & [[-> ->]|[[-> ->]|Hc]] & Hx); [cbn in Hx; congruence..|eauto].
  - intros k q. rewrite lookup_insert_Some. setoid_rewrite Hall. intros [[<- <-]|[Hne Hq]].
    + split; [|done]. intros _. exists b, (FPipe np ew). cbn. rewrite E3. naive_solver.
    + rewrite (Hw _ _ Hq). split; [naive_solver|]. intros (id & f & [[-> ->]|[[-> ->]|Hc]] & Hx); [cbn in Hx; congruence..|eauto].
Qed.

Lemma new_pipe_spec h P F L C K status : st h P F L C K →
  wp (new_pipe status) (λ r K', r.1 ≠ r.2 ∧ descs r.1 P = 0%nat ∧ descs r.2 P = 0%nat ∧
    ∃ k er ew, readable er = true ∧ readable ew = false ∧
      st (r.1 :: r.2 :: h) P F L (<[r.2 := FPipe k ew]> (<[r.1 := FPipe k er]> C)) K') K.
Proof.
  intros [Hi HP HF HL Hc]. destruct (fs_inv_none h K (next_obj K) Hi ltac:(lia)) as (Hn & Hr & Hh).
  destruct (fs_inv_none h K (next_obj K + 1) Hi ltac:(lia)) as (Hn' & Hr' & Hh'). rewrite HP in *.
  unfold new_pipe. apply wp_bind, wp_get. pose (st' := λ e : PipeEnd, if status =? 0 then e else PipeEnd_set_status_flags e status).
  apply wp_bind, wp_modify. apply wp_bind. unfold file_new at 1. cbn [wp]. unfold wp at 1.
  apply wp_bind. unfold file_new at 1. unfold wp at 1. apply wp_ret. cbn [objs next_obj pipes next_pipe procs fd_flags flocks fst snd].
  split_and!; [lia|done|done|]. exists (next_pipe K), (st' (PipeEnd_new true false)), (st' (PipeEnd_new false true)).
  split_and!; [unfold st'; by case_match|unfold st'; by case_match|].
  pose proof Hi as [Hct Hl Hf Hp]. split; [split|done..|].
  - intros id. rewrite !held_cons. unfold rc. cbn [objs procs].
    destruct (decide (next_obj K + 1 = id)) as [<-|Hne].
    { rewrite lookup_insert_eq, decide_False by lia. change (1 = descs (next_obj K + 1) (procs K) + (0 + (1 + held (next_obj K + 1) h)))%nat. rewrite HP. lia. }
    rewrite lookup_insert_ne by done. destruct (decide (next_obj K = id)) as [<-|Hne'].
    { rewrite lookup_insert_eq. change (1 = descs (next_obj K) (procs K) + (1 + (0 + held (next_obj K) h)))%nat. rewrite HP. lia. }
    rewrite lookup_insert_ne by done. apply Hct.
  - intros id f n. cbn. rewrite !lookup_insert_Some. intros [[_ [= _ <-]]|[_ [[_ [= _ <-]]|[_ ?]]]]; [lia|lia|by eapply Hl].
  - intros id f n. cbn. rewrite !lookup_insert_Some. intros [[<- _]|[_ [[<- _]|[_ E]]]]; [lia|lia|apply Hf in E; lia].
  - unfold content. cbn. rewrite !fmap_insert. apply pipes_ok_new; try done; try lia.
    + by rewrite lookup_fmap, Hn.
    + by rewrite lookup_fmap, Hn'.
    + by apply PipeBuffer_new_wf.
    + unfold st'. by case_match.
    + unfold st'. by case_match.
    + unfold st'. by case_match.
    + unfold st'. by case_match.
  - unfold content. cbn. rewrite !fmap_insert. by do 2 apply insert_mono.
Qed.

Lemma same_desc_undo P pid fd v P1 P2 : desc P pid fd = None → upd P pid fd v P1 → upd P1 pid fd None P2 → same_desc P P2.
Proof.
  intros Hd [H1 H2] [H3 H4]. split; [|intros q; by rewrite H4, H2]. intros q x Hx. rewrite H3, H1 by done.
  case_bool_decide as E; [|done]. destruct E as [-> ->]. done.
Qed.

Lemma pipe2_exact {U} {UM : UserMemory U} (u : U) P F L C K pid p fds flags : st [] P F L C K → P !! pid = Some p →
  wp (sys_pipe2 u pid fds flags) (λ r K', ∃ P' F' C', st [] P' F' L C' K' ∧
    if fds =? 0 then r = (errno EFAULT, u) ∧ P' = P ∧ F' = F
    else if negb (Z.ldiff flags (2 ^ 19 + 2 ^ 14 + 2 ^ 11) =? 0) then r = (errno EINVAL, u) ∧ P' = P ∧ F' = F
    else r = (errno EMFILE, u) ∧ same_desc P P' ∧ F' = F ∨
      ∃ fd0 fd1 a b k er ew P1, least_free P pid 0 fd0 ∧ upd P pid fd0 (Some a) P1 ∧ least_free P1 pid 0 fd1 ∧ upd P1 pid fd1 (Some b) P' ∧
        fd0 < nofile p ∧ fd1 < nofile p ∧ a ≠ b ∧ descs a P = 0%nat ∧ descs b P = 0%nat ∧
        C' = <[b := FPipe k ew]> (<[a := FPipe k er]> C) ∧ readable er = true ∧ readable ew = false ∧
        let cloexec := if any_bit flags (2 ^ 19) then 1 else 0 in
        F' = setflag pid fd1 cloexec (setflag pid fd0 cloexec F) ∧
        let '(ok, u') := user_write u fds (le_put 4 fd0 ++ le_put 4 fd1) in r = (if ok then 0 else errno EFAULT, u')) K.
Proof.
  intros Hs Hp. unfold sys_pipe2. destruct (fds =? 0); [apply wp_ret; by exists P, F, C|].
  destruct (negb _); [apply wp_ret; by exists P, F, C|].
  seq new_pipe_spec. intros [a b] K1. cbn [fst snd]. intros (Hab & Hra & Hrb & k & er & ew & Er & Ew & Hs1).
  seq install_spec. intros [fd0|] K2; cbn beta iota.
  2:{ intros [_ Hs2]. seq drop_spec. intros [] K3 Hs3. apply wp_ret. eexists P, F, _. split; [done|]. left. by split_and!. }
  intros (Hl0 & Hlim0 & P1 & Hu1 & Hs2). destruct (upd_is_Some _ _ _ _ _ _ Hu1 Hp) as (p1 & Hp1 & Hlim).
  seq install_spec. intros [fd1|] K3; cbn beta iota.
  - intros (Hl1 & Hlim1 & P2 & Hu2 & Hs3). seq flags_set_spec. intros [] K4 Hs4. seq flags_set_spec. intros [] K5 Hs5.
    destruct (user_write _ _ _) as [ok u'] eqn:Ew'. apply wp_ret. eexists P2, _, _. split; [exact Hs5|]. right.
    exists fd0, fd1, a, b, k, er, ew, P1. rewrite Hlim in Hlim1. rewrite Ew'. by split_and!.
  - intros [_ Hs3]. destruct Hl0 as (H0 & Hfree & _). apply wp_bind. eapply wp_mono; [eapply take_spec; [exact Hs3|done|lia]|]. cbn beta.
    intros r K4 (-> & P2 & Hu2 & Hs4). apply wp_bind. eapply wp_mono.
    + instantiate (1 := λ _ K', st [] P2 F L (<[b := FPipe k ew]> (<[a := FPipe k er]> C)) K').
      destruct (desc P1 pid fd0); [by apply drop_spec|by apply wp_ret].
    + cbn beta. intros [] K5 Hs5. apply wp_ret. eexists P2, F, _. split; [done|]. left. split_and!; [done| |done].
      by eapply same_desc_undo.
Qed.

(** ** The remaining calls *)

Lemma fcntl_exact {U} {UM : UserMemory U} peek (u : U) P F L C K pid p fd cmd arg : st [] P F L C K → P !! pid = Some p → 0 <= arg →
  wp (sys_fcntl peek u pid fd cmd arg) (λ r K', ∃ P' F' C', st [] P' F' L C' K' ∧
    match desc P pid fd with
    | None => r.1 = errno EBADF ∧ P' = P ∧ F' = F ∧ C' = C
    | Some id =>
        if (cmd =? 0) || (cmd =? 1030) then
          C' = C ∧
          if nofile p <=? arg then r.1 = errno EINVAL ∧ P' = P ∧ F' = F
          else placed P pid p arg id r.1 P' ∧
               F' = if r.1 <? 0 then F else setflag pid r.1 (if cmd =? 1030 then 1 else 0) F
        else ∃ f, C !! id = Some f ∧ P' = P ∧
          F' = (if cmd =? 2 then setflag pid fd (Z.land (wrap32 arg) 1) F else F) ∧
          C' = (if cmd =? 4 then alter (λ f, f_set_status_flags f (wrap32 arg)) id C
                else if cmd =? 1033 then alter (λ f, (f_add_seals f (wrap32 arg)).2) id C else C) ∧
          (cmd = 1 → r.1 = Z.land (Z.lor (f_fd_flags f) (default 0 (F !! (pid, fd)))) 1) ∧ (cmd = 2 ∨ cmd = 4 → r.1 = 0)
    end) K.
Proof.
  intros Hs Hp Ha. seq get_file_spec. intros r K1 [-> Hs1]. destruct (desc P pid fd) as [id|] eqn:Hd.
  2:{ apply wp_ret. by exists P, F, C. }
  destruct ((cmd =? 0) || (cmd =? 1030)) eqn:Ec.
  - apply wp_bind. eapply wp_mono; [by apply dupfd_exact|]. cbn beta. intros r K2 Hr. apply wp_ret.
    destruct (nofile p <=? arg); [destruct Hr as [-> Hs2]; by exists P, F, C|]. destruct Hr as (P' & Hpl & Hs2).
    eexists P', _, C. split; [exact Hs2|done].
  - assert (∀ K, st [id] P F L C K → (0 < descs id P + held id [id])%nat) as Hpos.
    { intros _ _. rewrite held_cons, decide_True by done. lia. }
    apply wp_bind. eapply obj_spec; [done|eauto|]. intros f n Hf. apply wp_bind. eapply wp_mono.
    + instantiate (1 := λ r K', ∃ F' C', st [id] P F' L C' K' ∧
        F' = (if cmd =? 2 then setflag pid fd (Z.land (wrap32 arg) 1) F else F) ∧
        C' = (if cmd =? 4 then alter (λ f, f_set_status_flags f (wrap32 arg)) id C
              else if cmd =? 1033 then alter (λ f, (f_add_seals f (wrap32 arg)).2) id C else C) ∧
        (cmd = 1 → r.1 = Z.land (Z.lor (f_fd_flags f) (default 0 (F !! (pid, fd)))) 1) ∧ (cmd = 2 ∨ cmd = 4 → r.1 = 0)).
      destruct (Z.eqb_spec cmd 1) as [->|H1]; [|destruct (Z.eqb_spec cmd 2) as [->|H2];
        [|destruct (Z.eqb_spec cmd 3) as [->|H3]; [|destruct (Z.eqb_spec cmd 4) as [->|H4]]]].
      * apply wp_bind, wp_bind, wp_get. rewrite (st_flags _ _ _ _ _ _ Hs1). apply wp_ret, wp_ret. exists F, C. split; [done|].
        split_and!; [done..|lia].
      * seq flags_set_spec. intros [] K2 Hs2. apply wp_ret. eexists _, C. split; [exact Hs2|]. by split_and!.
      * apply wp_ret. exists F, C. split; [done|]. split_and!; [done..|lia].
      * apply wp_bind. eapply wp_mono; [eapply set_spec; [done|eauto|]|].
        { intros [k e|o]; [by split|done]. }
        cbn beta. intros [] K2 Hs2. apply wp_ret. eexists F, _. split; [exact Hs2|]. by split_and!.
      * assert (∀ r, wp (m_ret (r : Z * U)) (λ r K', ∃ F' C', st [id] P F' L C' K' ∧ F' = F ∧ C' = C ∧
          (cmd = 1 → r.1 = Z.land (Z.lor (f_fd_flags f) (default 0 (F !! (pid, fd)))) 1) ∧ (cmd = 2 ∨ cmd = 4 → r.1 = 0)) K1) as Hret.
        { intros r. apply wp_ret. exists F, C. split_and!; [done..|]; lia. }
        destruct (Z.eqb_spec cmd 1033) as [->|H5]; cbn [Z.eqb orb].
        { apply wp_bind. eapply wp_mono; [eapply set_spec; [done|eauto|]|].
          - intros [k e|o]; [by split|]. cbn. by destruct (f_add_seals o _).
          - cbn beta. intros [] K2 Hs2. apply wp_ret. eexists F, _. split; [exact Hs2|]. split_and!; try done; lia. }
        repeat (case_match; try apply Hret).
    + cbn beta. intros r K2 (F' & C' & Hs2 & Hrest). seq drop_spec. intros [] K3 Hs3. apply wp_ret.
      exists P, F', C'. split; [done|]. exists f. naive_solver.
Qed.

Lemma flock_exact P F L C K pid p fd op : st [] P F L C K → P !! pid = Some p →
  wp (sys_flock pid fd op) (λ r K', ∃ L', st [] P F L' C K' ∧
    match desc P pid fd with
    | None => r = errno EBADF ∧ L' = L
    | Some id => ∃ f, C !! id = Some f ∧
        match f_path f with
        | None => r = errno EBADF ∧ L' = L
        | Some path =>
            if any_bit op 8 then r = 0 ∧ L' = (if bool_decide (L !! path = Some (pid, fd)) then delete path L else L)
            else if negb (any_bit op 3) then r = errno EINVAL ∧ L' = L
            else match L !! path with
                 | None => r = 0 ∧ L' = <[path := (pid, fd)]> L
                 | Some owner => r = (if bool_decide (owner = (pid, fd)) then 0 else errno EAGAIN) ∧ L' = L
                 end
        end
    end) K.
Proof.
  intros Hs Hp. seq get_file_spec. intros r K1 [-> Hs1]. destruct (desc P pid fd) as [id|] eqn:Hd.
  2:{ apply wp_ret. by exists L. }
  cbn [hcons] in Hs1. apply wp_bind. eapply obj_spec; [done|rewrite held_cons, decide_True by done; lia|]. intros f n Hf.
  destruct (f_path f) as [path|] eqn:Eo.
  2:{ apply wp_bind, wp_ret. seq drop_spec. intros [] K2 Hs2. apply wp_ret. exists L. split; [done|]. exists f. split; [done|]. rewrite Eo, ?EL. done. }
  apply wp_bind, wp_bind, wp_get. rewrite (st_locks _ _ _ _ _ _ Hs1).
  destruct (any_bit op 8).
  { apply wp_bind. eapply wp_mono.
    - instantiate (1 := λ _ K', st [id] P F (if bool_decide (L !! path = Some (pid, fd)) then delete path L else L) C K').
      case_bool_decide; [by apply locks_spec|by apply wp_ret].
    - cbn beta. intros [] K2 Hs2. apply wp_ret. seq drop_spec. intros [] K3 Hs3. apply wp_ret. eexists. split; [exact Hs3|]. exists f. split; [done|]. rewrite Eo, ?EL. done. }
  destruct (negb _).
  { apply wp_ret. seq drop_spec. intros [] K2 Hs2. apply wp_ret. exists L. split; [done|]. exists f. split; [done|]. rewrite Eo, ?EL. done. }
  destruct (L !! path) as [owner|] eqn:EL.
  - apply wp_ret. seq drop_spec. intros [] K2 Hs2. apply wp_ret. exists L. split; [done|]. exists f. split; [done|]. rewrite Eo, ?EL. done.
  - apply wp_bind. eapply wp_mono; [by apply locks_spec|]. cbn beta. intros [] K2 Hs2. apply wp_ret. seq drop_spec. intros [] K3 Hs3.
    apply wp_ret. eexists. split; [exact Hs3|]. exists f. split; [done|]. rewrite Eo, ?EL. done.
Qed.

Lemma memfd_exact new P F L C K pid p name name_str flags : st [] P F L C K → P !! pid = Some p →
  wp (sys_memfd_create new pid name name_str flags) (λ r K', ∃ P' F' C', st [] P' F' L C' K' ∧
    (P' = P ∧ F' = F ∧ (r = errno EFAULT ∨ r = errno EINVAL) ∨
     ∃ id, descs id P = 0%nat ∧ placed P pid p 0 id r P' ∧ C' = <[id := FOther (new (any_bit flags 2))]> C ∧
       F' = if (0 <=? r) && any_bit flags 1 then setflag pid r 1 F else F)) K.
Proof.
  intros Hs Hp. unfold sys_memfd_create. destruct (name =? 0); [apply wp_ret; exists P, F, C; naive_solver|].
  destruct (negb _); [apply wp_ret; exists P, F, C; naive_solver|].
  destruct name_str as [s|]; [|apply wp_ret; exists P, F, C; naive_solver].
  destruct (249 <? _); [apply wp_ret; exists P, F, C; naive_solver|].
  seq new_spec. intros id K1 (-> & Hr & Hs1). seq install_spec. intros [fd|] K2; cbn beta iota.
  - intros (Hl & Hlim & P' & Hu & Hs2). pose proof (proj1 Hl) as H0. apply wp_bind. eapply wp_mono.
    + instantiate (1 := λ _ K', st [] P' (if (0 <=? fd) && any_bit flags 1 then setflag pid fd 1 F else F) L
        (<[next_obj K := FOther (new (any_bit flags 2))]> C) K').
      rewrite (proj2 (Z.leb_le 0 fd)) by lia. destruct (any_bit flags 1); [by apply flags_set_spec|by apply wp_ret].
    + cbn beta. intros [] K3 Hs3. apply wp_ret. eexists P', _, _. split; [exact Hs3|]. right. exists (next_obj K).
      split_and!; [done| |done|done]. right. split_and!; [lia|lia|done|done].
  - intros [Hfull Hs2]. apply wp_ret. eexists P, F, _. split; [exact Hs2|]. right. exists (next_obj K).
    split_and!; [done|left; done|done|done].
Qed.

(** Reading and writing keep the ends of the pipe. *)
Lemma pipe_step_exact P F L C K pid p fd reading g : st [] P F L C K → P !! pid = Some p →
  (∀ q, pipe_wf q → ∃ q' n, g q = Finished (q', n) ∧ pipe_wf q' ∧ same_ends q q') →
  wp (pipe_step_fd pid fd reading g) (λ _ K', st [] P F L C K') K.
Proof.
  intros Hs Hp Hg. seq get_file_spec. intros r K1 [-> Hs1]. destruct (desc P pid fd) as [id|] eqn:Hd; [|by apply wp_ret].
  cbn [hcons] in Hs1. destruct (st_obj _ _ _ _ _ _ id Hs1) as (f & n & Hid & Hf & _); [rewrite held_cons, decide_True by done; lia|].
  apply wp_bind. unfold file_obj. apply wp_bind, wp_get. rewrite Hid. apply wp_ret. apply wp_bind. eapply wp_mono.
  - instantiate (1 := λ _ K', st [id] P F L C K'). destruct f as [k e|o]; [|by apply wp_ret].
    destruct (negb _); [by apply wp_ret|]. apply wp_bind, wp_get. destruct Hs1 as [[Hct Hl Hfr Hpo] HP HF HL Hc].
    destruct (po_end _ _ _ Hpo id (FPipe k e) k (readable e)) as [_ [q Hq]]; [apply content_lookup; eauto|done|].
    apply wp_bind. rewrite Hq. apply wp_ret. destruct (Hg q) as (q' & m & -> & Hw & Hr1 & Hr2 & _); [by eapply po_wf|].
    apply wp_bind, wp_modify, wp_ret. split; [split|done..]; [done..|]. cbn. destruct Hpo as [Hfr' Hwf He Hu Hr Hwt].
    split.
    + intros k' r. rewrite lookup_insert_Some. intros [[<- _]|[_ ?]]; by eapply Hfr'.
    + intros k' r. rewrite lookup_insert_Some. intros [[_ <-]|[_ ?]]; [done|by eapply Hwf].
    + intros id' f' k' b H1 H2. destruct (He _ _ _ _ H1 H2) as [? ?]. split; [done|]. by apply lookup_insert_is_Some'; right.
    + done.
    + intros k' r. rewrite lookup_insert_Some. intros [[<- <-]|[_ ?]]; [rewrite Hr1|]; by apply Hr.
    + intros k' r. rewrite lookup_insert_Some. intros [[<- <-]|[_ ?]]; [rewrite Hr2|]; by apply Hwt.
  - cbn beta. intros r K2 Hs2. seq drop_spec. intros [] K3 Hs3. by apply wp_ret.
Qed.
End inv.

(** ** The claims *)

Section claims.
Context {O U : Type} {FT : FileTrait O} {UM : UserMemory U}.
Variables (peek : U → Z → nat → list Z) (memfd : bool → O) (timerfd : Z → bool → bool → O).
Implicit Types (K : Files O).
#[local] Abbreviation act := (do_call peek memfd timerfd).
#[local] Abbreviation runs := (run_calls peek memfd timerfd).

(** A new file gets a descriptor, or there is none left. *)
Definition opens (P : gmap Z Proc) (C : gmap Z (FileObj O)) (pid : Z) (p : Proc) (o : O) (r : Z) (P' : gmap Z Proc) (C' : gmap Z (FileObj O)) : Prop :=
  ∃ id, descs id P = 0%nat ∧ placed P pid p 0 id r P' ∧ C' = <[id := FOther o]> C.

(** What a call that returns [r] does to the descriptors [P] of all processes,
    the flags [F], the locks [L] and the files [C]. *)
Definition call_effect (P : gmap Z Proc) (F : gmap (Z * Z) Z) (L : gmap string (Z * Z)) (C : gmap Z (FileObj O)) (pid : Z) (p : Proc)
    (c : fcall (O:=O) (U:=U)) (r : Z) (P' : gmap Z Proc) (F' : gmap (Z * Z) Z) (L' : gmap string (Z * Z))
    (C' : gmap Z (FileObj O)) : Prop :=
  match c with
  | COpen o => opens P C pid p o r P' C' ∧ F' = F ∧ L' = L
  | CTimerfd clockid flags =>
      (r = errno EINVAL ∧ P' = P ∧ C' = C ∨
       opens P C pid p (timerfd clockid (any_bit flags (2 ^ 11)) (any_bit flags (2 ^ 19))) r P' C') ∧ F' = F ∧ L' = L
  | CMemfd _ _ flags =>
      (P' = P ∧ F' = F ∧ (r = errno EFAULT ∨ r = errno EINVAL) ∨
       opens P C pid p (memfd (any_bit flags 2)) r P' C' ∧
       F' = if (0 <=? r) && any_bit flags 1 then setflag pid r 1 F else F) ∧ L' = L
  | CClose fd =>
      C' = C ∧
      match desc P pid fd with
      | None => r = errno EBADF ∧ same_desc P P' ∧ F' = F ∧ L' = L
      | Some _ => r = 0 ∧ upd P pid fd None P' ∧ F' = delete (pid, fd) F ∧ L' = unlocked pid fd L
      end
  | CCloseRange first last flags =>
      C' = C ∧
      if negb (Z.ldiff flags 6 =? 0) || (last <? first) then r = errno EINVAL ∧ P' = P ∧ F' = F ∧ L' = L
      else r = 0 ∧ if any_bit flags 4
        then P' = P ∧ L' = L ∧ ∀ x, first <= x <= last → desc P pid x ≠ None → Z.testbit (default 0 (F' !! (pid, x))) 0 = true
        else ∃ l, (∀ x, first <= x <= last ∧ desc P pid x ≠ None → x ∈ l) ∧ (∀ x, x ∈ l → first <= x <= last) ∧
               closed P F L pid l P' F' L'
  | CDup fd =>
      C' = C ∧ L' = L ∧
      match desc P pid fd with
      | None => r = errno EBADF ∧ P' = P ∧ F' = F
      | Some id => placed P pid p 0 id r P' ∧ F' = if r <? 0 then F else delete (pid, r) F
      end
  | CDup3 oldfd newfd flags =>
      C' = C ∧ L' = L ∧
      if negb (Z.ldiff flags (2 ^ 19) =? 0) || (oldfd =? newfd) then r = errno EINVAL ∧ P' = P ∧ F' = F
      else
        match desc P pid oldfd with
        | None => r = errno EBADF ∧ P' = P ∧ F' = F
        | Some id =>
            if nofile p <=? newfd then r = errno EBADF ∧ P' = P ∧ F' = F
            else r = newfd ∧ upd P pid newfd (Some id) P' ∧
                 F' = setflag pid newfd (if any_bit flags (2 ^ 19) then 1 else 0) F
        end
  | CFcntl _ fd cmd arg =>
      L' = L ∧
      match desc P pid fd with
      | None => r = errno EBADF ∧ P' = P ∧ F' = F ∧ C' = C
      | Some id =>
          if (cmd =? 0) || (cmd =? 1030) then
            C' = C ∧
            if nofile p <=? arg then r = errno EINVAL ∧ P' = P ∧ F' = F
            else placed P pid p arg id r P' ∧ F' = if r <? 0 then F else setflag pid r (if cmd =? 1030 then 1 else 0) F
          else ∃ f, C !! id = Some f ∧ P' = P ∧
            F' = (if cmd =? 2 then setflag pid fd (Z.land (wrap32 arg) 1) F else F) ∧
            C' = (if cmd =? 4 then alter (λ f, f_set_status_flags f (wrap32 arg)) id C
                  else if cmd =? 1033 then alter (λ f, (f_add_seals f (wrap32 arg)).2) id C else C) ∧
            (cmd = 1 → r = Z.land (Z.lor (f_fd_flags f) (default 0 (F !! (pid, fd)))) 1) ∧ (cmd = 2 ∨ cmd = 4 → r = 0)
      end
  | CPipe2 u fds flags =>
      L' = L ∧
      if fds =? 0 then r = errno EFAULT ∧ P' = P ∧ F' = F
      else if negb (Z.ldiff flags (2 ^ 19 + 2 ^ 14 + 2 ^ 11) =? 0) then r = errno EINVAL ∧ P' = P ∧ F' = F
      else r = errno EMFILE ∧ same_desc P P' ∧ F' = F ∨
        ∃ fd0 fd1 a b k er ew P1, least_free P pid 0 fd0 ∧ upd P pid fd0 (Some a) P1 ∧ least_free P1 pid 0 fd1 ∧
          upd P1 pid fd1 (Some b) P' ∧ fd0 < nofile p ∧ fd1 < nofile p ∧ a ≠ b ∧ descs a P = 0%nat ∧ descs b P = 0%nat ∧
          C' = <[b := FPipe k ew]> (<[a := FPipe k er]> C) ∧ readable er = true ∧ readable ew = false ∧
          let cloexec := if any_bit flags (2 ^ 19) then 1 else 0 in
          F' = setflag pid fd1 cloexec (setflag pid fd0 cloexec F) ∧
          r = if (user_write u fds (le_put 4 fd0 ++ le_put 4 fd1)).1 then 0 else errno EFAULT
  | CFlock fd op =>
      P' = P ∧ F' = F ∧ C' = C ∧
      match desc P pid fd with
      | None => r = errno EBADF ∧ L' = L
      | Some id => ∃ f, C !! id = Some f ∧
          match f_path f with
          | None => r = errno EBADF ∧ L' = L
          | Some path =>
              if any_bit op 8 then r = 0 ∧ L' = (if bool_decide (L !! path = Some (pid, fd)) then delete path L else L)
              else if negb (any_bit op 3) then r = errno EINVAL ∧ L' = L
              else match L !! path with
                   | None => r = 0 ∧ L' = <[path := (pid, fd)]> L
                   | Some owner => r = (if bool_decide (owner = (pid, fd)) then 0 else errno EAGAIN) ∧ L' = L
                   end
          end
      end
  | CRead _ _ | CWrite _ _ => P' = P ∧ F' = F ∧ L' = L ∧ C' = C
  | CFork child => P' = <[child := p]> P ∧ F' = F ∧ L' = L ∧ C' = C
  | CExit => P' = <[pid := mkProc [] (nofile p)]> P ∧ F' = F ∧ L' = L ∧ C' = C
  | CReap => P' = delete pid P ∧ F' = F ∧ L' = L ∧ C' = C
  end.

#[local] Tactic Notation "via" uconstr(lem) := eapply wp_mono; [eapply lem; eauto|cbn beta].

Lemma timerfd_effect P F L C K pid p clockid flags : st [] P F L C K → P !! pid = Some p →
  wp (sys_timerfd_create timerfd pid clockid flags) (λ r K', ∃ P' C', st [] P' F L C' K' ∧
    (r = errno EINVAL ∧ P' = P ∧ C' = C ∨ opens P C pid p (timerfd clockid (any_bit flags (2 ^ 11)) (any_bit flags (2 ^ 19))) r P' C')) K.
Proof.
  intros Hs Hp. unfold sys_timerfd_create. destruct (negb _); [apply wp_ret; exists P, C; naive_solver|].
  destruct (negb _); [apply wp_ret; exists P, C; naive_solver|]. via open_exact.
  intros r K' (id & P' & ? & ? & Hs'). eexists P', _. split; [exact Hs'|]. right. by exists id.
Qed.

Lemma pipe_take_ok n q : pipe_wf q → ∃ q' m, pipe_take n q = Finished (q', m) ∧ pipe_wf q' ∧ same_ends q q'.
Proof.
  intros Hq. destruct (read_into_spec q (replicate n 0) Hq) as (q' & E & Hw & Hse & _). unfold pipe_take. rewrite E. eauto.
Qed.
Lemma write_from_ok data q : pipe_wf q → ∃ q' m, write_from q data = Finished (q', m) ∧ pipe_wf q' ∧ same_ends q q'.
Proof. intros Hq. destruct (write_from_spec q data Hq) as (q' & E & Hw & Hse & _). rewrite E. eauto. Qed.

Lemma do_call_spec K pid p c : fs_inv [] K → procs K !! pid = Some p → call_ok (procs K) pid c = true →
  wp (act pid c) (λ r K', ∃ P' F' L' C', st [] P' F' L' C' K' ∧
    call_effect (procs K) (fd_flags K) (flocks K) (content K) pid p c r P' F' L' C') K.
Proof.
  intros Hi Hp Hok. pose proof (st_start K Hi) as Hs. set (P := procs K) in *. set (F := fd_flags K) in *. set (L := flocks K) in *.
  set (C := content K) in *. apply andb_true_iff in Hok as [_ Hok].
  destruct c; cbn [do_call call_effect] in *; try apply Z.leb_le in Hok.
  - via open_exact. intros r K' (id & P' & ? & ? & Hs'). eexists P', F, L, _. split; [exact Hs'|]. split; [by exists id|done].
  - via close_exact. intros r K' [(E & -> & P' & Hsd & Hs')|(E & -> & P' & Hu & Hs')].
    + exists P', F, L, C. rewrite E. by split.
    + eexists P', _, _, C. split; [exact Hs'|]. split; [done|]. by destruct (desc P pid fd).
  - via close_range_exact. intros r K' (P' & F' & L' & Hs' & He). exists P', F', L', C. by split.
  - via dup_exact. intros r K'. destruct (desc P pid fd) as [id|].
    + intros (P' & ? & Hs'). eexists P', _, L, C. split; [exact Hs'|done].
    + intros [-> Hs']. exists P, F, L, C. by split.
  - via dup3_exact. intros r K'. destruct (_ || _); [intros [-> Hs']; by exists P, F, L, C|].
    destruct (desc P pid oldfd) as [id|]; [|intros [-> Hs']; by exists P, F, L, C].
    destruct (nofile p <=? newfd); [intros [-> Hs']; by exists P, F, L, C|].
    intros (-> & P' & Hu & Hs'). eexists P', _, L, C. split; [exact Hs'|done].
  - apply wp_bind. via fcntl_exact. intros r K' (P' & F' & C' & Hs' & He). apply wp_ret. exists P', F', L, C'. by split.
  - apply wp_bind. via (pipe2_exact u). intros r K' (P' & F' & C' & Hs' & He). apply wp_ret. exists P', F', L, C'. split; [done|].
    split; [done|]. destruct (fds =? 0); [by destruct He as [-> ?]|]. destruct (negb _); [by destruct He as [-> ?]|].
    destruct He as [[-> ?]|(fd0 & fd1 & a & b & k & er & ew & P1 & He)]; [by left|]. right. exists fd0, fd1, a, b, k, er, ew, P1.
    cbv zeta in *. destruct (user_write u fds _) as [ok u']. naive_solver.
  - via memfd_exact. intros r K' (P' & F' & C' & Hs' & [He|(id & ? & ? & ? & ?)]); exists P', F', L, C'.
    + split; [done|]. split; [by left|done].
    + split; [done|]. split; [|done]. right. split; [by exists id|done].
  - via timerfd_effect. intros r K' (P' & C' & Hs' & He). exists P', F, L, C'. by split.
  - via flock_exact. intros r K' (L' & Hs' & He). exists P, F, L', C. by split.
  - eapply wp_mono; [eapply pipe_step_exact; [done..|apply pipe_take_ok]|]. cbn beta. intros r K' Hs'. by exists P, F, L, C.
  - eapply wp_mono; [eapply pipe_step_exact; [done..|apply write_from_ok]|]. cbn beta. intros r K' Hs'. by exists P, F, L, C.
  - apply wp_bind. eapply wp_mono; [eapply fork_exact; [done..|by apply bool_decide_eq_true in Hok]|]. cbn beta. intros [] K' Hs'.
    apply wp_ret. eexists _, F, L, C. split; [exact Hs'|done].
  - apply wp_bind. via exit_exact. intros [] K' Hs'. apply wp_ret. eexists _, F, L, C. split; [exact Hs'|done].
  - apply bool_decide_eq_true in Hok. rewrite Hp in Hok. injection Hok as Hok. apply wp_bind. via reap_exact. intros [] K' Hs'.
    apply wp_ret. eexists _, F, L, C. split; [exact Hs'|done].
Qed.

Lemma run_calls_inv calls : ∀ K, fs_inv [] K → wp (runs calls) (λ _ K', fs_inv [] K') K.
Proof.
  induction calls as [|[pid c] calls IH]; intros K Hi; cbn [run_calls]; [by apply wp_ret|].
  apply wp_bind, wp_get. destruct (call_ok (procs K) pid c) eqn:Hok; [|by apply IH].
  pose proof Hok as [[p Hp]%bool_decide_eq_true _]%andb_true_iff. apply wp_bind.
  eapply wp_mono; [by eapply do_call_spec|]. cbn beta. intros r K1 (P' & F' & L' & C' & [Hi' _ _ _ _] & _). apply wp_bind.
  eapply wp_mono; [by apply IH|]. intros rs K2 Hi2. by apply wp_ret.
Qed.

Lemma init_inv (stdin stdout : O) (limit pid : Z) : fs_inv [] (init_files stdin stdout limit pid).
Proof.
  split.
  - intros id. unfold rc. cbn [objs procs init_files]. rewrite <-(insert_empty pid), descs_new by done.
    change (descs id ∅) with 0%nat. cbn [fd_table]. rewrite !slots_cons. change (slots id []) with 0%nat. change (held id []) with 0%nat.
    destruct (decide (id = 0)) as [->|]; [done|]. destruct (decide (id = 1)) as [->|]; [done|].
    destruct (decide (id = 2)) as [->|]; [done|]. rewrite !lookup_insert_ne, lookup_singleton_ne by done.
    rewrite !decide_False by congruence. done.
  - intros id f n. cbn [objs init_files]. rewrite !lookup_insert_Some, lookup_singleton_Some. intros H. destruct_or!; naive_solver.
  - intros id f n. cbn [objs next_obj init_files]. rewrite !lookup_insert_Some, lookup_singleton_Some. intros H. destruct_or!; naive_solver lia.
  - unfold content. cbn. rewrite !fmap_insert, map_fmap_singleton. cbn.
    assert (∀ id f k b, ({[0 := FOther stdin; 1 := FOther stdout; 2 := FOther stdout]} : gmap Z (FileObj O)) !! id = Some f →
      end_of f ≠ Some (k, b)) as Hno.
    { intros id f k b. rewrite !lookup_insert_Some, lookup_singleton_Some. intros H. destruct_or!; naive_solver. }
    split; [done|done|..|done|done].
    + intros id f k b H1 H2. by destruct (Hno _ _ _ _ H1 H2).
    + intros id id' f f' k b H1 _ H2. by destruct (Hno _ _ _ _ H1 H2).
Qed.


(** Some process has a descriptor for an end of pipe [k]. *)
Definition has_end K (k : Z) (reading : bool) : Prop :=
  ∃ pid fd id e n, 0 <= fd ∧ desc (procs K) pid fd = Some id ∧ objs K !! id = Some (FPipe k e, n) ∧ readable e = reading.

Lemma has_end_live K k reading : fs_inv [] K →
  has_end K k reading ↔ ∃ id f, content K !! id = Some f ∧ end_of f = Some (k, reading).
Proof.
  intros Hi. split.
  - intros (pid & fd & id & e & n & _ & _ & E & <-). exists id, (FPipe k e). split; [|done]. apply content_lookup. eauto.
  - intros (id & [j e|o] & [n E]%content_lookup & He); [|done]. injection He as -> <-.
    destruct (descs_desc (procs K) id) as (pid & fd & H0 & Hd).
    { pose proof (fi_count _ _ Hi id) as Hc. unfold rc in Hc. rewrite E in Hc. cbn in Hc. apply (fi_live _ _ Hi) in E.
      change (held id []) with 0%nat in Hc. lia. }
    by exists pid, fd, id, e, n.
Qed.

(** [C12] A pipe closes with the last descriptor of its end.  Whatever the
    processes do (dup, dup3, close, close_range, fork, exit, ...), nothing panics,
    a file object lives exactly as long as some process has a descriptor for it,
    and an end of a pipe is open exactly as long as some process has a descriptor
    for that end.  So a reader of an empty pipe sees end of file exactly when no
    process can write to it any more, and a writer gets EPIPE once no process can
    read. *)
Theorem pipe_closes_with_last_descriptor (stdin stdout : O) (limit pid0 : Z) (calls : list (Z * fcall (U:=U))) :
  wp (runs calls) (λ _ K,
    (∀ id, is_Some (objs K !! id) ↔ ∃ pid fd, 0 <= fd ∧ desc (procs K) pid fd = Some id) ∧
    ∀ k q, pipes K !! k = Some q →
      (read_open q = true ↔ has_end K k true) ∧ (write_open q = true ↔ has_end K k false) ∧
      (∀ e bs, bs ≠ [] → plen q = 0%nat → nonblock e = false →
         PipeEnd_read e [] q bs = Finished (Returned (q, bs, 0)) ↔ ¬ has_end K k false) ∧
      (∀ e sched pending bs, (0 < lens bs)%nat → ¬ has_end K k true →
         PipeEnd_write_user_buffer e sched q pending bs = 
           Finished (Returned (q, (λ s, Z.lor s SIGPIPE_BIT) <$> pending, Err EPIPE_ERRNO))))
    (init_files stdin stdout limit pid0).
Proof.
  eapply wp_mono; [apply run_calls_inv, init_inv|cbn beta].  intros _ K Hi. split.
  - intros id. pose proof (fi_count _ _ Hi id) as Hc. change (held id []) with 0%nat in Hc. unfold rc in Hc. split.
    + intros [[f n] E]. rewrite E in Hc. cbn in Hc. apply (fi_live _ _ Hi) in E. apply descs_desc. lia.
    + intros (pid & fd & _ & Hd%desc_refs). destruct (objs K !! id); [done|]. cbn in Hc. lia.
  - intros k q Hq. pose proof (fi_pipes _ _ Hi) as Hpo. 
    assert (read_open q = true ↔ has_end K k true) as Hr by (rewrite has_end_live by done; by apply (po_read _ _ _ Hpo)).
    assert (write_open q = true ↔ has_end K k false) as Hw by (rewrite has_end_live by done; by apply (po_write _ _ _ Hpo)).
    split_and!; [done|done|..].
    + intros e bs Hbs Hz Hn. rewrite read_wait, <-Hw by done. rewrite Hn. by destruct (write_open q); cbn [negb]; split.
    + intros e sched pending bs Hl Hno. rewrite <-Hr in Hno. apply wub_closed; [by apply not_true_is_false|done].
Qed.
End claims.

(** ** Examples *)

(** Regular files that have a path. *)
#[local] Instance named_file : FileTrait string := {|
  f_readable _ := true; f_writable _ := true; f_fd_flags _ := 0; f_status_flags _ := 0; f_set_status_flags s _ := s;
  f_get_seals _ := None; f_add_seals s _ := (-22, s); f_path s := Some s; f_has_inode _ := true;
|}.
#[local] Abbreviation run_demo calls :=
  (run_calls (U:=list Z) (λ u a n, take n (drop (Z.to_nat a) u)) (λ _, "memfd"%string) (λ _ _ _, "timerfd"%string) calls
     (init_files "stdin"%string "stdout"%string 1024 5)).


(** A pipe between two processes: the reader sees end of file when both copies of
    the writing end are gone, and not before. *)
Example pipe_between_processes :
  ∃ K, run_demo [(5, CPipe2 (replicate 64 0) 8 0); (5, CFork 6); (6, CClose 3); (6, CWrite 4 [7; 8]); (5, CClose 4);
                 (5, CRead 3 9); (6, CDup 4); (6, CClose 4)] = Ret ([0; 6; 0; 2; 0; 2; 3; 0], K) ∧
    (∃ q, pipes K !! 0 = Some q ∧ write_open q = true) ∧
    ∃ K', run_demo [(5, CPipe2 (replicate 64 0) 8 0); (5, CFork 6); (5, CClose 4); (6, CExit)] = Ret ([0; 6; 0; 0], K') ∧
      ∃ q, pipes K' !! 0 = Some q ∧ write_open q = false.
Proof. vm_compute. eexists. split; [done|]. split; [by eexists|]. eexists. split; [done|]. by eexists. Qed.
