(* ===== verification/IdAlloc.v ===== *)
(** * Identifiers and per-task resources (os/src/task/id.rs)

    The recycling id allocator behind process and thread ids, the pool of
    kernel stacks with their guard words, and the user-side resources of a
    thread: its trap-context frame and its user stack. *)

From stdpp Require Import base list numbers list_numbers option sets gmap relations.
From S2P Require Import Prelude Address FrameAllocator Machine PageTable MapArea MemorySet.
#[local] Open Scope rust_scope.

(** ** [RecycleAllocator] *)

Record RecycleAllocator : Type := mkRA {
  ra_current : Z;
  ra_recycled : list Z;
}.

Definition RecycleAllocator_new : RecycleAllocator := mkRA 0 [].
Definition RecycleAllocator_new_with_start (start : Z) : RecycleAllocator := mkRA start [].

Definition RecycleAllocator_alloc (a : RecycleAllocator) : Z * RecycleAllocator :=
  match pop_back (ra_recycled a) with
  | Some (id, rest) => (id, mkRA (ra_current a) rest)
  | None => let c := ra_current a +w 1 in (c -w 1, mkRA c (ra_recycled a))
  end.

Definition RecycleAllocator_dealloc (a : RecycleAllocator) (id : Z) : outcome RecycleAllocator :=
  if negb (id <? ra_current a) then Panic
  else if existsb (λ i, i =? id) (ra_recycled a) then Panic
  else Ret (mkRA (ra_current a) (ra_recycled a ++ [id])).

(** [PID_ALLOCATOR]: pid 0 is the idle process. *)
Abbreviation IDLE_PID := (0)%Z.
Definition PID_ALLOCATOR : RecycleAllocator := RecycleAllocator_new_with_start 1.
Definition pid_alloc (a : RecycleAllocator) : Z * RecycleAllocator := RecycleAllocator_alloc a.
Definition PidHandle_drop (a : RecycleAllocator) (pid : Z) : outcome RecycleAllocator :=
  RecycleAllocator_dealloc a pid.

(** ** Kernel stacks *)

Abbreviation KERNEL_STACK_SIZE := (4096 * 16)%Z.
Definition KSTACK_WORDS : nat := Z.to_nat (KERNEL_STACK_SIZE / 16).
#[local] Arguments KSTACK_WORDS : simpl never.
Abbreviation KSTACK_POOL_CAPACITY := (16)%nat.
Abbreviation KSTACK_GUARD_WORDS := (4)%nat.
Abbreviation KSTACK_GUARD_MAGIC := (0xDEADBEEFDEADBEEFDEADBEEFDEADBEEF)%Z.
Abbreviation KSTACK_FILL_MAGIC := (0xA5A5A5A5A5A5A5A5A5A5A5A5A5A5A5A5)%Z.

(** The backing words of a stack, the lowest address first. *)
Definition KernelStack : Type := list Z.

Definition pool_pop (pool : list KernelStack) : option KernelStack * list KernelStack :=
  match pop_back pool with
  | Some (w, rest) => (Some w, rest)
  | None => (None, pool)
  end.

Definition pool_push (pool : list KernelStack) (words : KernelStack) : list KernelStack :=
  if (length pool <? KSTACK_POOL_CAPACITY)%nat then pool ++ [words] else pool.

Definition kstack_alloc (pool : list KernelStack) : KernelStack * list KernelStack :=
  let '(w, pool) := pool_pop pool in
  let words := default (replicate KSTACK_WORDS KSTACK_FILL_MAGIC) w in
  let words := (λ _, KSTACK_FILL_MAGIC) <$> words in
  let words := imap (λ i slot, if (i <? KSTACK_GUARD_WORDS)%nat
                               then Z.lxor KSTACK_GUARD_MAGIC (Z.of_nat i) else slot) words in
  (words, pool).

Definition KernelStack_drop (pool : list KernelStack) (k : KernelStack) : list KernelStack :=
  pool_push pool k.

Fixpoint check_guard_loop (i : nat) (slots : list Z) : bool :=
  match slots with
  | [] => true
  | slot :: slots => (slot =? Z.lxor KSTACK_GUARD_MAGIC (Z.of_nat i)) && check_guard_loop (S i) slots
  end.

(** Whether the assertions of [check_guard] hold. *)
Definition check_guard (k : KernelStack) : bool := check_guard_loop 0 (take KSTACK_GUARD_WORDS k).

(** [base] is the address of the backing vector. *)
Definition KernelStack_get_top (base : Z) : Z := base +w KERNEL_STACK_SIZE.

(** ** User resources of a thread *)

Definition USER_STACK_SIZE : Z := 4096 * 512.

Definition ustack_bottom_from_tid (ustack_base tid : Z) : Z :=
  ustack_base +w tid *w (PAGE_SIZE +w USER_STACK_SIZE).

Record TaskUserRes : Type := mkTUR {
  tur_tid : Z;
  tur_ustack_base : Z;
  tur_trap_cx_frame : option Z;
}.

Definition TaskUserRes_ustack_top (r : TaskUserRes) : Z :=
  ustack_bottom_from_tid (tur_ustack_base r) (tur_tid r) +w USER_STACK_SIZE.

Definition MapPermission_RWU : Z := Z.lor (Z.lor MP_R MP_W) MP_U.

Section task_user_res.
Context {A : Type} {FA : FrameAllocator A} {F : Type}.

Definition TaskUserRes_alloc_ustack (r : TaskUserRes) (ms : MemorySet F) : M (machine A) (MemorySet F) :=
  let ustack_bottom := ustack_bottom_from_tid (tur_ustack_base r) (tur_tid r) in
  let ustack_top := ustack_bottom +w USER_STACK_SIZE in
  insert_framed_area ms (VirtAddr_from_usize ustack_bottom) (VirtAddr_from_usize ustack_top) MapPermission_RWU.

Definition TaskUserRes_alloc_trap_cx (r : TaskUserRes) : M (machine A) TaskUserRes :=
  match tur_trap_cx_frame r with
  | Some _ => m_ret r
  | None =>
      let! f := frame_alloc in
      let! f := m_unwrap f in
      m_ret (mkTUR (tur_tid r) (tur_ustack_base r) (Some f))
  end.

(** The thread ids come from the process's allocator, [task_res_allocator]. *)
Definition TaskUserRes_new (tids : RecycleAllocator) (ms : MemorySet F) (ustack_base : Z)
    (alloc_user_res : bool) : M (machine A) (TaskUserRes * RecycleAllocator * MemorySet F) :=
  let '(tid, tids) := RecycleAllocator_alloc tids in
  let! r := TaskUserRes_alloc_trap_cx (mkTUR tid ustack_base None) in
  if alloc_user_res then
    let! ms := TaskUserRes_alloc_ustack r ms in m_ret (r, tids, ms)
  else m_ret (r, tids, ms).

Definition TaskUserRes_alloc_user_res (r : TaskUserRes) (ms : MemorySet F)
    : M (machine A) (TaskUserRes * MemorySet F) :=
  let! r := TaskUserRes_alloc_trap_cx r in
  let! ms := TaskUserRes_alloc_ustack r ms in m_ret (r, ms).

Definition TaskUserRes_dealloc_user_res (r : TaskUserRes) (ms : MemorySet F) : M (machine A) (MemorySet F) :=
  let bottom := VirtAddr_from_usize (ustack_bottom_from_tid (tur_ustack_base r) (tur_tid r)) in
  match VirtPageNum_from_VirtAddr bottom with
  | Ret vpn => remove_area_with_start_vpn ms vpn
  | Panic => m_panic
  end.

(** [drop]: the id, the user stack, then (field drop) the trap-context frame. *)
Definition TaskUserRes_drop (r : TaskUserRes) (tids : RecycleAllocator) (ms : MemorySet F)
    : M (machine A) (RecycleAllocator * MemorySet F) :=
  match RecycleAllocator_dealloc tids (tur_tid r) with
  | Panic => m_panic
  | Ret tids =>
      let! ms := TaskUserRes_dealloc_user_res r ms in
      match tur_trap_cx_frame r with
      | Some f => frame_dealloc f ;;; m_ret (tids, ms)
      | None => m_ret (tids, ms)
      end
  end.
End task_user_res.

(** ** Identifiers are unique *)

(** The kernel as the allocator sees it: [live] lists the ids in use. *)
Inductive id_step : RecycleAllocator * list Z → RecycleAllocator * list Z → Prop :=
| id_step_alloc a live id a' :
    RecycleAllocator_alloc a = (id, a') → id_step (a, live) (a', id :: live)
| id_step_dealloc a l1 id l2 a' :
    RecycleAllocator_dealloc a id = Ret a' → id_step (a, l1 ++ id :: l2) (a', l1 ++ l2).

(** The ids ever issued are exactly the live and the recycled ones. *)
Definition id_inv (start : Z) (s : RecycleAllocator * list Z) : Prop :=
  s.2 ++ ra_recycled s.1 ≡ₚ seqZ start (ra_current s.1 - start) ∧ start <= ra_current s.1.

Lemma id_inv_bounds start a live : 0 <= start → id_inv start (a, live) →
  Z.of_nat (length live) + Z.of_nat (length (ra_recycled a)) = ra_current a - start.
Proof.
  intros Hs [Hp Hle]. simpl in *. apply Permutation_length in Hp.
  rewrite length_app, length_seqZ in Hp. lia.
Qed.

(** No wrap-around as long as fewer than [2^64 - 1 - start] ids are live at once:
    [alloc] only advances [current] when nothing is recycled. *)
Definition ids_bounded (start : Z) (live : list Z) : Prop := start + Z.of_nat (length live) < USIZE - 1.

Lemma alloc_cases start a live : 0 <= start → id_inv start (a, live) → ids_bounded start live →
  (∃ rest id, ra_recycled a = rest ++ [id] ∧ RecycleAllocator_alloc a = (id, mkRA (ra_current a) rest)) ∨
  (ra_recycled a = [] ∧ RecycleAllocator_alloc a = (ra_current a, mkRA (ra_current a + 1) [])).
Proof.
  intros Hs Hinv Hb. pose proof (id_inv_bounds start a live Hs Hinv) as Hlen. destruct Hinv as [_ Hle]. simpl in *.
  unfold ids_bounded in Hb. unfold RecycleAllocator_alloc.
  destruct (ra_recycled a) as [|id rest _] eqn:Hr using rev_ind.
  - right. simpl in *. rewrite (wrap64_small (ra_current a + 1)) by (unfold is_usize; lia).
    rewrite wrap64_small by (unfold is_usize; lia). split; [done|]. f_equal. lia.
  - left. exists rest, id. by rewrite pop_back_snoc.
Qed.

Lemma id_alloc_inv start a live id a' : 0 <= start → id_inv start (a, live) → ids_bounded start live →
  RecycleAllocator_alloc a = (id, a') → id_inv start (a', id :: live).
Proof.
  intros Hs Hinv Hb Ha. destruct (alloc_cases start a live Hs Hinv Hb) as [(rest & i & Hr & E)|[Hr E]];
    rewrite E in Ha; injection Ha as <- <-; destruct Hinv as [Hp Hle]; unfold id_inv; simpl in *; rewrite Hr in Hp.
  - split; [|done]. rewrite <- Hp. solve_Permutation.
  - split; [|lia]. rewrite app_nil_r in *.
    replace (ra_current a + 1 - start) with ((ra_current a - start) + 1) by lia.
    rewrite seqZ_app, <- Hp by lia. replace (start + (ra_current a - start)) with (ra_current a) by lia.
    simpl. solve_Permutation.
Qed.

Lemma id_inv_nodup start a live : id_inv start (a, live) → NoDup (live ++ ra_recycled a).
Proof. intros [Hp _]. simpl in Hp. rewrite Hp. apply NoDup_seqZ. Qed.

Lemma id_inv_in start a live id : id_inv start (a, live) →
  (start <= id < ra_current a ↔ id ∈ live ∨ id ∈ ra_recycled a).
Proof. intros [Hp Hle]. simpl in *. rewrite <- elem_of_app, Hp, elem_of_seqZ. lia. Qed.

Lemma dealloc_live start a live id : id_inv start (a, live) → id ∈ live →
  RecycleAllocator_dealloc a id = Ret (mkRA (ra_current a) (ra_recycled a ++ [id])).
Proof.
  intros Hinv Hin. assert (start <= id < ra_current a) as Hr by (apply (id_inv_in _ _ _ _ Hinv); by left).
  unfold RecycleAllocator_dealloc. destruct (Z.ltb_spec id (ra_current a)); [|lia]. simpl.
  rewrite existsb_eqb, bool_decide_eq_false_2; [done|].
  apply id_inv_nodup, NoDup_app in Hinv as (_ & Hd & _). by apply Hd.
Qed.

Lemma id_dealloc_inv start a l1 id l2 a' : id_inv start (a, l1 ++ id :: l2) →
  RecycleAllocator_dealloc a id = Ret a' → id_inv start (a', l1 ++ l2).
Proof.
  intros Hinv. rewrite (dealloc_live start a (l1 ++ id :: l2)) by (done || set_solver). intros [= <-].
  destruct Hinv as [Hp Hle]. split; [|done]. simpl in *. rewrite <- Hp. solve_Permutation.
Qed.

(** Along a run the ids live at any time stay within the machine's range. *)
Definition bounded_step (start : Z) (s s' : RecycleAllocator * list Z) : Prop :=
  id_step s s' ∧ ids_bounded start s.2.

Lemma id_run_inv start s : 0 <= start →
  rtc (bounded_step start) (RecycleAllocator_new_with_start start, []) s → id_inv start s.
Proof.
  intros Hs Hrun. remember (_, []) as s0 eqn:E. assert (id_inv start s0) as H0.
  { subst. split; simpl; [|done]. by rewrite Z.sub_diag. }
  clear E. induction Hrun as [|s0 s1 s2 [Hstep Hb] _ IH]; [done|]. apply IH.
  destruct Hstep; eauto using id_alloc_inv, id_dealloc_inv.
Qed.

(** Process and thread ids are unique.  In every state reachable by
    allocating and returning ids, no two live ids are equal, the next id is not
    live and not below [start] (so pid 0 stays the idle process), ids are dense
    (as many were ever issued as were live at once at most), returning a live
    id never panics, and returning any id that is not live always panics. *)
Theorem ids_unique start a live : 0 <= start →
  rtc (bounded_step start) (RecycleAllocator_new_with_start start, []) (a, live) → ids_bounded start live →
  NoDup live ∧
  (∀ id a', RecycleAllocator_alloc a = (id, a') →
     (id ∉ live) ∧ (start <= id <= ra_current a) ∧ (ra_current a' ≠ ra_current a → length live = Z.to_nat (ra_current a - start))) ∧
  (∀ id, id ∈ live → ∃ a', RecycleAllocator_dealloc a id = Ret a') ∧
  (∀ id, start <= id → id ∉ live → RecycleAllocator_dealloc a id = Panic).
Proof.
  intros Hs Hrun Hb. pose proof (id_run_inv start _ Hs Hrun) as Hinv.
  pose proof (id_inv_nodup _ _ _ Hinv) as Hnd. pose proof (id_inv_bounds _ _ _ Hs Hinv) as Hlen.
  apply NoDup_app in Hnd as (Hnd & Hdis & _). split_and!; [done|..].
  - intros id a' Ha. destruct (alloc_cases start a live Hs Hinv Hb) as [(rest & i & Hr & E)|[Hr E]];
      rewrite E in Ha; injection Ha as <- <-.
    + assert (i ∈ ra_recycled a) as Hi by (rewrite Hr; set_solver).
      split_and!; [by intros ?%Hdis|..|done];
        pose proof (proj2 (id_inv_in _ _ _ i Hinv) (or_intror Hi)); lia.
    + destruct Hinv as [Hp Hle]; simpl in *. rewrite Hr, app_nil_r in Hp. split_and!; [|lia|lia|].
      * rewrite Hp, elem_of_seqZ. lia.
      * intros _. rewrite Hr in Hlen. simpl in Hlen. lia.
  - intros id Hin. eexists. by apply (dealloc_live start a live).
  - intros id Hge Hn. unfold RecycleAllocator_dealloc. destruct (Z.ltb_spec id (ra_current a)) as [Hlt|]; [|done].
    simpl. destruct (proj1 (id_inv_in _ _ _ id Hinv) ltac:(lia)) as [?|Hin]; [done|].
    by rewrite existsb_eqb, bool_decide_eq_true_2.
Qed.

Lemma ids_unique_witness :
  NoDup [1] ∧ RecycleAllocator_dealloc (mkRA 2 []) 5 = Panic.
Proof.
  assert (rtc (bounded_step 1) (RecycleAllocator_new_with_start 1, []) (mkRA 2 [], [1])) as Hrun.
  { apply rtc_once. split; [by apply id_step_alloc|reflexivity]. }
  destruct (ids_unique 1 (mkRA 2 []) [1] ltac:(lia) Hrun ltac:(reflexivity)) as (H1 & _ & _ & H2).
  split; [exact H1|]. apply H2; [lia|]. intros H. apply list_elem_of_singleton in H. lia.
Defined.

(** ** Kernel stacks are recycled clean *)

(** Tasks take stacks from the pool, overwrite them and give them back. *)
Inductive kstack_step : list KernelStack * list KernelStack → list KernelStack * list KernelStack → Prop :=
| kstack_step_alloc pool live k pool' :
    kstack_alloc pool = (k, pool') → kstack_step (pool, live) (pool', k :: live)
| kstack_step_use pool l1 k l2 i w :
    kstack_step (pool, l1 ++ k :: l2) (pool, l1 ++ <[i := w]> k :: l2)
| kstack_step_drop pool l1 k l2 :
    kstack_step (pool, l1 ++ k :: l2) (KernelStack_drop pool k, l1 ++ l2).

Definition kstack_inv (s : list KernelStack * list KernelStack) : Prop :=
  (length s.1 <= KSTACK_POOL_CAPACITY)%nat ∧ Forall (λ k, length k = KSTACK_WORDS) (s.1 ++ s.2).

(** A stack as handed out: guard words at the bottom, the fill pattern above. *)
Definition fresh_kstack : KernelStack :=
  imap (λ i slot, if (i <? KSTACK_GUARD_WORDS)%nat
                  then Z.lxor KSTACK_GUARD_MAGIC (Z.of_nat i) else slot)
       (replicate KSTACK_WORDS KSTACK_FILL_MAGIC).

Lemma fresh_kstack_length : length fresh_kstack = KSTACK_WORDS.
Proof. unfold fresh_kstack. by rewrite length_imap, length_replicate. Qed.

Lemma fmap_const_replicate {B C} (c : C) (l : list B) : (λ _, c) <$> l = replicate (length l) c.
Proof. induction l as [|x l IH]; [done|]. simpl. by rewrite <- IH. Qed.

Lemma kstack_alloc_fresh pool live : kstack_inv (pool, live) →
  (kstack_alloc pool).1 = fresh_kstack ∧ ∃ w, pool = (kstack_alloc pool).2 ++ w.
Proof.
  intros [_ Hall]. simpl in Hall. apply Forall_app in Hall as [Hp _]. unfold kstack_alloc, pool_pop.
  destruct pool as [|w rest _] using rev_ind.
  - rewrite pop_back_nil. cbn [fst snd default]. split; [|by exists []]. unfold fresh_kstack. by rewrite fmap_const_replicate, length_replicate.
  - rewrite pop_back_snoc. cbn [fst snd default]. apply Forall_app in Hp as [_ Hw]. rewrite Forall_singleton in Hw.
    split; [|by exists [w]]. unfold fresh_kstack. unfold id. by rewrite fmap_const_replicate, Hw.
Qed.

Lemma kstack_step_inv s s' : kstack_step s s' → kstack_inv s → kstack_inv s'.
Proof.
  destruct 1 as [pool live k pool' Ha|pool l1 k l2 i w|pool l1 k l2]; intros Hinv; pose proof Hinv as [Hc Hall]; simpl in *.
  - destruct (kstack_alloc_fresh pool live Hinv) as [Hk [w Hw]]. rewrite Ha in *. simpl in *. subst pool k.
    rewrite length_app in Hc. apply Forall_app in Hall as [[H1 _]%Forall_app H2].
    split; simpl; [lia|]. apply Forall_app; split; [done|]. constructor; [apply fresh_kstack_length|done].
  - split; [done|]. simpl. rewrite !Forall_app, !Forall_cons in *. split_and!; try apply Hall. transitivity (length k); [apply length_insert|apply Hall].
  - unfold KernelStack_drop, pool_push. rewrite !Forall_app, !Forall_cons in Hall.
    unfold kstack_inv. simpl. destruct (Nat.ltb_spec (length pool) KSTACK_POOL_CAPACITY).
    + rewrite length_app, !Forall_app, Forall_singleton. simpl. split; [lia|naive_solver].
    + rewrite !Forall_app. naive_solver.
Qed.

(** Whatever tasks did with their kernel stacks before, a stack taken from
    the pool is [KERNEL_STACK_SIZE] bytes of guard words and fill pattern, its
    guard check passes, and the pool never holds more than its capacity. *)
Theorem kstack_recycled_clean pool live : rtc kstack_step ([], []) (pool, live) →
  (kstack_alloc pool).1 = fresh_kstack ∧ check_guard (kstack_alloc pool).1 = true ∧
  length (kstack_alloc pool).1 = KSTACK_WORDS ∧ (length pool <= KSTACK_POOL_CAPACITY)%nat.
Proof.
  intros Hrun. assert (kstack_inv (pool, live)) as Hinv.
  { remember ([], []) as s0 eqn:E. remember (pool, live) as s1 eqn:E1. assert (kstack_inv s0) as H0.
    { subst s0. split; simpl; [lia|constructor]. }
    clear E E1. induction Hrun as [|???? _ IH]; [done|]. apply IH. by eapply kstack_step_inv. }
  destruct (kstack_alloc_fresh pool live Hinv) as [-> _]. split_and!; [done| |apply fresh_kstack_length|apply Hinv].
  vm_compute. reflexivity.
Qed.

Lemma smash_run (k : KernelStack) i w :
  kstack_alloc [] = (k, []) → rtc kstack_step ([], []) ([<[i := w]> k], []).
Proof.
  intros Hk. eapply rtc_l; [by apply (kstack_step_alloc [] [] k [])|].
  eapply rtc_l; [exact (kstack_step_use [] [] k [] i w)|].
  apply rtc_once. exact (kstack_step_drop [] [] (<[i := w]> k) []).
Qed.

(** A stack that overflowed into its guard is clean when it is taken again. *)
Lemma kstack_recycled_clean_witness :
  check_guard (<[0%nat := 7]> fresh_kstack) = false ∧
  check_guard (kstack_alloc [<[0%nat := 7]> fresh_kstack]).1 = true.
Proof.
  split; [vm_compute; reflexivity|].
  exact (proj1 (proj2 (kstack_recycled_clean [<[0%nat := 7]> fresh_kstack] []
    (smash_run fresh_kstack 0%nat 7 ltac:(vm_compute; reflexivity))))).
Defined.

(** ** User stacks do not touch *)

(** The page range of the user stack of thread [tid], as [alloc_ustack] maps it. *)
Definition ustack_pages (ustack_base tid : Z) : list Z :=
  let bottom := ustack_bottom_from_tid ustack_base tid in
  VPNRange_iter (vpn_range (MapArea_new (F:=unit) (VirtAddr_from_usize bottom)
    (VirtAddr_from_usize (bottom +w USER_STACK_SIZE)) Framed MapPermission_RWU)).

Lemma ustack_pages_seqZ base tid : 0 <= base → base mod PAGE_SIZE = 0 → 0 <= tid →
  base + (tid + 1) * (PAGE_SIZE + USER_STACK_SIZE) < 2 ^ 38 →
  ustack_pages base tid = seqZ (base / PAGE_SIZE + tid * 513) 512.
Proof.
  intros Hb Hal Ht Hmax. unfold ustack_pages, ustack_bottom_from_tid, USER_STACK_SIZE, PAGE_SIZE in *.
  change (wrap64 (4096 + 4096 * 512)) with 2101248. simpl in Hmax.
  rewrite (wrap64_small (tid * _)) by (unfold is_usize, USIZE; lia).
  rewrite (wrap64_small (base + _)) by (unfold is_usize, USIZE; lia).
  rewrite (wrap64_small (base + _ + _)) by (unfold is_usize, USIZE; lia).
  rewrite !VirtAddr_from_usize_mod, !Z.mod_small by lia.
  unfold MapArea_new, MapArea_new_with_type, vpn_range, VirtAddr_floor, VirtAddr_ceil, PAGE_SIZE.
  rewrite (wrap64_small (_ - 1)), wrap64_small by (unfold is_usize, USIZE; lia).
  assert ((base + tid * 2101248) / 4096 = base / 4096 + tid * 513) as -> by (Z.div_mod_to_equations; lia).
  assert ((base + tid * 2101248 + 4096 * 512 - 1 + 4096) / 4096 = base / 4096 + tid * 513 + 512) as ->
    by (Z.div_mod_to_equations; lia).
  assert (0 <= base / 4096 < 2 ^ 26) by (Z.div_mod_to_equations; lia).
  unfold VPNRange_new. destruct (Z.leb_spec (base / 4096 + tid * 513) (base / 4096 + tid * 513 + 512)); [|lia].
  rewrite VPNRange_iter_seqZ; simpl.
  - f_equal. lia.
  - unfold is_usize, USIZE. lia.
  - lia.
Qed.


