(* ===== verification/Sched.v ===== *)
(** * Tasks and the scheduler (os/src/task/manager.rs, processor.rs, task.rs, mod.rs)

    The state the scheduler works on: the task control blocks, the ready queue
    and the current task of the processor, together with the futex queues that
    the signal code also touches.  Kernel code runs with interrupts off on one
    processor, so an operation is atomic up to the point where it calls
    [schedule]; a task that has called [schedule] is resumed by [run_tasks]. *)

From stdpp Require Import base list numbers option sets gmap relations.
From S2P Require Import Prelude IdAlloc.

Inductive TaskStatus : Type := Ready | Running | Blocked.

#[export] Instance TaskStatus_eq_dec : EqDecision TaskStatus.
Proof. solve_decision. Defined.

(** The scheduling and signal fields of a [TaskControlBlock]. *)
Record TaskControlBlock : Type := mkTCB {
  kstack : KernelStack;
  task_status : TaskStatus;
  signal_mask : Z;
  signal_pending : Z;
  interrupted_by_signal : bool;
}.

(** A task is named by the address of its control block ([Arc::as_ptr]). *)
Abbreviation task := nat.

Record FutexWaiter : Type := mkWaiter { waiter_task : task; waiter_bitset : Z }.

(** A [FutexKey]: physical address and pid. *)
Abbreviation FutexKey := (Z * Z)%type.

(** [tasks] holds the control blocks that are still referenced: a [Weak]
    pointer upgrades exactly when the task is in it. *)
Record kernel : Type := mkKernel {
  tasks : gmap task TaskControlBlock;
  ready_queue : list task;
  processor_current : option task;
  futex_q : gmap FutexKey (list FutexWaiter);
}.

Definition set_tasks (f : gmap task TaskControlBlock → gmap task TaskControlBlock) (k : kernel) : kernel :=
  mkKernel (f (tasks k)) (ready_queue k) (processor_current k) (futex_q k).
Definition set_ready (f : list task → list task) (k : kernel) : kernel :=
  mkKernel (tasks k) (f (ready_queue k)) (processor_current k) (futex_q k).
Definition set_current (c : option task) (k : kernel) : kernel :=
  mkKernel (tasks k) (ready_queue k) c (futex_q k).
Definition set_futex_q (f : gmap FutexKey (list FutexWaiter) → gmap FutexKey (list FutexWaiter)) (k : kernel) : kernel :=
  mkKernel (tasks k) (ready_queue k) (processor_current k) (f (futex_q k)).

Definition with_status (st : TaskStatus) (t : TaskControlBlock) : TaskControlBlock :=
  mkTCB (kstack t) st (signal_mask t) (signal_pending t) (interrupted_by_signal t).
Definition with_interrupted (b : bool) (t : TaskControlBlock) : TaskControlBlock :=
  mkTCB (kstack t) (task_status t) (signal_mask t) (signal_pending t) b.
Definition with_mask (m : Z) (t : TaskControlBlock) : TaskControlBlock :=
  mkTCB (kstack t) (task_status t) m (signal_pending t) (interrupted_by_signal t).
Definition with_pending (p : Z) (t : TaskControlBlock) : TaskControlBlock :=
  mkTCB (kstack t) (task_status t) (signal_mask t) p (interrupted_by_signal t).

(** ** Fields of a task *)

Definition SIGKILL_BIT : Z := 2 ^ 8.
Definition SIGCHLD_BIT : Z := 2 ^ 16.
Definition SIGSTOP_BIT : Z := 2 ^ 18.

(** Access to a task through its [Arc], which keeps it alive. *)
Definition task_get (t : task) : M kernel TaskControlBlock := λ k,
  match tasks k !! t with Some tcb => Ret (tcb, k) | None => Panic end.
Definition task_update (t : task) (f : TaskControlBlock → TaskControlBlock) : M kernel unit :=
  let! tcb := task_get t in m_modify (set_tasks (<[t := f tcb]>)).

Definition set_status (t : task) (st : TaskStatus) : M kernel unit := task_update t (with_status st).
Definition set_interrupted (t : task) (b : bool) : M kernel unit := task_update t (with_interrupted b).
Definition mark_interrupted (t : task) : M kernel unit := task_update t (with_interrupted true).
Definition take_interrupted (t : task) : M kernel bool :=
  let! tcb := task_get t in
  task_update t (with_interrupted false) ;;;
  m_ret (interrupted_by_signal tcb).
Definition insert_pending_signal (t : task) (signal : Z) : M kernel unit :=
  task_update t (λ tcb, with_pending (Z.lor (signal_pending tcb) signal) tcb).
Definition remove_pending_signal (t : task) (signal : Z) : M kernel unit :=
  task_update t (λ tcb, with_pending (Z.ldiff (signal_pending tcb) signal) tcb).
Definition update_signal_mask (t : task) (f : Z → Z) : M kernel unit :=
  task_update t (λ tcb, with_mask (Z.ldiff (f (signal_mask tcb)) (Z.lor SIGKILL_BIT SIGSTOP_BIT)) tcb).

(** ** The task manager *)

Definition TaskManager_add (q : list task) (t : task) : list task := q ++ [t].
Definition TaskManager_fetch (q : list task) : option task * list task :=
  match q with [] => (None, []) | t :: q => (Some t, q) end.
Fixpoint TaskManager_remove (q : list task) (t : task) : list task :=
  match q with
  | [] => []
  | x :: q => if decide (x = t) then q else x :: TaskManager_remove q t
  end.

Definition add_task (t : task) : M kernel unit := m_modify (set_ready (λ q, TaskManager_add q t)).
Definition wakeup_task (t : task) : M kernel unit := set_status t Ready ;;; add_task t.
Definition remove_task (t : task) : M kernel unit := m_modify (set_ready (λ q, TaskManager_remove q t)).
Definition fetch_task : M kernel (option task) := λ k,
  let '(t, q) := TaskManager_fetch (ready_queue k) in Ret (t, set_ready (λ _, q) k).
Definition ready_queue_len (k : kernel) : nat := length (ready_queue k).

(** ** The processor *)

Definition take_current_task : M kernel (option task) := λ k,
  Ret (processor_current k, set_current None k).
Definition current_task : M kernel (option task) := λ k, Ret (processor_current k, k).

Definition task_check_guard (t : task) : M kernel unit :=
  let! tcb := task_get t in m_assert (check_guard (kstack tcb)).

(** Up to the call of [schedule]. *)
Definition suspend_current_and_run_next : M kernel unit :=
  let! t := take_current_task in
  let! t := m_unwrap t in
  task_check_guard t ;;;
  set_status t Ready ;;;
  add_task t.

Definition block_current_task : M kernel unit :=
  let! t := take_current_task in
  let! t := m_unwrap t in
  task_check_guard t ;;;
  set_status t Blocked.

Definition block_current_and_run_next : M kernel unit := block_current_task.

(** One iteration of [run_tasks]: the task to switch to, if there is one. *)
Definition run_tasks_once : M kernel (option task) :=
  let! t := fetch_task in
  match t with
  | None => m_ret None
  | Some t =>
      task_check_guard t ;;;
      set_status t Running ;;;
      m_modify (set_current (Some t)) ;;;
      m_ret (Some t)
  end.

(** [process_pending] is the pending set of the task's process; [None] when
    the task's process is gone. *)
Definition has_pending_unmasked_signal (process_pending : option Z) (ignore_sigchld : bool) : M kernel bool :=
  let! t := current_task in
  match t with
  | None => m_ret false
  | Some t =>
      match process_pending with
      | None => m_ret false
      | Some pp =>
          let! tcb := task_get t in
          let pending := Z.ldiff (Z.lor pp (signal_pending tcb)) (signal_mask tcb) in
          let pending := if ignore_sigchld then Z.ldiff pending SIGCHLD_BIT else pending in
          m_ret (negb (pending =? 0))
      end
  end.

(** ** Well-formed scheduler states

    [out] lists the tasks parked in wait queues.  Every task is in exactly one
    place: running, in the ready queue, or parked, and its status says which. *)
Record sched_ok (k : kernel) (out : list task) : Prop := {
  so_once : NoDup (option_list (processor_current k) ++ ready_queue k ++ out);
  so_all t : t ∈ option_list (processor_current k) ++ ready_queue k ++ out ↔ is_Some (tasks k !! t);
  so_status t tcb : tasks k !! t = Some tcb →
    match task_status tcb with
    | Running => processor_current k = Some t
    | Ready => t ∈ ready_queue k
    | Blocked => t ∈ out
    end;
  so_guard t tcb : tasks k !! t = Some tcb → check_guard (kstack tcb) = true;
}.

Definition places (k : kernel) (out : list task) : list task :=
  option_list (processor_current k) ++ ready_queue k ++ out.

#[export] Instance sched_ok_proper k : Proper ((≡ₚ) ==> iff) (sched_ok k).
Proof.
  assert (∀ out out', out ≡ₚ out' → sched_ok k out → sched_ok k out') as H.
  { intros out out' Hp [H1 H2 H3 H4]. split; [by rewrite <- Hp|by setoid_rewrite <- Hp| |done].
    intros t tcb Ht. specialize (H3 t tcb Ht). destruct (task_status tcb); [done..|]. by rewrite <- Hp. }
  intros out out' Hp. split; by apply H.
Qed.

(** One task changes place and status; the others stay where they are. *)
Lemma sched_ok_move k out k' out' t tcb tcb' :
  sched_ok k out → tasks k !! t = Some tcb → tasks k' = <[t := tcb']> (tasks k) → kstack tcb' = kstack tcb →
  places k' out' ≡ₚ places k out →
  (∀ u, u ≠ t → (processor_current k = Some u → processor_current k' = Some u) ∧
     (u ∈ ready_queue k → u ∈ ready_queue k') ∧ (u ∈ out → u ∈ out')) →
  (match task_status tcb' with
   | Running => processor_current k' = Some t | Ready => t ∈ ready_queue k' | Blocked => t ∈ out' end) →
  sched_ok k' out'.
Proof.
  intros [H1 H2 H3 H4] Ht Hk' Hks Hpl Hoth Hst. unfold places in Hpl. split.
  - by rewrite Hpl.
  - intros u. rewrite Hpl, H2, Hk'. destruct (decide (u = t)) as [->|]; [by rewrite lookup_insert_eq, Ht|].
    by rewrite lookup_insert_ne.
  - intros u ucb. rewrite Hk'. destruct (decide (u = t)) as [->|Hne].
    + rewrite lookup_insert_eq. by intros [= <-].
    + rewrite lookup_insert_ne by done. intros Hu. specialize (H3 u ucb Hu). destruct (Hoth u Hne) as (A & B & C).
      destruct (task_status ucb); auto.
  - intros u ucb. rewrite Hk'. destruct (decide (u = t)) as [->|Hne].
    + rewrite lookup_insert_eq. intros [= <-]. rewrite Hks. by eapply H4.
    + rewrite lookup_insert_ne by done. apply H4.
Qed.

(** ** The scheduler's operations keep the state well formed *)

Lemma sched_ok_lookup k out t : sched_ok k out → t ∈ places k out →
  ∃ tcb, tasks k !! t = Some tcb ∧ check_guard (kstack tcb) = true.
Proof. intros [_ H2 _ H4] Ht. apply H2 in Ht as [tcb Ht]. eauto. Qed.

Lemma sched_current_only k out t u : sched_ok k out → processor_current k = Some t →
  u ∈ ready_queue k ++ out → u ≠ t.
Proof.
  intros [H1 _ _ _] Hc Hu ->. rewrite Hc in H1. simpl in H1. by apply NoDup_cons in H1 as [? _].
Qed.

Lemma wp_task_get (Q : TaskControlBlock → kernel → Prop) k t tcb :
  tasks k !! t = Some tcb → Q tcb k → wp (task_get t) Q k.
Proof. intros Ht HQ. unfold wp, task_get. by rewrite Ht. Qed.

Lemma wp_task_update (Q : unit → kernel → Prop) k t f tcb :
  tasks k !! t = Some tcb → Q tt (set_tasks (<[t := f tcb]>) k) → wp (task_update t f) Q k.
Proof.
  intros Ht HQ. unfold task_update. apply wp_bind. eapply wp_task_get; [done|]. by apply wp_modify.
Qed.

(** A task leaves the processor. *)
Lemma wp_leave {B} (K : task → M kernel B) (Q : B → kernel → Prop) k out t :
  sched_ok k out → processor_current k = Some t →
  (∀ tcb, tasks k !! t = Some tcb → wp (K t) Q (set_current None k)) →
  wp (let! t := take_current_task in let! t := m_unwrap t in task_check_guard t ;;; K t) Q k.
Proof.
  intros Hok Hc HQ. destruct (sched_ok_lookup k out t Hok) as (tcb & Ht & Hg).
  { unfold places. rewrite Hc. simpl. by left. }
  apply wp_bind. unfold wp at 1, take_current_task. rewrite Hc. apply wp_bind. simpl.
  apply wp_ret. apply wp_bind. unfold task_check_guard. apply wp_bind. eapply wp_task_get; [done|].
  rewrite Hg. simpl. apply wp_ret. by eapply HQ.
Qed.

(** What an operation may change: nothing but statuses and places. *)
Lemma wp_block_current (Q : unit → kernel → Prop) k out t :
  sched_ok k out → processor_current k = Some t →
  (∀ k', sched_ok k' (t :: out) → processor_current k' = None → ready_queue k' = ready_queue k →
     futex_q k' = futex_q k → Q tt k') →
  wp block_current_and_run_next Q k.
Proof.
  intros Hok Hc HQ. apply (wp_leave _ _ _ out t); [done|done|]. intros tcb Ht.
  eapply wp_task_update; [exact Ht|]. apply HQ; try done.
  apply (sched_ok_move k out _ _ t tcb (with_status Blocked tcb)); try done; unfold places; simpl.
  - rewrite Hc. simpl. solve_Permutation.
  - intros u Hne. rewrite Hc. split_and!; [congruence|done|by right].
  - by left.
Qed.

Lemma wp_suspend_current (Q : unit → kernel → Prop) k out t :
  sched_ok k out → processor_current k = Some t →
  (∀ k', sched_ok k' out → processor_current k' = None → ready_queue k' = ready_queue k ++ [t] →
     futex_q k' = futex_q k → Q tt k') →
  wp suspend_current_and_run_next Q k.
Proof.
  intros Hok Hc HQ. apply (wp_leave _ _ _ out t); [done|done|]. intros tcb Ht.
  apply wp_bind. eapply wp_task_update; [exact Ht|]. apply wp_modify, HQ; try done.
  apply (sched_ok_move k out _ _ t tcb (with_status Ready tcb)); try done; unfold places, TaskManager_add; simpl.
  - rewrite Hc. simpl. solve_Permutation.
  - intros u Hne. rewrite Hc. split_and!; [congruence|set_solver|done].
  - set_solver.
Qed.

Lemma wp_wakeup (Q : unit → kernel → Prop) k out t :
  sched_ok k (t :: out) →
  (∀ k', sched_ok k' out → processor_current k' = processor_current k → ready_queue k' = ready_queue k ++ [t] →
     futex_q k' = futex_q k → Q tt k') →
  wp (wakeup_task t) Q k.
Proof.
  intros Hok HQ. destruct (sched_ok_lookup k (t :: out) t Hok) as (tcb & Ht & _).
  { unfold places. set_solver. }
  apply wp_bind. eapply wp_task_update; [exact Ht|]. apply wp_modify, HQ; try done.
  apply (sched_ok_move k (t :: out) _ _ t tcb (with_status Ready tcb)); try done; unfold places, TaskManager_add; simpl.
  - solve_Permutation.
  - intros u Hne. set_solver.
  - set_solver.
Qed.

Lemma wp_run_tasks_once (Q : option task → kernel → Prop) k out :
  sched_ok k out → processor_current k = None →
  (ready_queue k = [] → Q None k) →
  (∀ t q k', ready_queue k = t :: q → sched_ok k' out → processor_current k' = Some t → ready_queue k' = q →
     futex_q k' = futex_q k → Q (Some t) k') →
  wp run_tasks_once Q k.
Proof.
  intros Hok Hc HQ0 HQ. unfold run_tasks_once. apply wp_bind. unfold wp at 1, fetch_task.
  destruct (ready_queue k) as [|t q] eqn:Hr; simpl.
  - apply wp_ret. replace (set_ready (λ _, []) k) with k; [by apply HQ0|].
    destruct k; simpl in *. by subst.
  - destruct (sched_ok_lookup k out t Hok) as (tcb & Ht & Hg).
    { unfold places. rewrite Hr. set_solver. }
    apply wp_bind. unfold task_check_guard. apply wp_bind. eapply wp_task_get; [done|]. rewrite Hg. simpl.
    apply wp_ret, wp_bind. eapply wp_task_update; [exact Ht|]. apply wp_bind, wp_modify, wp_ret. eapply HQ; try done.
    apply (sched_ok_move k out _ _ t tcb (with_status Running tcb)); try done; unfold places; simpl.
    + rewrite Hc, Hr. solve_Permutation.
    + intros u Hne. rewrite Hc, Hr. set_solver.
Qed.

(** The signal flags of a task do not matter to the scheduler. *)
Lemma wp_flag_update (Q : unit → kernel → Prop) k out t f :
  sched_ok k out → t ∈ places k out →
  (∀ tcb, kstack (f tcb) = kstack tcb ∧ task_status (f tcb) = task_status tcb) →
  (∀ k', sched_ok k' out → processor_current k' = processor_current k → ready_queue k' = ready_queue k →
     futex_q k' = futex_q k → Q tt k') →
  wp (task_update t f) Q k.
Proof.
  intros Hok Ht Hf HQ. destruct (sched_ok_lookup k out t Hok Ht) as (tcb & Htcb & _).
  eapply wp_task_update; [done|]. apply HQ; try done.
  apply (sched_ok_move k out _ _ t tcb (f tcb)); try done; [apply Hf|].
  destruct (Hf tcb) as [_ ->]. destruct Hok as [_ _ H3 _]. exact (H3 t tcb Htcb).
Qed.

(** ** Freshly created tasks *)

Definition new_task (ks : KernelStack) : TaskControlBlock := mkTCB ks Ready 0 0 false.

(** Tasks that have been created and added, none of which has run. *)
Definition boot_kernel (ks : KernelStack) (ts : list task) : kernel :=
  mkKernel (list_to_map ((λ t, (t, new_task ks)) <$> ts)) ts None ∅.

Lemma boot_kernel_lookup ks ts t tcb :
  tasks (boot_kernel ks ts) !! t = Some tcb ↔ t ∈ ts ∧ tcb = new_task ks.
Proof.
  simpl. induction ts as [|u ts IH]; simpl; [set_solver|].
  destruct (decide (t = u)) as [->|Hne].
  - rewrite lookup_insert_eq. set_solver.
  - rewrite lookup_insert_ne, IH by done. set_solver.
Qed.

Lemma boot_kernel_ok ks ts : NoDup ts → check_guard ks = true → sched_ok (boot_kernel ks ts) [].
Proof.
  intros Hnd Hg. split.
  - simpl. by rewrite app_nil_r.
  - intros t. simpl. rewrite app_nil_r. split.
    + intros Ht. exists (new_task ks). by apply boot_kernel_lookup.
    + by intros [tcb [Ht _]%boot_kernel_lookup].
  - intros t tcb [Ht ->]%boot_kernel_lookup. done.
  - intros t tcb [_ ->]%boot_kernel_lookup. done.
Qed.

(** The guard words alone. *)
Definition guard_words : KernelStack := (λ i, Z.lxor KSTACK_GUARD_MAGIC i) <$> [0; 1; 2; 3].

Lemma guard_words_ok : check_guard guard_words = true.
Proof. reflexivity. Qed.
