(* ===== verification/Futex.v ===== *)
(** * Futexes (os/src/task/futex.rs)

    Wait queues keyed by physical address and pid.  [futex_wake] and
    [futex_requeue] are shown to wake and move exactly the waiters they should,
    in arrival order, and to leave the scheduler well formed. *)

From stdpp Require Import base list numbers option sets gmap sorting.
From S2P Require Import Prelude IdAlloc Sched.

Abbreviation FUTEX_BITSET_MATCH_ANY := (-1)%Z.

Definition FutexKey_new (paddr pid : Z) : FutexKey := (paddr, pid).

(** [Weak::upgrade] *)
Definition alive (k : kernel) (t : task) : bool := bool_decide (is_Some (tasks k !! t)).

(** ** Waiting *)

(** [entry(key).or_insert_with(VecDeque::new).push_back(w)] *)
Definition push_waiter (key : FutexKey) (w : FutexWaiter) (q : gmap FutexKey (list FutexWaiter))
    : gmap FutexKey (list FutexWaiter) :=
  <[key := default [] (q !! key) ++ [w]]> q.

(** Up to [block_current_and_run_next]. *)
Definition futex_wait_bitset (key : FutexKey) (bitset : Z) : M kernel unit :=
  let! t := current_task in
  let! t := m_unwrap t in
  set_interrupted t false ;;;
  m_modify (set_futex_q (push_waiter key (mkWaiter t bitset))) ;;;
  block_current_and_run_next.

(** After the task has been scheduled again. *)
Definition futex_wait_resume : M kernel Z :=
  let! t := current_task in
  let! t := m_unwrap t in
  let! interrupted := take_interrupted t in
  m_ret (if interrupted : bool then -4 else 0).

Definition futex_wait (key : FutexKey) : M kernel unit := futex_wait_bitset key FUTEX_BITSET_MATCH_ANY.

(** ** Waking *)

(** The [while] over the queue; [live] tells which tasks can be upgraded. *)
Fixpoint wake_loop (live : task → bool) (max_size bitset : Z) (fuel : nat)
    (queue : list FutexWaiter) (i : nat) (num : Z) (to_wake : list task)
    : looped (list FutexWaiter * Z * list task) :=
  match queue !! i with
  | Some w =>
      if num <? max_size then
        match fuel with
        | O => OutOfFuel
        | S fuel =>
            if negb (Z.land (waiter_bitset w) bitset =? 0) then
              if live (waiter_task w)
              then wake_loop live max_size bitset fuel (delete i queue) i (num + 1) (to_wake ++ [waiter_task w])
              else wake_loop live max_size bitset fuel (delete i queue) i num to_wake
            else wake_loop live max_size bitset fuel queue (S i) num to_wake
        end
      else Finished (queue, num, to_wake)
  | None => Finished (queue, num, to_wake)
  end.

(** The queue, or no entry once it is empty. *)
Definition put_queue (key : FutexKey) (queue : list FutexWaiter) (q : gmap FutexKey (list FutexWaiter))
    : gmap FutexKey (list FutexWaiter) :=
  match queue with [] => delete key q | _ => <[key := queue]> q end.

Definition futex_wake_bitset (key : FutexKey) (max_size bitset : Z) : M kernel (looped Z) :=
  let! k := m_get in
  match futex_q k !! key with
  | None => m_ret (Finished 0)
  | Some queue =>
      match wake_loop (alive k) max_size bitset (length queue) queue 0 0 [] with
      | OutOfFuel => m_ret OutOfFuel
      | Finished (queue, num, to_wake) =>
          m_modify (set_futex_q (put_queue key queue)) ;;;
          m_for to_wake wakeup_task ;;;
          m_ret (Finished num)
      end
  end.

Definition futex_wake (key : FutexKey) (max_size : Z) : M kernel (looped Z) :=
  futex_wake_bitset key max_size FUTEX_BITSET_MATCH_ANY.

(** ** Requeueing *)

(** The [while let]: what is left of the queue, the tasks to wake, the waiters
    to move; the bounds are the [i32] arguments cast to [usize]. *)
Fixpoint requeue_loop (live : task → bool) (max_wake max_requeue : Z) (queue : list FutexWaiter)
    (woke moved : Z) : list FutexWaiter * list task * list FutexWaiter :=
  match queue with
  | [] => ([], [], [])
  | w :: queue =>
      if woke <? max_wake then
        if live (waiter_task w) then
          let '(rest, wake, req) := requeue_loop live max_wake max_requeue queue (woke + 1) moved in
          (rest, waiter_task w :: wake, req)
        else requeue_loop live max_wake max_requeue queue woke moved
      else if moved <? max_requeue then
        let '(rest, wake, req) := requeue_loop live max_wake max_requeue queue woke (moved + 1) in
        (rest, wake, w :: req)
      else (w :: queue, [], [])
  end.

(** [entry(new_key).or_insert_with(VecDeque::new).extend(requeued)] *)
Definition append_waiters (key : FutexKey) (ws : list FutexWaiter) (q : gmap FutexKey (list FutexWaiter))
    : gmap FutexKey (list FutexWaiter) :=
  match ws with [] => q | _ => <[key := default [] (q !! key) ++ ws]> q end.

Definition futex_requeue (old_key : FutexKey) (max_wake : Z) (new_key : FutexKey) (max_requeue : Z) : M kernel Z :=
  let! k := m_get in
  let '(q, wake, req) :=
    match futex_q k !! old_key with
    | None => (futex_q k, [], [])
    | Some queue =>
        let '(rest, wake, req) :=
          requeue_loop (alive k) (wrap64 max_wake) (wrap64 max_requeue) queue 0 0 in
        (put_queue old_key rest (futex_q k), wake, req)
    end in
  m_modify (set_futex_q (λ _, append_waiters new_key req q)) ;;;
  m_for wake wakeup_task ;;;
  m_ret (wrap64 (Z.of_nat (length wake) + Z.of_nat (length req))).

(** ** Removing waiters *)

(** The first entry of a queue that is the task's or whose task is gone. *)
Fixpoint remove_first (live : task → bool) (t : task) (queue : list FutexWaiter) : option (list FutexWaiter) :=
  match queue with
  | [] => None
  | w :: queue =>
      if negb (live (waiter_task w)) || bool_decide (waiter_task w = t) then Some queue
      else (λ q, w :: q) <$> remove_first live t queue
  end.

Definition futex_remove_waiter (key : FutexKey) (t : task) : M kernel bool :=
  let! k := m_get in
  match futex_q k !! key with
  | None => m_ret false
  | Some queue =>
      match remove_first (alive k) t queue with
      | None => m_ret false
      | Some queue => m_modify (set_futex_q (put_queue key queue)) ;;; m_ret true
      end
  end.

(** The keys in the order a [BTreeMap] iterates them. *)
Definition key_le (a b : FutexKey) : Prop := a.1 < b.1 ∨ a.1 = b.1 ∧ a.2 <= b.2.
#[export] Instance key_le_dec a b : Decision (key_le a b).
Proof. unfold key_le. apply _. Defined.
Definition sorted_keys (q : gmap FutexKey (list FutexWaiter)) : list FutexKey :=
  merge_sort key_le (map_to_list q).*1.

(** The [for]: an emptied queue stays in the map, since the loop returns
    before the keys in [empty_keys] are removed. *)
Fixpoint remove_any_loop (live : task → bool) (t : task) (keys : list FutexKey)
    (q : gmap FutexKey (list FutexWaiter)) : bool * gmap FutexKey (list FutexWaiter) :=
  match keys with
  | [] => (false, q)
  | key :: keys =>
      match remove_first live t (default [] (q !! key)) with
      | Some queue => (true, <[key := queue]> q)
      | None => remove_any_loop live t keys q
      end
  end.

Definition futex_remove_waiter_any (t : task) : M kernel bool :=
  let! k := m_get in
  let '(b, q) := remove_any_loop (alive k) t (sorted_keys (futex_q k)) (futex_q k) in
  m_modify (set_futex_q (λ _, q)) ;;; m_ret b.

(** [wake_process_for_signal] over the tasks of the process. *)
Definition wake_process_for_signal (process_tasks : list task) : M kernel unit :=
  m_for process_tasks (λ t,
    let! tcb := task_get t in
    if decide (task_status tcb = Blocked) then
      futex_remove_waiter_any t ;;;
      mark_interrupted t ;;;
      set_status t Ready ;;;
      add_task t
    else m_ret tt).

(** ** Waking a list of parked tasks *)

Lemma wp_wakeups (Q : unit → kernel → Prop) ws : ∀ k out,
  sched_ok k (ws ++ out) →
  (∀ k', sched_ok k' out → processor_current k' = processor_current k → ready_queue k' = ready_queue k ++ ws →
     futex_q k' = futex_q k → Q tt k') →
  wp (m_for ws wakeup_task) Q k.
Proof.
  induction ws as [|w ws IH]; intros k out Hok HQ; simpl in *.
  - apply wp_ret, HQ; try done. by rewrite app_nil_r.
  - apply wp_bind. apply (wp_wakeup _ k (ws ++ out)); [done|]. intros k1 Hok1 Hc1 Hr1 Hf1.
    apply (IH k1 out Hok1). intros k2 Hok2 Hc2 Hr2 Hf2. apply HQ; [done|congruence| |congruence].
    rewrite Hr2, Hr1, <- app_assoc. done.
Qed.

Lemma sched_ok_futex k out f : sched_ok k out → sched_ok (set_futex_q f k) out.
Proof. intros [H1 H2 H3 H4]. by split. Qed.

(** Some parked tasks, taken out of the parked list. *)
Lemma parked_split (k : kernel) (out ws : list task) : sched_ok k out → NoDup ws → (∀ t, t ∈ ws → t ∈ out) →
  ∃ out', out ≡ₚ ws ++ out'.
Proof. intros _ Hnd Hin. apply submseteq_Permutation. by apply NoDup_submseteq. Qed.

(** ** [wake_loop] *)

Lemma NoDup_take {B} n (l : list B) : NoDup l → NoDup (take n l).
Proof. intros H. rewrite <- (take_drop n l) in H. by apply NoDup_app in H as [? _]. Qed.

Lemma elem_of_take_list {B} n (l : list B) x : x ∈ take n l → x ∈ l.
Proof. intros H. rewrite <- (take_drop n l). apply elem_of_app. by left. Qed.

Lemma filter_bool_cons {B} (f : B → bool) x l :
  filter (λ y, f y) (x :: l) = if f x then x :: filter (λ y, f y) l else filter (λ y, f y) l.
Proof. rewrite filter_cons. destruct (f x) eqn:Hx; [by rewrite decide_True|by rewrite decide_False by (by intros ?)]. Qed.

Section wake.
Context (live : task → bool) (bitset : Z).

Definition matches (w : FutexWaiter) : bool := negb (Z.land (waiter_bitset w) bitset =? 0).

(** The waiters a wake-up may wake. *)
Definition wakeable (w : FutexWaiter) : bool := matches w && live (waiter_task w).

(** The same loop as a recursion on the queue: the tasks woken, what remains. *)
Fixpoint wake_split (n : nat) (q : list FutexWaiter) : list task * list FutexWaiter :=
  match q with
  | [] => ([], [])
  | w :: q' =>
      match n with
      | O => ([], q)
      | S n' =>
          if matches w then
            if live (waiter_task w) then let '(ts, r) := wake_split n' q' in (waiter_task w :: ts, r)
            else wake_split n q'
          else let '(ts, r) := wake_split n q' in (ts, w :: r)
      end
  end.

Lemma wake_loop_split max fuel : ∀ q pre num ts, (length q <= fuel)%nat → num <= max →
  wake_loop live max bitset fuel (pre ++ q) (length pre) num ts =
    let '(ws, r) := wake_split (Z.to_nat (max - num)) q in
    Finished (pre ++ r, num + Z.of_nat (length ws), ts ++ ws).
Proof.
  assert (∀ fuel num pre ts, wake_loop live max bitset fuel pre (length pre) num ts = Finished (pre, num, ts)) as Hend.
  { intros [|f] num pre ts; simpl; by rewrite (proj2 (lookup_ge_None pre (length pre))). }
  induction fuel as [|fuel IH]; intros q pre num ts Hf Hn; (destruct q as [|w q]; simpl in Hf;
    [rewrite app_nil_r, Hend; simpl; rewrite Z.add_0_r, !app_nil_r; done|]); [lia|].
  cbn [wake_loop]. rewrite list_lookup_middle by done. destruct (Z.ltb_spec num max) as [Hlt|Hge].
  2:{ replace (Z.to_nat (max - num)) with 0%nat by lia. simpl. by rewrite Z.add_0_r, !app_nil_r. }
  destruct (Z.to_nat (max - num)) as [|n] eqn:En; [lia|]. cbn [wake_split].
  fold (matches w). rewrite delete_middle. destruct (matches w) eqn:Hm; [destruct (live (waiter_task w))|].
  - rewrite IH by lia. replace (Z.to_nat (max - (num + 1))) with n by lia.
    destruct (wake_split n q) as [ws r]. simpl length. rewrite <- app_assoc. simpl. do 3 f_equal. lia.
  - rewrite IH by lia. by rewrite En.
  - replace (pre ++ w :: q) with ((pre ++ [w]) ++ q) by (by rewrite <- app_assoc).
    replace (S (length pre)) with (length (pre ++ [w])) by (rewrite length_app; simpl; lia).
    rewrite IH by lia. rewrite En. destruct (wake_split (S n) q) as [ws r]. by rewrite <- app_assoc.
Qed.

Lemma wake_split_spec n q : let '(ws, r) := wake_split n q in
  ws = take n (waiter_task <$> filter wakeable q) ∧
  filter wakeable r = drop n (filter wakeable q) ∧
  filter (λ w, negb (matches w)) r = filter (λ w, negb (matches w)) q ∧ sublist r q.
Proof.
  revert n. induction q as [|w q IH]; intros n; simpl.
  { rewrite !filter_nil, drop_nil. by rewrite take_nil. }
  destruct n as [|n]; [done|]. rewrite !filter_bool_cons.
  assert (wakeable w = matches w && live (waiter_task w)) as Hwk by done. rewrite Hwk.
  destruct (matches w) eqn:Hm; simpl.
  - destruct (live (waiter_task w)); simpl.
    + specialize (IH n). destruct (wake_split n q) as [ws r]. destruct IH as (-> & -> & -> & Hs).
      split_and!; [done..|by constructor].
    + specialize (IH (S n)). destruct (wake_split (S n) q) as [ws r]. destruct IH as (-> & -> & -> & Hs).
      split_and!; [done..|by constructor].
  - specialize (IH (S n)). destruct (wake_split (S n) q) as [ws r]. destruct IH as (H1 & H2 & H3 & Hs).
    rewrite !filter_bool_cons, Hwk, Hm. simpl. rewrite H3.
    split_and!; [done|done|done|by constructor].
Qed.
End wake.

Lemma wp_futex_wake (Q : looped Z → kernel → Prop) k out key max bitset q :
  sched_ok k out → is_usize max → futex_q k !! key = Some q →
  let hits := filter (λ w, wakeable (alive k) bitset w) q in
  NoDup (waiter_task <$> hits) → (∀ t, t ∈ waiter_task <$> hits → t ∈ out) →
  let '(ws, rest) := wake_split (alive k) bitset (Z.to_nat max) q in
  (∀ k' out', sched_ok k' out' → out ≡ₚ ws ++ out' → ready_queue k' = ready_queue k ++ ws →
     processor_current k' = processor_current k → futex_q k' = put_queue key rest (futex_q k) →
     Q (Finished (Z.of_nat (length ws))) k') →
  wp (futex_wake_bitset key max bitset) Q k.
Proof.
  intros Hok Hmax Hq hits Hnd Hin. unfold is_usize in Hmax.
  pose proof (wake_split_spec (alive k) bitset (Z.to_nat max) q) as Hs.
  destruct (wake_split (alive k) bitset (Z.to_nat max) q) as [ws r] eqn:Hsp. destruct Hs as (Hws & _).
  fold hits in Hws. intros HQ. destruct (parked_split k out ws Hok) as [out' Hout].
  { subst ws. by apply NoDup_take. }
  { subst ws. intros t Ht. apply Hin. by eapply elem_of_take_list. }
  unfold futex_wake_bitset. apply wp_bind, wp_get. rewrite Hq.
  pose proof (wake_loop_split (alive k) bitset max (length q) q [] 0 [] ltac:(lia) ltac:(lia)) as Hl.
  simpl in Hl. rewrite Hl, Z.sub_0_r, Hsp. simpl. apply wp_bind, wp_modify, wp_bind.
  apply (wp_wakeups _ ws _ out'); [apply sched_ok_futex; by rewrite <- Hout|].
  intros k' Hok' Hc' Hr' Hf'. apply wp_ret. by eapply HQ.
Qed.

(** [futex_wake] terminates, wakes the first [max_size] waiters in arrival
    order among those whose bitset matches and whose task still exists, and
    returns their number.  They leave the queue and enter the ready queue in
    that order with status [Ready]; the waiters that do not match stay, in
    order, as do the matching live ones beyond [max_size]; an emptied queue
    leaves the table; and the scheduler stays well formed. *)
Theorem futex_wake_exact k out key max bitset q :
  sched_ok k out → is_usize max → futex_q k !! key = Some q →
  let hits := filter (λ w, wakeable (alive k) bitset w) q in
  NoDup (waiter_task <$> hits) → (∀ t, t ∈ waiter_task <$> hits → t ∈ out) →
  let woken := take (Z.to_nat max) (waiter_task <$> hits) in
  ∃ k' rest out', futex_wake_bitset key max bitset k = Ret (Finished (Z.of_nat (length woken)), k') ∧
    sched_ok k' out' ∧ out ≡ₚ woken ++ out' ∧ ready_queue k' = ready_queue k ++ woken ∧
    processor_current k' = processor_current k ∧ futex_q k' = put_queue key rest (futex_q k) ∧
    sublist rest q ∧ filter (λ w, negb (matches bitset w)) rest = filter (λ w, negb (matches bitset w)) q ∧
    filter (λ w, wakeable (alive k) bitset w) rest = drop (Z.to_nat max) hits.
Proof.
  intros Hok Hmax Hq hits Hnd Hin woken.
  assert (wp (futex_wake_bitset key max bitset) (λ r k', r = Finished (Z.of_nat (length woken)) ∧
    ∃ rest out', sched_ok k' out' ∧ out ≡ₚ woken ++ out' ∧ ready_queue k' = ready_queue k ++ woken ∧
      processor_current k' = processor_current k ∧ futex_q k' = put_queue key rest (futex_q k) ∧
      sublist rest q ∧ filter (λ w, negb (matches bitset w)) rest = filter (λ w, negb (matches bitset w)) q ∧
      filter (λ w, wakeable (alive k) bitset w) rest = drop (Z.to_nat max) hits) k) as Hwp.
  { pose proof (λ Q, wp_futex_wake Q k out key max bitset q Hok Hmax Hq Hnd Hin) as Hw.
    pose proof (wake_split_spec (alive k) bitset (Z.to_nat max) q) as Hs.
    destruct (wake_split (alive k) bitset (Z.to_nat max) q) as [ws r]. destruct Hs as (Hws & Hhit & Hmiss & Hsub).
    fold hits woken in Hws, Hhit. subst ws. apply Hw. intros k' out' H1 H2 H3 H4 H5. split; [done|].
    by exists r, out'. }
  apply wp_det in Hwp as (r & k' & Hrun & -> & rest & out' & H). by exists k', rest, out'.
Qed.

(** ** [requeue_loop] *)

Definition live_tasks (live : task → bool) (q : list FutexWaiter) : list task :=
  waiter_task <$> filter (λ w, live (waiter_task w)) q.

Lemma live_tasks_cons live w q :
  live_tasks live (w :: q) = (if live (waiter_task w) then [waiter_task w] else []) ++ live_tasks live q.
Proof. unfold live_tasks. rewrite (filter_bool_cons (λ w, live (waiter_task w))). by destruct (live (waiter_task w)). Qed.

(** How [q] is cut: [q1] is consumed by waking (stopping as soon as [mw] tasks
    are woken), [q2] is moved, [q3] stays. *)
Record requeue_cut (live : task → bool) (mw mr woke moved : Z) (q1 q2 q3 : list FutexWaiter) : Prop := {
  cut_wake i : (i < length q1)%nat → woke + Z.of_nat (length (live_tasks live (take i q1))) < mw;
  cut_wake_all : q2 ++ q3 ≠ [] → mw <= woke + Z.of_nat (length (live_tasks live q1));
  cut_move i : (i < length q2)%nat → moved + Z.of_nat i < mr;
  cut_move_all : q3 ≠ [] → mr <= moved + Z.of_nat (length q2);
}.

Lemma requeue_loop_spec live mw mr q : ∀ woke moved, ∃ q1 q2 q3,
  q = q1 ++ q2 ++ q3 ∧ requeue_loop live mw mr q woke moved = (q3, live_tasks live q1, q2) ∧
  requeue_cut live mw mr woke moved q1 q2 q3.
Proof.
  induction q as [|w q IH]; intros woke moved; simpl.
  { exists [], [], []. split_and!; try done. split; simpl; done || (intros; lia). }
  destruct (Z.ltb_spec woke mw) as [Hw|Hw]; [|destruct (Z.ltb_spec moved mr) as [Hm|Hm]].
  - destruct (live (waiter_task w)) eqn:Hl.
    + destruct (IH (woke + 1) moved) as (q1 & q2 & q3 & -> & -> & [C1 C2 C3 C4]).
      exists (w :: q1), q2, q3. rewrite live_tasks_cons, Hl. split_and!; [done..|]. split; [| |done|done].
      * intros [|i] Hi; simpl; [unfold live_tasks; simpl; lia|]. rewrite live_tasks_cons, Hl. simpl.
        specialize (C1 i ltac:(simpl in Hi; lia)). lia.
      * intros Hne. specialize (C2 Hne). rewrite live_tasks_cons, Hl. simpl. lia.
    + destruct (IH woke moved) as (q1 & q2 & q3 & -> & -> & [C1 C2 C3 C4]).
      exists (w :: q1), q2, q3. rewrite live_tasks_cons, Hl. split_and!; [done..|]. split; [| |done|done].
      * intros [|i] Hi; simpl; [unfold live_tasks; simpl; lia|]. rewrite live_tasks_cons, Hl. simpl.
        apply C1. simpl in Hi. lia.
      * intros Hne. rewrite live_tasks_cons, Hl. by apply C2.
  - destruct (IH woke (moved + 1)) as (q1 & q2 & q3 & -> & -> & [C1 C2 C3 C4]).
    assert (q1 = []) as ->.
    { destruct q1 as [|x q1]; [done|]. specialize (C1 0%nat ltac:(simpl; lia)). unfold live_tasks in C1. simpl in C1. lia. }
    exists [], (w :: q2), q3. split_and!; [done..|]. split; simpl.
    + intros i Hi. lia.
    + intros _. unfold live_tasks. simpl. lia.
    + intros [|i] Hi; [lia|]. specialize (C3 i ltac:(lia)). lia.
    + intros Hne. specialize (C4 Hne). lia.
  - exists [], [], (w :: q). split_and!; [done..|]. split; simpl; (intros; unfold live_tasks; simpl; lia).
Qed.

Lemma wp_futex_requeue (Q : Z → kernel → Prop) k out old_key new_key max_wake max_requeue q :
  sched_ok k out → futex_q k !! old_key = Some q →
  NoDup (live_tasks (alive k) q) → (∀ t, t ∈ live_tasks (alive k) q → t ∈ out) →
  (∀ q1 q2 q3 k' out', q = q1 ++ q2 ++ q3 →
     requeue_cut (alive k) (wrap64 max_wake) (wrap64 max_requeue) 0 0 q1 q2 q3 →
     sched_ok k' out' → out ≡ₚ live_tasks (alive k) q1 ++ out' →
     ready_queue k' = ready_queue k ++ live_tasks (alive k) q1 → processor_current k' = processor_current k →
     futex_q k' = append_waiters new_key q2 (put_queue old_key q3 (futex_q k)) →
     Q (wrap64 (Z.of_nat (length (live_tasks (alive k) q1)) + Z.of_nat (length q2))) k') →
  wp (futex_requeue old_key max_wake new_key max_requeue) Q k.
Proof.
  intros Hok Hq Hnd Hin HQ.
  destruct (requeue_loop_spec (alive k) (wrap64 max_wake) (wrap64 max_requeue) q 0 0)
    as (q1 & q2 & q3 & Hcat & Hloop & Hcut).
  assert (live_tasks (alive k) q = live_tasks (alive k) q1 ++ live_tasks (alive k) (q2 ++ q3)) as Hlt.
  { rewrite Hcat. unfold live_tasks. by rewrite filter_app, fmap_app. }
  rewrite Hlt in Hnd, Hin. destruct (parked_split k out (live_tasks (alive k) q1) Hok) as [out' Hout].
  { by apply NoDup_app in Hnd as [? _]. }
  { intros t Ht. apply Hin, elem_of_app. by left. }
  unfold futex_requeue. apply wp_bind, wp_get. rewrite Hq, Hloop. apply wp_bind, wp_modify, wp_bind.
  apply (wp_wakeups _ _ _ out'); [apply sched_ok_futex; by rewrite <- Hout|].
  intros k' Hok' Hc' Hr' Hf'. apply wp_ret. by eapply HQ.
Qed.

(** [futex_requeue] wakes waiters from the front of the queue until
    [max_wake] tasks are woken, appends the next [max_requeue] waiters, in
    order, to the other queue, leaves the rest, and returns how many it woke
    and moved; no waiter whose task exists is lost or duplicated, and the
    scheduler stays well formed. *)
Theorem futex_requeue_exact k out old_key new_key max_wake max_requeue q :
  sched_ok k out → futex_q k !! old_key = Some q → Z.of_nat (length q) < USIZE →
  NoDup (live_tasks (alive k) q) → (∀ t, t ∈ live_tasks (alive k) q → t ∈ out) →
  ∃ q1 q2 q3 k' out', q = q1 ++ q2 ++ q3 ∧
    requeue_cut (alive k) (wrap64 max_wake) (wrap64 max_requeue) 0 0 q1 q2 q3 ∧
    let woken := live_tasks (alive k) q1 in
    futex_requeue old_key max_wake new_key max_requeue k =
      Ret (Z.of_nat (length woken) + Z.of_nat (length q2), k') ∧
    sched_ok k' out' ∧ out ≡ₚ woken ++ out' ∧ ready_queue k' = ready_queue k ++ woken ∧
    processor_current k' = processor_current k ∧
    futex_q k' = append_waiters new_key q2 (put_queue old_key q3 (futex_q k)).
Proof.
  intros Hok Hq Hlen Hnd Hin.
  assert (wp (futex_requeue old_key max_wake new_key max_requeue) (λ r k', ∃ q1 q2 q3 out',
    r = Z.of_nat (length (live_tasks (alive k) q1)) + Z.of_nat (length q2) ∧ q = q1 ++ q2 ++ q3 ∧
    requeue_cut (alive k) (wrap64 max_wake) (wrap64 max_requeue) 0 0 q1 q2 q3 ∧ sched_ok k' out' ∧
    out ≡ₚ live_tasks (alive k) q1 ++ out' ∧ ready_queue k' = ready_queue k ++ live_tasks (alive k) q1 ∧
    processor_current k' = processor_current k ∧
    futex_q k' = append_waiters new_key q2 (put_queue old_key q3 (futex_q k))) k) as Hwp.
  { eapply wp_futex_requeue; [done..|].
    intros q1 q2 q3 k' out' Hcat Hcut H1 H2 H3 H4 H5. exists q1, q2, q3, out'. split.
    - apply wrap64_small. unfold is_usize. pose proof (length_filter (λ w, alive k (waiter_task w)) q1).
      rewrite Hcat, !length_app in Hlen. unfold live_tasks. rewrite length_fmap. lia.
    - exact (conj Hcat (conj Hcut (conj H1 (conj H2 (conj H3 (conj H4 H5)))))). }
  apply wp_det in Hwp as (r & k' & Hrun & q1 & q2 & q3 & out' & -> & H).
  exists q1, q2, q3, k', out'. naive_solver.
Qed.

(** ** The futex system

    Tasks that wait, wake, requeue, yield and are interrupted by signals, none
    of which exits: then every task is at every moment in exactly one place. *)

(** The tasks parked in the queues. *)
Definition parked (q : gmap FutexKey (list FutexWaiter)) : list task :=
  waiter_task <$> concat (map_to_list q).*2.

Lemma parked_delete q key : parked q ≡ₚ (waiter_task <$> default [] (q !! key)) ++ parked (delete key q).
Proof.
  unfold parked. destruct (q !! key) as [l|] eqn:Hq; simpl.
  - rewrite <- (map_to_list_delete q key l Hq). simpl. by rewrite fmap_app.
  - by rewrite delete_id.
Qed.

Lemma parked_insert q key l : parked (<[key := l]> q) ≡ₚ (waiter_task <$> l) ++ parked (delete key q).
Proof. rewrite (parked_delete _ key), lookup_insert_eq, delete_insert_eq. done. Qed.

Lemma parked_put q key l : parked (put_queue key l q) ≡ₚ (waiter_task <$> l) ++ parked (delete key q).
Proof. destruct l; simpl; [done|]. by rewrite parked_insert. Qed.

Lemma parked_push q key w : parked (push_waiter key w q) ≡ₚ waiter_task w :: parked q.
Proof.
  unfold push_waiter. rewrite parked_insert, (parked_delete q key), fmap_app. simpl. solve_Permutation.
Qed.

Lemma parked_append q key ws : parked (append_waiters key ws q) ≡ₚ (waiter_task <$> ws) ++ parked q.
Proof.
  destruct ws as [|w ws]; [done|]. unfold append_waiters. rewrite parked_insert, (parked_delete q key), fmap_app.
  solve_Permutation.
Qed.

Lemma parked_elem q key l w : q !! key = Some l → w ∈ l → waiter_task w ∈ parked q.
Proof. intros Hq Hw. rewrite (parked_delete q key), Hq. simpl. apply elem_of_app. left. by apply list_elem_of_fmap_2. Qed.

Lemma parked_inv q t : t ∈ parked q → ∃ key l w, q !! key = Some l ∧ w ∈ l ∧ waiter_task w = t.
Proof.
  unfold parked. intros (w & -> & Hw)%list_elem_of_fmap. apply list_elem_of_In, in_concat in Hw as (l & Hl & Hw).
  apply list_elem_of_In, list_elem_of_fmap in Hl as ([key l'] & -> & Hin). apply elem_of_map_to_list in Hin.
  exists key, l', w. split_and!; [done|by apply list_elem_of_In|done].
Qed.

Definition futex_ok (k : kernel) : Prop := sched_ok k (parked (futex_q k)).

Lemma futex_ok_alive k t : futex_ok k → t ∈ parked (futex_q k) → alive k t = true.
Proof. intros [_ H2 _ _] Ht. apply bool_decide_eq_true, H2. set_solver. Qed.

(** With every waiter alive, [remove_first] takes out the task itself. *)
Lemma remove_first_spec live t q : (∀ w, w ∈ q → live (waiter_task w) = true) →
  match remove_first live t q with
  | Some q' => ∃ q1 w q2, q = q1 ++ w :: q2 ∧ waiter_task w = t ∧ q' = q1 ++ q2
  | None => t ∉ waiter_task <$> q
  end.
Proof.
  induction q as [|w q IH]; intros Hl; simpl; [set_solver|].
  rewrite Hl by set_solver. simpl. case_bool_decide as Ht.
  - by exists [], w, q.
  - specialize (IH ltac:(set_solver)). destruct (remove_first live t q) as [q'|]; simpl.
    + destruct IH as (q1 & x & q2 & -> & Hx & ->). by exists (w :: q1), x, q2.
    + set_solver.
Qed.

Lemma remove_any_loop_spec live t q keys : (∀ t, t ∈ parked q → live t = true) →
  match remove_any_loop live t keys q with
  | (true, q') => ∃ key l1 w l2, q !! key = Some (l1 ++ w :: l2) ∧ waiter_task w = t ∧ q' = <[key := l1 ++ l2]> q
  | (false, q') => q' = q ∧ ∀ key l, key ∈ keys → q !! key = Some l → t ∉ waiter_task <$> l
  end.
Proof.
  intros Hl. induction keys as [|key keys IH]; simpl; [set_solver|].
  pose proof (remove_first_spec live t (default [] (q !! key))) as Hf.
  destruct (remove_first live t (default [] (q !! key))) as [q'|].
  - destruct Hf as (q1 & w & q2 & Hq & Hw & ->).
    { intros w Hw. apply Hl. destruct (q !! key) as [l|] eqn:Hq; [|by apply elem_of_nil in Hw]. by eapply parked_elem. }
    exists key, q1, w, q2. split_and!; [|done..]. destruct (q !! key) as [l|]; simpl in Hq; [by subst|].
    by destruct q1.
  - destruct (remove_any_loop live t keys q) as [[] q'] eqn:Hr; [done|]. destruct IH as [-> IH].
    split; [done|]. intros key' l [->|Hin]%elem_of_cons Hq; [|by eapply IH].
    rewrite Hq in Hf. simpl in Hf. apply Hf. intros w Hw. by eapply Hl, parked_elem.
Qed.

(** What tasks and interrupts do; a command that needs a running task (or an
    idle processor) does nothing when there is none. *)
Inductive futex_cmd : Type :=
| CRun
| CYield
| CWait (key : FutexKey) (bitset : Z)
| CResume
| CWake (key : FutexKey) (max bitset : Z)
| CRequeue (old_key : FutexKey) (max_wake : Z) (new_key : FutexKey) (max_requeue : Z)
| CSignal (process_tasks : list task).

Definition futex_exec (c : futex_cmd) : M kernel unit :=
  let! k := m_get in
  match c, processor_current k with
  | CRun, None => run_tasks_once ;;; m_ret tt
  | CYield, Some _ => suspend_current_and_run_next
  | CWait key bitset, Some _ => futex_wait_bitset key bitset
  | CResume, Some _ => futex_wait_resume ;;; m_ret tt
  | CWake key max bitset, Some _ => futex_wake_bitset key (wrap64 max) bitset ;;; m_ret tt
  | CRequeue o mw n mr, Some _ => futex_requeue o mw n mr ;;; m_ret tt
  | CSignal ts, _ => wake_process_for_signal (filter (λ t, alive k t) ts)
  | _, _ => m_ret tt
  end.

Lemma NoDup_fmap_filter {B C} (f : B → C) (P : B → bool) (l : list B) :
  NoDup (f <$> l) → NoDup (f <$> filter (λ x, P x) l).
Proof.
  induction l as [|x l IH]; [done|]. rewrite fmap_cons, NoDup_cons, filter_bool_cons. intros [Hx Hl].
  destruct (P x); [|by apply IH]. rewrite fmap_cons, NoDup_cons. split; [|by apply IH].
  intros (y & Hy & Hin)%list_elem_of_fmap. apply Hx. rewrite Hy. apply list_elem_of_fmap_2.
  by apply list_elem_of_filter in Hin as [_ ?].
Qed.

Lemma futex_ok_queue k key q : futex_ok k → futex_q k !! key = Some q →
  NoDup (waiter_task <$> q) ∧ (∀ w, w ∈ q → alive k (waiter_task w) = true) ∧
  (∀ w, w ∈ q → waiter_task w ∈ parked (futex_q k)).
Proof.
  intros Hok Hq. pose proof Hok as [H1 _ _ _]. split_and!.
  - rewrite (parked_delete _ key), Hq in H1. simpl in H1. by apply NoDup_app in H1 as (_ & _ & (_ & _ & (? & _)%NoDup_app)%NoDup_app).
  - intros w Hw. apply (futex_ok_alive k _ Hok). by eapply parked_elem.
  - intros w Hw. by eapply parked_elem.
Qed.

Lemma wake_split_perm live bitset n q : (∀ w, w ∈ q → live (waiter_task w) = true) →
  let '(ws, r) := wake_split live bitset n q in waiter_task <$> q ≡ₚ ws ++ (waiter_task <$> r).
Proof.
  revert n. induction q as [|w q IH]; intros n Hl; simpl; [reflexivity|].
  destruct n as [|n]; [reflexivity|]. rewrite Hl by set_solver. pose proof (λ n, IH n ltac:(set_solver)) as IH'.
  destruct (matches bitset w).
  - specialize (IH' n). destruct (wake_split live bitset n q) as [ws r]. simpl. by rewrite IH'.
  - specialize (IH' (S n)). destruct (wake_split live bitset (S n) q) as [ws r]. simpl. rewrite IH'. solve_Permutation.
Qed.

Lemma live_tasks_all live q : (∀ w, w ∈ q → live (waiter_task w) = true) → live_tasks live q = waiter_task <$> q.
Proof.
  induction q as [|w q IH]; intros Hl; [done|]. rewrite live_tasks_cons, Hl by set_solver. simpl.
  f_equal. apply IH. set_solver.
Qed.

Lemma futex_wake_ok k key max bitset : futex_ok k → is_usize max →
  wp (futex_wake_bitset key max bitset) (λ _ k', futex_ok k') k.
Proof.
  intros Hok Hmax. destruct (futex_q k !! key) as [q|] eqn:Hq.
  2:{ unfold futex_wake_bitset. apply wp_bind, wp_get. rewrite Hq. by apply wp_ret. }
  destruct (futex_ok_queue k key q Hok Hq) as (Hnd & Hal & Hin).
  pose proof (λ Q, wp_futex_wake Q k _ key max bitset q Hok Hmax Hq) as Hw.
  pose proof (wake_split_perm (alive k) bitset (Z.to_nat max) q Hal) as Hp.
  destruct (wake_split (alive k) bitset (Z.to_nat max) q) as [ws r]. apply Hw.
  - by apply NoDup_fmap_filter.
  - intros t (w & -> & [_ Hw']%list_elem_of_filter)%list_elem_of_fmap. by apply Hin.
  - intros k' out' Hok' Hout _ _ Hf. unfold futex_ok. rewrite Hf. eapply sched_ok_proper; [|exact Hok'].
    apply (Permutation_app_inv_l ws). rewrite <- Hout, parked_put, (parked_delete (futex_q k) key), Hq. simpl.
    by rewrite Hp, <- app_assoc.
Qed.

Lemma futex_requeue_ok k o mw n mr : futex_ok k → wp (futex_requeue o mw n mr) (λ _ k', futex_ok k') k.
Proof.
  intros Hok. destruct (futex_q k !! o) as [q|] eqn:Hq.
  2:{ unfold futex_requeue. apply wp_bind, wp_get. rewrite Hq. simpl. apply wp_bind, wp_modify, wp_bind, wp_ret, wp_ret.
      by destruct Hok. }
  destruct (futex_ok_queue k o q Hok Hq) as (Hnd & Hal & Hin).
  eapply (wp_futex_requeue _ k _ o n mw mr q Hok Hq).
  - by rewrite live_tasks_all.
  - rewrite live_tasks_all by done. intros t (w & -> & ?)%list_elem_of_fmap. by apply Hin.
  - intros q1 q2 q3 k' out' -> _ Hok' Hout _ _ Hf. rewrite live_tasks_all in Hout by (intros w Hw; apply Hal; set_solver).
    unfold futex_ok. rewrite Hf. eapply sched_ok_proper; [|exact Hok'].
    apply (Permutation_app_inv_l (waiter_task <$> q1)).
    rewrite <- Hout, parked_append, parked_put, (parked_delete (futex_q k) o), Hq. simpl. rewrite !fmap_app. solve_Permutation.
Qed.

(** Every task the command still has to look at exists. *)
Lemma futex_signal_ok ts : ∀ k, futex_ok k → (∀ t, t ∈ ts → t ∈ places k (parked (futex_q k))) →
  wp (wake_process_for_signal ts) (λ _ k', futex_ok k') k.
Proof.
  unfold wake_process_for_signal. induction ts as [|t ts IH]; intros k Hok Hts; simpl; [by apply wp_ret|].
  destruct (sched_ok_lookup k _ t Hok) as (tcb & Ht & _); [apply Hts; set_solver|].
  apply wp_bind, wp_bind. eapply wp_task_get; [done|]. case_decide as Hb; [|apply wp_ret, IH; set_solver].
  assert (t ∈ parked (futex_q k)) as Hpark.
  { destruct Hok as [_ _ H3 _]. specialize (H3 t tcb Ht). by rewrite Hb in H3. }
  unfold futex_remove_waiter_any. apply wp_bind, wp_bind, wp_get.
  pose proof (remove_any_loop_spec (alive k) t (futex_q k) (sorted_keys (futex_q k)) (λ u, futex_ok_alive k u Hok)) as Hr.
  destruct (remove_any_loop (alive k) t (sorted_keys (futex_q k)) (futex_q k)) as [[] q'].
  2:{ exfalso. destruct Hr as [_ Hr]. apply parked_inv in Hpark as (key & l & w & Hq & Hw & <-).
      eapply Hr; [|exact Hq|by apply list_elem_of_fmap_2]. unfold sorted_keys. rewrite merge_sort_Permutation.
      apply list_elem_of_fmap. exists (key, l). split; [done|]. by apply elem_of_map_to_list. }
  destruct Hr as (key & l1 & w & l2 & Hq & Hw & ->).
  assert (parked (futex_q k) ≡ₚ t :: parked (<[key := l1 ++ l2]> (futex_q k))) as Hperm.
  { rewrite parked_insert, (parked_delete (futex_q k) key), Hq. simpl. rewrite !fmap_app, fmap_cons, Hw. solve_Permutation. }
  apply wp_bind, wp_modify, wp_ret. set (q' := <[key := l1 ++ l2]> (futex_q k)) in *.
  apply wp_bind. apply (wp_flag_update _ _ (t :: parked q') t (with_interrupted true)).
  { apply sched_ok_futex. eapply sched_ok_proper; [symmetry; exact Hperm|exact Hok]. }
  { unfold places. set_solver. }
  { done. }
  intros k1 Hok1 Hc1 Hr1 Hf1. simpl in *. apply (wp_wakeup _ k1 (parked q') t Hok1).
  intros k2 Hok2 Hc2 Hr2 Hf2. apply IH.
  - unfold futex_ok. by rewrite Hf2, Hf1.
  - intros u Hu. specialize (Hts u ltac:(set_solver)). unfold places in *. rewrite Hperm in Hts.
    rewrite Hc2, Hc1, Hr2, Hr1, Hf2, Hf1. set_solver.
Qed.

Lemma futex_wait_ok k key bitset t : futex_ok k → processor_current k = Some t →
  wp (futex_wait_bitset key bitset) (λ _ k', futex_ok k') k.
Proof.
  intros Hok Hc. unfold futex_wait_bitset, current_task. apply wp_bind. unfold wp at 1. rewrite Hc.
  apply wp_bind, wp_ret, wp_bind. apply (wp_flag_update _ k _ t _ Hok).
  { unfold places. rewrite Hc. set_solver. }
  { done. }
  intros k1 Hok1 Hc1 _ Hf1. apply wp_bind, wp_modify.
  apply (wp_block_current _ _ (parked (futex_q k)) t); [by apply sched_ok_futex|simpl; congruence|].
  intros k2 Hok2 _ _ Hf2. simpl in Hf2. unfold futex_ok. rewrite Hf2, Hf1.
  eapply sched_ok_proper; [apply parked_push|exact Hok2].
Qed.

Lemma futex_resume_ok k t : futex_ok k → processor_current k = Some t →
  wp futex_wait_resume (λ _ k', futex_ok k') k.
Proof.
  intros Hok Hc. unfold futex_wait_resume, current_task. apply wp_bind. unfold wp at 1. rewrite Hc.
  assert (t ∈ places k (parked (futex_q k))) as Ht by (unfold places; rewrite Hc; set_solver).
  destruct (sched_ok_lookup k _ t Hok Ht) as (tcb & Htcb & _).
  apply wp_bind, wp_ret, wp_bind. unfold take_interrupted. apply wp_bind. eapply wp_task_get; [done|].
  apply wp_bind. apply (wp_flag_update _ k _ t _ Hok Ht); [done|].
  intros k1 Hok1 _ _ Hf1. apply wp_ret, wp_ret. unfold futex_ok. by rewrite Hf1.
Qed.

Lemma futex_exec_ok c k : futex_ok k → wp (futex_exec c) (λ _ k', futex_ok k') k.
Proof.
  intros Hok. unfold futex_exec. apply wp_bind, wp_get.
  destruct c; destruct (processor_current k) as [t|] eqn:Hc; try by apply wp_ret.
  - apply wp_bind. apply (wp_run_tasks_once _ k _ Hok Hc); [intros _; by apply wp_ret|].
    intros t q k' _ Hok' _ _ Hf. apply wp_ret. unfold futex_ok. by rewrite Hf.
  - apply (wp_suspend_current _ k _ t Hok Hc). intros k' Hok' _ _ Hf. unfold futex_ok. by rewrite Hf.
  - by eapply futex_wait_ok.
  - apply wp_bind. eapply wp_mono; [by eapply futex_resume_ok|]. intros ? k' Hk'. by apply wp_ret.
  - apply wp_bind. eapply wp_mono; [apply futex_wake_ok; [done|apply wrap64_range]|]. intros ? k' Hk'. by apply wp_ret.
  - apply wp_bind. eapply wp_mono; [by apply futex_requeue_ok|]. intros ? k' Hk'. by apply wp_ret.
  - apply futex_signal_ok; [done|]. intros u [Hu _]%list_elem_of_filter.
    apply Is_true_true, bool_decide_eq_true in Hu. by apply Hok.
  - apply futex_signal_ok; [done|]. intros u [Hu _]%list_elem_of_filter.
    apply Is_true_true, bool_decide_eq_true in Hu. by apply Hok.
Qed.

Lemma futex_run_ok cs : ∀ k, futex_ok k → wp (m_for cs futex_exec) (λ _ k', futex_ok k') k.
Proof.
  induction cs as [|c cs IH]; intros k Hok; simpl; [by apply wp_ret|].
  apply wp_bind. eapply wp_mono; [by apply futex_exec_ok|]. intros ? k'. apply IH.
Qed.

(** [C11] In the futex system, any sequence of scheduling, waiting, waking,
    requeueing and signal delivery runs without a panic, and after each command
    every task is in exactly one place: running, in the ready queue, or parked
    in exactly one queue, with the matching status.  So no task is lost and
    none is scheduled twice. *)
Theorem futex_tasks_in_one_place cs : ∀ k, futex_ok k →
  ∃ k', m_for cs futex_exec k = Ret (tt, k') ∧ futex_ok k'.
Proof.
  intros k Hok. pose proof (futex_run_ok cs k Hok) as Hd. apply wp_det in Hd as ([] & k' & Hrun & H). by exists k'.
Qed.

(** ** Examples *)

(** Three tasks; the first waits on one futex, the second on another. *)
Definition demo_futex : outcome (unit * kernel) :=
  m_for [CRun; CWait (0x1000, 0) (-1); CRun; CWait (0x2000, 0) 2; CRun] futex_exec
    (boot_kernel guard_words [1; 2; 3]%nat).

Lemma boot_futex_ok : futex_ok (boot_kernel guard_words [1; 2; 3]%nat).
Proof. apply (boot_kernel_ok guard_words); [by apply (bool_decide_unpack _)|reflexivity]. Qed.

Lemma futex_tasks_in_one_place_witness :
  ∃ k', demo_futex = Ret (tt, k') ∧ futex_ok k'.
Proof. exact (futex_tasks_in_one_place _ _ boot_futex_ok). Defined.

(** Task 3 runs, tasks 1 and 2 are parked on one futex. *)
Definition parked_kernel : kernel :=
  match m_for [CRun; CWait (0x1000, 0) (-1); CRun; CWait (0x1000, 0) 2; CRun] futex_exec
          (boot_kernel guard_words [1; 2; 3]%nat) with
  | Ret (_, k) => k
  | Panic => boot_kernel guard_words []
  end.

Lemma parked_kernel_ok : sched_ok parked_kernel [1; 2]%nat.
Proof.
  pose proof (futex_run_ok [CRun; CWait (0x1000, 0) (-1); CRun; CWait (0x1000, 0) 2; CRun] _ boot_futex_ok) as Hd.
  apply wp_det in Hd as (u & k & Hrun & Hok).
  assert (parked_kernel = k) as Hk by (unfold parked_kernel; by rewrite Hrun).
  rewrite <- Hk in Hok. exact Hok.
Qed.

Lemma futex_wake_exact_witness :
  ∃ k' rest out', futex_wake_bitset (0x1000, 0) 1 2 parked_kernel = Ret (Finished 1, k') ∧
    sched_ok k' out' ∧ ready_queue k' = [1]%nat ∧ futex_q k' = put_queue (0x1000, 0) rest (futex_q parked_kernel).
Proof.
  destruct (futex_wake_exact parked_kernel [1; 2]%nat (0x1000, 0) 1 2 [mkWaiter 1 (-1); mkWaiter 2 2]
    parked_kernel_ok ltac:(unfold is_usize, USIZE; lia) ltac:(vm_compute; reflexivity)) as (k' & rest & out' & H1 & H2 & _ & H3 & _ & H4 & _).
  - vm_compute. by apply (bool_decide_unpack _).
  - intros t Ht. exact Ht.
  - exists k', rest, out'. split; [exact H1|]. split; [exact H2|]. split; [exact H3|exact H4].
Defined.

Lemma futex_requeue_exact_witness :
  ∃ q1 q2 q3 k', [mkWaiter 1 (-1); mkWaiter 2 2] = q1 ++ q2 ++ q3 ∧
    futex_requeue (0x1000, 0) 1 (0x2000, 0) 1 parked_kernel =
      Ret (Z.of_nat (length (live_tasks (alive parked_kernel) q1)) + Z.of_nat (length q2), k').
Proof.
  destruct (futex_requeue_exact parked_kernel [1; 2]%nat (0x1000, 0) (0x2000, 0) 1 1 [mkWaiter 1 (-1); mkWaiter 2 2]
    parked_kernel_ok ltac:(vm_compute; reflexivity) ltac:(reflexivity)) as (q1 & q2 & q3 & k' & out' & H1 & _ & H2 & _).
  - vm_compute. by apply (bool_decide_unpack _).
  - intros t Ht. exact Ht.
  - exists q1, q2, q3, k'. split; [exact H1|exact H2].
Defined.

(** The signal path takes a dead waiter for the task it looks for.  Tasks
    1 and 2 wait on a futex and task 1 is destroyed; a signal makes task 2
    ready but removes only the dead entry, so task 2 is still queued, and the
    next [futex_wake] puts it into the ready queue a second time. *)
Theorem futex_dead_waiter_double_wake :
  ∃ k1 k2, (m_modify (set_tasks (delete 1%nat)) ;;; wake_process_for_signal [2]%nat) parked_kernel = Ret (tt, k1) ∧
    ready_queue k1 = [2]%nat ∧ futex_q k1 !! (0x1000, 0) = Some [mkWaiter 2 2] ∧
    futex_wake (0x1000, 0) 1 k1 = Ret (Finished 1, k2) ∧ ready_queue k2 = [2; 2]%nat.
Proof. eexists _, _. split; [vm_compute; reflexivity|]. vm_compute. done. Qed.
