(* ===== verification/Sync.v ===== *)
(** * Blocking mutexes, condition variables, semaphores (os/src/sync)

    The primitives of mutex.rs, semaphore.rs and condvar.rs over the scheduler
    of [Sched], and systems of tasks that use them.  A primitive runs up to
    the point where it blocks; what it does after the task has been scheduled
    again is a continuation. *)

From stdpp Require Import base list numbers option sets gmap relations.
From S2P Require Import Prelude IdAlloc Sched Futex.

(** Whether a call has returned or has given up the processor. *)
Inductive flow : Type := Returns | Blocks.

(** ** Mutexes *)

(** [MutexSpin::lock]: one turn of the loop; [Blocks] means the task has
    yielded and will try again. *)
Definition MutexSpin_lock (locked : bool) : M kernel (bool * flow) :=
  if locked then suspend_current_and_run_next ;;; m_ret (true, Blocks)
  else m_ret (true, Returns).
Definition MutexSpin_unlock (locked : bool) : bool := false.

Record MutexBlockingInner : Type := mkMutex {
  locked : bool;
  wait_queue : list task;
}.

Definition MutexBlocking_new : MutexBlockingInner := mkMutex false [].

(** When it blocks, [lock] returns as soon as the task runs again. *)
Definition MutexBlocking_lock (m : MutexBlockingInner) : M kernel (MutexBlockingInner * flow) :=
  if locked m then
    let! t := current_task in
    let! t := m_unwrap t in
    block_current_and_run_next ;;;
    m_ret (mkMutex true (wait_queue m ++ [t]), Blocks)
  else m_ret (mkMutex true (wait_queue m), Returns).

Definition MutexBlocking_unlock (m : MutexBlockingInner) : M kernel MutexBlockingInner :=
  m_assert (locked m) ;;;
  match wait_queue m with
  | waking_task :: q => wakeup_task waking_task ;;; m_ret (mkMutex (locked m) q)
  | [] => m_ret (mkMutex false [])
  end.

(** ** Condition variables: the wait queue *)

Definition Condvar_new : list task := [].

Definition Condvar_signal (c : list task) : M kernel (list task) :=
  match c with
  | t :: c => wakeup_task t ;;; m_ret c
  | [] => m_ret []
  end.

(** [wait] up to the point where it blocks; then it locks the mutex again. *)
Definition Condvar_wait (c : list task) (m : MutexBlockingInner) : M kernel (list task * MutexBlockingInner) :=
  let! m := MutexBlocking_unlock m in
  let! t := current_task in
  let! t := m_unwrap t in
  block_current_and_run_next ;;;
  m_ret (c ++ [t], m).

Definition Condvar_wait_no_sched (c : list task) : M kernel (list task) :=
  let! t := current_task in
  let! t := m_unwrap t in
  block_current_task ;;;
  m_ret (c ++ [t]).

(** ** Semaphores *)

(** [isize] arithmetic. *)
Definition wrap_isize (z : Z) : Z := (z + 2 ^ 63) mod 2 ^ 64 - 2 ^ 63.

Record SemaphoreInner : Type := mkSem {
  sem_count : Z;
  sem_queue : list task;
}.

Definition Semaphore_new (res_count : Z) : SemaphoreInner := mkSem (wrap_isize res_count) [].

Definition Semaphore_up (s : SemaphoreInner) : M kernel SemaphoreInner :=
  let count := wrap_isize (sem_count s + 1) in
  if count <=? 0 then
    match sem_queue s with
    | t :: q => wakeup_task t ;;; m_ret (mkSem count q)
    | [] => m_ret (mkSem count [])
    end
  else m_ret (mkSem count (sem_queue s)).

Definition Semaphore_down (s : SemaphoreInner) : M kernel (SemaphoreInner * flow) :=
  let count := wrap_isize (sem_count s - 1) in
  if count <? 0 then
    let! t := current_task in
    let! t := m_unwrap t in
    block_current_and_run_next ;;;
    m_ret (mkSem count (sem_queue s ++ [t]), Blocks)
  else m_ret (mkSem count (sem_queue s), Returns).

(** ** Tasks that share a mutex and a condition variable *)

(** Where a task that is not running resumes. *)
Inductive cont : Type :=
| AtUser     (** outside these primitives *)
| InLock     (** in [lock], after blocking: [lock] returns *)
| InWait     (** in [wait], after blocking: it calls [lock] *)
| Napping.   (** blocked for some other reason *)

#[export] Instance cont_eq_dec : EqDecision cont.
Proof. solve_decision. Defined.

(** [holders]: the tasks whose [lock] (or [wait]) has returned and that have
    not called [unlock] (or [wait]) since; [naps]: the tasks blocked elsewhere. *)
Record monitor : Type := mkMonitor {
  mk : kernel;
  mtx : MutexBlockingInner;
  cond : list task;
  naps : list task;
  conts : task → cont;
  holders : list task;
}.

Definition at_cont (t : task) (c : cont) (f : task → cont) : task → cont :=
  λ u, if decide (u = t) then c else f u.

(** What running tasks do.  [MUnlock], [MWait] need a task that holds the
    mutex; a command whose condition fails does nothing. *)
Inductive monitor_cmd : Type :=
| MRun | MYield | MLock | MUnlock | MWait | MSignal | MNap | MRouse (t : task).

(** A task that locks: it holds the mutex when the call returns. *)
Definition do_lock (s : monitor) (t : task) : outcome monitor :=
  match MutexBlocking_lock (mtx s) (mk s) with
  | Ret ((m, Returns), k) => Ret (mkMonitor k m (cond s) (naps s) (at_cont t AtUser (conts s)) (t :: holders s))
  | Ret ((m, Blocks), k) => Ret (mkMonitor k m (cond s) (naps s) (at_cont t InLock (conts s)) (holders s))
  | Panic => Panic
  end.

Definition set_mk (k : kernel) (s : monitor) : monitor :=
  mkMonitor k (mtx s) (cond s) (naps s) (conts s) (holders s).

Definition monitor_exec (c : monitor_cmd) (s : monitor) : outcome monitor :=
  match c, processor_current (mk s) with
  | MRun, None =>
      match run_tasks_once (mk s) with
      | Panic => Panic
      | Ret (None, k) => Ret (set_mk k s)
      | Ret (Some t, k) =>
          let resumed := mkMonitor k (mtx s) (cond s) (naps s) (at_cont t AtUser (conts s)) in
          match conts s t with
          | AtUser | Napping => Ret (resumed (holders s))
          | InLock => Ret (resumed (t :: holders s))
          | InWait => do_lock (resumed (holders s)) t
          end
      end
  | MYield, Some _ =>
      match suspend_current_and_run_next (mk s) with
      | Ret (_, k) => Ret (set_mk k s)
      | Panic => Panic
      end
  | MLock, Some t => do_lock s t
  | MUnlock, Some t =>
      if decide (t ∈ holders s) then
        match MutexBlocking_unlock (mtx s) (mk s) with
        | Ret (m, k) => Ret (mkMonitor k m (cond s) (naps s) (conts s) (filter (λ u, u ≠ t) (holders s)))
        | Panic => Panic
        end
      else Ret s
  | MWait, Some t =>
      if decide (t ∈ holders s) then
        match Condvar_wait (cond s) (mtx s) (mk s) with
        | Ret ((c, m), k) =>
            Ret (mkMonitor k m c (naps s) (at_cont t InWait (conts s)) (filter (λ u, u ≠ t) (holders s)))
        | Panic => Panic
        end
      else Ret s
  | MSignal, Some t =>
      match Condvar_signal (cond s) (mk s) with
      | Ret (c, k) => Ret (mkMonitor k (mtx s) c (naps s) (conts s) (holders s))
      | Panic => Panic
      end
  | MNap, Some t =>
      match block_current_and_run_next (mk s) with
      | Ret (_, k) => Ret (mkMonitor k (mtx s) (cond s) (t :: naps s) (at_cont t Napping (conts s)) (holders s))
      | Panic => Panic
      end
  | MRouse u, _ =>
      if decide (u ∈ naps s) then
        match wakeup_task u (mk s) with
        | Ret (_, k) => Ret (mkMonitor k (mtx s) (cond s) (filter (λ x, x ≠ u) (naps s)) (conts s) (holders s))
        | Panic => Panic
        end
      else Ret s
  | _, _ => Ret s
  end.

Fixpoint monitor_run (cs : list monitor_cmd) (s : monitor) : outcome monitor :=
  match cs with
  | [] => Ret s
  | c :: cs => match monitor_exec c s with Ret s => monitor_run cs s | Panic => Panic end
  end.

(** Tasks just created, the mutex free. *)
Definition monitor_init (k : kernel) : monitor :=
  mkMonitor k MutexBlocking_new Condvar_new [] (λ _, AtUser) [].

(** ** The invariant of the monitor *)

(** How many tasks of a list have been handed the mutex but have not run yet. *)
Definition handed (f : task → cont) (l : list task) : nat :=
  length (filter (λ u, f u = InLock) l).

Definition waiting (s : monitor) : list task := wait_queue (mtx s) ++ cond s ++ naps s.

Record monitor_ok (s : monitor) : Prop := {
  mo_sched : sched_ok (mk s) (waiting s);
  mo_lock t : t ∈ wait_queue (mtx s) → conts s t = InLock;
  mo_cond t : t ∈ cond s → conts s t = InWait;
  mo_naps t : t ∈ naps s → conts s t = Napping;
  mo_cur t : processor_current (mk s) = Some t → conts s t = AtUser;
  mo_count : (length (holders s) + handed (conts s) (ready_queue (mk s)) = if locked (mtx s) then 1 else 0)%nat;
  mo_free : locked (mtx s) = false → wait_queue (mtx s) = [];
}.

Lemma handed_app f l1 l2 : handed f (l1 ++ l2) = (handed f l1 + handed f l2)%nat.
Proof. unfold handed. by rewrite filter_app, length_app. Qed.

Lemma handed_cons f t l : handed f (t :: l) = ((if decide (f t = InLock) then 1 else 0) + handed f l)%nat.
Proof. unfold handed. rewrite filter_cons. by case_decide. Qed.

Lemma at_cont_eq f t c : at_cont t c f t = c.
Proof. unfold at_cont. by rewrite decide_True. Qed.

Lemma at_cont_ne f t c u : u ≠ t → at_cont t c f u = f u.
Proof. intros. unfold at_cont. by rewrite decide_False. Qed.

Lemma handed_at f t c l : t ∉ l → handed (at_cont t c f) l = handed f l.
Proof.
  intros Ht. induction l as [|u l IH]; [done|]. rewrite not_elem_of_cons in Ht. destruct Ht as [Hne Ht].
  by rewrite !handed_cons, IH, at_cont_ne by done.
Qed.

(** A task of another queue keeps its continuation. *)
Ltac other_cont H := let u := fresh "u" in let Hu := fresh "Hu" in
  intros u Hu; rewrite at_cont_ne; [by apply H|by intros ->].

(** A running task is in no queue. *)
Lemma current_not_in s t : monitor_ok s → processor_current (mk s) = Some t →
  (t ∉ ready_queue (mk s)) ∧ (t ∉ wait_queue (mtx s)) ∧ (t ∉ cond s) ∧ t ∉ naps s.
Proof.
  intros Hok Hc. assert (t ∉ ready_queue (mk s) ++ waiting s) as Hn.
  { intros Hin. by destruct (sched_current_only (mk s) _ t t (mo_sched _ Hok) Hc Hin). }
  unfold waiting in Hn. rewrite !not_elem_of_app in Hn. naive_solver.
Qed.

(** A task in the ready queue is in no wait queue. *)
Lemma ready_not_in s t : monitor_ok s → t ∈ ready_queue (mk s) →
  (t ∉ wait_queue (mtx s)) ∧ (t ∉ cond s) ∧ t ∉ naps s.
Proof.
  intros Hok Hr. destruct (mo_sched _ Hok) as [H1 _ _ _]. apply NoDup_app in H1 as (_ & _ & H1).
  apply NoDup_app in H1 as (_ & H1 & _). specialize (H1 t Hr). unfold waiting in H1.
  rewrite !not_elem_of_app in H1. naive_solver.
Qed.

(** The holder leaves: at most one task holds the mutex, so none does after. *)
Lemma holder_only s t : monitor_ok s → t ∈ holders s →
  filter (λ u, u ≠ t) (holders s) = [] ∧ handed (conts s) (ready_queue (mk s)) = 0%nat ∧ locked (mtx s) = true.
Proof.
  intros Hok Ht. pose proof (mo_count _ Hok) as Hn.
  destruct (holders s) as [|u [|v l]]; [by apply elem_of_nil in Ht| |simpl in Hn; destruct (locked (mtx s)); lia].
  apply list_elem_of_singleton in Ht as <-. simpl in Hn. destruct (locked (mtx s)); [|lia].
  split_and!; [|lia|done]. rewrite filter_cons, decide_False by (intros H; by apply H). done.
Qed.

(** ** Every command keeps the invariant *)

(** A task starts to run where it left off; a handed mutex becomes held. *)
Lemma monitor_resume s k t :
  monitor_ok s → sched_ok k (waiting s) → processor_current k = Some t →
  ready_queue (mk s) = t :: ready_queue k →
  monitor_ok (mkMonitor k (mtx s) (cond s) (naps s) (at_cont t AtUser (conts s))
                (if decide (conts s t = InLock) then t :: holders s else holders s)).
Proof.
  intros Hok Hk Hc Hr. destruct (ready_not_in s t Hok) as (N1 & N2 & N3); [rewrite Hr; by left|].
  destruct Hok as [A B C D E F G]. split; simpl; [done| | | | | |done].
  - other_cont B.
  - other_cont C.
  - other_cont D.
  - intros u Hu. assert (u = t) as -> by congruence. by rewrite at_cont_eq.
  - rewrite Hr, handed_cons in F. rewrite handed_at; [case_decide; simpl; lia|].
    destruct A as [A1 _ _ _]. rewrite Hr in A1. apply NoDup_app in A1 as (_ & _ & A1). simpl in A1.
    apply NoDup_cons in A1 as [A1 _]. set_solver.
Qed.

Lemma wp_do_lock s t : monitor_ok s → processor_current (mk s) = Some t →
  ∃ s', do_lock s t = Ret s' ∧ monitor_ok s'.
Proof.
  intros Hok Hc. destruct (current_not_in s t Hok Hc) as (N0 & N1 & N2 & N3). unfold do_lock, MutexBlocking_lock.
  pose proof Hok as [A B C D E F G]. destruct (locked (mtx s)) eqn:Hl.
  - assert (wp block_current_and_run_next (λ _ k', sched_ok k' (t :: waiting s) ∧ processor_current k' = None ∧
      ready_queue k' = ready_queue (mk s)) (mk s)) as Hwp by (by eapply wp_block_current).
    apply wp_det in Hwp as ([] & k & Hrun & Hk & Hck & Hrk). unfold m_bind, current_task. rewrite Hc. simpl.
    rewrite Hrun. eexists. split; [reflexivity|]. split; simpl.
    + eapply sched_ok_proper; [|exact Hk]. unfold waiting. simpl. solve_Permutation.
    + intros u [Hu|Hu]%elem_of_app; [rewrite at_cont_ne; [by apply B|by intros ->]|].
      apply list_elem_of_singleton in Hu as ->. by rewrite at_cont_eq.
    + other_cont C.
    + other_cont D.
    + by rewrite Hck.
    + by rewrite Hrk, handed_at.
    + done.
  - simpl. eexists. split; [reflexivity|]. split; simpl; [done| | | | | |done].
    + other_cont B.
    + other_cont C.
    + other_cont D.
    + intros u Hu. assert (u = t) as -> by congruence. by rewrite at_cont_eq.
    + rewrite handed_at by done. lia.
Qed.

(** What [unlock] by the holder does: the mutex passes to the first waiter, or
    becomes free. *)
Lemma unlock_ok s t : monitor_ok s → t ∈ holders s → processor_current (mk s) = Some t →
  ∃ m k, MutexBlocking_unlock (mtx s) (mk s) = Ret (m, k) ∧ processor_current k = Some t ∧
    monitor_ok (mkMonitor k m (cond s) (naps s) (conts s) (filter (λ u, u ≠ t) (holders s))).
Proof.
  intros Hok Ht Hc. destruct (holder_only s t Hok Ht) as (Hh & Hhd & Hl). rewrite Hh.
  pose proof Hok as [A B C D E F G]. unfold MutexBlocking_unlock. rewrite Hl. unfold m_bind. simpl.
  destruct (wait_queue (mtx s)) as [|w q] eqn:Hw.
  - eexists _, _. split; [reflexivity|]. split; [done|]. split; simpl; try done.
    unfold waiting in *. by rewrite Hw in A.
  - assert (wp (wakeup_task w) (λ _ k', sched_ok k' (q ++ cond s ++ naps s) ∧
      processor_current k' = processor_current (mk s) ∧ ready_queue k' = ready_queue (mk s) ++ [w]) (mk s)) as Hwp.
    { apply (wp_wakeup _ _ (q ++ cond s ++ naps s)); [|done]. unfold waiting in A. by rewrite Hw in A. }
    apply wp_det in Hwp as ([] & k & Hrun & Hk & Hck & Hrk). rewrite Hrun.
    eexists _, _. split; [reflexivity|]. split; [congruence|]. split; simpl; try done.
    + intros u Hu. apply B. by right.
    + intros u Hu. rewrite Hck in Hu. by apply E.
    + rewrite Hrk, handed_app, Hhd, handed_cons, decide_True; [done|]. apply B. by left.
Qed.

Lemma monitor_run_ok s : monitor_ok s → processor_current (mk s) = None →
  ∃ s', monitor_exec MRun s = Ret s' ∧ monitor_ok s'.
Proof.
  intros Hok Hc. unfold monitor_exec. rewrite Hc.
  assert (wp run_tasks_once (λ r k, match r with
      | None => k = mk s
      | Some t => sched_ok k (waiting s) ∧ processor_current k = Some t ∧ ready_queue (mk s) = t :: ready_queue k
      end) (mk s)) as Hwp.
  { apply (wp_run_tasks_once _ (mk s) (waiting s)); [apply Hok|done|done|]. intros t q k' Hr Hk Hck Hrk _.
    by rewrite Hr, Hrk. }
  apply wp_det in Hwp as ([t|] & k & Hrun & H); rewrite Hrun.
  - destruct H as (Hk & Hck & Hr). pose proof (monitor_resume s k t Hok Hk Hck Hr) as Hres.
    destruct (conts s t) eqn:Hct; simpl in Hres; [by eexists|by eexists| |by eexists].
    by apply wp_do_lock.
  - subst k. exists s. by destruct s.
Qed.

(** A task that leaves the processor while outside [lock] hands nothing over. *)
Lemma monitor_yield_ok s t : monitor_ok s → processor_current (mk s) = Some t →
  ∃ s', monitor_exec MYield s = Ret s' ∧ monitor_ok s'.
Proof.
  intros Hok Hc. unfold monitor_exec. rewrite Hc.
  assert (wp suspend_current_and_run_next (λ _ k, sched_ok k (waiting s) ∧ processor_current k = None ∧
    ready_queue k = ready_queue (mk s) ++ [t]) (mk s)) as Hwp by (eapply wp_suspend_current; [apply Hok|done|done]).
  apply wp_det in Hwp as ([] & k & Hrun & Hk & Hck & Hrk). rewrite Hrun. eexists. split; [reflexivity|].
  destruct Hok as [A B C D E F G]. split; simpl; try done; [by rewrite Hck|].
  rewrite Hrk, handed_app, handed_cons, decide_False; [|rewrite (E t Hc); done]. unfold handed at 2. simpl. lia.
Qed.

(** A task outside the queues blocks and joins one of them. *)
Lemma monitor_block s t c cond' naps' : monitor_ok s → processor_current (mk s) = Some t →
  cond' ++ naps' ≡ₚ t :: cond s ++ naps s → c ≠ InLock →
  (∀ u, u ∈ cond' → u ∈ cond s ∨ u = t ∧ c = InWait) → (∀ u, u ∈ naps' → u ∈ naps s ∨ u = t ∧ c = Napping) →
  ∃ k, block_current_and_run_next (mk s) = Ret (tt, k) ∧
    monitor_ok (mkMonitor k (mtx s) cond' naps' (at_cont t c (conts s)) (holders s)).
Proof.
  intros Hok Hc Hp Hcn Hcd Hnp. destruct (current_not_in s t Hok Hc) as (N0 & N1 & N2 & N3).
  assert (wp block_current_and_run_next (λ _ k', sched_ok k' (t :: waiting s) ∧ processor_current k' = None ∧
    ready_queue k' = ready_queue (mk s)) (mk s)) as Hwp by (eapply wp_block_current; [apply Hok|done|done]).
  apply wp_det in Hwp as ([] & k & Hrun & Hk & Hck & Hrk). exists k. split; [done|].
  destruct Hok as [A B C D E F G]. split; simpl; try done.
  - eapply sched_ok_proper; [|exact Hk]. unfold waiting. simpl. rewrite Hp. solve_Permutation.
  - other_cont B.
  - intros u [Hu|[-> ->]]%Hcd; [|by rewrite at_cont_eq]. rewrite at_cont_ne; [by apply C|by intros ->].
  - intros u [Hu|[-> ->]]%Hnp; [|by rewrite at_cont_eq]. rewrite at_cont_ne; [by apply D|by intros ->].
  - by rewrite Hck.
  - by rewrite Hrk, handed_at.
Qed.

Lemma monitor_wait_ok s t : monitor_ok s → processor_current (mk s) = Some t → t ∈ holders s →
  ∃ s', monitor_exec MWait s = Ret s' ∧ monitor_ok s'.
Proof.
  intros Hok Hc Ht. unfold monitor_exec. rewrite Hc, decide_True by done.
  destruct (unlock_ok s t Hok Ht Hc) as (m & k & Hun & Hck & Hok').
  destruct (monitor_block _ t InWait (cond s ++ [t]) (naps s) Hok' Hck) as (k2 & Hrun & Hok2); simpl.
  - solve_Permutation.
  - done.
  - intros u [Hu|Hu]%elem_of_app; [by left|]. apply list_elem_of_singleton in Hu. by right.
  - auto.
  - unfold Condvar_wait, m_bind. rewrite Hun. unfold current_task at 1. rewrite Hck. simpl in *. rewrite Hrun.
    by eexists.
Qed.

Lemma monitor_nap_ok s t : monitor_ok s → processor_current (mk s) = Some t →
  ∃ s', monitor_exec MNap s = Ret s' ∧ monitor_ok s'.
Proof.
  intros Hok Hc. unfold monitor_exec. rewrite Hc.
  destruct (monitor_block s t Napping (cond s) (t :: naps s) Hok Hc) as (k & -> & Hok').
  - solve_Permutation.
  - done.
  - auto.
  - intros u [->|Hu]%elem_of_cons; [by right|by left].
  - by eexists.
Qed.

(** A task of a queue other than the mutex's is woken. *)
Lemma monitor_wake s w cond' naps' : monitor_ok s → cond s ++ naps s ≡ₚ w :: cond' ++ naps' →
  conts s w ≠ InLock → (∀ u, u ∈ cond' → u ∈ cond s) → (∀ u, u ∈ naps' → u ∈ naps s) →
  ∃ k, wakeup_task w (mk s) = Ret (tt, k) ∧
    monitor_ok (mkMonitor k (mtx s) cond' naps' (conts s) (holders s)).
Proof.
  intros Hok Hp Hcn Hcd Hnp. destruct Hok as [A B C D E F G].
  assert (wp (wakeup_task w) (λ _ k', sched_ok k' (wait_queue (mtx s) ++ cond' ++ naps') ∧
    processor_current k' = processor_current (mk s) ∧ ready_queue k' = ready_queue (mk s) ++ [w]) (mk s)) as Hwp.
  { apply (wp_wakeup _ _ (wait_queue (mtx s) ++ cond' ++ naps')); [|done].
    eapply sched_ok_proper; [|exact A]. unfold waiting. rewrite Hp. solve_Permutation. }
  apply wp_det in Hwp as ([] & k & Hrun & Hk & Hck & Hrk). exists k. split; [done|]. split; simpl; auto.
  - intros u Hu. apply E. congruence.
  - rewrite Hrk, handed_app, handed_cons, decide_False by done. unfold handed at 2. simpl. lia.
Qed.

Lemma filter_ne_perm (l : list task) u : NoDup l → u ∈ l → l ≡ₚ u :: filter (λ x, x ≠ u) l.
Proof.
  intros Hnd Hu. apply NoDup_Permutation; [done| |].
  - apply NoDup_cons. split; [|by apply NoDup_filter]. intros [H _]%list_elem_of_filter. done.
  - intros x. rewrite elem_of_cons, list_elem_of_filter. destruct (decide (x = u)) as [->|]; naive_solver.
Qed.

Lemma monitor_rouse_ok s u : monitor_ok s →
  ∃ s', (if decide (u ∈ naps s) then
           match wakeup_task u (mk s) with
           | Ret (_, k) => Ret (mkMonitor k (mtx s) (cond s) (filter (λ x, x ≠ u) (naps s)) (conts s) (holders s))
           | Panic => Panic
           end
         else Ret s) = Ret s' ∧ monitor_ok s'.
Proof.
  intros Hok. case_decide as Hu; [|by eexists].
  assert (NoDup (naps s)) as Hnd.
  { destruct (mo_sched _ Hok) as [H _ _ _]. unfold waiting in H. apply NoDup_app in H as (_ & _ & H).
    apply NoDup_app in H as (_ & _ & H). apply NoDup_app in H as (_ & _ & H). by apply NoDup_app in H as (_ & _ & H). }
  destruct (monitor_wake s u (cond s) (filter (λ x, x ≠ u) (naps s)) Hok) as (k & -> & Hok'); [| |auto| |by eexists].
  - rewrite (filter_ne_perm (naps s) u Hnd Hu) at 1. solve_Permutation.
  - by rewrite (mo_naps _ Hok u Hu).
  - by intros x [_ Hx]%list_elem_of_filter.
Qed.

(** A command of the running task, or of the idle loop, never panics and keeps
    the invariant. *)
Lemma monitor_exec_ok c s : monitor_ok s → ∃ s', monitor_exec c s = Ret s' ∧ monitor_ok s'.
Proof.
  intros Hok. destruct c as [| | | | | | |u]; destruct (processor_current (mk s)) as [t|] eqn:Hc;
    try (unfold monitor_exec; rewrite Hc; by eexists).
  - by apply monitor_run_ok.
  - by eapply monitor_yield_ok.
  - unfold monitor_exec. rewrite Hc. by apply wp_do_lock.
  - unfold monitor_exec. rewrite Hc. case_decide as Ht; [|by eexists].
    destruct (unlock_ok s t Hok Ht Hc) as (m & k & -> & _ & Hok'). by eexists.
  - destruct (decide (t ∈ holders s)) as [Ht|Ht]; [by eapply monitor_wait_ok|].
    unfold monitor_exec. rewrite Hc, decide_False by done. by eexists.
  - unfold monitor_exec. rewrite Hc. destruct (cond s) as [|w q] eqn:Hcd; simpl.
    + eexists. split; [reflexivity|]. rewrite <- Hcd. by destruct s.
    + destruct (monitor_wake s w q (naps s) Hok) as (k & Hrun & Hok'); [by rewrite Hcd| | |auto|].
      * rewrite (mo_cond _ Hok) by (rewrite Hcd; by left). done.
      * intros u Hu. rewrite Hcd. by right.
      * unfold m_bind. rewrite Hrun. by eexists.
  - by eapply monitor_nap_ok.
  - by apply monitor_rouse_ok.
  - by apply monitor_rouse_ok.
Qed.

Lemma monitor_run_all cs : ∀ s, monitor_ok s → ∃ s', monitor_run cs s = Ret s' ∧ monitor_ok s'.
Proof.
  induction cs as [|c cs IH]; intros s Hok; simpl; [by eexists|].
  destruct (monitor_exec_ok c s Hok) as (s1 & -> & Hok1). by apply IH.
Qed.

Lemma monitor_init_ok k : sched_ok k [] → processor_current k = None → monitor_ok (monitor_init k).
Proof.
  intros Hk Hc. split; simpl; try done; [by intros ? ?%elem_of_nil..|].
  unfold handed. induction (ready_queue k) as [|t q IH]; [done|]. rewrite filter_cons, decide_False by done. done.
Qed.



(** The signal path of [Futex.wake_process_for_signal] on the monitor's kernel. *)
Definition monitor_signal (ts : list task) (s : monitor) : outcome monitor :=
  match wake_process_for_signal ts (mk s) with
  | Ret (_, k) => Ret (set_mk k s)
  | Panic => Panic
  end.


(** ** Tasks that share a semaphore *)

(** [ups], [downs]: how often [up] and [down] were called; [entered]: how many
    calls of [down] have returned; [inside]: the tasks blocked in [down]. *)
Record sem_system : Type := mkSemSys {
  sk : kernel;
  sem : SemaphoreInner;
  ups : nat;
  downs : nat;
  entered : nat;
  inside : task → bool;
}.

Definition mark_inside (t : task) (b : bool) (f : task → bool) : task → bool :=
  λ u, if decide (u = t) then b else f u.

Inductive sem_cmd : Type := SRun | SYield | SUp | SDown.

Definition sem_exec (c : sem_cmd) (s : sem_system) : outcome sem_system :=
  match c, processor_current (sk s) with
  | SRun, None =>
      match run_tasks_once (sk s) with
      | Panic => Panic
      | Ret (None, k) => Ret (mkSemSys k (sem s) (ups s) (downs s) (entered s) (inside s))
      | Ret (Some t, k) =>
          Ret (mkSemSys k (sem s) (ups s) (downs s) (if inside s t then S (entered s) else entered s)
                 (mark_inside t false (inside s)))
      end
  | SYield, Some _ =>
      match suspend_current_and_run_next (sk s) with
      | Ret (_, k) => Ret (mkSemSys k (sem s) (ups s) (downs s) (entered s) (inside s))
      | Panic => Panic
      end
  | SUp, Some _ =>
      match Semaphore_up (sem s) (sk s) with
      | Ret (m, k) => Ret (mkSemSys k m (S (ups s)) (downs s) (entered s) (inside s))
      | Panic => Panic
      end
  | SDown, Some t =>
      match Semaphore_down (sem s) (sk s) with
      | Ret ((m, Returns), k) => Ret (mkSemSys k m (ups s) (S (downs s)) (S (entered s)) (inside s))
      | Ret ((m, Blocks), k) => Ret (mkSemSys k m (ups s) (S (downs s)) (entered s) (mark_inside t true (inside s)))
      | Panic => Panic
      end
  | _, _ => Ret s
  end.

Fixpoint sem_run (cs : list sem_cmd) (s : sem_system) : outcome sem_system :=
  match cs with
  | [] => Ret s
  | c :: cs => match sem_exec c s with Ret s => sem_run cs s | Panic => Panic end
  end.

Definition sem_init (k : kernel) (res_count : Z) : sem_system :=
  mkSemSys k (Semaphore_new res_count) 0 0 0 (λ _, false).

(** Ready tasks whose [down] is about to return. *)
Definition granted (f : task → bool) (l : list task) : nat := length (filter (λ u, f u) l).

Record sem_ok (init : Z) (s : sem_system) : Prop := {
  sm_sched : sched_ok (sk s) (sem_queue (sem s));
  sm_queue t : t ∈ sem_queue (sem s) → inside s t = true;
  sm_cur t : processor_current (sk s) = Some t → inside s t = false;
  sm_count : sem_count (sem s) = init + Z.of_nat (ups s) - Z.of_nat (downs s);
  sm_len : length (sem_queue (sem s)) = Z.to_nat (- sem_count (sem s));
  sm_total : (entered s + granted (inside s) (ready_queue (sk s)) + length (sem_queue (sem s)) = downs s)%nat;
}.

Lemma granted_app f l1 l2 : granted f (l1 ++ l2) = (granted f l1 + granted f l2)%nat.
Proof. unfold granted. by rewrite filter_app, length_app. Qed.

Lemma granted_cons f t l : granted f (t :: l) = ((if f t then 1 else 0) + granted f l)%nat.
Proof. unfold granted. rewrite filter_bool_cons. by destruct (f t). Qed.

Lemma mark_inside_eq f t b : mark_inside t b f t = b.
Proof. unfold mark_inside. by rewrite decide_True. Qed.

Lemma mark_inside_ne f t b u : u ≠ t → mark_inside t b f u = f u.
Proof. intros. unfold mark_inside. by rewrite decide_False. Qed.

Lemma granted_mark f t b l : t ∉ l → granted (mark_inside t b f) l = granted f l.
Proof.
  intros Ht. induction l as [|u l IH]; [done|]. rewrite not_elem_of_cons in Ht. destruct Ht as [Hne Ht].
  by rewrite !granted_cons, IH, mark_inside_ne by done.
Qed.

Lemma wrap_isize_small z : - 2 ^ 63 <= z < 2 ^ 63 → wrap_isize z = z.
Proof. intros Hz. unfold wrap_isize. rewrite Z.mod_small; lia. Qed.

Lemma sem_run_ok init s : sem_ok init s → processor_current (sk s) = None →
  ∃ s', sem_exec SRun s = Ret s' ∧ sem_ok init s'.
Proof.
  intros Hok Hc. unfold sem_exec. rewrite Hc.
  assert (wp run_tasks_once (λ r k, match r with
      | None => k = sk s
      | Some t => sched_ok k (sem_queue (sem s)) ∧ processor_current k = Some t ∧ ready_queue (sk s) = t :: ready_queue k
      end) (sk s)) as Hwp.
  { eapply wp_run_tasks_once; [apply Hok|done|done|]. intros t q k' Hr Hk Hck Hrk _. by rewrite Hr, Hrk. }
  destruct Hok as [A B C D E F]. apply wp_det in Hwp as ([t|] & k & Hrun & H); rewrite Hrun; eexists; (split; [reflexivity|]).
  - destruct H as (Hk & Hck & Hr). destruct A as [A1 _ _ _]. rewrite Hr in A1. apply NoDup_app in A1 as (_ & _ & A1).
    simpl in A1. apply NoDup_cons in A1 as [A1 _]. rewrite not_elem_of_app in A1. destruct A1 as [N1 N2].
    split; simpl; [done| | |done|done|].
    + intros u Hu. rewrite mark_inside_ne; [by apply B|by intros ->].
    + intros u Hu. assert (u = t) as -> by congruence. by rewrite mark_inside_eq.
    + rewrite granted_mark by done. rewrite Hr, granted_cons in F. destruct (inside s t); lia.
  - subst k. by split.
Qed.

Lemma sem_up_ok init s t : sem_ok init s → processor_current (sk s) = Some t →
  - 2 ^ 63 <= sem_count (sem s) + 1 < 2 ^ 63 → ∃ s', sem_exec SUp s = Ret s' ∧ sem_ok init s'.
Proof.
  intros Hok Hc Hb. unfold sem_exec, Semaphore_up. rewrite Hc, wrap_isize_small by done.
  destruct Hok as [A B C D E F]. destruct (Z.leb_spec (sem_count (sem s) + 1) 0) as [Hle|Hgt].
  - destruct (sem_queue (sem s)) as [|w q] eqn:Hq; [simpl in E; lia|]. simpl in E.
    assert (wp (wakeup_task w) (λ _ k, sched_ok k q ∧ processor_current k = processor_current (sk s) ∧
      ready_queue k = ready_queue (sk s) ++ [w]) (sk s)) as Hwp by (by eapply wp_wakeup).
    apply wp_det in Hwp as ([] & k & Hrun & Hk & Hck & Hrk). unfold m_bind. rewrite Hrun.
    eexists. split; [reflexivity|]. split; simpl; [done| | |lia|lia|].
    + intros u Hu. apply B. by right.
    + intros u Hu. apply C. congruence.
    + rewrite Hrk, granted_app, granted_cons, B by (by left). unfold granted at 2. simpl. simpl in F. lia.
  - eexists. split; [reflexivity|]. split; simpl; [done|done|done|lia|lia|lia].
Qed.

Lemma sem_down_ok init s t : sem_ok init s → processor_current (sk s) = Some t →
  - 2 ^ 63 <= sem_count (sem s) - 1 < 2 ^ 63 → ∃ s', sem_exec SDown s = Ret s' ∧ sem_ok init s'.
Proof.
  intros Hok Hc Hb. unfold sem_exec, Semaphore_down. rewrite Hc, wrap_isize_small by done.
  assert (t ∉ ready_queue (sk s) ++ sem_queue (sem s)) as Hn.
  { intros Hin. by destruct (sched_current_only (sk s) _ t t (sm_sched _ _ Hok) Hc Hin). }
  rewrite not_elem_of_app in Hn. destruct Hn as [N1 N2].
  destruct Hok as [A B C D E F]. destruct (Z.ltb_spec (sem_count (sem s) - 1) 0) as [Hlt|Hge].
  - assert (wp block_current_and_run_next (λ _ k, sched_ok k (t :: sem_queue (sem s)) ∧ processor_current k = None ∧
      ready_queue k = ready_queue (sk s)) (sk s)) as Hwp by (by eapply wp_block_current).
    apply wp_det in Hwp as ([] & k & Hrun & Hk & Hck & Hrk). unfold m_bind, current_task. rewrite Hc. simpl.
    rewrite Hrun. eexists. split; [reflexivity|]. split; simpl.
    + eapply sched_ok_proper; [|exact Hk]. solve_Permutation.
    + intros u [Hu|Hu]%elem_of_app; [rewrite mark_inside_ne; [by apply B|by intros ->]|].
      apply list_elem_of_singleton in Hu as ->. by rewrite mark_inside_eq.
    + by rewrite Hck.
    + lia.
    + rewrite length_app. simpl. lia.
    + rewrite Hrk, granted_mark, length_app by done. simpl. lia.
  - eexists. split; [reflexivity|]. split; simpl; [done|done|done|lia|lia|lia].
Qed.

Lemma sem_yield_ok init s t : sem_ok init s → processor_current (sk s) = Some t →
  ∃ s', sem_exec SYield s = Ret s' ∧ sem_ok init s'.
Proof.
  intros Hok Hc. unfold sem_exec. rewrite Hc.
  assert (wp suspend_current_and_run_next (λ _ k, sched_ok k (sem_queue (sem s)) ∧ processor_current k = None ∧
    ready_queue k = ready_queue (sk s) ++ [t]) (sk s)) as Hwp by (eapply wp_suspend_current; [apply Hok|done|done]).
  apply wp_det in Hwp as ([] & k & Hrun & Hk & Hck & Hrk). rewrite Hrun. eexists. split; [reflexivity|].
  destruct Hok as [A B C D E F]. split; simpl; try done; [by rewrite Hck|].
  rewrite Hrk, granted_app, granted_cons, C by done. unfold granted at 2. simpl. lia.
Qed.

(** The calls made so far bound the counter. *)
Definition sem_calls (s : sem_system) : Z := Z.of_nat (ups s) + Z.of_nat (downs s).

Lemma sem_exec_calls c s s' : sem_exec c s = Ret s' → sem_calls s' <= sem_calls s + 1.
Proof.
  unfold sem_exec, sem_calls. intros H. repeat case_match; simplify_eq; simpl; lia.
Qed.

Lemma sem_exec_ok init c s : 0 <= init → sem_ok init s → init + sem_calls s < 2 ^ 63 - 1 →
  ∃ s', sem_exec c s = Ret s' ∧ sem_ok init s'.
Proof.
  intros Hi Hok Hb. pose proof (sm_count _ _ Hok) as Hcnt. unfold sem_calls in Hb.
  destruct c; destruct (processor_current (sk s)) as [t|] eqn:Hc;
    try (unfold sem_exec; rewrite Hc; by eexists).
  - by apply sem_run_ok.
  - by eapply sem_yield_ok.
  - eapply sem_up_ok; [done..|lia].
  - eapply sem_down_ok; [done..|lia].
Qed.

Lemma sem_run_all init cs : ∀ s, 0 <= init → sem_ok init s →
  init + sem_calls s + Z.of_nat (length cs) < 2 ^ 63 → ∃ s', sem_run cs s = Ret s' ∧ sem_ok init s'.
Proof.
  induction cs as [|c cs IH]; intros s Hi Hok Hb; [by eexists|]. cbn [length] in Hb.
  destruct (sem_exec_ok init c s Hi Hok ltac:(lia)) as (s1 & Hex & Hok1). simpl. rewrite Hex.
  apply IH; [done|done|]. pose proof (sem_exec_calls c s s1 Hex). lia.
Qed.

Lemma sem_init_ok k init : sched_ok k [] → processor_current k = None → 0 <= init < 2 ^ 63 →
  sem_ok init (sem_init k init).
Proof.
  intros Hk Hc Hi. unfold sem_init, Semaphore_new. rewrite wrap_isize_small by lia.
  split; simpl; try done; [by intros ? ?%elem_of_nil|lia|lia|].
  unfold granted. induction (ready_queue k) as [|t q IH]; [done|]. by rewrite filter_bool_cons.
Qed.

(** [C29] Counting of [Semaphore].  Starting with [init] permits and any tasks,
    for any sequence of [down], [up] and scheduling (fewer than [2^63] calls):
    nothing panics; the number of calls of [down] that have returned never
    exceeds [init] plus the number of calls of [up]; the counter is negative
    exactly by the number of waiting tasks; and no permit is wasted: while a
    task waits, every permit has gone to a task that has entered or is ready
    to. *)
Theorem semaphore_counts k init cs : sched_ok k [] → processor_current k = None →
  0 <= init → init + Z.of_nat (length cs) < 2 ^ 63 →
  ∃ s, sem_run cs (sem_init k init) = Ret s ∧
    Z.of_nat (entered s) <= init + Z.of_nat (ups s) ∧
    length (sem_queue (sem s)) = Z.to_nat (- sem_count (sem s)) ∧
    sched_ok (sk s) (sem_queue (sem s)) ∧
    (sem_queue (sem s) ≠ [] →
       Z.of_nat (entered s) + Z.of_nat (granted (inside s) (ready_queue (sk s))) = init + Z.of_nat (ups s)).
Proof.
  intros Hk Hc Hi Hb.
  destruct (sem_run_all init cs _ Hi (sem_init_ok k init Hk Hc ltac:(lia))) as (s & Hrun & [A B C D E F]).
  { unfold sem_calls. simpl. lia. }
  exists s. split_and!; [done|lia|done|done|]. intros Hq.
  assert (length (sem_queue (sem s)) ≠ 0%nat) by (by rewrite length_zero_iff_nil). lia.
Qed.

Lemma semaphore_counts_witness :
  ∃ s, sem_run [SRun; SDown; SYield; SRun; SDown; SRun; SUp; SYield; SRun]
         (sem_init (boot_kernel guard_words [1; 2]%nat) 1) = Ret s ∧ Z.of_nat (entered s) <= 1 + Z.of_nat (ups s).
Proof.
  destruct (semaphore_counts (boot_kernel guard_words [1; 2]%nat) 1
    [SRun; SDown; SYield; SRun; SDown; SRun; SUp; SYield; SRun]
    (boot_kernel_ok guard_words [1; 2]%nat ltac:(by apply (bool_decide_unpack _)) guard_words_ok) eq_refl
    ltac:(lia) ltac:(simpl; lia)) as (s & H1 & H2 & _).
  exists s. split; [exact H1|exact H2].
Defined.
