(* ===== verification/Creds.v ===== *)
(** * Process identity and limits (os/src/syscall/process.rs, os/src/task/process.rs)

    User and group ids, capability sets, process groups, priorities and resource
    limits, and the system calls on them.  The identity of the calling process
    is passed explicitly; calls that look at other processes take the table of
    identities by pid.  User memory is the interface of UserIface.v. *)

From stdpp Require Import base list numbers list_numbers option sets gmap sorting.
From S2P Require Import Prelude Errno UserIface Address FrameAllocator Machine PageTable UserMem.

(** The [name] is left out: no call below reads or changes it. *)
Record ProcessIdentity : Type := mkProcessIdentity {
  real_uid : Z;
  effective_uid : Z;
  saved_uid : Z;
  fs_uid : Z;
  real_gid : Z;
  effective_gid : Z;
  saved_gid : Z;
  fs_gid : Z;
  nice : Z;
  cap_permitted : Z;
  cap_effective : Z;
  cap_inheritable : Z;
  cap_bounding : Z;
  session_id : Z;
  pgid : Z;
}.
Implicit Types (p : ProcessIdentity).

Definition initproc_identity : ProcessIdentity :=
  mkProcessIdentity 0 0 0 0 0 0 0 0 0 (2 ^ 64 - 1) (2 ^ 64 - 1) 0 (2 ^ 64 - 1) 0 0.

Definition set_uids (r e s f : Z) p : ProcessIdentity :=
  mkProcessIdentity r e s f (real_gid p) (effective_gid p) (saved_gid p) (fs_gid p) (nice p)
    (cap_permitted p) (cap_effective p) (cap_inheritable p) (cap_bounding p) (session_id p) (pgid p).
Definition set_gids (r e s f : Z) p : ProcessIdentity :=
  mkProcessIdentity (real_uid p) (effective_uid p) (saved_uid p) (fs_uid p) r e s f (nice p)
    (cap_permitted p) (cap_effective p) (cap_inheritable p) (cap_bounding p) (session_id p) (pgid p).
Definition set_caps (permitted effective inheritable bounding : Z) p : ProcessIdentity :=
  mkProcessIdentity (real_uid p) (effective_uid p) (saved_uid p) (fs_uid p)
    (real_gid p) (effective_gid p) (saved_gid p) (fs_gid p) (nice p)
    permitted effective inheritable bounding (session_id p) (pgid p).
Definition set_nice (n : Z) p : ProcessIdentity :=
  mkProcessIdentity (real_uid p) (effective_uid p) (saved_uid p) (fs_uid p)
    (real_gid p) (effective_gid p) (saved_gid p) (fs_gid p) n
    (cap_permitted p) (cap_effective p) (cap_inheritable p) (cap_bounding p) (session_id p) (pgid p).
Definition set_group (sid pg : Z) p : ProcessIdentity :=
  mkProcessIdentity (real_uid p) (effective_uid p) (saved_uid p) (fs_uid p)
    (real_gid p) (effective_gid p) (saved_gid p) (fs_gid p) (nice p)
    (cap_permitted p) (cap_effective p) (cap_inheritable p) (cap_bounding p) sid pg.

(** [u32::MAX], which stands for an id that is not to be changed. *)
Abbreviation NEG1 := (0xFFFFFFFF).
(** An id argument that is given and not among [l]. *)
Definition refused (id : Z) (l : list Z) : bool := negb (id =? NEG1) && negb (existsb (Z.eqb id) l).
Definition or_old (id old : Z) : Z := if id =? NEG1 then old else id.

(** ** User ids *)

Definition sys_setfsuid (uid : Z) p : Z * ProcessIdentity :=
  let prev := fs_uid p in
  if uid =? NEG1 then (prev, p)
  else
    let is_privileged := effective_uid p =? 0 in
    if is_privileged || (uid =? real_uid p) || (uid =? effective_uid p) || (uid =? saved_uid p) || (uid =? fs_uid p)
    then (prev, set_uids (real_uid p) (effective_uid p) (saved_uid p) uid p)
    else (prev, p).

Definition sys_setuid (uid : Z) p : Z * ProcessIdentity :=
  if effective_uid p =? 0 then (0, set_uids uid uid (saved_uid p) uid p)
  else if (uid =? real_uid p) || (uid =? effective_uid p)
  then (0, set_uids (real_uid p) uid (saved_uid p) uid p)
  else (errno EPERM, p).

Definition sys_setreuid (ruid euid : Z) p : Z * ProcessIdentity :=
  let is_root := effective_uid p =? 0 in
  if negb is_root && refused ruid [real_uid p; effective_uid p] then (errno EPERM, p)
  else if negb is_root && refused euid [real_uid p; effective_uid p; saved_uid p] then (errno EPERM, p)
  else
    let old_real_uid := real_uid p in
    let new_euid := or_old euid (effective_uid p) in
    let fs := if euid =? NEG1 then fs_uid p else new_euid in
    let saved := if negb (ruid =? NEG1) || negb (new_euid =? old_real_uid) then new_euid else saved_uid p in
    (0, set_uids (or_old ruid (real_uid p)) new_euid saved fs p).

Definition sys_setresuid (ruid euid suid : Z) p : Z * ProcessIdentity :=
  let is_root := effective_uid p =? 0 in
  let allowed := [real_uid p; effective_uid p; saved_uid p] in
  if negb is_root && refused ruid allowed then (errno EPERM, p)
  else if negb is_root && refused euid allowed then (errno EPERM, p)
  else if negb is_root && refused suid allowed then (errno EPERM, p)
  else
    (0, set_uids (or_old ruid (real_uid p)) (or_old euid (effective_uid p)) (or_old suid (saved_uid p))
          (or_old euid (fs_uid p)) p).

(** ** Group ids *)

Definition sys_setfsgid (gid : Z) p : Z * ProcessIdentity :=
  let prev := fs_gid p in
  if gid =? NEG1 then (prev, p)
  else
    let is_privileged := effective_uid p =? 0 in
    if is_privileged || (gid =? real_gid p) || (gid =? effective_gid p) || (gid =? saved_gid p) || (gid =? fs_gid p)
    then (prev, set_gids (real_gid p) (effective_gid p) (saved_gid p) gid p)
    else (prev, p).

Definition sys_setgid (gid : Z) p : Z * ProcessIdentity :=
  if effective_gid p =? 0 then (0, set_gids gid gid (saved_gid p) gid p)
  else if (gid =? real_gid p) || (gid =? effective_gid p)
  then (0, set_gids (real_gid p) gid (saved_gid p) gid p)
  else (errno EPERM, p).

Definition sys_setregid (rgid egid : Z) p : Z * ProcessIdentity :=
  let is_root := effective_gid p =? 0 in
  if negb is_root && refused rgid [real_gid p; effective_gid p] then (errno EPERM, p)
  else if negb is_root && refused egid [real_gid p; effective_gid p; saved_gid p] then (errno EPERM, p)
  else
    let old_real_gid := real_gid p in
    let new_egid := or_old egid (effective_gid p) in
    let fs := if egid =? NEG1 then fs_gid p else new_egid in
    let saved := if negb (rgid =? NEG1) || negb (new_egid =? old_real_gid) then new_egid else saved_gid p in
    (0, set_gids (or_old rgid (real_gid p)) new_egid saved fs p).

Definition sys_setresgid (rgid egid sgid : Z) p : Z * ProcessIdentity :=
  let is_root := effective_gid p =? 0 in
  let allowed := [real_gid p; effective_gid p; saved_gid p] in
  if negb is_root && refused rgid allowed then (errno EPERM, p)
  else if negb is_root && refused egid allowed then (errno EPERM, p)
  else if negb is_root && refused sgid allowed then (errno EPERM, p)
  else
    (0, set_gids (or_old rgid (real_gid p)) (or_old egid (effective_gid p)) (or_old sgid (saved_gid p))
          (or_old egid (fs_gid p)) p).

(** ** Sessions and process groups *)

(** [pid] is the caller's. *)
Definition sys_setsid (pid : Z) p : Z * ProcessIdentity := (pid, set_group pid pid p).

(** [pid as usize] of an [isize] argument is [wrap64]. *)
Definition sys_setpgid (self pid pg : Z) p : Z * ProcessIdentity :=
  let target_pid := if pid =? 0 then self else wrap64 pid in
  let target_pgid := if pg =? 0 then target_pid else wrap64 pg in
  if target_pid =? self then (0, set_group (session_id p) target_pgid p) else (0, p).

(** [process2]: the table behind [pid2process]. *)
Definition sys_getpgid (procs : gmap Z ProcessIdentity) (self pid : Z) p : Z :=
  if (pid =? 0) || (wrap64 pid =? self) then pgid p
  else if pid <? 0 then errno ESRCH
  else match procs !! pid with Some target => pgid target | None => errno ESRCH end.

(** ** Capabilities *)

Abbreviation USER_ADDR_MAX := (0x800000000).
Abbreviation CAP_V1 := (0x19980330).
Abbreviation CAP_V2 := (0x20071026).
Abbreviation CAP_V3 := (0x20080522).
Abbreviation RLIMIT_NLIMITS := (16).
Abbreviation CAP_SETPCAP := (Z.shiftl 1 8).

Section user.
Context {U : Type} {UM : UserMemory U}.
Implicit Types (u : U).

(** [copy_to_user] of syscall/process.rs. *)
Definition proc_copy_to_user u (dst : Z) (data : list Z) : bool * U :=
  if dst =? 0 then (false, u)
  else
    match checked_add dst (Z.of_nat (length data)) with
    | None => (false, u)
    | Some end_ =>
        if (USER_ADDR_MAX <=? dst) || (USER_ADDR_MAX <? end_) then (false, u) else user_write u dst data
    end.

(** [CapHeader] and [CapData], as the bytes of their layout. *)
Definition cap_header (version pid : Z) : list Z := le_put 4 version ++ le_put 4 pid.
Definition cap_data (effective permitted inheritable : Z) : list Z :=
  le_put 4 effective ++ le_put 4 permitted ++ le_put 4 inheritable.
Definition cap_lo (x : Z) : Z := Z.land x 0xFFFFFFFF.
Definition cap_hi (x : Z) : Z := Z.land (Z.shiftr x 32) 0xFFFFFFFF.
Definition cap_data0 p : list Z := cap_data (cap_lo (cap_effective p)) (cap_lo (cap_permitted p)) (cap_lo (cap_inheritable p)).
Definition cap_data1 p : list Z := cap_data (cap_hi (cap_effective p)) (cap_hi (cap_permitted p)) (cap_hi (cap_inheritable p)).

(** Reading the header: an unknown version is answered with the preferred one. *)
Definition cap_read_header u (header_ptr : Z) : result (Z * Z) (Z * U) :=
  if header_ptr =? 0 then Err (errno EFAULT, u)
  else
    match user_read u header_ptr 8 with
    | None => Err (errno EFAULT, u)
    | Some b =>
        let version := le_get (take 4 b) in
        let pid := wrap_i32 (le_get (drop 4 b)) in
        if negb (existsb (Z.eqb version) [CAP_V1; CAP_V2; CAP_V3])
        then Err (errno EINVAL, (proc_copy_to_user u header_ptr (cap_header CAP_V3 pid)).2)
        else if pid <? 0 then Err (errno EINVAL, u) else Ok (version, pid)
    end.

(** [self]: the caller's pid; [exists_pid]: whether [pid2process] finds one. *)
Definition sys_capget (exists_pid : Z → bool) u (self header_ptr data_ptr : Z) p : Z * U :=
  match cap_read_header u header_ptr with
  | Err (e, u) => (e, u)
  | Ok (version, pid) =>
      if negb (pid =? 0) && negb (pid =? wrap_i32 self) && negb (exists_pid pid) then (errno ESRCH, u)
      else if data_ptr =? 0 then (0, u)
      else
        let data_count := if version =? CAP_V1 then 1%nat else 2%nat in
        if negb (user_writable u data_ptr (data_count * 12)) then (errno EFAULT, u)
        else
          let '(ok, u) := proc_copy_to_user u data_ptr (cap_data0 p) in
          if negb ok then (errno EFAULT, u)
          else if (data_count =? 2)%nat then
            let '(ok, u) := proc_copy_to_user u (data_ptr +w 12) (cap_data1 p) in
            if negb ok then (errno EFAULT, u) else (0, u)
          else (0, u)
  end.


(** The three words of a [CapData]. *)
Definition cap_word (i : nat) (b : list Z) : Z := le_get (take 4 (drop (4 * i) b)).

(** The checks and the update under [with_identity_mut]. *)
Definition cap_update (new_effective new_permitted new_inheritable : Z) p : Z * ProcessIdentity :=
  if negb (Z.ldiff new_effective new_permitted =? 0) then (errno EPERM, p)
  else if negb (Z.ldiff new_permitted (cap_permitted p) =? 0) then (errno EPERM, p)
  else
    let above := negb (Z.ldiff new_inheritable (Z.lor (cap_inheritable p) (cap_permitted p)) =? 0) in
    if above && (Z.land (cap_effective p) CAP_SETPCAP =? 0) then (errno EPERM, p)
    else if above && negb (Z.ldiff new_inheritable (cap_bounding p) =? 0) then (errno EPERM, p)
    else (0, set_caps new_permitted new_effective new_inheritable (cap_bounding p) p).

Definition sys_capset u (self header_ptr data_ptr : Z) p : Z * ProcessIdentity * U :=
  match cap_read_header u header_ptr with
  | Err (e, u) => (e, p, u)
  | Ok (version, pid) =>
      if negb (pid =? 0) && negb (pid =? wrap_i32 self) then (errno EPERM, p, u)
      else if data_ptr =? 0 then (errno EFAULT, p, u)
      else
        match user_read u data_ptr 12 with
        | None => (errno EFAULT, p, u)
        | Some data0 =>
            match (if version =? CAP_V1 then Some (replicate 12 0) else user_read u (data_ptr +w 12) 12) with
            | None => (errno EFAULT, p, u)
            | Some data1 =>
                let new i := Z.lor (cap_word i data0) (Z.shiftl (cap_word i data1) 32) in
                let '(r, p) := cap_update (new 0%nat) (new 1%nat) (new 2%nat) p in (r, p, u)
            end
        end
  end.

(** ** prctl *)

Definition sys_prctl u (option arg2 arg3 : Z) p : Z * ProcessIdentity * U :=
  if option =? 1 (* PR_SET_PDEATHSIG *) then ((if 64 <? arg2 then errno EINVAL else 0), p, u)
  else if option =? 4 (* PR_SET_DUMPABLE *) then ((if 1 <? arg2 then errno EINVAL else 0), p, u)
  else if option =? 8 (* PR_SET_KEEPCAPS *) then (0, p, u)
  else if option =? 22 (* PR_SET_SECCOMP *) then
    if negb (arg2 =? 2) then (errno EINVAL, p, u)
    else if arg3 =? 0 then (errno EFAULT, p, u)
    else match user_read u arg3 16 with None => (errno EFAULT, p, u) | Some _ => (errno EACCES, p, u) end
  else if option =? 3 (* PR_GET_DUMPABLE *) then (1, p, u)
  else if (option =? 7) || (option =? 21) (* PR_GET_KEEPCAPS, PR_GET_SECCOMP *) then (0, p, u)
  else if option =? 23 (* PR_CAPBSET_READ *) then
    if 64 <=? arg2 then (errno EINVAL, p, u)
    else ((if Z.land (Z.shiftr (cap_bounding p) arg2) 1 =? 1 then 1 else 0), p, u)
  else if option =? 24 (* PR_CAPBSET_DROP *) then
    if 64 <=? arg2 then (errno EINVAL, p, u)
    else if Z.land (cap_effective p) CAP_SETPCAP =? 0 then (errno EPERM, p, u)
    else (0, set_caps (cap_permitted p) (cap_effective p) (cap_inheritable p)
               (Z.ldiff (cap_bounding p) (Z.shiftl 1 arg2)) p, u)
  else if option =? 28 (* PR_SET_SECUREBITS *) then
    ((if Z.land (cap_effective p) CAP_SETPCAP =? 0 then errno EPERM else 0), p, u)
  else if option =? 14 (* PR_SET_TIMING *) then (errno EINVAL, p, u)
  else if option =? 15 (* PR_SET_NAME *) then
    if arg2 =? 0 then (errno EFAULT, p, u)
    else match user_read u arg2 16 with None => (errno EFAULT, p, u) | Some _ => (0, p, u) end
  else if option =? 16 (* PR_GET_NAME *) then
    if arg2 =? 0 then (0, p, u) else (0, p, (proc_copy_to_user u arg2 (replicate 16 0)).2)
  else (errno EINVAL, p, u).

(** ** Reading the ids back *)

(** One of the three optional results of [getresuid] and [getresgid]. *)
Definition write_id (r : result U (Z * U)) (ptr id : Z) : result U (Z * U) :=
  match r with
  | Err e => Err e
  | Ok u =>
      if ptr =? 0 then Ok u
      else let '(ok, u) := proc_copy_to_user u ptr (le_put 4 id) in if ok then Ok u else Err (errno EFAULT, u)
  end.
Definition ids_ret (r : result U (Z * U)) : Z * U := match r with Ok u => (0, u) | Err e => e end.
Definition sys_getresuid u (ruid euid suid : Z) p : Z * U :=
  ids_ret (write_id (write_id (write_id (Ok u) ruid (real_uid p)) euid (effective_uid p)) suid (saved_uid p)).
Definition sys_getresgid u (rgid egid sgid : Z) p : Z * U :=
  ids_ret (write_id (write_id (write_id (Ok u) rgid (real_gid p)) egid (effective_gid p)) sgid (saved_gid p)).

(** ** Resource limits *)

Record RLimit : Type := mkRLimit { rlim_cur : Z; rlim_max : Z }.
Definition default_rlimits : list RLimit :=
  let inf := mkRLimit (2 ^ 64 - 1) (2 ^ 64 - 1) in
  <[7%nat := mkRLimit 1024 1024]> (<[3%nat := mkRLimit (4096 * 512) (4096 * 512)]> (replicate 16 inf)).
Definition rlimit_bytes (l : RLimit) : list Z := le_put 8 (rlim_cur l) ++ le_put 8 (rlim_max l).

(** [limits.rlimits[resource]] is in range after the check. *)
Definition sys_getrlimit u (rl : list RLimit) (resource rlim : Z) : outcome (Z * U) :=
  if rlim =? 0 then Ret (errno EFAULT, u)
  else if RLIMIT_NLIMITS <=? resource then Ret (errno EINVAL, u)
  else
    match rl !! Z.to_nat resource with
    | None => Panic
    | Some limit =>
        let '(ok, u) := proc_copy_to_user u rlim (rlimit_bytes limit) in
        Ret (if ok then 0 else errno EFAULT, u)
    end.

Definition sys_prlimit64 u (rl : list RLimit) (self pid resource new_limit old_limit : Z) : outcome (Z * list RLimit * U) :=
  if RLIMIT_NLIMITS <=? resource then Ret (errno EINVAL, rl, u)
  else if negb (pid =? 0) && negb (pid =? self) then Ret (errno ESRCH, rl, u)
  else
    match rl !! Z.to_nat resource with
    | None => Panic
    | Some old =>
        let '(ok, u) := if old_limit =? 0 then (true, u) else proc_copy_to_user u old_limit (rlimit_bytes old) in
        if negb ok then Ret (errno EFAULT, rl, u)
        else if new_limit =? 0 then Ret (0, rl, u)
        else
          match user_read u new_limit 16 with
          | None => Ret (errno EFAULT, rl, u)
          | Some b =>
              let new_val := mkRLimit (le_get (take 8 b)) (le_get (drop 8 b)) in
              if rlim_max new_val <? rlim_cur new_val then Ret (errno EINVAL, rl, u)
              else Ret (0, <[Z.to_nat resource := new_val]> rl, u)
          end
    end.
End user.

(** ** Priorities *)

Definition clamp_nice (prio : Z) : Z := Z.max (-20) (Z.min 19 prio).

(** [pid2process_snapshot]: in the order of the [BTreeMap]. *)
Definition pids_where (procs : gmap Z ProcessIdentity) (f : ProcessIdentity → bool) : list Z :=
  merge_sort Z.le (map_to_list (filter (λ kv : Z * ProcessIdentity, f kv.2 = true) procs)).*1.

(** [self] is the caller's pid and [p] its identity. *)
Definition collect_priority_target_pids (procs : gmap Z ProcessIdentity) (self which who : Z) p : result (list Z) Z :=
  let nonempty l := match l with [] => Err (errno ESRCH) | _ => Ok l end in
  if which =? 0 (* PRIO_PROCESS *) then
    if who <? 0 then Err (errno ESRCH)
    else
      let target_pid := if who =? 0 then self else who in
      if bool_decide (is_Some (procs !! target_pid)) then Ok [target_pid] else Err (errno ESRCH)
  else if which =? 1 (* PRIO_PGRP *) then
    if who <? 0 then Err (errno ESRCH)
    else nonempty (pids_where procs (λ q, pgid q =? (if who =? 0 then pgid p else who)))
  else if which =? 2 (* PRIO_USER *) then
    if who <? 0 then Err (errno ESRCH)
    else nonempty (pids_where procs (λ q, effective_uid q =? (if who =? 0 then effective_uid p else wrap32 who)))
  else Err (errno EINVAL).

(** The loop that checks every target; [None] when all pass. *)
Fixpoint priority_refused (procs : gmap Z ProcessIdentity) (caller_euid new_nice : Z) (pids : list Z) : option Z :=
  match pids with
  | [] => None
  | pid :: pids =>
      match procs !! pid with
      | None => priority_refused procs caller_euid new_nice pids
      | Some target =>
          if negb (caller_euid =? 0) && negb (effective_uid target =? caller_euid) then Some (errno EPERM)
          else if negb (caller_euid =? 0) && (new_nice <? nice target) then Some (errno EACCES)
          else priority_refused procs caller_euid new_nice pids
      end
  end.

Definition sys_set_priority (procs : gmap Z ProcessIdentity) (self which who prio : Z) p : Z * gmap Z ProcessIdentity :=
  match collect_priority_target_pids procs self which who p with
  | Err e => (e, procs)
  | Ok target_pids =>
      let new_nice := clamp_nice prio in
      match priority_refused procs (effective_uid p) new_nice target_pids with
      | Some e => (e, procs)
      | None =>
          let applied := existsb (λ pid, bool_decide (is_Some (procs !! pid))) target_pids in
          (if applied then 0 else errno ESRCH,
           foldl (λ m pid, alter (set_nice new_nice) pid m) procs target_pids)
      end
  end.

Definition sys_get_priority (procs : gmap Z ProcessIdentity) (self which who : Z) p : Z :=
  match collect_priority_target_pids procs self which who p with
  | Err e => e
  | Ok target_pids =>
      let best_nice := foldl (λ best pid,
        match procs !! pid with
        | None => best
        | Some target => Some (match best with Some old => Z.min old (nice target) | None => nice target end)
        end) None target_pids in
      match best_nice with None => errno ESRCH | Some n => 20 - n end
  end.

(** ** Supplementary groups *)

(** [*gid_ref = 0u32] through a reference at a physical address. *)
Definition phys_write (m : pmem) (pa : Z) (data : list Z) : pmem :=
  foldl (λ m '(i, b), pm_write_byte m ((pa + Z.of_nat i) / PAGE_SIZE) ((pa + Z.of_nat i) mod PAGE_SIZE) b) m (imap pair data).

Definition sys_getgroups (m : pmem) (token size list : Z) : outcome (Z * pmem) :=
  if size <? 0 then Ret (errno EINVAL, m)
  else if size =? 0 then Ret (1, m)
  else if list =? 0 then Ret (errno EFAULT, m)
  else if size <? 1 then Ret (errno EINVAL, m)
  else
    match translated_refmut m token list with
    | Panic => Panic
    | Ret pa => Ret (1, phys_write m pa (replicate 4 0))
    end.

Definition sys_setgroups (size list : Z) : Z :=
  if 65536 <? size then errno EINVAL
  else if (0 <? size) && (list =? 0) then errno EFAULT
  else 0.

(** ** Unprivileged processes gain nothing *)

Section calls.
Context {U : Type} {UM : UserMemory U}.

(** A call that changes the identity of its caller. *)
Inductive id_call : Type :=
  | CSetuid (uid : Z) | CSetgid (gid : Z)
  | CSetreuid (ruid euid : Z) | CSetregid (rgid egid : Z)
  | CSetresuid (ruid euid suid : Z) | CSetresgid (rgid egid sgid : Z)
  | CSetfsuid (uid : Z) | CSetfsgid (gid : Z)
  | CSetsid (pid : Z) | CSetpgid (self pid pg : Z)
  | CCapset (u : U) (self header_ptr data_ptr : Z)
  | CPrctl (u : U) (option arg2 arg3 : Z).

Definition id_step p (c : id_call) : ProcessIdentity :=
  match c with
  | CSetuid uid => (sys_setuid uid p).2
  | CSetgid gid => (sys_setgid gid p).2
  | CSetreuid ruid euid => (sys_setreuid ruid euid p).2
  | CSetregid rgid egid => (sys_setregid rgid egid p).2
  | CSetresuid ruid euid suid => (sys_setresuid ruid euid suid p).2
  | CSetresgid rgid egid sgid => (sys_setresgid rgid egid sgid p).2
  | CSetfsuid uid => (sys_setfsuid uid p).2
  | CSetfsgid gid => (sys_setfsgid gid p).2
  | CSetsid pid => (sys_setsid pid p).2
  | CSetpgid self pid pg => (sys_setpgid self pid pg p).2
  | CCapset u self h d => (sys_capset u self h d p).1.2
  | CPrctl u option arg2 arg3 => (sys_prctl u option arg2 arg3 p).1.2
  end.

Definition uids p : list Z := [real_uid p; effective_uid p; saved_uid p].
Definition gids p : list Z := [real_gid p; effective_gid p; saved_gid p].

(** The four ids of one kind are among [ids], the file-system id possibly [f]. *)
Definition confined (ids : list Z) (f : Z) (l : list Z) (fs : Z) : Prop := (∀ x, x ∈ l → x ∈ ids) ∧ fs ∈ f :: ids.

Lemma not_refused id l : refused id l = false → id = NEG1 ∨ id ∈ l.
Proof.
  unfold refused. rewrite andb_false_iff, !negb_false_iff, Z.eqb_eq, existsb_exists.
  intros [?|(x & Hx%list_elem_of_In & ->%Z.eqb_eq)]; auto.
Qed.

Lemma or_old_in id old (l ids : list Z) : (∀ x, x ∈ l → x ∈ ids) → id = NEG1 ∨ id ∈ l → old ∈ ids → or_old id old ∈ ids.
Proof. intros Hl Hid Ho. unfold or_old. destruct (Z.eqb_spec id NEG1); [done|]. naive_solver. Qed.

(** The three calls on the ids of one kind, on any four ids. *)
Lemma confined_res ids f r e s fs a b c : confined ids f [r; e; s] fs →
  refused a [r; e; s] = false → refused b [r; e; s] = false → refused c [r; e; s] = false →
  confined ids f [or_old a r; or_old b e; or_old c s] (or_old b fs).
Proof.
  intros [Hc Hf] Ha%not_refused Hb%not_refused Hs%not_refused. split.
  - intros x Hx. rewrite !elem_of_cons in Hx. destruct Hx as [->|[->|[->|[]%elem_of_nil]]];
      (eapply or_old_in; [exact Hc|done|set_solver]).
  - apply (or_old_in _ _ [r; e; s]); [set_solver|done|done].
Qed.

Lemma confined_re ids f r e s fs a b (t : bool) : confined ids f [r; e; s] fs →
  refused a [r; e] = false → refused b [r; e; s] = false →
  confined ids f [or_old a r; or_old b e; if t then or_old b e else s] (if b =? NEG1 then fs else or_old b e).
Proof.
  intros [Hc Hf] Ha%not_refused Hb%not_refused.
  assert (or_old a r ∈ ids) by (apply (or_old_in _ _ [r; e; s]); [done| |set_solver]; set_solver).
  assert (or_old b e ∈ ids) by (apply (or_old_in _ _ [r; e; s]); [done|done|set_solver]).
  split.
  - intros x Hx. rewrite !elem_of_cons in Hx. destruct Hx as [->|[->|[->|[]%elem_of_nil]]]; [done|done|].
    destruct t; [done|set_solver].
  - destruct (b =? NEG1); set_solver.
Qed.

Lemma confined_set ids f r e s fs a : confined ids f [r; e; s] fs → (a =? r) || (a =? e) = true →
  confined ids f [r; a; s] a.
Proof.
  intros [Hc Hf] Ha. rewrite orb_true_iff, !Z.eqb_eq in Ha. assert (a ∈ ids) by (destruct Ha; subst; set_solver).
  split; set_solver.
Qed.

Lemma confined_fs ids f r e s fs a : confined ids f [r; e; s] fs →
  (a =? r) || (a =? e) || (a =? s) || (a =? fs) = true → confined ids f [r; e; s] a.
Proof.
  intros [Hc Hf] Ha. rewrite !orb_true_iff, !Z.eqb_eq in Ha. split; [done|].
  destruct Ha as [[[->| ->]| ->]| ->]; set_solver.
Qed.

Definition unprivileged us f gs g p : Prop := confined us f (uids p) (fs_uid p) ∧ confined gs g (gids p) (fs_gid p).

Lemma unprivileged_euid us f gs g p : 0 ∉ us → unprivileged us f gs g p → (effective_uid p =? 0) = false.
Proof. intros H0 [[Hc _] _]. apply Z.eqb_neq. intros He. apply H0. rewrite <- He. apply Hc. unfold uids. set_solver. Qed.
Lemma unprivileged_egid us f gs g p : 0 ∉ gs → unprivileged us f gs g p → (effective_gid p =? 0) = false.
Proof. intros H0 [_ [Hc _]]. apply Z.eqb_neq. intros He. apply H0. rewrite <- He. apply Hc. unfold gids. set_solver. Qed.

Lemma cap_update_ids x y z p : ∃ a b c e, (cap_update x y z p).2 = set_caps a b c e p.
Proof.
  assert (∃ a b c e, p = set_caps a b c e p) as Hid by (destruct p; by eexists _, _, _, _).
  unfold cap_update. repeat (case_match; [done|]). by eexists _, _, _, _.
Qed.

Lemma capset_ids u self h d p : ∃ a b c e, (sys_capset u self h d p).1.2 = set_caps a b c e p.
Proof.
  assert (∃ a b c e, p = set_caps a b c e p) as Hid by (destruct p; by eexists _, _, _, _).
  unfold sys_capset. destruct (cap_read_header u h) as [[version pid]|[]]; [|done].
  do 2 (case_match; [done|]). do 2 (case_match; [|done]).
  match goal with |- context [cap_update ?x ?y ?z p] => pose proof (cap_update_ids x y z p) as H'; by destruct (cap_update x y z p) end.
Qed.

Lemma prctl_ids u o a2 a3 p : ∃ a b c e, (sys_prctl u o a2 a3 p).1.2 = set_caps a b c e p.
Proof.
  assert (∃ a b c e, p = set_caps a b c e p) as Hid by (destruct p; by eexists _, _, _, _).
  unfold sys_prctl. repeat (case_match; try done). by eexists _, _, _, _.
Qed.

Lemma id_step_confined us f gs g p c : 0 ∉ us → 0 ∉ gs → unprivileged us f gs g p → unprivileged us f gs g (id_step p c).
Proof.
  intros Hu0 Hg0 Hp. pose proof (unprivileged_euid _ _ _ _ _ Hu0 Hp) as He. pose proof (unprivileged_egid _ _ _ _ _ Hg0 Hp) as Hge.
  pose proof Hp as [Hu Hg]. destruct c; cbn [id_step].
  - unfold sys_setuid. rewrite He. case_match; [|done]. split; [|done]. by apply (confined_set _ _ _ (effective_uid p) _ (fs_uid p)).
  - unfold sys_setgid. rewrite Hge. case_match; [|done]. split; [done|]. by apply (confined_set _ _ _ (effective_gid p) _ (fs_gid p)).
  - unfold sys_setreuid. rewrite He. cbn [negb andb]. case_match; [done|]. case_match; [done|]. split; [|done].
    by apply confined_re.
  - unfold sys_setregid. rewrite Hge. cbn [negb andb]. case_match; [done|]. case_match; [done|]. split; [done|].
    by apply confined_re.
  - unfold sys_setresuid. rewrite He. cbn [negb andb]. do 3 (case_match; [done|]). split; [|done]. by apply confined_res.
  - unfold sys_setresgid. rewrite Hge. cbn [negb andb]. do 3 (case_match; [done|]). split; [done|]. by apply confined_res.
  - unfold sys_setfsuid. rewrite He. case_match; [done|]. case_match; [|done].
    split; [|done]. by eapply confined_fs.
  - unfold sys_setfsgid. rewrite He. case_match; [done|]. case_match; [|done].
    split; [done|]. by eapply confined_fs.
  - done.
  - unfold sys_setpgid. by repeat case_match.
  - destruct (capset_ids u self header_ptr data_ptr p) as (a & b & c & e & ->). done.
  - destruct (prctl_ids u option arg2 arg3 p) as (a & b & c & e & ->). done.
Qed.

Lemma id_steps_confined us f gs g calls p : 0 ∉ us → 0 ∉ gs → unprivileged us f gs g p →
  unprivileged us f gs g (foldl id_step p calls).
Proof. intros Hu Hg. revert p. induction calls as [|c calls IH]; intros p Hp; [done|]. by apply IH, id_step_confined. Qed.

(** [C23] A process without privilege gains no identity.  Let none of the real,
    effective and saved user ids be 0, and none of the group ids.  Whatever
    sequence of identity calls it makes, with whatever arguments, its real,
    effective and saved ids stay among the three it had, and its file-system
    ids among those and the one it had. *)
Theorem unprivileged_ids_confined (calls : list id_call) p :
  0 ∉ uids p → 0 ∉ gids p →
  let p' := foldl id_step p calls in
  (∀ x, x ∈ uids p' → x ∈ uids p) ∧ fs_uid p' ∈ fs_uid p :: uids p ∧
  (∀ x, x ∈ gids p' → x ∈ gids p) ∧ fs_gid p' ∈ fs_gid p :: gids p.
Proof.
  intros Hu Hg.
  destruct (id_steps_confined (uids p) (fs_uid p) (gids p) (fs_gid p) calls p Hu Hg) as [[? ?] [? ?]]; [|by split_and!].
  split; split; [done|by left|done|by left].
Qed.

(** ** Capability sets only shrink *)

Definition cap_subset (x y : Z) : Prop := ∀ i, Z.testbit x i = true → Z.testbit y i = true.

Lemma ldiff_subset x y : Z.ldiff x y = 0 ↔ cap_subset x y.
Proof.
  split.
  - intros H i Hi. assert (Z.testbit (Z.ldiff x y) i = false) as Hb by (by rewrite H, Z.bits_0).
    rewrite Z.ldiff_spec, Hi in Hb. by destruct (Z.testbit y i).
  - intros H. apply Z.bits_inj'. intros i _. rewrite Z.ldiff_spec, Z.bits_0. specialize (H i).
    destruct (Z.testbit x i), (Z.testbit y i); naive_solver.
Qed.

(** The sets of [p], against those of the process at the start. *)
Record caps_within p0 p : Prop := {
  cw_effective : cap_subset (cap_effective p) (cap_permitted p);
  cw_permitted : cap_subset (cap_permitted p) (cap_permitted p0);
  cw_inheritable : cap_subset (cap_inheritable p) (Z.lor (Z.lor (cap_inheritable p0) (cap_permitted p0)) (cap_bounding p0));
  cw_bounding : cap_subset (cap_bounding p) (cap_bounding p0);
}.

Lemma cap_update_within p0 p x y z : caps_within p0 p → caps_within p0 (cap_update x y z p).2.
Proof.
  intros Hp. unfold cap_update. case_match eqn:E1; [done|]. case_match eqn:E2; [done|]. case_match eqn:E3; [done|].
  case_match eqn:E4; [done|]. rewrite negb_false_iff, Z.eqb_eq, ldiff_subset in E1, E2. destruct Hp as [He Hp Hi Hb].
  split; cbn; [done|intros i Hbit; by apply Hp, E2| |done]. intros i Hbit.
  destruct (Z.eqb_spec (Z.ldiff z (Z.lor (cap_inheritable p) (cap_permitted p))) 0) as [Hz|Hz]; cbn [negb andb] in E4.
  - rewrite ldiff_subset in Hz. specialize (Hz i Hbit). rewrite Z.lor_spec, orb_true_iff in Hz.
    destruct Hz as [Hz|Hz]; [by apply Hi|]. rewrite !Z.lor_spec, (Hp i Hz). by rewrite orb_true_r.
  - rewrite negb_false_iff, Z.eqb_eq, ldiff_subset in E4. rewrite !Z.lor_spec, (Hb i (E4 i Hbit)). by rewrite orb_true_r.
Qed.

Lemma id_step_caps p0 p c : caps_within p0 p → caps_within p0 (id_step p c).
Proof.
  intros Hp. assert (∀ q, cap_permitted q = cap_permitted p → cap_effective q = cap_effective p →
    cap_inheritable q = cap_inheritable p → cap_bounding q = cap_bounding p → caps_within p0 q) as Hsame.
  { intros q H1 H2 H3 H4. destruct Hp. split; rewrite ?H1, ?H2, ?H3, ?H4; done. }
  destruct c; cbn [id_step]; unfold sys_setuid, sys_setgid, sys_setreuid, sys_setregid, sys_setresuid, sys_setresgid,
    sys_setfsuid, sys_setfsgid, sys_setsid, sys_setpgid, sys_capset, sys_prctl;
    try (repeat case_match; by apply Hsame).
  - destruct (cap_read_header u header_ptr) as [[version pid]|[]]; [|done].
    do 2 (case_match; [done|]). do 2 (case_match; [|done]).
    match goal with |- context [cap_update ?x ?y ?z p] => pose proof (cap_update_within p0 p x y z Hp) as H'; by destruct (cap_update x y z p) end.
  - repeat (case_match; try done). destruct Hp. split; cbn; try done. intros i Hi. rewrite Z.ldiff_spec in Hi.
    apply andb_true_iff in Hi as [Hi _]. auto.
Qed.

(** [C24] Capabilities are never regained.  Starting with effective capabilities
    among the permitted ones, after any sequence of calls the effective set is
    within the permitted set, the permitted and bounding sets are within what
    they were at the start, and every inheritable capability was inheritable,
    permitted or in the bounding set then. *)
Theorem capabilities_shrink (calls : list id_call) p :
  cap_subset (cap_effective p) (cap_permitted p) → caps_within p (foldl id_step p calls).
Proof.
  intros He. assert (caps_within p p) as Hp.
  { split; [done|by intros i| |by intros i]. intros i Hi. by rewrite !Z.lor_spec, Hi. }
  revert Hp. generalize p at 2 4. induction calls as [|c calls IH]; intros q Hq; [done|]. by apply IH, id_step_caps.
Qed.
End calls.

(** ** Giving up root *)

(** Setting the user id as root is not final.  For a root process whose
    saved id is 0, setuid to any user succeeds and changes the real and effective
    ids, but the saved id stays 0, so that a later setreuid makes the process
    root again. *)
Theorem setuid_keeps_way_back p uid :
  effective_uid p = 0 → saved_uid p = 0 →
  (sys_setuid uid p).1 = 0 ∧ uids (sys_setuid uid p).2 = [uid; uid; 0] ∧
  (sys_setreuid NEG1 0 (sys_setuid uid p).2).1 = 0 ∧
  effective_uid (sys_setreuid NEG1 0 (sys_setuid uid p).2).2 = 0.
Proof.
  intros He Hs. destruct p. cbn in He, Hs. subst. unfold sys_setuid, sys_setreuid, refused, uids. cbn.
  rewrite !orb_true_r, !andb_false_r. by destruct (uid =? 0).
Qed.

(** ** Setting capabilities and reading them back *)

Lemma cap_halves lo hi : 0 <= lo < 2 ^ 32 → 0 <= hi < 2 ^ 32 →
  cap_lo (Z.lor lo (Z.shiftl hi 32)) = lo ∧ cap_hi (Z.lor lo (Z.shiftl hi 32)) = hi.
Proof.
  intros Hlo Hhi. change 0xFFFFFFFF with (Z.ones 32) in *. unfold cap_lo, cap_hi. change 0xFFFFFFFF with (Z.ones 32).
  rewrite Z.shiftr_lor, !Z.land_ones by done. rewrite Z.shiftr_shiftl_l, Z.sub_diag, Z.shiftl_0_r by done.
  rewrite (Z.shiftr_div_pow2 lo), Z.div_small, Z.lor_0_l, (Z.mod_small hi) by done. split; [|done].
  rewrite <- Z.land_ones by done. rewrite Z.land_lor_distr_l, !Z.land_ones, (Z.mod_small lo) by done.
  rewrite Z.shiftl_mul_pow2, Z.mod_mul by done. apply Z.lor_0_r.
Qed.

Lemma cap_word_range i b : Forall is_byte b → 0 <= cap_word i b < 2 ^ 32.
Proof.
  intros Hb. unfold cap_word. set (c := take 4 (drop (4 * i) b)).
  assert (Forall is_byte c) as Hc by (by apply Forall_take, Forall_drop).
  assert (length c ≤ 4)%nat as Hl by (unfold c; rewrite length_take; lia).
  pose proof (le_get_range c Hc) as Hr. assert (256 ^ Z.of_nat (length c) <= 256 ^ 4) by (apply Z.pow_le_mono_r; lia).
  change (256 ^ 4) with (2 ^ 32) in *. lia.
Qed.

Lemma cap_data_words b : length b = 12%nat → Forall is_byte b →
  cap_data (cap_word 0 b) (cap_word 1 b) (cap_word 2 b) = b.
Proof.
  intros Hl Hb. assert (∀ i, (4 * i + 4 ≤ 12)%nat → le_put 4 (cap_word i b) = take 4 (drop (4 * i) b)) as Hw.
  { intros i Hi. unfold cap_word. rewrite <- (le_put_get (take 4 (drop (4 * i) b))) at 2 by (by apply Forall_take, Forall_drop).
    f_equal. rewrite length_take, length_drop. lia. }
  unfold cap_data. rewrite !Hw by lia. do 13 (destruct b as [|? b]; [done|]). done.
Qed.

Section roundtrip.
Context {U : Type} {UM : UserMemory U} {UMS : UserMemorySpec U}.
Implicit Types (u : U).

Lemma cap_update_sets x y z p p' : cap_update x y z p = (0, p') → p' = set_caps y x z (cap_bounding p) p.
Proof. unfold cap_update. repeat case_match; intros; simplify_eq; done. Qed.

Lemma capset_sets u u' self h d p p' hdr b0 b1 :
  user_read u h 8 = Some hdr → le_get (take 4 hdr) ≠ CAP_V1 →
  user_read u d 12 = Some b0 → user_read u (d +w 12) 12 = Some b1 →
  sys_capset u self h d p = (0, p', u') → cap_data0 p' = b0 ∧ cap_data1 p' = b1.
Proof.
  intros Hh Hv H0 H1. unfold sys_capset, cap_read_header, errno. rewrite Hh.
  destruct (h =? 0); [done|]. destruct (negb (existsb _ _)); [done|]. destruct (wrap_i32 _ <? 0); [done|].
  destruct (negb _ && negb _); [done|]. destruct (d =? 0); [done|]. rewrite H0, H1.
  destruct (Z.eqb_spec (le_get (take 4 hdr)) CAP_V1); [done|].
  destruct (cap_update _ _ _ p) as [r q] eqn:Hc. intros [= -> -> ->]. apply cap_update_sets in Hc as ->.
  destruct (user_read_bytes _ _ _ _ H0) as [L0 B0]. destruct (user_read_bytes _ _ _ _ H1) as [L1 B1].
  pose proof (λ i, cap_halves (cap_word i b0) (cap_word i b1) (cap_word_range i b0 B0) (cap_word_range i b1 B1)) as Hw.
  unfold cap_data0, cap_data1. cbn [cap_effective cap_permitted cap_inheritable set_caps].
  destruct (Hw 0%nat) as [-> ->], (Hw 1%nat) as [-> ->], (Hw 2%nat) as [-> ->].
  split; by apply cap_data_words.
Qed.

(** Capabilities read back as they were set.  After a successful capset
    with a 64-bit version, capget by the same process fills a writable buffer
    with exactly the 24 bytes capset took, as two structures of three words. *)
Theorem capset_capget_roundtrip exists_pid u u' self h d p p' hdr b0 b1 u2 u3 u4 h2 d2 :
  user_read u h 8 = Some hdr → le_get (take 4 hdr) ≠ CAP_V1 →
  user_read u d 12 = Some b0 → user_read u (d +w 12) 12 = Some b1 →
  sys_capset u self h d p = (0, p', u') →
  h2 ≠ 0 → d2 ≠ 0 → user_read u2 h2 8 = Some (cap_header CAP_V3 0) → user_writable u2 d2 24 = true →
  proc_copy_to_user u2 d2 b0 = (true, u3) → proc_copy_to_user u3 (d2 +w 12) b1 = (true, u4) →
  sys_capget exists_pid u2 self h2 d2 p' = (0, u4).
Proof.
  intros Hh Hv H0 H1 Hset Hh2 Hd2 Hr Hw Hc0 Hc1.
  destruct (capset_sets _ _ _ _ _ _ _ _ _ _ Hh Hv H0 H1 Hset) as [E0 E1].
  unfold sys_capget, cap_read_header. rewrite (proj2 (Z.eqb_neq h2 0) Hh2), Hr, E0, E1.
  change (take 4 (cap_header CAP_V3 0)) with (le_put 4 CAP_V3). change (drop 4 (cap_header CAP_V3 0)) with (le_put 4 0).
  change (wrap_i32 (le_get (le_put 4 0))) with 0. change (le_get (le_put 4 CAP_V3)) with CAP_V3. cbn [Z.eqb existsb negb orb andb].
  change (0 <? 0) with false. cbn -[proc_copy_to_user wrap64]. rewrite (proj2 (Z.eqb_neq d2 0) Hd2), Hw. cbn -[proc_copy_to_user wrap64].
  by rewrite Hc0, Hc1.
Qed.
End roundtrip.

(** ** Priorities *)

(** The processes a priority call is about. *)
Definition selected (procs : gmap Z ProcessIdentity) (self which who : Z) p (pid : Z) : Prop :=
  ∃ q, procs !! pid = Some q ∧
    (which = 0 ∧ pid = (if who =? 0 then self else who) ∨
     which = 1 ∧ pgid q = (if who =? 0 then pgid p else who) ∨
     which = 2 ∧ effective_uid q = (if who =? 0 then effective_uid p else wrap32 who)).

Lemma elem_of_pids_where procs f pid : pid ∈ pids_where procs f ↔ ∃ q, procs !! pid = Some q ∧ f q = true.
Proof.
  unfold pids_where. rewrite merge_sort_Permutation, list_elem_of_fmap. split.
  - intros ([k q] & -> & Hk%elem_of_map_to_list). apply map_lookup_filter_Some in Hk as [Hk Hf]. eauto.
  - intros (q & Hq & Hf). exists (pid, q). split; [done|]. apply elem_of_map_to_list, map_lookup_filter_Some. done.
Qed.

Lemma collect_spec procs self which who p :
  match collect_priority_target_pids procs self which who p with
  | Ok l => l ≠ [] ∧ ∀ pid, pid ∈ l ↔ selected procs self which who p pid
  | Err e => (which ≠ 0 ∧ which ≠ 1 ∧ which ≠ 2) ∨ who < 0 ∨ ∀ pid, ¬ selected procs self which who p pid
  end.
Proof.
  unfold collect_priority_target_pids, selected.
  destruct (Z.eqb_spec which 0) as [->|]; [|destruct (Z.eqb_spec which 1) as [->|]; [|destruct (Z.eqb_spec which 2) as [->|]]].
  - destruct (Z.ltb_spec who 0); [auto|]. set (t := if who =? 0 then self else who). case_bool_decide as Hs.
    + split; [done|]. intros pid. rewrite list_elem_of_singleton. destruct Hs as [q Hq]. split.
      * intros ->. exists q. auto.
      * intros (q' & _ & [[_ ?]|[[? _]|[? _]]]); done.
    + right. right. intros pid (q & Hq & [[_ ->]|[[? _]|[? _]]]); [|done..]. apply Hs. by rewrite Hq.
  - destruct (Z.ltb_spec who 0); [auto|].
    match goal with |- context [pids_where procs ?f] => pose proof (elem_of_pids_where procs f) as Hp; set (l := pids_where procs f) in * end.
    assert (∀ pid, pid ∈ l ↔ selected procs self 1 who p pid) as Hl.
    { intros pid. rewrite Hp. unfold selected. setoid_rewrite Z.eqb_eq. split; [naive_solver|].
      intros (q & Hq & [[? _]|[[_ ?]|[? _]]]); [done|eauto|done]. }
    destruct l as [|x l]; [right; right; intros pid Hs%Hl; set_solver|done].
  - destruct (Z.ltb_spec who 0); [auto|].
    match goal with |- context [pids_where procs ?f] => pose proof (elem_of_pids_where procs f) as Hp; set (l := pids_where procs f) in * end.
    assert (∀ pid, pid ∈ l ↔ selected procs self 2 who p pid) as Hl.
    { intros pid. rewrite Hp. unfold selected. setoid_rewrite Z.eqb_eq. split; [naive_solver|].
      intros (q & Hq & [[? _]|[[? _]|[_ ?]]]); [done|done|eauto]. }
    destruct l as [|x l]; [right; right; intros pid Hs%Hl; set_solver|done].
  - auto.
Qed.

Lemma priority_refused_spec procs e n pids : priority_refused procs e n pids = None → e ≠ 0 →
  ∀ pid q, pid ∈ pids → procs !! pid = Some q → effective_uid q = e ∧ nice q <= n.
Proof.
  intros Hr He. induction pids as [|x pids IH]; intros pid q Hin Hq; [by apply elem_of_nil in Hin|]. cbn in Hr.
  rewrite (proj2 (Z.eqb_neq e 0) He) in Hr. cbn [negb andb] in Hr. apply elem_of_cons in Hin as [->|Hin].
  - rewrite Hq in Hr. destruct (Z.eqb_spec (effective_uid q) e); [|done]. cbn [negb] in Hr.
    destruct (Z.ltb_spec n (nice q)); [done|]. by split.
  - destruct (procs !! x) as [t|]; [|by eapply IH]. destruct (negb _); [done|]. destruct (_ <? _); [done|]. by eapply IH.
Qed.

Lemma foldl_alter_lookup (g : ProcessIdentity → ProcessIdentity) (pids : list Z) : (∀ q, g (g q) = g q) →
  ∀ (procs : gmap Z ProcessIdentity) (pid : Z),
  foldl (λ m pid, alter g pid m) procs pids !! pid = (λ q, if bool_decide (pid ∈ pids) then g q else q) <$> procs !! pid.
Proof.
  intros Hg. induction pids as [|x pids IH]; intros procs pid; cbn [foldl].
  - rewrite bool_decide_eq_false_2 by apply not_elem_of_nil. by destruct (procs !! pid).
  - rewrite IH. destruct (decide (x = pid)) as [->|Hne].
    + rewrite lookup_alter_eq, (bool_decide_eq_true_2 (pid ∈ pid :: pids)) by (by left).
      destruct (procs !! pid) as [q|]; [|done]. cbn. f_equal. case_bool_decide; [apply Hg|done].
    + rewrite lookup_alter_ne by done. destruct (procs !! pid) as [q|]; [|done]. cbn. f_equal.
      by rewrite (bool_decide_ext (pid ∈ x :: pids) (pid ∈ pids)) by set_solver.
Qed.

Lemma best_nice_spec (procs : gmap Z ProcessIdentity) (n : Z) (pids : list Z) : pids ≠ [] → (∀ pid, pid ∈ pids → ∃ q, procs !! pid = Some q ∧ nice q = n) →
  foldl (λ best pid, match procs !! pid with
    | None => best
    | Some target => Some (match best with Some old => Z.min old (nice target) | None => nice target end)
    end) None pids = Some n.
Proof.
  intros Hne Hall. assert (∀ b, b = None ∨ b = Some n → (pids ≠ [] ∨ b = Some n) → foldl (λ best pid, match procs !! pid with
    | None => best
    | Some target => Some (match best with Some old => Z.min old (nice target) | None => nice target end)
    end) b pids = Some n) as H; [|apply H; auto].
  clear Hne. induction pids as [|x pids IH]; intros b Hb Hor; cbn; [naive_solver|].
  destruct (Hall x) as (q & -> & Hn); [by left|]. apply IH; [set_solver| |]; right; destruct Hb as [->| ->]; rewrite Hn; f_equal; lia.
Qed.

Lemma selected_nice (procs procs' : gmap Z ProcessIdentity) self which who p p' g pid : (∀ q, pgid (g q) = pgid q ∧ effective_uid (g q) = effective_uid q) →
  (∀ x, ∃ b : bool, procs' !! x = (λ q, if b then g q else q) <$> procs !! x) →
  pgid p' = pgid p → effective_uid p' = effective_uid p →
  selected procs' self which who p' pid ↔ selected procs self which who p pid.
Proof.
  intros Hg Hm Hpg Heu. unfold selected. rewrite Hpg, Heu. destruct (Hm pid) as [b Hb]. rewrite Hb. split.
  - intros (q' & Hq' & Hsel). apply fmap_Some in Hq' as (q & Hq & ->). exists q. split; [done|].
    destruct (Hg q) as [H1 H2]. destruct b; rewrite ?H1, ?H2 in Hsel; exact Hsel.
  - intros (q & Hq & Hsel). rewrite Hq. exists (if b then g q else q). split; [done|].
    destruct (Hg q) as [H1 H2]. destruct b; rewrite ?H1, ?H2; exact Hsel.
Qed.

(** Changing priorities.  If setpriority succeeds, every process it selects
    (by pid, group or user) has the new nice value, clamped to [-20, 19], nothing
    else changes, and getpriority with the same selection then reports it.  A
    caller that is not root has then only touched processes of its own user, and
    raised no priority.  If it fails, nothing has changed. *)
Theorem set_priority_exact procs self which who prio p :
  procs !! self = Some p → 0 <= who →
  let '(r, procs') := sys_set_priority procs self which who prio p in
  let n := clamp_nice prio in
  (r = 0 →
     (∀ pid q, procs !! pid = Some q → selected procs self which who p pid → procs' !! pid = Some (set_nice n q)) ∧
     (∀ pid, ¬ selected procs self which who p pid → procs' !! pid = procs !! pid) ∧
     (∀ p', procs' !! self = Some p' → sys_get_priority procs' self which who p' = 20 - n) ∧
     (effective_uid p ≠ 0 → ∀ pid q, selected procs self which who p pid → procs !! pid = Some q →
        effective_uid q = effective_uid p ∧ nice q <= n)) ∧
  (r ≠ 0 → procs' = procs).
Proof.
  intros Hself Hwho. unfold sys_set_priority. pose proof (collect_spec procs self which who p) as Hc.
  destruct (collect_priority_target_pids procs self which who p) as [l|e] eqn:Hl.
  2:{ split; [|done]. intros ->. exfalso. unfold collect_priority_target_pids, errno in Hl. repeat case_match; simplify_eq. }
  destruct Hc as [Hne Hin]. destruct (priority_refused _ _ _ l) as [e|] eqn:Hr.
  { split; [|done]. intros ->. exfalso. clear -Hr. induction l as [|x l IH]; [done|]. cbn in Hr. unfold errno in Hr.
    repeat case_match; simplify_eq; auto. }
  assert (existsb (λ pid, bool_decide (is_Some (procs !! pid))) l = true) as ->.
  { destruct l as [|x l]; [done|]. cbn. destruct (proj1 (Hin x) ltac:(by left)) as (q & -> & _). by rewrite bool_decide_eq_true_2. }
  set (n := clamp_nice prio) in *. set (procs' := foldl _ procs l).
  assert (∀ pid, procs' !! pid = (λ q, if bool_decide (pid ∈ l) then set_nice n q else q) <$> procs !! pid) as Hlook
    by (intros; by apply foldl_alter_lookup).
  split; [|done]. intros _. split_and!.
  - intros pid q Hq Hs. rewrite Hlook, Hq. cbn. by rewrite bool_decide_eq_true_2 by (by apply Hin).
  - intros pid Hs. rewrite Hlook. rewrite bool_decide_eq_false_2 by (by rewrite Hin). by destruct (procs !! pid).
  - intros p' Hp'. rewrite Hlook, Hself in Hp'. injection Hp' as Hp'.
    assert (∀ pid, selected procs' self which who p' pid ↔ selected procs self which who p pid) as Hsel.
    { intros pid. apply (selected_nice _ _ _ _ _ _ _ (set_nice n)); [done| |by subst p'; case_bool_decide..].
      intros x. rewrite Hlook. by eexists. }
    pose proof (collect_spec procs' self which who p') as Hc'. unfold sys_get_priority.
    destruct (collect_priority_target_pids procs' self which who p') as [l'|e].
    + destruct Hc' as [Hne' Hin']. rewrite (best_nice_spec _ n); [done|done|].
      intros pid Hpid%Hin'%Hsel. pose proof Hpid as (q & Hq & _). exists (set_nice n q). rewrite Hlook, Hq. cbn.
      by rewrite bool_decide_eq_true_2 by (by apply Hin).
    + exfalso. destruct l as [|x l]; [done|]. assert (selected procs self which who p x) as Hx by (apply Hin; by left).
      pose proof Hx as (q & _ & Hw). destruct Hc' as [Hw'|[?|Hno]]; [naive_solver|lia|]. by apply (Hno x), Hsel.
  - intros He pid q Hs%Hin Hq. by eapply priority_refused_spec.
Qed.

(** ** Resource limits *)

Definition rlimit_ok (l : RLimit) : Prop := 0 <= rlim_cur l <= rlim_max l ∧ rlim_max l < 2 ^ 64.
Definition rlimits_ok (rl : list RLimit) : Prop := length rl = 16%nat ∧ Forall rlimit_ok rl.

(** A call to prlimit64: the memory it sees and its arguments. *)
Definition rlimit_call (U : Type) : Type := U * (Z * Z * Z * Z * Z).

Section rlimits.
Context {U : Type} {UM : UserMemory U} {UMS : UserMemorySpec U}.

Fixpoint run_rlimits (calls : list (rlimit_call U)) (rl : list RLimit) : outcome (list RLimit) :=
  match calls with
  | [] => Ret rl
  | (u, (self, pid, resource, new_limit, old_limit)) :: calls =>
      match sys_prlimit64 u rl self pid resource new_limit old_limit with
      | Panic => Panic
      | Ret (_, rl, _) => run_rlimits calls rl
      end
  end.

Lemma read_rlimit u addr b : user_read u addr 16 = Some b → rlim_cur (mkRLimit (le_get (take 8 b)) (le_get (drop 8 b))) <=
  rlim_max (mkRLimit (le_get (take 8 b)) (le_get (drop 8 b))) → rlimit_ok (mkRLimit (le_get (take 8 b)) (le_get (drop 8 b))).
Proof.
  intros [Hl Hb]%user_read_bytes Hle. cbn in Hle. unfold rlimit_ok. cbn.
  pose proof (le_get_range (take 8 b) (Forall_take _ _ _ Hb)). pose proof (le_get_range (drop 8 b) (Forall_drop _ _ _ Hb)) as Hd.
  rewrite length_drop, Hl in Hd. change (256 ^ Z.of_nat (16 - 8)) with (2 ^ 64) in Hd. lia.
Qed.

Lemma prlimit64_ok u rl self pid resource new_limit old_limit : rlimits_ok rl → 0 <= resource →
  ∃ r rl' u', sys_prlimit64 u rl self pid resource new_limit old_limit = Ret (r, rl', u') ∧ rlimits_ok rl'.
Proof.
  intros [Hl Hok] Hres. unfold sys_prlimit64. destruct (Z.leb_spec RLIMIT_NLIMITS resource); [by eexists _, _, _|].
  destruct (negb (pid =? 0) && negb (pid =? self)); [by eexists _, _, _|].
  destruct (lookup_lt_is_Some_2 rl (Z.to_nat resource)) as [old Hold]; [lia|]. rewrite Hold.
  destruct (if old_limit =? 0 then _ else _) as [ok u']. destruct ok; cbn [negb]; [|by eexists _, _, _].
  destruct (new_limit =? 0); [by eexists _, _, _|]. destruct (user_read u' new_limit 16) as [b|] eqn:Hb; [|by eexists _, _, _].
  case_match eqn:E; [by eexists _, _, _|]. apply Z.ltb_ge in E. eexists _, _, _. split; [done|]. split.
  - by rewrite length_insert.
  - apply Forall_insert; [done|]. by eapply read_rlimit.
Qed.

(** Resource limits stay sensible.  Whatever prlimit64 calls a process
    makes, there are always sixteen limits, each with its soft value at most its
    hard value and both 64-bit, so that reading a limit never indexes out of
    range. *)
Theorem rlimits_invariant (calls : list (rlimit_call U)) :
  Forall (λ c : rlimit_call U, 0 <= c.2.1.1.2) calls →
  ∃ rl, run_rlimits calls default_rlimits = Ret rl ∧ rlimits_ok rl.
Proof.
  assert (rlimits_ok default_rlimits) as H.
  { split; [done|]. unfold default_rlimits. do 2 (apply Forall_insert; [|unfold rlimit_ok; cbn; lia]).
    apply Forall_replicate. unfold rlimit_ok. cbn. lia. }
  revert H. generalize default_rlimits. induction calls as [|[u [[[[self pid] resource] n] o]] calls IH]; intros rl Hrl Hc; cbn.
  { by eexists. }
  apply Forall_cons in Hc as [Hres Hc]. cbn in Hres.
  destruct (prlimit64_ok u rl self pid resource n o Hrl Hres) as (r & rl' & u' & -> & Hrl'). by apply IH.
Qed.
End rlimits.

(** ** Unchecked pointers *)

(** A table whose upper half maps memory for the kernel only, as a gigapage at
    physical 0x80000000, and which maps no user page. *)
Definition kernel_half_mem : pmem :=
  {[ 101 := {[258 := PageTableEntry_new 0x80000 (Z.lor PTE_V (Z.lor PTE_R PTE_W))]};
     0x80200 := {[0 := 0x1122334455667788]} ]}.
Definition kernel_half_token : Z := Z.lor (Z.shiftl 8 60) 101.

(** getgroups trusts its pointer.  It goes through [translated_refmut],
    which looks at no permission: a pointer into the upper half, on a page the
    user may not touch, makes the kernel clear four bytes of its own memory, and
    a pointer that is not mapped makes the kernel panic. *)
Theorem getgroups_unchecked_pointer :
  (PageTable_translate kernel_half_mem (PageTable_from_token kernel_half_token) (page_of 0xffffffc080200000) ≠ None ∧
   page_access kernel_half_mem (PageTable_from_token kernel_half_token) true (page_of 0xffffffc080200000) = None ∧
   (λ r, (r.1, pm_word r.2 0x80200 0)) <$> (match sys_getgroups kernel_half_mem kernel_half_token 1 0xffffffc080200000 with
      Ret r => Some r | Panic => None end) = Some (1, 0x1122334400000000)) ∧
  sys_getgroups kernel_half_mem kernel_half_token 1 0x1000 = Panic.
Proof. vm_compute. split_and!; done. Qed.

(** ** Examples *)

Definition user_1000 : ProcessIdentity :=
  mkProcessIdentity 1000 1000 1001 1000 100 100 100 100 5 0xff 0x0f 0 0xff 7 7.
Definition demo_calls : list (id_call (U:=list Z)) :=
  [CSetuid 0; CSetreuid 1000 1001; CSetresuid NEG1 1000 1001; CSetfsuid 0; CSetgid 0; CSetresgid 100 0 100].

Lemma unprivileged_ids_confined_witness :
  uids (foldl id_step user_1000 demo_calls) = [1000; 1000; 1001] ∧
  ∀ x, x ∈ uids (foldl id_step user_1000 demo_calls) → x ∈ uids user_1000.
Proof.
  split; [vm_compute; reflexivity|]. destruct (unprivileged_ids_confined demo_calls user_1000) as [H' _];
    [apply (bool_decide_unpack _); vm_compute; exact Logic.I..|exact H'].
Defined.

(** The header (version 3, own pid) and the data 0x03, 0x07, 0x00 in the low words. *)
Definition cap_memory : list Z :=
  repeat 0 8 ++ cap_header CAP_V3 0 ++ cap_data 3 7 0 ++ cap_data 0 0 0 ++ repeat 9 32.

Lemma capabilities_shrink_witness :
  cap_effective (foldl id_step user_1000 [CCapset cap_memory 7 8 16]) = 3 ∧
  caps_within user_1000 (foldl id_step user_1000 [CCapset cap_memory 7 8 16]).
Proof.
  split; [vm_compute; reflexivity|]. apply (capabilities_shrink [CCapset cap_memory 7 8 16] user_1000).
  apply ldiff_subset. vm_compute. reflexivity.
Defined.

Lemma setuid_keeps_way_back_witness :
  effective_uid (sys_setreuid NEG1 0 (sys_setuid 1000 initproc_identity).2).2 = 0 ∧
  uids (sys_setuid 1000 initproc_identity).2 = [1000; 1000; 0].
Proof. split; apply (setuid_keeps_way_back initproc_identity 1000); reflexivity. Defined.

Lemma capset_capget_roundtrip_witness :
  let p' := (sys_capset cap_memory 7 8 16 user_1000).1.2 in
  (sys_capget (λ _, false) cap_memory 7 8 40 p').1 = 0 ∧
  take 24 (drop 40 (sys_capget (λ _, false) cap_memory 7 8 40 p').2) = cap_data 3 7 0 ++ cap_data 0 0 0.
Proof.
  cbv zeta. pose (u3 := (proc_copy_to_user cap_memory 40 (cap_data 3 7 0)).2).
  rewrite (capset_capget_roundtrip (λ _, false) cap_memory cap_memory 7 8 16 user_1000 (sys_capset cap_memory 7 8 16 user_1000).1.2
    (cap_header CAP_V3 0) (cap_data 3 7 0) (cap_data 0 0 0) cap_memory u3 (proc_copy_to_user u3 52 (cap_data 0 0 0)).2 8 40);
    try (vm_compute; reflexivity); try (vm_compute; discriminate). split; vm_compute; reflexivity.
Defined.

Definition demo_procs : gmap Z ProcessIdentity := {[ 7 := user_1000; 8 := set_nice 3 user_1000; 1 := initproc_identity ]}.
Lemma set_priority_exact_witness :
  sys_set_priority demo_procs 7 2 0 25 user_1000 = (0, <[7 := set_nice 19 user_1000]> (<[8 := set_nice 19 user_1000]> demo_procs)) ∧
  (sys_set_priority demo_procs 7 2 0 25 user_1000).2 !! 1 = demo_procs !! 1.
Proof.
  split; [vm_compute; reflexivity|].
  pose proof (set_priority_exact demo_procs 7 2 0 25 user_1000 eq_refl ltac:(done)) as H'.
  destruct (sys_set_priority demo_procs 7 2 0 25 user_1000) as [r procs'] eqn:E.
  assert (r = 0) as Hr by (vm_compute in E; by injection E). apply H'; [done|].
  intros (q & Hq & [[? _]|[[? _]|[_ Hu]]]); [done|done|]. vm_compute in Hq. injection Hq as <-. vm_compute in Hu. done.
Defined.

Lemma rlimits_invariant_witness :
  ∃ rl, run_rlimits [(repeat 1 16, (7, 0, 7, 0, 8)); (repeat 1 32, (7, 7, 3, 8, 0))] default_rlimits = Ret rl ∧ rlimits_ok rl.
Proof. apply (rlimits_invariant [(repeat 1 16, (7, 0, 7, 0, 8)); (repeat 1 32, (7, 7, 3, 8, 0))]). repeat constructor; done. Defined.
