(* ===== verification/Signals.v ===== *)
(** * Signals (os/src/task/mod.rs, os/src/task/process.rs, os/src/syscall/process.rs)

    Pending signals of processes and threads, masks and actions, sending with
    kill, tkill and tgkill, the delivery on the way back to user mode with its
    frame on the user stack, sigreturn, and the calls that wait for signals.  The
    delivery and the return are shown to be inverse to each other, and sending to
    reach exactly the processes it names. *)

From stdpp Require Import base gmap list numbers list_numbers option.
From S2P Require Import Prelude Errno UserIface Creds.

(** ** Sets of signals *)

(** [SignalFlags]: 64 bits, signal [n] is bit [n - 1]. *)
Abbreviation MAX_SIG := (64).
Abbreviation SIGKILL := (9).
Abbreviation SIGSEGV := (11).
Abbreviation SIGCHLD := (17).
Abbreviation SIGCONT := (18).
Abbreviation SIGSTOP := (19).
Definition sig_flag (signum : Z) : Z := Z.shiftl 1 (signum - 1).
Abbreviation KILL_STOP := (Z.lor (sig_flag 9) (sig_flag 19)).
Definition has_sig (flags signum : Z) : bool := Z.testbit flags (signum - 1).

(** [bits.trailing_zeros()] *)
Definition trailing_zeros (bits : Z) : Z :=
  match list_find (λ i, Z.testbit bits i = true) (seqZ 0 64) with Some (_, i) => i | None => 64 end.

Definition signal_flag_from_signum (signum : Z) : result Z Z :=
  if (signum <=? 0) || (MAX_SIG <? signum) then Err (errno EINVAL) else Ok (sig_flag signum).

(** ** State *)

(** The trap context: registers, status and program counter. *)
Record TrapContext : Type := mkCx { regs : list Z; sstatus : Z; sepc : Z }.
Definition reg (i : nat) (cx : TrapContext) : Z := default 0 (regs cx !! i).
Definition set_reg (i : nat) (v : Z) (cx : TrapContext) : TrapContext := mkCx (<[i := v]> (regs cx)) (sstatus cx) (sepc cx).
Definition set_sepc (pc : Z) (cx : TrapContext) : TrapContext := mkCx (regs cx) (sstatus cx) pc.
Abbreviation RA := (1)%nat.
Abbreviation SP := (2)%nat.
Abbreviation A0 := (10)%nat.

Record SignalAction : Type := mkAction { handler : Z; sa_flags : Z; restorer : Z; sa_mask : Z }.
Abbreviation default_action := (mkAction 0 0 0 0).

Record ProcessSignals : Type := mkPS {
  p_pending : Z;
  sender_pids : list Z;
  si_codes : list Z;
  signal_actions : list SignalAction;
}.

Record TaskSignalState : Type := mkTS {
  signal_trap_cx : option TrapContext;
  signal_mask : Z;
  signal_mask_backup : Z;
  t_pending : Z;
  signal_ucontext_ptr : Z;
  signal_canary_ptr : Z;
  interrupted : bool;
  handling_sig : Z;
}.

(** A thread, and what a process keeps besides its signals: its threads by
    number ([None] once gone) and the state that ptrace and wait look at. *)
Record Thread : Type := mkThread { t_sig : TaskSignalState; t_cx : TrapContext; t_blocked : bool }.
Inductive ChildWaitEvent : Type := Stopped (signum : Z) | Continued (signum : Z).
Record Process : Type := mkProcess {
  p_sig : ProcessSignals;
  p_threads : list (option Thread);
  pr_pgid : Z;
  ptrace_traceme : bool;
  ptrace_stop : option Z;
  wait_event : option ChildWaitEvent;
  group_stopped : bool;
}.

Implicit Types (ps : ProcessSignals) (ts : TaskSignalState) (th : Thread) (pr : Process) (cx : TrapContext).

Definition with_pending (f : Z → Z) ps : ProcessSignals := mkPS (f (p_pending ps)) (sender_pids ps) (si_codes ps) (signal_actions ps).
Definition on_psig (f : ProcessSignals → ProcessSignals) pr : Process :=
  mkProcess (f (p_sig pr)) (p_threads pr) (pr_pgid pr) (ptrace_traceme pr) (ptrace_stop pr) (wait_event pr) (group_stopped pr).
Definition on_threads (f : list (option Thread) → list (option Thread)) pr : Process :=
  mkProcess (p_sig pr) (f (p_threads pr)) (pr_pgid pr) (ptrace_traceme pr) (ptrace_stop pr) (wait_event pr) (group_stopped pr).
Definition set_stop (e : ChildWaitEvent) (stopped : bool) pr : Process :=
  mkProcess (p_sig pr) (p_threads pr) (pr_pgid pr) (ptrace_traceme pr) (ptrace_stop pr) (Some e) stopped.
Definition set_ptrace_stop (signum : Z) pr : Process :=
  mkProcess (p_sig pr) (p_threads pr) (pr_pgid pr) (ptrace_traceme pr) (Some signum) (wait_event pr) (group_stopped pr).
Definition on_tsig (f : TaskSignalState → TaskSignalState) th : Thread := mkThread (f (t_sig th)) (t_cx th) (t_blocked th).
Definition set_mask (m : Z) ts : TaskSignalState :=
  mkTS (signal_trap_cx ts) m (signal_mask_backup ts) (t_pending ts) (signal_ucontext_ptr ts) (signal_canary_ptr ts)
    (interrupted ts) (handling_sig ts).
Definition set_tpending (p : Z) ts : TaskSignalState :=
  mkTS (signal_trap_cx ts) (signal_mask ts) (signal_mask_backup ts) p (signal_ucontext_ptr ts) (signal_canary_ptr ts)
    (interrupted ts) (handling_sig ts).
Definition ts_interrupted ts : TaskSignalState :=
  mkTS (signal_trap_cx ts) (signal_mask ts) (signal_mask_backup ts) (t_pending ts) (signal_ucontext_ptr ts)
    (signal_canary_ptr ts) true (handling_sig ts).

(** ** Pending signals *)

Definition set_pending_signal_siginfo (signum sender code : Z) ps : ProcessSignals :=
  if (signum =? 0) || (MAX_SIG <? signum) then ps
  else mkPS (p_pending ps) (<[Z.to_nat (signum - 1) := sender]> (sender_pids ps))
         (<[Z.to_nat (signum - 1) := code]> (si_codes ps)) (signal_actions ps).
Definition get_pending_signal_siginfo (signum : Z) ps : Z * Z :=
  if (signum =? 0) || (MAX_SIG <? signum) then (0, 0)
  else (default 0 (sender_pids ps !! Z.to_nat (signum - 1)), default 0 (si_codes ps !! Z.to_nat (signum - 1))).
Definition clear_pending_signal_siginfo (signum : Z) ps : ProcessSignals := set_pending_signal_siginfo signum 0 0 ps.

(** The loop visits the bits of [flag] from the lowest on. *)
Definition insert_process_signal (flag sender code : Z) ps : ProcessSignals :=
  foldl (λ ps i, if Z.testbit flag i then set_pending_signal_siginfo (i + 1) sender code ps else ps)
    (with_pending (λ p, Z.lor p flag) ps) (seqZ 0 64).

Definition take_process_signal (signum : Z) ps : ProcessSignals :=
  if (signum =? 0) || (MAX_SIG <? signum) then ps
  else if negb (has_sig (p_pending ps) signum) then ps
  else clear_pending_signal_siginfo signum (with_pending (λ p, Z.ldiff p (sig_flag signum)) ps).

(** The wake-up of a blocked thread: it leaves its wait queue (Futex.v), is marked
    interrupted and becomes ready. *)
Definition wake_thread th : Thread :=
  if t_blocked th then mkThread (ts_interrupted (t_sig th)) (t_cx th) false else th.
Definition wake_task_for_signal (flag : Z) th : Thread :=
  let signal_unmasked := negb (Z.land (signal_mask (t_sig th)) flag =? flag) in
  let force_wake := (flag =? sig_flag SIGKILL) || (flag =? sig_flag SIGCONT) in
  if signal_unmasked || force_wake then wake_thread th else th.

(** ** Sending *)

(** What one target of kill undergoes. *)
Definition signal_process (flag sender : Z) pr : Process :=
  let pr := if (flag =? sig_flag SIGCONT) && group_stopped pr then set_stop (Continued SIGCONT) false pr else pr in
  on_threads (fmap (λ o : option Thread, wake_task_for_signal flag <$> o)) (on_psig (insert_process_signal flag sender 0) pr).

Definition kill_single (procs : gmap Z Process) (pid signum : Z) (flag : option Z) (sender : Z) : outcome (Z * gmap Z Process) :=
  match procs !! pid with
  | None => Ret (errno ESRCH, procs)
  | Some pr =>
      if (pid =? 1) && negb (sender =? 1) then Ret (errno EPERM, procs)
      else if signum =? 0 then Ret (0, procs)
      else match flag with
           | None => Panic
           | Some flag => Ret (0, <[pid := signal_process flag (wrap_i32 sender) pr]> procs)
           end
  end.

(** The targets of a group: not init, and not the sender when all are meant. *)
Definition group_target (target_pgid : option Z) (sender p : Z) pr : bool :=
  negb (p =? 1) &&
  match target_pgid with
  | None => negb (p =? sender)
  | Some pgid => pr_pgid pr =? pgid
  end.
Definition kill_group (procs : gmap Z Process) (target_pgid : option Z) (signum : Z) (flag : option Z) (sender : Z)
    : outcome (Z * gmap Z Process) :=
  let targets := filter (λ kv : Z * Process, group_target target_pgid sender kv.1 kv.2 = true) procs in
  let r := if bool_decide (targets = ∅) then errno ESRCH else 0 in
  if (signum =? 0) || bool_decide (targets = ∅) then Ret (r, procs)
  else match flag with
       | None => Panic
       | Some flag => Ret (r, (signal_process flag (wrap_i32 sender) <$> targets) ∪ procs)
       end.

Definition sys_kill (procs : gmap Z Process) (self caller_pgid pid signum : Z) : outcome (Z * gmap Z Process) :=
  match (if signum =? 0 then Ok None else match signal_flag_from_signum signum with Ok f => Ok (Some f) | Err e => Err e end) with
  | Err e => Ret (e, procs)
  | Ok flag =>
      if 0 <? pid then kill_single procs pid signum flag self
      else if pid =? 0 then kill_group procs (Some caller_pgid) signum flag self
      else if pid =? -1 then kill_group procs None signum flag self
      else kill_group procs (Some (- pid)) signum flag self
  end.

(** [match_user_tid] *)
Definition to_user_tid (pid tid : Z) : Z := if tid =? 0 then pid else pid +w tid.
Definition on_thread (tid : nat) (f : Thread → Thread) pr : Process := on_threads (alter (λ o : option Thread, f <$> o) tid) pr.
Definition send_signal_to_task (target pid flag : Z) pr : Z * Process :=
  match list_find (λ it, is_Some it.2 ∧ to_user_tid pid (Z.of_nat it.1) = target) (imap pair (p_threads pr)) with
  | None => (errno ESRCH, pr)
  | Some (i, _) =>
      (0, on_thread i (λ th, wake_task_for_signal flag (on_tsig (λ ts, set_tpending (Z.lor (t_pending ts) flag) ts) th)) pr)
  end.
Definition sys_tkill (procs : gmap Z Process) (self tid signum : Z) : outcome (Z * gmap Z Process) :=
  if tid <=? 0 then Ret (errno EINVAL, procs)
  else
    match signal_flag_from_signum signum with
    | Err e => Ret (e, procs)
    | Ok flag =>
        match procs !! self with
        | None => Panic
        | Some pr =>
            let '(ret, pr) := send_signal_to_task tid self flag pr in
            if ret =? 0 then Ret (0, <[self := pr]> procs)
            else
              match procs !! tid with
              | None => Ret (ret, procs)
              | Some pr =>
                  if (tid =? 1) && negb (self =? 1) then Ret (errno EPERM, procs)
                  else
                    let '(ret, pr) := send_signal_to_task tid tid flag pr in Ret (ret, <[tid := pr]> procs)
              end
        end
    end.
Definition sys_tgkill (procs : gmap Z Process) (self tgid tid signum : Z) : outcome (Z * gmap Z Process) :=
  if (tgid <=? 0) || (tid <=? 0) then Ret (errno EINVAL, procs)
  else if negb (tgid =? self) then Ret (errno ESRCH, procs)
  else sys_tkill procs self tid signum.

(** ** Delivery *)

(** [find_pending_signal]: the signal, its flag, and whether the process has it. *)
Definition find_pending_signal (process_pending task_pending : Z) : option (Z * Z * bool) :=
  if has_sig process_pending SIGKILL then Some (SIGKILL, sig_flag SIGKILL, true)
  else if negb (task_pending =? 0) then
    let bit_pos := trailing_zeros task_pending in Some (bit_pos + 1, Z.shiftl 1 bit_pos, false)
  else if negb (process_pending =? 0) then
    let bit_pos := trailing_zeros process_pending in Some (bit_pos + 1, Z.shiftl 1 bit_pos, true)
  else None.

(** What becomes of the thread that returns to user mode. *)
Inductive next : Type := Resume | Blocks | Exits (code : Z) | Requeued.

(** [MContext.gregs]: the program counter and the registers from x1 on. *)
Definition ucontext_gregs cx : list Z := sepc cx :: drop 1 (regs cx).
Definition restore_from_ucontext_gregs (gregs : list Z) cx : TrapContext :=
  mkCx (0 :: drop 1 gregs) (sstatus cx) (default 0 (gregs !! 0%nat)).

(** The bytes of a [UserContext]: flags, link and stack, the mask in the first of
    sixteen words, padding, the registers, and the floating-point state. *)
Abbreviation UCONTEXT_SIZE := (704)%nat.
Definition ucontext_bytes cx (sigmask : Z) : list Z :=
  replicate 40 0 ++ le_put 8 sigmask ++ replicate 128 0 ++ concat (le_put 8 <$> ucontext_gregs cx) ++ replicate 272 0.
Definition ucontext_mask (b : list Z) : Z := le_get (take 8 (drop 40 b)).
Definition ucontext_regs (b : list Z) : list Z := (λ i, le_get (take 8 (drop (176 + 8 * i) b))) <$> seq 0 32.

Section deliver.
Context {U : Type} {UM : UserMemory U}.
(** Whether the page of a handler is mapped, whether that of a restorer may be
    used, and where the trampoline is. *)
Variables (handler_mapped restorer_usable : U → Z → bool) (trampoline : Z).

(** [copy_to_user] of task/mod.rs; its result is ignored here. *)
Definition push_bytes (u : U) (ptr : Z) (data : list Z) : U := if ptr =? 0 then u else (user_write u ptr data).2.

Definition siginfo_bytes (signum sender code : Z) : list Z :=
  let code := if ((signum =? 32) || (signum =? 33)) && (code =? 0) then -6 else code in
  le_put 4 signum ++ replicate 4 0 ++ le_put 4 code ++ replicate 4 0 ++ le_put 4 sender ++ replicate 108 0.

Definition setup_signal_stack (signum sender code : Z) cx (saved : TrapContext) (backup : Z) (u : U) (need_siginfo : bool)
    : Z * Z * TrapContext * U :=
  let user_sp := Z.ldiff (reg SP cx) 15 in
  if need_siginfo then
    let ucontext_ptr := Z.max 0 (user_sp - 704) in
    let u := push_bytes u ucontext_ptr (ucontext_bytes saved backup) in
    let info_ptr := Z.max 0 (ucontext_ptr - 128) in
    let u := push_bytes u info_ptr (siginfo_bytes signum sender code) in
    let cx := set_reg 12 ucontext_ptr (set_reg 11 info_ptr (set_reg A0 signum cx)) in
    let user_sp := Z.max 0 (info_ptr - 8) in
    let u := push_bytes u user_sp (le_put 8 0x11451415) in
    (ucontext_ptr, user_sp, set_reg SP user_sp cx, u)
  else
    let cx := set_reg A0 signum cx in
    let user_sp := Z.max 0 (user_sp - 8) in
    let u := push_bytes u user_sp (le_put 8 0x11451415) in
    (0, user_sp, set_reg SP user_sp cx, u).

(** Steps 12 to 14: save the context, block signals, enter the handler. *)
Definition deliver (signum flag sender code : Z) (action : SignalAction) th (u : U) : Thread * U :=
  let ts := t_sig th in
  let '(saved, backup, ts) :=
    match signal_trap_cx ts with
    | Some saved => (saved, signal_mask_backup ts, ts)
    | None =>
        (t_cx th, signal_mask ts,
         mkTS (Some (t_cx th)) (Z.lor (signal_mask ts) (Z.lor (sa_mask action) flag)) (signal_mask ts) (t_pending ts)
           (signal_ucontext_ptr ts) (signal_canary_ptr ts) (interrupted ts) signum)
    end in
  let need_siginfo := any_bit (sa_flags action) 4 || (signum =? 32) || (signum =? 33) in
  let use_restorer :=
    if Z.land (sa_flags action) 0x04000000 =? 0 then false
    else if (restorer action =? 0) || (USER_ADDR_MAX <=? restorer action) then false
    else restorer_usable u (restorer action) in
  let cx := set_reg RA (if use_restorer then restorer action else trampoline) (set_sepc (handler action) (t_cx th)) in
  let '(ucontext_ptr, canary_ptr, cx, u) := setup_signal_stack signum sender code cx saved backup u need_siginfo in
  (mkThread (mkTS (signal_trap_cx ts) (signal_mask ts) (signal_mask_backup ts) (t_pending ts) ucontext_ptr canary_ptr
               (interrupted ts) (handling_sig ts)) cx (t_blocked th), u).

(** The other threads of a process that dies: they get the signal and wake. *)
Definition doom_others (tid : nat) (f : TaskSignalState → TaskSignalState) pr : Process :=
  on_threads (imap (λ i o, if (i =? tid)%nat then o else (λ th, wake_thread (on_tsig f th)) <$> o)) pr.

Definition default_signal (tid : nat) (signum flag : Z) pr : next * Process :=
  if existsb (Z.eqb signum) [SIGCHLD; 23; 28] then (Resume, pr)
  else if signum =? SIGCONT then (Resume, set_stop (Continued SIGCONT) false pr)
  else if existsb (Z.eqb signum) [20; 21; 22] then (Blocks, set_stop (Stopped signum) true pr)
  else (Exits (- signum),
        doom_others tid (λ ts, set_mask (Z.ldiff (signal_mask ts) flag) (set_tpending (Z.lor (t_pending ts) flag) ts)) pr).

(** Steps 8 to 14, for a signal that has been chosen. *)
Definition act_on_signal (tid : nat) (signum flag : Z) (from_process : bool) pr (u : U) : outcome (next * Process * U) :=
  let '(sender, code) := if from_process then get_pending_signal_siginfo signum (p_sig pr) else (0, 0) in
  let pr := if from_process then on_psig (take_process_signal signum) pr
            else on_thread tid (on_tsig (λ ts, set_tpending (Z.ldiff (t_pending ts) flag) ts)) pr in
  if ptrace_traceme pr && negb (signum =? SIGKILL) then Ret (Blocks, set_ptrace_stop signum pr, u)
  else if signum =? SIGSTOP then Ret (Blocks, set_stop (Stopped SIGSTOP) true pr, u)
  else if signum =? SIGKILL then
    Ret (Exits (- SIGKILL), doom_others tid (λ ts, set_tpending (Z.lor (t_pending ts) (sig_flag SIGKILL)) ts) pr, u)
  else
    match signal_actions (p_sig pr) !! Z.to_nat signum with
    | None => Panic
    | Some action =>
        let invalid := (signum =? SIGCHLD) && negb (handler action =? 0) && negb (handler_mapped u (handler action)) in
        let action := if invalid then default_action else action in
        let pr := if invalid
                  then on_psig (λ ps, mkPS (p_pending ps) (sender_pids ps) (si_codes ps)
                                        (<[Z.to_nat signum := action]> (signal_actions ps))) pr
                  else pr in
        if handler action =? 1 then Ret (Resume, pr, u)
        else if ((USER_ADDR_MAX <=? handler action) && (1 <? handler action)) || (handler action =? 0)
        then let '(r, pr) := default_signal tid signum flag pr in Ret (r, pr, u)
        else
          match mjoin (p_threads pr !! tid) with
          | None => Panic
          | Some th => let '(th, u) := deliver signum flag sender code action th u in Ret (Resume, on_thread tid (λ _, th) pr, u)
          end
    end.

Definition handle_signals (tid : nat) pr (u : U) : outcome (next * Process * U) :=
  match mjoin (p_threads pr !! tid) with
  | None => Ret (Resume, pr, u)
  | Some th =>
      let ts := t_sig th in
      if negb (handling_sig ts =? -1) then Ret (Resume, pr, u)
      else
        let process_pending := Z.ldiff (p_pending (p_sig pr)) (signal_mask ts) in
        let task_pending := Z.ldiff (t_pending ts) (signal_mask ts) in
        if Z.lor process_pending task_pending =? 0 then Ret (Resume, pr, u)
        else
          match find_pending_signal process_pending task_pending with
          | None => Ret (Resume, pr, u)
          | Some (signum, flag, from_process) =>
              if t_blocked th then Ret (Requeued, on_thread tid wake_thread pr, u)
              else if bool_decide (is_Some (signal_trap_cx ts)) && negb (signum =? SIGKILL) then Ret (Resume, pr, u)
              else act_on_signal tid signum flag from_process pr u
          end
  end.

(** ** Returning from a handler *)

(** The thread after [sys_sigreturn] and its return value, or the exit of the
    thread.  [sig_page]: whether the call comes from the trampoline page. *)
Definition sys_sigreturn (sig_page : Z → bool) (tid : nat) pr (u : U) : outcome (result Z Z * Process) :=
  match mjoin (p_threads pr !! tid) with
  | None => Panic
  | Some th =>
      let ts := t_sig th in
      let cleared (cx : option TrapContext) (uptr canary : Z) := 
        mkTS cx (signal_mask ts) (signal_mask_backup ts) (t_pending ts) uptr canary (interrupted ts) (-1) in
      match signal_trap_cx ts with
      | None =>
          if sig_page (sepc (t_cx th))
          then Ret (Err (- SIGSEGV), on_thread tid (on_tsig (λ _, cleared None 0 0)) pr)
          else Ret (Ok (errno EINVAL), pr)
      | Some saved =>
          let uc := signal_ucontext_ptr ts in
          match (if uc =? 0 then Ok (saved, signal_mask_backup ts)
                 else match user_read u uc UCONTEXT_SIZE with
                      | None => Err tt
                      | Some b => Ok (restore_from_ucontext_gregs (ucontext_regs b) saved,
                                      Z.ldiff (ucontext_mask b) KILL_STOP)
                      end) with
          | Err _ => Ret (Err (- SIGSEGV), on_thread tid (on_tsig (λ _, cleared None 0 0)) pr)
          | Ok (restored, mask) =>
              let current_sig := handling_sig ts in
              let mask := if (current_sig =? 33) && negb (sepc restored =? sepc saved)
                          then Z.ldiff (Z.ldiff mask (sig_flag 33)) KILL_STOP else mask in
              let pr := on_thread tid (λ th, mkThread (set_mask mask (cleared None 0 0)) restored (t_blocked th)) pr in
              if (0 <=? current_sig) && (current_sig <=? MAX_SIG) then
                match signal_actions (p_sig pr) !! Z.to_nat current_sig with
                | None => Panic
                | Some action =>
                    let pr := if any_bit (sa_flags action) 0x80000000
                              then on_psig (λ ps, mkPS (p_pending ps) (sender_pids ps) (si_codes ps)
                                                    (<[Z.to_nat current_sig := default_action]> (signal_actions ps))) pr
                              else pr in
                    Ret (Ok (reg A0 restored), pr)
                end
              else Ret (Ok (reg A0 restored), pr)
          end
      end
  end.

(** ** Masks and actions *)

Definition sys_sigprocmask (how set oldset sigsetsize : Z) (u : U) ts : Z * TaskSignalState * U :=
  if negb (sigsetsize =? 8) then (errno EINVAL, ts, u)
  else
    let '(ok, u) := if oldset =? 0 then (true, u) else proc_copy_to_user u oldset (le_put 8 (signal_mask ts)) in
    if negb ok then (errno EFAULT, ts, u)
    else if set =? 0 then (0, ts, u)
    else if negb (existsb (Z.eqb how) [0; 1; 2]) then (errno EINVAL, ts, u)
    else
      match user_read u set 8 with
      | None => (errno EFAULT, ts, u)
      | Some b =>
          let new_flags := Z.ldiff (le_get b) KILL_STOP in
          let m := if how =? 0 then Z.lor (signal_mask ts) new_flags
                   else if how =? 1 then Z.ldiff (signal_mask ts) new_flags
                   else new_flags in
          (0, set_mask (Z.ldiff m KILL_STOP) ts, u)
      end.

Definition action_bytes (a : SignalAction) : list Z :=
  le_put 8 (handler a) ++ le_put 8 (sa_flags a) ++ le_put 8 (restorer a) ++ le_put 8 (sa_mask a).
Definition action_of (b : list Z) : SignalAction :=
  mkAction (le_get (take 8 b)) (le_get (take 8 (drop 8 b))) (le_get (take 8 (drop 16 b))) (le_get (take 8 (drop 24 b))).

Definition sys_sigaction (signum action old_action : Z) (u : U) ps : outcome (Z * ProcessSignals * U) :=
  if (signum <=? 0) || (MAX_SIG <? signum) || (signum =? SIGKILL) || (signum =? SIGSTOP) then Ret (errno EINVAL, ps, u)
  else
    match signal_actions ps !! Z.to_nat signum with
    | None => Panic
    | Some old =>
        let '(ok, u) := if old_action =? 0 then (true, u) else proc_copy_to_user u old_action (action_bytes old) in
        if negb ok then Ret (errno EFAULT, ps, u)
        else if action =? 0 then Ret (0, ps, u)
        else
          match user_read u action 32 with
          | None => Ret (errno EFAULT, ps, u)
          | Some b =>
              let a := action_of b in
              let a := if Z.land (sa_flags a) 0x04000000 =? 0 then mkAction (handler a) (sa_flags a) 0 (sa_mask a)
                       else if restorer a =? 0 then mkAction (handler a) (Z.ldiff (sa_flags a) 0x04000000) 0 (sa_mask a)
                       else a in
              Ret (0, mkPS (p_pending ps) (sender_pids ps) (si_codes ps) (<[Z.to_nat signum := a]> (signal_actions ps)), u)
          end
    end.

(** ** Waiting for signals *)

(** The waiting loops give way to the other tasks; a schedule lists what these do
    to the process in between, and the time at which the caller runs again. *)

Definition sys_rt_sigsuspend (mask_ptr sigsetsize : Z) (tid : nat) (sched : list (Process → Process)) pr (u : U)
    : option Z * Process :=
  if mask_ptr =? 0 then (Some (errno EFAULT), pr)
  else if negb (sigsetsize =? 8) then (Some (errno EINVAL), pr)
  else
    match user_read u mask_ptr 8, mjoin (p_threads pr !! tid) with
    | Some b, Some th =>
        let old := signal_mask (t_sig th) in
        let has_signal pr :=
          match mjoin (p_threads pr !! tid) with
          | Some th => negb (Z.ldiff (Z.lor (p_pending (p_sig pr)) (t_pending (t_sig th))) (signal_mask (t_sig th)) =? 0)
          | None => false
          end in
        let fix wait (sched : list (Process → Process)) pr :=
          if has_signal pr then (Some (errno EINTR), on_thread tid (on_tsig (set_mask old)) pr)
          else match sched with
               | [] => (None, pr)
               | others :: sched => wait sched (others pr)
               end in
        wait sched (on_thread tid (on_tsig (set_mask (Z.ldiff (le_get b) KILL_STOP))) pr)
    | _, _ => (Some (errno EFAULT), pr)
    end.

(** What one round of [sys_rt_sigtimedwait] finds: a signal of the set, with
    whether the process has it, or that it has to give up. *)
Fixpoint timedwait_scan (sigset process_pending : Z) ps ts (signums : list Z) : option (Z * bool) * bool :=
  match signums with
  | [] => (None, false)
  | signum :: signums =>
      if (signum =? SIGKILL) || (signum =? SIGSTOP) || negb (has_sig (Z.lor process_pending (t_pending ts)) signum)
      then timedwait_scan sigset process_pending ps ts signums
      else if has_sig sigset signum then (Some (signum, has_sig process_pending signum), false)
      else if has_sig (signal_mask ts) signum then timedwait_scan sigset process_pending ps ts signums
      else
        let h := default 0 (handler <$> signal_actions ps !! Z.to_nat signum) in
        if (h =? 1) || ((h =? 0) && existsb (Z.eqb signum) [SIGCHLD; 23; 28])
        then timedwait_scan sigset process_pending ps ts signums
        else (None, true)
  end.
Definition timedwait_round (sigset : Z) pr ts : option (Z * bool) * bool :=
  let pending := p_pending (p_sig pr) in
  if negb (Z.land (Z.lor pending (t_pending ts)) KILL_STOP =? 0) then (None, true)
  else timedwait_scan sigset pending (p_sig pr) ts (seqZ 1 64).

(** A schedule lists the time at which each round ends and what the others do
    before the next one. *)
Fixpoint timedwait_loop (sigset info : Z) (deadline : option Z) (tid : nat) (sched : list (Z * (Process → Process))) pr (u : U)
    : option Z * Process * U :=
  match mjoin (p_threads pr !! tid) with
  | None => (None, pr, u)
  | Some th =>
      match timedwait_round sigset pr (t_sig th) with
      | (Some (signum, from_process), _) =>
          let '(sender, code) := if from_process then get_pending_signal_siginfo signum (p_sig pr) else (0, 0) in
          let bytes := le_put 4 signum ++ replicate 4 0 ++ le_put 4 code ++ replicate 4 0 ++ le_put 4 sender ++ replicate 108 0 in
          let '(ok, u) := if info =? 0 then (true, u) else proc_copy_to_user u info bytes in
          if negb ok then (Some (errno EFAULT), pr, u)
          else
            (Some signum,
             if from_process then on_psig (take_process_signal signum) pr
             else on_thread tid (on_tsig (λ ts, set_tpending (Z.ldiff (t_pending ts) (sig_flag signum)) ts)) pr, u)
      | (None, true) => (Some (errno EINTR), pr, u)
      | (None, false) =>
          match sched with
          | [] => (None, pr, u)
          | (t, others) :: sched =>
              if match deadline with Some dl => dl <=? t | None => false end then (Some (errno EAGAIN), pr, u)
              else timedwait_loop sigset info deadline tid sched (others pr) u
          end
      end
  end.

Definition saturate (z : Z) : Z := Z.min z (2 ^ 64 - 1).
Definition sys_rt_sigtimedwait (set info timeout start : Z) (tid : nat) (sched : list (Z * (Process → Process))) pr (u : U)
    : option Z * Process * U :=
  if set =? 0 then (Some (errno EFAULT), pr, u)
  else
    match user_read u set 8 with
    | None => (Some (errno EFAULT), pr, u)
    | Some b =>
        match (if timeout =? 0 then Ok None
               else match user_read u timeout 16 with
                    | None => Err (errno EFAULT)
                    | Some t =>
                        let nsec := le_get (drop 8 t) in
                        if 1000000000 <=? nsec then Err (errno EINVAL)
                        else Ok (Some (saturate (saturate (le_get (take 8 t) * 1000000) + nsec / 1000)))
                    end) with
        | Err e => (Some e, pr, u)
        | Ok timeout_us =>
            if (le_get b =? 0) && bool_decide (timeout_us = None) then (Some (errno EINVAL), pr, u)
            else timedwait_loop (le_get b) info ((λ d, saturate (start + d)) <$> timeout_us) tid sched pr u
        end
    end.
End deliver.

(** ** Bits *)

Lemma has_sig_flag s n : 1 <= s → 1 <= n → has_sig (sig_flag s) n = bool_decide (s = n).
Proof.
  intros Hs Hn. unfold has_sig, sig_flag. rewrite Z.shiftl_1_l, Z.pow2_bits_eqb by lia.
  case_bool_decide; [subst; apply Z.eqb_refl|apply Z.eqb_neq; lia].
Qed.
Lemma has_sig_lor x y n : has_sig (Z.lor x y) n = has_sig x n || has_sig y n.
Proof. apply Z.lor_spec. Qed.
Lemma has_sig_ldiff x y n : has_sig (Z.ldiff x y) n = has_sig x n && negb (has_sig y n).
Proof. apply Z.ldiff_spec. Qed.

Lemma trailing_zeros_spec z : is_usize z → z ≠ 0 →
  0 <= trailing_zeros z < 64 ∧ Z.testbit z (trailing_zeros z) = true ∧
  ∀ i, 0 <= i < trailing_zeros z → Z.testbit z i = false.
Proof.
  intros Hz Hne. unfold trailing_zeros. destruct (list_find _ _) as [[j i]|] eqn:E.
  - apply list_find_Some in E as (Hj & Hb & Hlow). pose proof Hj as Hj'. apply lookup_seqZ in Hj as [-> Hj].
    split_and!; [lia|lia|done|]. intros i Hi. apply not_true_is_false. intros Hti.
    apply (Hlow (Z.to_nat i) i); [|lia|done]. apply lookup_seqZ. lia.
  - apply list_find_None in E. exfalso. apply Hne, Z.bits_inj_0. intros i. apply not_true_is_false. intros Hti.
    destruct (decide (0 <= i < 64)) as [Hi|Hi].
    + eapply (Forall_lookup_1 _ _ (Z.to_nat i) i) in E; [done|]. apply lookup_seqZ. lia.
    + destruct (decide (i < 0)); [by rewrite Z.testbit_neg_r in Hti by lia|].
      rewrite Z.bits_above_log2 in Hti; [done|unfold is_usize in Hz; lia|].
      apply Z.log2_lt_pow2; unfold is_usize, USIZE in *; [lia|].
      eapply Z.lt_le_trans; [apply Hz|]. apply (Z.pow_le_mono_r 2 64 i); lia.
Qed.

(** ** The frame of a handler *)

(** A register file of a user program: x0 is zero. *)
Record cx_wf cx : Prop := {
  cw_len : length (regs cx) = 32%nat;
  cw_x0 : regs cx !! 0%nat = Some 0;
  cw_regs : Forall is_usize (regs cx);
  cw_pc : is_usize (sepc cx);
}.

Lemma ucontext_length cx m : length (regs cx) = 32%nat → length (ucontext_bytes cx m) = UCONTEXT_SIZE.
Proof.
  intros Hl. unfold ucontext_bytes. rewrite !length_app, !length_replicate, le_put_length, (length_chunks 8).
  - rewrite length_fmap. unfold ucontext_gregs. cbn [length]. rewrite length_drop, Hl. lia.
  - apply Forall_fmap, Forall_true. intros z. apply le_put_length.
Qed.

Lemma ucontext_mask_put cx m : is_usize m → ucontext_mask (ucontext_bytes cx m) = m.
Proof.
  intros Hm. unfold ucontext_mask, ucontext_bytes. rewrite drop_app_length' by by rewrite length_replicate.
  rewrite take_app_length' by by rewrite le_put_length. rewrite le_get_put. apply Z.mod_small, Hm.
Qed.

Lemma ucontext_regs_put cx m : cx_wf cx → ucontext_regs (ucontext_bytes cx m) = ucontext_gregs cx.
Proof.
  intros [Hl H0 Hr Hpc]. assert (length (ucontext_gregs cx) = 32%nat) as Hlg.
  { unfold ucontext_gregs. cbn [length]. rewrite length_drop. lia. }
  assert (Forall is_usize (ucontext_gregs cx)) as Hg.
  { unfold ucontext_gregs. constructor; [done|]. by apply Forall_drop. }
  apply list_eq_same_length with (n := 32%nat); [done|unfold ucontext_regs; by rewrite length_fmap, length_seq|].
  intros i x y Hi. unfold ucontext_regs. rewrite list_lookup_fmap, lookup_seq_lt by lia. cbn [fmap option_fmap option_map].
  intros Hv%(inj Some) Hx. subst x. rewrite ?Nat.add_0_l. unfold ucontext_bytes.
  set (pre := replicate 40 0 ++ le_put 8 m ++ replicate 128 0).
  replace (replicate 40 0 ++ le_put 8 m ++ replicate 128 0 ++ concat (le_put 8 <$> ucontext_gregs cx) ++ replicate 272 0)
    with (pre ++ concat (le_put 8 <$> ucontext_gregs cx) ++ replicate 272 0) by (unfold pre; by rewrite <-!app_assoc).
  replace (176 + 8 * i)%nat with (length pre + 8 * i)%nat
    by (unfold pre; by rewrite !length_app, !length_replicate, le_put_length).
  rewrite drop_app_add.
  rewrite take_drop_commute, take_app_le.
  2:{ rewrite (length_chunks 8); [rewrite length_fmap; lia|]. apply Forall_fmap, Forall_true. intros z. apply le_put_length. }
  rewrite <-take_drop_commute. replace (8 * i)%nat with (8 * i + 0)%nat by lia.
  rewrite (chunk_read 8); [|apply Forall_fmap, Forall_true; intros z; apply le_put_length|rewrite length_fmap; lia|lia].
  rewrite (list_lookup_total_correct _ _ (le_put 8 y)) by (by rewrite list_lookup_fmap, Hx).
  rewrite drop_0, take_ge by (rewrite le_put_length; lia). rewrite le_get_put. apply Z.mod_small. by eapply Forall_lookup in Hg.
Qed.

Lemma restore_gregs cx : cx_wf cx → restore_from_ucontext_gregs (ucontext_gregs cx) cx = cx.
Proof.
  intros [Hl H0 _ _]. destruct cx as [r s pc]. unfold restore_from_ucontext_gregs, ucontext_gregs. cbn in *. f_equal.
  destruct r as [|x r]; [done|]. injection H0 as ->. cbn. by rewrite drop_0.
Qed.

(** ** Handlers return to where they were called *)

Section roundtrip.
Context {U : Type} {UM : UserMemory U}.
Variables (handler_mapped restorer_usable : U → Z → bool) (trampoline : Z) (sig_page : Z → bool).
Implicit Types (u : U).
#[local] Abbreviation deliver := (deliver restorer_usable trampoline).
#[local] Abbreviation act := (act_on_signal handler_mapped restorer_usable trampoline).
#[local] Abbreviation handle := (handle_signals handler_mapped restorer_usable trampoline).

Definition thread (tid : nat) pr : option Thread := mjoin (p_threads pr !! tid).

Lemma thread_on_thread tid f pr : thread tid (on_thread tid f pr) = f <$> thread tid pr.
Proof. unfold thread, on_thread, on_threads. cbn. rewrite list_lookup_alter_eq. by destruct (p_threads pr !! tid) as [[]|]. Qed.

Lemma deliver_spec signum flag sender code a th u : signal_trap_cx (t_sig th) = None →
  let '(th1, u1) := deliver signum flag sender code a th u in
  signal_trap_cx (t_sig th1) = Some (t_cx th) ∧ signal_mask_backup (t_sig th1) = signal_mask (t_sig th) ∧
  signal_mask (t_sig th1) = Z.lor (signal_mask (t_sig th)) (Z.lor (sa_mask a) flag) ∧
  handling_sig (t_sig th1) = signum ∧ sepc (t_cx th1) = handler a ∧ t_pending (t_sig th1) = t_pending (t_sig th).
Proof.
  intros Hn. unfold Signals.deliver. rewrite Hn. destruct (setup_signal_stack _ _ _ _ _ _ _ _) as [[[uptr canary] cx] u1] eqn:E.
  cbn. split_and!; [done..| |done]. unfold setup_signal_stack in E. case_match; simplify_eq; done.
Qed.

(** Only a delivery makes a thread handle a signal. *)
Lemma handle_delivers tid pr u pr1 u1 th th1 : thread tid pr = Some th → handling_sig (t_sig th) = -1 →
  handle tid pr u = Ret (Resume, pr1, u1) → thread tid pr1 = Some th1 → handling_sig (t_sig th1) ≠ -1 →
  ∃ signum flag sender code a th0, t_cx th0 = t_cx th ∧ signal_mask (t_sig th0) = signal_mask (t_sig th) ∧
    signal_trap_cx (t_sig th0) = None ∧ deliver signum flag sender code a th0 u = (th1, u1) ∧
    handler a ≠ 0 ∧ handler a ≠ 1 ∧ length (signal_actions (p_sig pr1)) = length (signal_actions (p_sig pr)).
Proof.
  intros Hth Hh E Hth1 Hh1. unfold Signals.handle_signals in E. fold (thread tid pr) in E. rewrite Hth in E.
  rewrite Hh in E. cbn [negb Z.eqb Pos.eqb] in E.
  assert (pr1 = pr → False) as Hsame by (intros ->; congruence).
  case_match; [exfalso; apply Hsame; congruence|].
  destruct (find_pending_signal _ _) as [[[signum flag] fp]|]; [|exfalso; apply Hsame; congruence].
  destruct (t_blocked th) eqn:Hb; [simplify_eq|].
  destruct (bool_decide (is_Some (signal_trap_cx (t_sig th)))) eqn:Hsc; cbn [andb] in E.
  { destruct (signum =? SIGKILL) eqn:Ek; cbn [negb] in E; [|exfalso; apply Hsame; congruence].
    apply Z.eqb_eq in Ek as ->. unfold act_on_signal in E.
    destruct (if fp then get_pending_signal_siginfo SIGKILL (p_sig pr) else (0, 0)). by rewrite andb_false_r in E. }
  apply bool_decide_eq_false, eq_None_not_Some in Hsc.
  unfold act_on_signal in E. destruct (if fp then get_pending_signal_siginfo signum (p_sig pr) else (0, 0)) as [sender code].
  set (pr0 := if fp then _ else _) in E.
  assert (∃ th0, thread tid pr0 = Some th0 ∧ t_cx th0 = t_cx th ∧ signal_mask (t_sig th0) = signal_mask (t_sig th) ∧
    signal_trap_cx (t_sig th0) = None ∧ handling_sig (t_sig th0) = -1) as (th0 & Ht0 & Hcx & Hm & Hn & Hh0).
  { unfold pr0. destruct fp; [by exists th|]. rewrite thread_on_thread, Hth. by eexists. }
  assert (length (signal_actions (p_sig pr0)) = length (signal_actions (p_sig pr))) as Hl.
  { unfold pr0. destruct fp; [|done]. cbn. unfold take_process_signal, clear_pending_signal_siginfo, set_pending_signal_siginfo.
    by repeat case_match. }
  clearbody pr0. repeat (case_match; [by simplify_eq|]).
  destruct (signal_actions (p_sig pr0) !! Z.to_nat signum) as [a0|]; [|done].
  set (invalid := _ && _) in E. set (a := if invalid then _ else _) in E. set (pr2 := if invalid then _ else _) in E.
  assert (thread tid pr2 = Some th0 ∧ length (signal_actions (p_sig pr2)) = length (signal_actions (p_sig pr))) as [Ht2 Hl2].
  { unfold pr2. destruct invalid; [|done]. split; [done|]. cbn. by rewrite length_insert. }
  clearbody pr2. destruct (handler a =? 1) eqn:E1; [simplify_eq; exfalso; congruence|].
  destruct (((USER_ADDR_MAX <=? handler a) && (1 <? handler a)) || (handler a =? 0)) eqn:E0.
  { unfold default_signal in E. repeat (case_match; simplify_eq); exfalso; unfold thread in *; cbn in *; congruence. }
  fold (thread tid pr2) in E. rewrite Ht2 in E. destruct (Signals.deliver _ _ _ _ _ _ _ _ _) as [th1' u1'] eqn:Ed. simplify_eq.
  rewrite thread_on_thread, Ht2 in Hth1. cbn in Hth1. simplify_eq. exists signum, flag, sender, code, a, th0.
  apply orb_false_iff in E0 as [_ E0]. split_and!; [done..|lia|lia|done].
Qed.

(** The handler has run: the registers are whatever it left. *)
Definition handler_ran (cx : TrapContext) th : Thread := mkThread (t_sig th) cx (t_blocked th).


End roundtrip.

(** ** Sending reaches its targets *)

Lemma foldl_skip {A B} (f : A → B → A) (l : list B) x : Forall (λ b, f x b = x) l → foldl f x l = x.
Proof. induction 1 as [|b l Hb _ IH]; [done|]. cbn. by rewrite Hb. Qed.

Lemma insert_one s sender code ps : 1 <= s <= 64 →
  insert_process_signal (sig_flag s) sender code ps =
    set_pending_signal_siginfo s sender code (with_pending (λ p, Z.lor p (sig_flag s)) ps).
Proof.
  intros Hs. unfold insert_process_signal. set (ps0 := with_pending _ ps).
  assert (∀ i, 0 <= i → Z.testbit (sig_flag s) i = bool_decide (i = s - 1)) as Hb.
  { intros i Hi. unfold sig_flag. rewrite Z.shiftl_1_l, Z.pow2_bits_eqb by lia. case_bool_decide; [subst; apply Z.eqb_refl|apply Z.eqb_neq; lia]. }
  replace (seqZ 0 64) with (seqZ 0 (s - 1) ++ [s - 1] ++ seqZ s (64 - s)).
  2:{ change ([s - 1] ++ seqZ s (64 - s)) with ([s - 1] ++ seqZ s (64 - s)).
      replace 64 with ((s - 1) + (1 + (64 - s))) at 2 by lia. rewrite !seqZ_app by lia. cbn. do 3 f_equal; lia. }
  rewrite !foldl_app. cbn [foldl]. rewrite (foldl_skip _ (seqZ 0 (s - 1))).
  - rewrite Hb, bool_decide_eq_true_2 by lia. replace (s - 1 + 1) with s by lia. apply foldl_skip.
    apply Forall_lookup_2. intros j i Hi%lookup_seqZ. rewrite Hb, bool_decide_eq_false_2 by lia. done.
  - apply Forall_lookup_2. intros j i Hi%lookup_seqZ. rewrite Hb, bool_decide_eq_false_2 by lia. done.
Qed.

Record sig_wf (ps : ProcessSignals) : Prop := {
  sw_sender : length (sender_pids ps) = 64%nat;
  sw_code : length (si_codes ps) = 64%nat;
  sw_actions : length (signal_actions ps) = 65%nat;
}.

(** Signal [s] has been sent to the process: it is pending with its sender, the
    blocked threads that do not mask it (all of them for SIGKILL and SIGCONT) are
    awake, SIGCONT ends a stop, and nothing else has changed. *)
Definition roused (s : Z) (th : Thread) : Thread :=
  if t_blocked th && (negb (has_sig (signal_mask (t_sig th)) s) || (s =? SIGKILL) || (s =? SIGCONT))
  then mkThread (ts_interrupted (t_sig th)) (t_cx th) false else th.
Record signalled (s sender : Z) (pr pr' : Process) : Prop := {
  sg_pending : ∀ n, 1 <= n → has_sig (p_pending (p_sig pr')) n = has_sig (p_pending (p_sig pr)) n || bool_decide (n = s);
  sg_info : ∀ n, 1 <= n <= 64 → get_pending_signal_siginfo n (p_sig pr') =
    if bool_decide (n = s) then (sender, 0) else get_pending_signal_siginfo n (p_sig pr);
  sg_actions : signal_actions (p_sig pr') = signal_actions (p_sig pr);
  sg_threads : ∀ tid, thread tid pr' = roused s <$> thread tid pr;
  sg_stopped : group_stopped pr' = group_stopped pr && negb (s =? SIGCONT);
  sg_pgid : pr_pgid pr' = pr_pgid pr;
}.

Lemma flag_eqb s n : 1 <= s → 1 <= n → (sig_flag s =? sig_flag n) = (s =? n).
Proof.
  intros Hs Hn. unfold sig_flag. rewrite !Z.shiftl_1_l. destruct (Z.eqb_spec s n) as [->|Hne]; [apply Z.eqb_refl|].
  apply Z.eqb_neq. intros E. apply Z.pow_inj_r in E; lia.
Qed.
Lemma land_flag x s : 1 <= s → (Z.land x (sig_flag s) =? sig_flag s) = has_sig x s.
Proof.
  intros Hs. unfold has_sig, sig_flag. rewrite Z.shiftl_1_l. destruct (Z.testbit x (s - 1)) eqn:E.
  - apply Z.eqb_eq, Z.bits_inj'. intros i Hi. rewrite Z.land_spec, Z.pow2_bits_eqb by lia.
    destruct (Z.eqb_spec (s - 1) i) as [<-|]; [by rewrite E|apply andb_false_r].
  - apply Z.eqb_neq. intros Hx. apply (f_equal (λ z, Z.testbit z (s - 1))) in Hx.
    rewrite Z.land_spec, E, Z.pow2_bits_eqb, Z.eqb_refl in Hx by lia. done.
Qed.
Lemma wake_roused s (th : Thread) : 1 <= s → wake_task_for_signal (sig_flag s) th = roused s th.
Proof.
  intros Hs. unfold wake_task_for_signal, roused, wake_thread. rewrite land_flag, !flag_eqb by lia.
  rewrite <-orb_assoc. destruct (t_blocked th); cbn [andb]; by destruct (negb _ || _).
Qed.

Lemma signal_process_spec s sender (pr : Process) : 1 <= s <= 64 → sig_wf (p_sig pr) → signalled s sender pr (signal_process (sig_flag s) sender pr).
Proof.
  intros Hs [Hw1 Hw2 _]. unfold signal_process. rewrite flag_eqb by lia.
  set (pr0 := if (s =? SIGCONT) && group_stopped pr then set_stop (Continued SIGCONT) false pr else pr).
  assert (p_sig pr0 = p_sig pr ∧ p_threads pr0 = p_threads pr ∧ pr_pgid pr0 = pr_pgid pr ∧
    group_stopped pr0 = group_stopped pr && negb (s =? SIGCONT)) as (E1 & E2 & E3 & E4).
  { unfold pr0. destruct (s =? SIGCONT), (group_stopped pr) eqn:Eg; cbn; by rewrite ?Eg. }
  clearbody pr0. rewrite <-E1 in *.
  split; cbn [on_threads on_psig p_sig p_threads group_stopped pr_pgid]; rewrite <-?E1, ?insert_one by lia; [| | |intros tid|done|done].
  - intros n Hn. unfold set_pending_signal_siginfo. replace ((s =? 0) || (MAX_SIG <? s)) with false by lia. cbn [p_pending with_pending].
    rewrite has_sig_lor, has_sig_flag by lia. f_equal. apply bool_decide_ext. naive_solver.
  - intros n Hn. unfold set_pending_signal_siginfo, get_pending_signal_siginfo.
    replace ((s =? 0) || (MAX_SIG <? s)) with false by lia. replace ((n =? 0) || (MAX_SIG <? n)) with false by lia.
    cbn [sender_pids si_codes with_pending]. case_bool_decide as E.
    + subst. rewrite !list_lookup_insert_eq by lia. done.
    + rewrite !list_lookup_insert_ne by lia. done.
  - unfold set_pending_signal_siginfo. by case_match.
  - unfold thread. cbn [on_threads on_psig p_threads]. rewrite list_lookup_fmap, E2. 
    destruct (p_threads pr !! tid) as [[th|]|]; [|done..]. cbn. by rewrite wake_roused by lia.
Qed.

(** Whom kill means, by its argument [pid]; init is spared by groups, and by
    everybody but itself. *)
Definition kill_target (self caller_pgid pid p : Z) (pr : Process) : bool :=
  if 0 <? pid then (p =? pid) && (negb (pid =? 1) || (self =? 1))
  else negb (p =? 1) && (if pid =? 0 then pr_pgid pr =? caller_pgid
                         else if pid =? -1 then negb (p =? self) else pr_pgid pr =? - pid).

(** The outcome of a call that found [targets]. *)
Definition kill_post (procs : gmap Z Process) (target : Z → Process → bool) (signum sender r : Z) (procs' : gmap Z Process) : Prop :=
  (r = 0 ↔ ∃ p pr, procs !! p = Some pr ∧ target p pr = true) ∧ (r ≠ 0 → procs' = procs) ∧
  (∀ p, procs !! p = None → procs' !! p = None) ∧
  ∀ p pr, procs !! p = Some pr → ∃ pr', procs' !! p = Some pr' ∧
    if target p pr && negb (signum =? 0) then signalled signum sender pr pr' else pr' = pr.

Definition kill_flag (signum : Z) : option Z := if signum =? 0 then None else Some (sig_flag signum).
Definition procs_wf (procs : gmap Z Process) : Prop := map_Forall (λ _ pr, sig_wf (p_sig pr)) procs.

Lemma kill_nobody procs target signum sender r : r ≠ 0 → (∀ p pr, procs !! p = Some pr → target p pr = false) →
  kill_post procs target signum sender r procs.
Proof.
  intros Hr Hn. split_and!; [|done|done|].
  - split; [done|]. intros (p & pr & E & Et). by rewrite (Hn p pr E) in Et.
  - intros p pr E. exists pr. by rewrite (Hn p pr E).
Qed.
Lemma kill_somebody procs target signum sender procs' : 0 <= signum <= 64 → procs_wf procs →
  (∃ p pr, procs !! p = Some pr ∧ target p pr = true) →
  (∀ p, procs' !! p = (λ pr, if target p pr && negb (signum =? 0) then signal_process (sig_flag signum) sender pr else pr) <$> procs !! p) →
  kill_post procs target signum sender 0 procs'.
Proof.
  intros Hs Hwf Ht Hl. split_and!; [done|done| |].
  - intros p E. by rewrite Hl, E.
  - intros p pr E. rewrite Hl, E. eexists. split; [done|]. destruct (target p pr); [|done].
    destruct (Z.eqb_spec signum 0); [done|]. apply signal_process_spec; [lia|exact (Hwf _ _ E)].
Qed.

Lemma kill_single_spec procs pid signum self : 0 <= signum <= 64 → procs_wf procs →
  ∃ r procs', kill_single procs pid signum (kill_flag signum) self = Ret (r, procs') ∧
    kill_post procs (λ p _, (p =? pid) && (negb (pid =? 1) || (self =? 1))) signum (wrap_i32 self) r procs' ∧
    r ∈ [0; errno ESRCH; errno EPERM].
Proof.
  intros Hs Hwf. unfold kill_single, kill_flag. destruct (procs !! pid) as [pr|] eqn:Hp.
  2:{ eexists _, _. split; [done|]. split; [|set_solver]. apply kill_nobody; [done|].
      intros p pr E. destruct (Z.eqb_spec p pid) as [->|]; [congruence|done]. }
  destruct ((pid =? 1) && negb (self =? 1)) eqn:E1.
  { eexists _, _. split; [done|]. split; [|set_solver]. apply kill_nobody; [done|].
    intros p q _. destruct (pid =? 1), (self =? 1); try done. apply andb_false_r. }
  assert (negb (pid =? 1) || (self =? 1) = true) as Ha by (by destruct (pid =? 1), (self =? 1)).
  rewrite Ha. destruct (signum =? 0) eqn:E0; (eexists _, _; split; [done|]; split; [|set_solver]);
    apply kill_somebody; [done|done| | |done|done| |].
  1,3: exists pid, pr; by rewrite Z.eqb_refl.
  - intros p. rewrite E0. destruct (procs !! p); [|done]. cbn. by rewrite andb_false_r.
  - intros p. rewrite E0, !andb_true_r. destruct (Z.eqb_spec p pid) as [->|Hne].
    + by rewrite lookup_insert_eq, Hp.
    + rewrite lookup_insert_ne by done. by destruct (procs !! p).
Qed.

Lemma kill_group_spec procs pgid signum self : 0 <= signum <= 64 → procs_wf procs →
  ∃ r procs', kill_group procs pgid signum (kill_flag signum) self = Ret (r, procs') ∧
    kill_post procs (group_target pgid self) signum (wrap_i32 self) r procs' ∧ r ∈ [0; errno ESRCH].
Proof.
  intros Hs Hwf. unfold kill_group, kill_flag. set (ts := filter _ procs).
  assert (∀ p pr, ts !! p = Some pr ↔ procs !! p = Some pr ∧ group_target pgid self p pr = true) as Hts.
  { intros p pr. unfold ts. rewrite map_lookup_filter_Some. done. }
  destruct (bool_decide_reflect (ts = ∅)) as [He|He].
  { rewrite orb_true_r. eexists _, _. split; [done|]. split; [|set_solver]. apply kill_nobody; [done|].
    intros p pr E. destruct (group_target pgid self p pr) eqn:Et; [|done].
    pose proof (proj2 (Hts p pr) (conj E Et)) as Hx. by rewrite He, lookup_empty in Hx. }
  apply map_choose in He as (p0 & pr0 & H0%Hts). rewrite orb_false_r.
  destruct (signum =? 0) eqn:E0; (eexists _, _; split; [done|]; split; [|set_solver]);
    (apply kill_somebody; [done|done|by exists p0, pr0|]); intros p; rewrite E0.
  - destruct (procs !! p); [|done]. cbn. by rewrite andb_false_r.
  - rewrite lookup_union, lookup_fmap. unfold ts. rewrite map_lookup_filter.
    destruct (procs !! p) as [pr|]; [|done]. cbn. rewrite andb_true_r.
    destruct (group_target pgid self p pr) eqn:Et; [by rewrite option_guard_True by done|].
    by rewrite option_guard_False by done.
Qed.

(** [C18] kill does what its argument says, for every table of processes and every
    argument: it fails with EINVAL on a bad signal number, with ESRCH when it means
    nobody, with EPERM on init, and then nothing changes; otherwise the signal is
    delivered to exactly the processes meant (one process, a group, or all but the
    sender and init), with signal 0 only asking. *)
Theorem kill_exact (procs : gmap Z Process) (self caller_pgid pid signum : Z) : procs_wf procs →
  ∃ r procs', sys_kill procs self caller_pgid pid signum = Ret (r, procs') ∧
    r ∈ [0; errno EINVAL; errno ESRCH; errno EPERM] ∧ (r = errno EINVAL ↔ ¬ 0 <= signum <= 64) ∧
    (if bool_decide (0 <= signum <= 64)
     then kill_post procs (kill_target self caller_pgid pid) signum (wrap_i32 self) r procs' else procs' = procs).
Proof.
  intros Hwf. unfold sys_kill. case_bool_decide as Hs.
  2:{ exists (errno EINVAL), procs. split_and!; [|set_solver|done|done].
      unfold signal_flag_from_signum. replace (signum =? 0) with false by lia.
      by replace ((signum <=? 0) || (MAX_SIG <? signum)) with true by lia. }
  assert ((if signum =? 0 then Ok None else match signal_flag_from_signum signum with Ok f => Ok (Some f) | Err e => Err e end)
    = Ok (kill_flag signum)) as ->.
  { unfold kill_flag, signal_flag_from_signum. destruct (signum =? 0) eqn:E; [done|].
    by replace ((signum <=? 0) || (MAX_SIG <? signum)) with false by lia. }
  unfold kill_target. destruct (0 <? pid).
  - destruct (kill_single_spec procs pid signum self Hs Hwf) as (r & procs' & -> & Hk & Hr).
    exists r, procs'. split_and!; [done|set_solver| |done]. split; [|done]. intros ->. by set_solver.
  - destruct (kill_group_spec procs (if pid =? 0 then Some caller_pgid else if pid =? -1 then None else Some (- pid)) signum self Hs Hwf)
      as (r & procs' & Hd & Hk & Hr). exists r, procs'. split_and!; [|set_solver| |].
    + by destruct (pid =? 0), (pid =? -1).
    + split; [|done]. intros ->. by set_solver.
    + revert Hk. unfold group_target. by destruct (pid =? 0), (pid =? -1).
Qed.

(** ** Signals that come too late *)

Section late.
Context {U : Type} {UM : UserMemory U}.
Variables (handler_mapped restorer_usable : U → Z → bool) (trampoline : Z).
Local Abbreviation handle := (handle_signals handler_mapped restorer_usable trampoline).

(** [C36] SIGKILL waits for a running handler.  Sent to a process one of whose
    threads is in a signal handler, it becomes pending, but that thread returns
    to user mode and goes on as if nothing had happened: while it handles a
    signal it looks for no other, not even SIGKILL. *)
Theorem sigkill_waits_for_handler (procs : gmap Z Process) self pgid pid pr tid th u : procs_wf procs →
  1 < pid → procs !! pid = Some pr → thread tid pr = Some th → handling_sig (t_sig th) ≠ -1 →
  ∃ procs' pr', sys_kill procs self pgid pid SIGKILL = Ret (0, procs') ∧ procs' !! pid = Some pr' ∧
    has_sig (p_pending (p_sig pr')) SIGKILL = true ∧ handle tid pr' u = Ret (Resume, pr', u).
Proof.
  intros Hwf Hpid Hp Hth Hh.
  exists (<[pid := signal_process (sig_flag SIGKILL) (wrap_i32 self) pr]> procs), (signal_process (sig_flag SIGKILL) (wrap_i32 self) pr).
  destruct (signal_process_spec SIGKILL (wrap_i32 self) pr) as [Hs _ _ Ht _ _]; [lia|exact (Hwf _ _ Hp)|].
  split_and!.
  - unfold sys_kill, kill_single. replace (0 <? pid) with true by lia. cbn -[signal_process]. rewrite Hp.
    by replace (pid =? 1) with false by lia.
  - apply lookup_insert_eq.
  - rewrite Hs by lia. apply orb_true_r.
  - unfold handle_signals. specialize (Ht tid). unfold thread in Ht, Hth. rewrite Hth in Ht. rewrite Ht. cbn -[handling_sig].
    replace (handling_sig (t_sig (roused 9 th))) with (handling_sig (t_sig th)) by (unfold roused; by case_match).
    by rewrite (proj2 (Z.eqb_neq _ _) Hh).
Qed.

(** [C37] The signal that ends rt_sigsuspend is not delivered.  Let the call wait
    with a mask that lets a pending signal through, which the thread's own mask
    blocks.  It returns EINTR with the old mask back in place, so on the way to
    user mode no handler runs and the signal stays pending. *)
Theorem sigsuspend_undelivered tid pr th u mask_ptr b : thread tid pr = Some th → mask_ptr ≠ 0 →
  user_read u mask_ptr 8 = Some b →
  Z.ldiff (Z.lor (p_pending (p_sig pr)) (t_pending (t_sig th))) (signal_mask (t_sig th)) = 0 →
  Z.ldiff (Z.lor (p_pending (p_sig pr)) (t_pending (t_sig th))) (Z.ldiff (le_get b) KILL_STOP) ≠ 0 →
  ∃ pr', sys_rt_sigsuspend mask_ptr 8 tid [] pr u = (Some (errno EINTR), pr') ∧ thread tid pr' = Some th ∧
    p_pending (p_sig pr') = p_pending (p_sig pr) ∧ handle tid pr' u = Ret (Resume, pr', u).
Proof.
  intros Hth Hptr Hr Hold Hnew. unfold sys_rt_sigsuspend. rewrite (proj2 (Z.eqb_neq _ _) Hptr), Hr.
  unfold thread in Hth. rewrite Hth. cbn [negb Z.eqb Pos.eqb].
  set (pr1 := on_thread tid _ pr). set (m := Z.ldiff (le_get b) KILL_STOP) in *.
  assert (thread tid pr1 = Some (on_tsig (set_mask m) th)) as H1 by (unfold pr1; rewrite thread_on_thread; unfold thread; by rewrite Hth).
  unfold thread in H1. rewrite H1. change (p_pending (p_sig pr1)) with (p_pending (p_sig pr)).
  cbn [on_tsig t_sig set_mask t_pending signal_mask]. rewrite (proj2 (Z.eqb_neq _ _) Hnew). cbn [negb].
  set (pr2 := on_thread tid _ pr1).
  assert (thread tid pr2 = Some th) as H2.
  { unfold pr2. rewrite thread_on_thread. unfold thread. rewrite H1. by destruct th as [[]]. }
  exists pr2. split_and!; [done|done|done|]. unfold handle_signals. unfold thread in H2. rewrite H2.
  destruct (negb _); [done|]. change (p_pending (p_sig pr2)) with (p_pending (p_sig pr)).
  replace (Z.lor _ _ =? 0) with true; [done|]. symmetry. apply Z.eqb_eq. rewrite <-Hold. apply Z.bits_inj'. intros i _.
  rewrite Z.ldiff_spec, !Z.lor_spec, !Z.ldiff_spec. by destruct (Z.testbit (signal_mask _) i); rewrite ?andb_false_r, ?andb_true_r.
Qed.
End late.

(** ** Examples *)

(** A process of one thread, with a handler for signal 10 that takes a siginfo. *)
Definition demo_thread (mask handling : Z) : Thread := mkThread (mkTS None mask 0 0 0 0 false handling) (mkCx (<[SP := 1000]> (seqZ 0 32)) 0 100) false.
Definition demo_process (pending mask handling : Z) : Process :=
  mkProcess (mkPS pending (replicate 64 0) (replicate 64 0) (<[10%nat := mkAction 200 4 0 0]> (replicate 65 default_action)))
    [Some (demo_thread mask handling)] 1 false None None false.
Definition demo_memory : list Z := replicate 1024 0.

Lemma demo_wf pending mask handling : sig_wf (p_sig (demo_process pending mask handling)).
Proof. by split. Qed.

Definition nowhere : list Z → Z → bool := λ _ _, false.
Definition demo_handled : Process * list Z :=
  match handle_signals nowhere nowhere 0 0 (demo_process (sig_flag 10) 0 (-1)) demo_memory with
  | Ret (_, pr, u) => (pr, u)
  | Panic => (demo_process 0 0 (-1), [])
  end.
Definition demo_in_handler : Thread := default (demo_thread 0 0) (thread 0 demo_handled.1).


Definition demo_procs : gmap Z Process := {[ 1 := demo_process 0 0 (-1); 2 := demo_process 0 0 10; 3 := demo_process 0 0 (-1) ]}.
Lemma demo_procs_wf : procs_wf demo_procs.
Proof. unfold procs_wf, demo_procs. repeat (apply map_Forall_insert_2; [apply demo_wf|]). apply map_Forall_empty. Qed.

Lemma kill_exact_witness : ∃ r procs', sys_kill demo_procs 3 1 (-1) 10 = Ret (r, procs') ∧
  kill_post demo_procs (kill_target 3 1 (-1)) 10 3 r procs' ∧ r = 0.
Proof.
  destruct (kill_exact demo_procs 3 1 (-1) 10 demo_procs_wf) as (r & procs' & E1 & _ & _ & E2).
  exists r, procs'. split; [done|]. split; [exact E2|]. apply (proj1 E2).
  exists 2, (demo_process 0 0 10). by split.
Defined.

Lemma sigkill_waits_for_handler_witness : ∃ procs' pr', sys_kill demo_procs 3 1 2 SIGKILL = Ret (0, procs') ∧ procs' !! 2 = Some pr' ∧
  has_sig (p_pending (p_sig pr')) SIGKILL = true ∧ handle_signals nowhere nowhere 0 0 pr' demo_memory = Ret (Resume, pr', demo_memory).
Proof.
  apply (sigkill_waits_for_handler nowhere nowhere 0 demo_procs 3 1 2 (demo_process 0 0 10) 0 (demo_thread 0 10) demo_memory).
  - exact demo_procs_wf.
  - lia.
  - done.
  - done.
  - done.
Defined.

Lemma sigsuspend_undelivered_witness : ∃ pr', sys_rt_sigsuspend 8 8 0 [] (demo_process (sig_flag 10) (sig_flag 10) (-1)) demo_memory
    = (Some (errno EINTR), pr') ∧
  p_pending (p_sig pr') = sig_flag 10 ∧ handle_signals nowhere nowhere 0 0 pr' demo_memory = Ret (Resume, pr', demo_memory).
Proof.
  destruct (sigsuspend_undelivered nowhere nowhere 0 0 (demo_process (sig_flag 10) (sig_flag 10) (-1)) (demo_thread (sig_flag 10) (-1))
    demo_memory 8 (replicate 8 0)) as (pr' & E1 & _ & E2 & E3).
  - done.
  - done.
  - by vm_compute.
  - done.
  - done.
  - by exists pr'.
Defined.
