(* ===== verification/Family.v ===== *)
(** * Processes and their children (os/src/task/process.rs, os/src/task/mod.rs, os/src/syscall/process.rs)

    Process control blocks as shared objects, the table of processes by pid, and
    the calls that make, end and wait for processes: fork, clone of a process,
    exit, wait4 and waitid.  The processes are shown to form a tree rooted at the
    first one whatever they do, so that the exit of each is reported to exactly one
    parent, once. *)

From stdpp Require Import base gmap list numbers list_numbers option.
From S2P Require Import Prelude Errno UserIface Creds IdAlloc Signals.

(** ** State *)

(** Objects are numbered in the order they are made and numbers are not used
    again; the first is INITPROC.  A [Weak] is the number of its object, which may
    be gone; the elements of [children] are [Arc]s. *)
Abbreviation INITPROC := (0).

Record ProcessFamily : Type := mkFamily {
  is_zombie : bool;
  parent : option Z;
  children : list Z;
  exit_code : Z;
  vfork_vm_parent : option Z;
}.

(** A control block: its pid, signals, threads, group and events (Signals.v), its
    family, and the exit codes of its threads. *)
Record Pcb : Type := mkPcb {
  pcb_pid : Z;
  sg : Process;
  family : ProcessFamily;
  exit_codes : gmap nat Z;
}.

Record World : Type := mkWorld {
  heap : gmap Z Pcb;
  next_obj : Z;
  PID2PCB : gmap Z Z;
  pid_allocator : RecycleAllocator;
}.

Implicit Types (w : World) (b : Pcb) (f : ProcessFamily).

Definition with_heap (g : gmap Z Pcb → gmap Z Pcb) w : World := mkWorld (g (heap w)) (next_obj w) (PID2PCB w) (pid_allocator w).
Definition with_table (g : gmap Z Z → gmap Z Z) w : World := mkWorld (heap w) (next_obj w) (g (PID2PCB w)) (pid_allocator w).
Definition with_pids (a : RecycleAllocator) w : World := mkWorld (heap w) (next_obj w) (PID2PCB w) a.
Definition on_sg (g : Process → Process) b : Pcb := mkPcb (pcb_pid b) (g (sg b)) (family b) (exit_codes b).
Definition on_family (g : ProcessFamily → ProcessFamily) b : Pcb := mkPcb (pcb_pid b) (sg b) (g (family b)) (exit_codes b).
Definition with_children (g : list Z → list Z) f : ProcessFamily :=
  mkFamily (is_zombie f) (parent f) (g (children f)) (exit_code f) (vfork_vm_parent f).
Definition with_parent (q : option Z) f : ProcessFamily :=
  mkFamily (is_zombie f) q (children f) (exit_code f) (vfork_vm_parent f).

Definition pcb (o : Z) : M World Pcb := let! w := m_get in m_unwrap (heap w !! o).
Definition on_pcb (o : Z) (g : Pcb → Pcb) : M World unit := let! b := pcb o in m_modify (with_heap <[o := g b]>).

Definition set_parent (o : Z) (q : option Z) : M World unit := on_pcb o (on_family (with_parent q)).
Definition push_child (o c : Z) : M World unit := on_pcb o (on_family (with_children (λ cs, cs ++ [c]))).
Definition set_zombie (o code : Z) : M World unit :=
  on_pcb o (on_family (λ f, mkFamily true (parent f) (children f) code (vfork_vm_parent f))).

(** [Weak::upgrade] *)
Definition upgrade w (q : option Z) : option Z := q ≫= λ q, (λ _, q) <$> heap w !! q.

(** ** Dropping a reference *)

(** The other owners of a control block: the table and the lists of children. *)
Definition owned w (o : Z) : bool :=
  bool_decide (map_Exists (λ _ q, q = o) (PID2PCB w)) || bool_decide (map_Exists (λ _ b, o ∈ children (family b)) (heap w)).
(** The last reference frees the block: its pid is returned and its own references
    are dropped.  Each level frees a block, so their number is fuel enough. *)
Fixpoint drop_pcb (fuel : nat) (o : Z) : M World unit :=
  match fuel with
  | O => m_ret tt
  | S fuel =>
      let! w := m_get in
      if owned w o then m_ret tt
      else match heap w !! o with
           | None => m_ret tt
           | Some b =>
               match PidHandle_drop (pid_allocator w) (pcb_pid b) with
               | Panic => m_panic
               | Ret a =>
                   m_put (with_pids a (with_heap (delete o) w)) ;;;
                   m_for (children (family b)) (drop_pcb fuel)
               end
           end
  end.
Definition drop_arc (o : Z) : M World unit := let! w := m_get in drop_pcb (size (heap w)) o.

(** ** The table *)

Definition insert_into_pid2process (p o : Z) : M World unit :=
  let! w := m_get in
  m_put (with_table <[p := o]> w) ;;;
  match PID2PCB w !! p with Some old => drop_arc old | None => m_ret tt end.
Definition remove_from_pid2process (p : Z) : M World unit :=
  let! w := m_get in
  match PID2PCB w !! p with
  | None => m_panic
  | Some _ => m_put (with_table (delete p) w)
  end.

(** The blocks of the children, and the removal of the first with a pid. *)
Definition kids w b : list (Z * Pcb) := omap (λ c, pair c <$> heap w !! c) (children (family b)).
Definition remove_child_by_pid (o p : Z) : M World unit :=
  let! w := m_get in
  let! b := pcb o in
  match list_find (λ c, pcb_pid <$> heap w !! c = Some p) (children (family b)) with
  | None => m_ret tt
  | Some (i, _) => on_pcb o (on_family (with_children (delete i)))
  end.

(** ** Making processes *)

(** [ProcessControlBlock::fork]; [cx] is the trap context its callers give to the
    new task.  The memory of the child is the subject of Fork.v, its descriptors of
    FdTable.v. *)
Definition process_fork (o : Z) (cx : TrapContext) : M World Z :=
  let! b := pcb o in
  let! w := m_get in
  let '(p, a) := pid_alloc (pid_allocator w) in
  let c := next_obj w in
  let sg_c := mkProcess (mkPS 0 (replicate 64 0) (replicate 64 0) (signal_actions (p_sig (sg b)))) []
                (pr_pgid (sg b)) false None None false in
  m_put (mkWorld (<[c := mkPcb p sg_c (mkFamily false (Some o) [] 0 None) ∅]> (heap w)) (c + 1) (PID2PCB w) a) ;;;
  push_child o c ;;;
  let! th := m_unwrap (thread 0 (sg b)) in
  let task := mkThread (mkTS None (signal_mask (t_sig th)) 0 0 0 0 false (-1)) cx false in
  on_pcb c (on_sg (on_threads (λ _, [Some task]))) ;;;
  insert_into_pid2process p c ;;;
  m_ret c.

(** The trap context of the child: the caller's, with result 0 and maybe a stack. *)
Definition child_cx (cx : TrapContext) (stack : Z) : TrapContext :=
  let cx := set_reg A0 0 cx in if stack =? 0 then cx else set_reg SP stack cx.

Definition sys_fork (o : Z) (tid : nat) : M World Z :=
  let! b := pcb o in
  let! th := m_unwrap (thread tid (sg b)) in
  let! c := process_fork o (child_cx (t_cx th) (reg 11 (t_cx th))) in
  let! b := pcb c in
  m_ret (pcb_pid b).

(** [CloneFlags] *)
Abbreviation CLONE_VM := (0x100).
Abbreviation CLONE_VFORK := (0x4000).
Abbreviation CLONE_PARENT := (0x8000).
Abbreviation CLONE_THREAD := (0x10000).
Abbreviation CLONE_PARENT_SETTID := (0x100000).
Abbreviation CLONE_CHILD_SETTID := (0x1000000).
Abbreviation CLONE_EXTENDED := (0x13ccf00).

(** The branch of [sys_clone] that makes a process, up to the wait of vfork.  Its
    stores to user memory are listed, with the process they go to. *)
Definition clone_process (o : Z) (tid : nat) (flags stack ptid ctid : Z) : M World (Z * Z * list (Z * Z * Z)) :=
  let! b := pcb o in
  let! th := m_unwrap (thread tid (sg b)) in
  let! c := process_fork o (child_cx (t_cx th) stack) in
  let! cb := pcb c in
  let p := pcb_pid cb in
  (if any_bit flags CLONE_VM && any_bit flags CLONE_VFORK
   then on_pcb c (on_family (λ f, mkFamily (is_zombie f) (parent f) (children f) (exit_code f) (Some o)))
   else m_ret tt) ;;;
  let stores := (if any_bit flags CLONE_PARENT_SETTID && negb (ptid =? 0) then [(o, ptid, p); (c, ptid, p)] else []) ++
                (if any_bit flags CLONE_CHILD_SETTID && negb (ctid =? 0) then [(c, ctid, p)] else []) in
  (if any_bit flags CLONE_PARENT then
     let! b := pcb o in
     remove_child_by_pid o p ;;;
     set_parent c (parent (family b)) ;;;
     let! w := m_get in
     match upgrade w (parent (family b)) with
     | Some q => push_child q c
     | None => m_ret tt
     end
   else m_ret tt) ;;;
  m_ret (c, p, stores).

(** [sys_clone] without CLONE_THREAD. *)
Definition sys_clone (o : Z) (tid : nat) (flags stack ptid ctid : Z) : M World (Z * list (Z * Z * Z)) :=
  if any_bit flags 0x20000000 then m_ret (errno EINVAL, [])
  else
    let exit_signal := Z.land flags 0xff in
    if negb (exit_signal =? 0) && ((exit_signal <=? 0) || (MAX_SIG <? exit_signal)) then m_ret (errno EINVAL, [])
    else if negb (any_bit flags CLONE_EXTENDED || negb (stack =? 0)) then let! p := sys_fork o tid in m_ret (p, [])
    else let! (c, p, stores) := clone_process o tid flags stack ptid ctid in m_ret (p, stores).

(** ** Exit *)

Definition all_tasks_exited b : bool :=
  forallb (λ it, match it.2 with Some _ => bool_decide (is_Some (exit_codes b !! it.1)) | None => true end)
    (imap pair (p_threads (sg b))).

(** The children of a process that ends. *)
Definition orphan (o c : Z) : M World unit :=
  if o =? INITPROC then (if c =? o then m_ret tt else set_parent c None)
  else if c =? INITPROC then m_ret tt
  else set_parent c (Some INITPROC) ;;; push_child INITPROC c.

(** The end of a process: zombie, SIGCHLD to the parent, the children to INITPROC.
    What it held of memory, descriptors and segments is released in MemorySet.v,
    FdTable.v and Shm.v. *)
Definition process_exit (o code : Z) : M World unit :=
  let! b := pcb o in
  if pcb_pid b =? IDLE_PID then m_panic
  else
    set_zombie o code ;;;
    let! w := m_get in
    match upgrade w (parent (family b)) with
    | Some q => on_pcb q (on_sg (on_psig (insert_process_signal (sig_flag SIGCHLD) (wrap_i32 (pcb_pid b)) 0)))
    | None => m_ret tt
    end ;;;
    let! b := pcb o in
    m_for (children (family b)) (orphan o) ;;;
    on_pcb o (on_family (with_children (λ _, []))) ;;;
    m_for (children (family b)) drop_arc ;;;
    on_pcb o (on_sg (on_threads (take 1))).

Definition exit_current (o : Z) (tid : nat) (code : Z) : M World unit :=
  on_pcb o (λ b, mkPcb (pcb_pid b) (sg b) (family b) (<[tid := code]> (exit_codes b))) ;;;
  let! b := pcb o in
  if (tid =? 0)%nat || all_tasks_exited b then process_exit o code else m_ret tt.

(** ** Waiting *)

Definition core_signal (signum : Z) : bool := existsb (Z.eqb signum) [3; 4; 5; 6; 7; 8; 11; 24; 25; 31].
Definition encode_wait_status (code : Z) : Z :=
  if 0 <=? code then Z.shiftl (Z.land code 0xff) 8
  else let signum := Z.land (- code) 0x7f in Z.lor signum (if core_signal signum then 0x80 else 0).
Definition exit_code_to_waitid (code : Z) : Z * Z :=
  if 0 <=? code then (Z.land code 0xff, 1)
  else let signum := Z.land (- code) 0x7f in (signum, if core_signal signum then 3 else 2).
Definition stop_status (signum : Z) : Z := Z.lor (Z.shiftl (Z.land signum 0xff) 8) 0x7f.

Definition is_stop (e : option ChildWaitEvent) : bool := match e with Some (Stopped _) => true | _ => false end.

(** The children a call of wait4 asks for. *)
Definition matches_pid (arg my_pgid child_pid child_pgid : Z) : bool :=
  if arg =? -1 then true
  else if arg =? 0 then child_pgid =? my_pgid
  else if 0 <? arg then child_pid =? arg
  else child_pgid =? - arg.

Definition signal_default_ignored (signum : Z) : bool := existsb (Z.eqb signum) [SIGCHLD; 23; 28].
(** Whether a signal ends a wait: not masked, and not ignored or restarting. *)
Definition has_unmasked_user_signal_without_restart (tid : nat) b : bool :=
  match thread tid (sg b) with
  | None => false
  | Some th =>
      let unmasked := Z.ldiff (Z.lor (p_pending (p_sig (sg b))) (t_pending (t_sig th))) (signal_mask (t_sig th)) in
      existsb (λ bit,
        let signum := bit + 1 in
        if negb (Z.testbit unmasked bit) || (MAX_SIG <=? signum) then false
        else match signal_actions (p_sig (sg b)) !! Z.to_nat signum with
             | None => false
             | Some a =>
                 if handler a =? 1 then false
                 else if handler a =? 0 then negb (signal_default_ignored signum)
                 else Z.land (sa_flags a) 0x10000000 =? 0
             end) (seqZ 0 64)
  end.

Definition clear_ptrace_stop (pr : Process) : Process :=
  mkProcess (p_sig pr) (p_threads pr) (pr_pgid pr) (ptrace_traceme pr) None (wait_event pr) (group_stopped pr).
Definition clear_wait_event (pr : Process) : Process :=
  mkProcess (p_sig pr) (p_threads pr) (pr_pgid pr) (ptrace_traceme pr) (ptrace_stop pr) None (group_stopped pr).

Section wait.
Context {U : Type} {UM : UserMemory U}.
(** A store through [translated_refmut] (UserMem.v), which panics where nothing is mapped. *)
Variable poke : U → Z → list Z → outcome U.

Definition put_status (ptr status : Z) (u : U) : M World U :=
  if ptr =? 0 then m_ret u
  else match poke u ptr (le_put 4 status) with Ret u => m_ret u | Panic => m_panic end.

(** Removal of a zombie from its parent and from the table. *)
Definition reap (o p : Z) : M World unit := remove_child_by_pid o p ;;; remove_from_pid2process p.

(** One round of wait4: its result, or [None] when the caller has to wait. *)
Definition waitpid_round (o arg my_pgid ptr options : Z) (u : U) : M World (option Z * U) :=
  let! w := m_get in
  let! b := pcb o in
  let cs := filter (λ kb : Z * Pcb, matches_pid arg my_pgid (pcb_pid kb.2) (pr_pgid (sg kb.2)) = true) (kids w b) in
  if bool_decide (cs = []) then m_ret (Some (errno ECHILD), u)
  else
    match list_find (λ kb : Z * Pcb, is_Some (ptrace_stop (sg kb.2))) cs with
    | Some (_, (c, cb)) =>
        on_pcb c (on_sg clear_ptrace_stop) ;;;
        let! u := put_status ptr (stop_status (default 0 (ptrace_stop (sg cb)))) u in
        m_ret (Some (pcb_pid cb), u)
    | None =>
        match (if any_bit options 2 then list_find (λ kb : Z * Pcb, is_stop (wait_event (sg kb.2)) = true) cs else None) with
        | Some (_, (c, cb)) =>
            on_pcb c (on_sg clear_wait_event) ;;;
            let s := match wait_event (sg cb) with Some (Stopped s) => s | _ => 0 end in
            let! u := put_status ptr (stop_status (if (1 <=? s) && (s <=? MAX_SIG) then s else SIGSTOP)) u in
            m_ret (Some (pcb_pid cb), u)
        | None =>
            match list_find (λ kb : Z * Pcb, is_zombie (family kb.2) = true) cs with
            | Some (_, (c, cb)) =>
                reap o (pcb_pid cb) ;;;
                let! u := put_status ptr (encode_wait_status (exit_code (family cb))) u in
                drop_arc c ;;;
                m_ret (Some (pcb_pid cb), u)
            | None => if any_bit options 1 then m_ret (Some 0, u) else m_ret (None, u)
            end
        end
    end.

(** ** waitid *)

Definition waitid_options_valid (options : Z) : bool := (Z.ldiff options 0x100000f =? 0) && any_bit options 0xe.
Definition sigchld_bytes (p status code : Z) : list Z :=
  le_put 4 SIGCHLD ++ replicate 4 0 ++ le_put 4 code ++ replicate 4 0 ++
  le_put 4 p ++ replicate 4 0 ++ le_put 4 status ++ replicate 100 0.
Definition waitid_matches (idtype id my_pgid child_pid child_pgid : Z) : bool :=
  if idtype =? 0 then true
  else if idtype =? 1 then child_pid =? id
  else child_pgid =? (if id =? 0 then my_pgid else id).
(** The signal and the code of an event the caller asked for. *)
Definition wanted_event (options : Z) (e : option ChildWaitEvent) : option (Z * Z) :=
  match e with
  | Some (Stopped s) => if any_bit options 2 then Some (s, 5) else None
  | Some (Continued s) => if any_bit options 8 then Some (s, 6) else None
  | None => None
  end.
Definition put_info (infop : Z) (bytes : list Z) (u : U) : option Z * U :=
  let '(ok, u) := proc_copy_to_user u infop bytes in (Some (if ok then 0 else errno EFAULT), u).

Definition waitid_round (o idtype id my_pgid infop options : Z) (u : U) : M World (option Z * U) :=
  let! w := m_get in
  let! b := pcb o in
  let nowait := any_bit options 0x1000000 in
  let cs := filter (λ kb : Z * Pcb, waitid_matches idtype id my_pgid (pcb_pid kb.2) (pr_pgid (sg kb.2)) = true) (kids w b) in
  match list_find (λ kb : Z * Pcb, is_Some (wanted_event options (wait_event (sg kb.2)))) cs with
  | Some (_, (c, cb)) =>
      let '(s, code) := default (0, 0) (wanted_event options (wait_event (sg cb))) in
      (if nowait then m_ret tt else on_pcb c (on_sg clear_wait_event)) ;;;
      m_ret (put_info infop (sigchld_bytes (pcb_pid cb) s code) u)
  | None =>
      match (if any_bit options 4 then list_find (λ kb : Z * Pcb, is_zombie (family kb.2) = true) cs else None) with
      | Some (_, (c, cb)) =>
          (if nowait then m_ret tt else reap o (pcb_pid cb)) ;;;
          let '(status, code) := exit_code_to_waitid (exit_code (family cb)) in
          let r := put_info infop (sigchld_bytes (pcb_pid cb) status code) u in
          drop_arc c ;;;
          m_ret r
      | None =>
          if bool_decide (cs = []) then m_ret (Some (errno ECHILD), u)
          else if any_bit options 1 then m_ret (put_info infop (replicate 128 0) u)
          else m_ret (None, u)
      end
  end.

(** The calls wait in rounds: between two of them the other tasks run, and a signal
    may end the call. *)
Fixpoint wait_rounds (round : U → M World (option Z * U)) (o : Z) (tid : nat) (sched : list (World → World)) (u : U)
    : M World (option Z * U) :=
  let! (r, u) := round u in
  match r with
  | Some r => m_ret (Some r, u)
  | None =>
      match sched with
      | [] => m_ret (None, u)
      | others :: sched =>
          m_modify others ;;;
          let! b := pcb o in
          if has_unmasked_user_signal_without_restart tid b then m_ret (Some (errno EINTR), u)
          else wait_rounds round o tid sched u
      end
  end.

Definition sys_waitpid (o : Z) (tid : nat) (arg ptr options : Z) (sched : list (World → World)) (u : U) : M World (option Z * U) :=
  let! b := pcb o in wait_rounds (waitpid_round o arg (pr_pgid (sg b)) ptr options) o tid sched u.

Definition sys_waitid (o : Z) (tid : nat) (idtype id infop options : Z) (sched : list (World → World)) (u : U)
    : M World (option Z * U) :=
  if infop =? 0 then m_ret (Some (errno EFAULT), u)
  else if negb (waitid_options_valid options) then m_ret (Some (errno EINVAL), u)
  else if negb (existsb (Z.eqb idtype) [0; 1; 2]) then m_ret (Some (errno EINVAL), u)
  else let! b := pcb o in wait_rounds (waitid_round o idtype id (pr_pgid (sg b)) infop options) o tid sched u.

End wait.

(** ** Pointwise changes *)

Definition moved (F : Z → Pcb → Pcb) w : World := with_heap (map_imap (λ x b, Some (F x b))) w.
Definition at_obj (o : Z) (g : Pcb → Pcb) (x : Z) b : Pcb := if decide (x = o) then g b else b.

Lemma moved_lookup F w x : heap (moved F w) !! x = F x <$> heap w !! x.
Proof. cbn. rewrite map_lookup_imap. by destruct (heap w !! x). Qed.
Lemma world_eq w1 w2 : (∀ x, heap w1 !! x = heap w2 !! x) → next_obj w1 = next_obj w2 → PID2PCB w1 = PID2PCB w2 →
  pid_allocator w1 = pid_allocator w2 → w1 = w2.
Proof. destruct w1, w2. cbn. intros H -> -> ->. f_equal. by apply map_eq. Qed.
Lemma moved_moved F G w : moved F (moved G w) = moved (λ x b, F x (G x b)) w.
Proof. apply world_eq; [|done..]. intros x. rewrite !moved_lookup. by destruct (heap w !! x). Qed.
Lemma moved_ext F G w : (∀ x b, heap w !! x = Some b → F x b = G x b) → moved F w = moved G w.
Proof.
  intros H. apply world_eq; [|done..]. intros x. rewrite !moved_lookup.
  destruct (heap w !! x) as [b|] eqn:E; [|done]. cbn. by rewrite (H x b E).
Qed.
Lemma moved_id w : moved (λ _ b, b) w = w.
Proof. apply world_eq; [|done..]. intros x. rewrite moved_lookup. by destruct (heap w !! x). Qed.

Lemma wp_pcb o b (Q : Pcb → World → Prop) w : heap w !! o = Some b → Q b w → wp (pcb o) Q w.
Proof. intros Ho HQ. unfold pcb. apply wp_bind, wp_get. by eapply wp_unwrap. Qed.
Lemma wp_on_pcb o g (Q : unit → World → Prop) w : is_Some (heap w !! o) → Q tt (moved (at_obj o g) w) → wp (on_pcb o g) Q w.
Proof.
  intros [b Ho] HQ. unfold on_pcb. apply wp_bind, (wp_pcb _ b); [done|]. apply wp_modify.
  assert (with_heap <[o := g b]> w = moved (at_obj o g) w) as ->; [|done].
  apply world_eq; [|done..]. intros x. rewrite moved_lookup. unfold at_obj. cbn.
  destruct (decide (x = o)) as [->|]; [by rewrite lookup_insert_eq, Ho|].
  rewrite lookup_insert_ne by done. by destruct (heap w !! x).
Qed.

(** Members of the table keep their block. *)
Lemma drop_owned n o (Q : unit → World → Prop) w : (∃ p, PID2PCB w !! p = Some o) → Q tt w → wp (drop_pcb n o) Q w.
Proof.
  intros [p Hp] HQ. destruct n; [by apply wp_ret|]. cbn [drop_pcb]. apply wp_bind, wp_get.
  unfold owned. rewrite bool_decide_eq_true_2 by (exists p, o; done). by apply wp_ret.
Qed.

(** ** The tree *)

Definition live_pids w : list Z := (map_to_list (pcb_pid <$> heap w)).*2.

Record family_ok w : Prop := {
  fo_pids : id_inv 1 (pid_allocator w, live_pids w);
  fo_table : ∀ p o, PID2PCB w !! p = Some o ↔ pcb_pid <$> heap w !! o = Some p;
  fo_fresh : ∀ o b, heap w !! o = Some b → 0 <= o < next_obj w;
  fo_init : ∃ b, heap w !! INITPROC = Some b ∧ is_zombie (family b) = false ∧ parent (family b) = None;
  fo_kids : ∀ o b, heap w !! o = Some b → NoDup (children (family b)) ∧
    ∀ c, c ∈ children (family b) ↔ ∃ cb, heap w !! c = Some cb ∧ parent (family cb) = Some o;
  fo_parent : ∀ o b, heap w !! o = Some b → o ≠ INITPROC →
    ∃ q, parent (family b) = Some q ∧ q < o ∧ is_Some (heap w !! q);
  fo_zombie : ∀ o b, heap w !! o = Some b → is_zombie (family b) = true → children (family b) = [];
  fo_main : ∀ o b, heap w !! o = Some b → is_Some (thread 0 (sg b));
}.

Lemma kids_parent w o b c : family_ok w → heap w !! o = Some b → c ∈ children (family b) →
  ∃ cb, heap w !! c = Some cb ∧ parent (family cb) = Some o ∧ c ≠ INITPROC ∧ c ≠ o.
Proof.
  intros Hok Ho Hc. apply (fo_kids _ Hok _ _ Ho) in Hc as (cb & Hcb & Hp). exists cb. split; [done|]. split; [done|].
  destruct (fo_init _ Hok) as (b0 & H0 & _ & Hp0).
  assert (c ≠ INITPROC) as Hne by (intros ->; congruence). split; [done|].
  destruct (fo_parent _ Hok _ _ Hcb Hne) as (q & Hq & Hlt & _). intros ->. assert (q = o) by congruence. lia.
Qed.

(** A pointwise change that keeps pids, main threads and the shape of the tree
    keeps the invariant. *)
Lemma moved_pids F w : (∀ x b, heap w !! x = Some b → pcb_pid (F x b) = pcb_pid b) → pcb_pid <$> heap (moved F w) = pcb_pid <$> heap w.
Proof.
  intros HF. apply map_eq. intros x. rewrite !lookup_fmap, moved_lookup.
  destruct (heap w !! x) as [b|] eqn:E; [|done]. cbn. by rewrite (HF x b E).
Qed.
Lemma moved_inv F w : family_ok w →
  (∀ x b, heap w !! x = Some b → pcb_pid (F x b) = pcb_pid b ∧ is_Some (thread 0 (sg (F x b)))) →
  (∀ o b, heap w !! o = Some b → NoDup (children (family (F o b))) ∧
     ∀ c, c ∈ children (family (F o b)) ↔ ∃ cb, heap w !! c = Some cb ∧ parent (family (F c cb)) = Some o) →
  (∀ b, heap w !! INITPROC = Some b → is_zombie (family (F INITPROC b)) = false ∧ parent (family (F INITPROC b)) = None) →
  (∀ o b, heap w !! o = Some b → o ≠ INITPROC → ∃ q, parent (family (F o b)) = Some q ∧ q < o ∧ is_Some (heap w !! q)) →
  (∀ o b, heap w !! o = Some b → is_zombie (family (F o b)) = true → children (family (F o b)) = []) →
  family_ok (moved F w).
Proof.
  intros Hok Hpid Hkids Hinit Hpar Hz.
  assert (∀ x b', heap (moved F w) !! x = Some b' → ∃ b, heap w !! x = Some b ∧ b' = F x b) as Hinv.
  { intros x b'. rewrite moved_lookup. intros (b & -> & Hb)%fmap_Some. by exists b. }
  assert (pcb_pid <$> heap (moved F w) = pcb_pid <$> heap w) as Hp by (apply moved_pids; intros; by apply Hpid).
  split.
  - unfold live_pids. rewrite Hp. apply Hok.
  - intros p o. rewrite <-lookup_fmap, Hp, lookup_fmap. apply (fo_table _ Hok).
  - intros o b' (b & Hb & _)%Hinv. exact (fo_fresh _ Hok o b Hb).
  - destruct (fo_init _ Hok) as (b & Hb & _). exists (F INITPROC b). rewrite moved_lookup, Hb. split; [done|]. by apply Hinit.
  - intros o b' (b & Hb & ->)%Hinv. destruct (Hkids o b Hb) as [Hnd Hin]. split; [done|]. intros c. rewrite Hin. split.
    + intros (cb & Hc & Hq). exists (F c cb). by rewrite moved_lookup, Hc.
    + intros (cb' & (cb & Hc & ->)%Hinv & Hq). by exists cb.
  - intros o b' (b & Hb & ->)%Hinv Hne. destruct (Hpar o b Hb Hne) as (q & Hq & Hlt & Hs). exists q. split_and!; [done|done|].
    rewrite moved_lookup. by apply fmap_is_Some.
  - intros o b' (b & Hb & ->)%Hinv. by apply Hz.
  - intros o b' (b & Hb & ->)%Hinv. by apply Hpid.
Qed.

(** The common case: nothing of the family changes. *)
Lemma moved_sg_inv F w : family_ok w →
  (∀ x b, heap w !! x = Some b → pcb_pid (F x b) = pcb_pid b ∧ family (F x b) = family b ∧ is_Some (thread 0 (sg (F x b)))) →
  family_ok (moved F w).
Proof.
  intros Hok HF. apply moved_inv; [done|..].
  - intros x b Hx. destruct (HF x b Hx) as (? & _ & ?). done.
  - intros o b Ho. destruct (HF o b Ho) as (_ & -> & _). destruct (fo_kids _ Hok _ _ Ho) as [Hnd Hin]. split; [done|].
    intros c. rewrite Hin. split; intros (cb & Hc & Hp); exists cb; (split; [done|]); destruct (HF c cb Hc) as (_ & E & _); congruence.
  - intros b Hb. destruct (HF _ b Hb) as (_ & -> & _). destruct (fo_init _ Hok) as (b0 & H0 & Hz). congruence.
  - intros o b Ho Hne. destruct (HF o b Ho) as (_ & -> & _). by apply (fo_parent _ Hok).
  - intros o b Ho. destruct (HF o b Ho) as (_ & -> & _). exact (fo_zombie _ Hok o b Ho).
Qed.
Lemma at_sg_inv o g w : family_ok w → (∀ pr, is_Some (thread 0 pr) → is_Some (thread 0 (g pr))) → family_ok (moved (at_obj o (on_sg g)) w).
Proof.
  intros Hok Hg. apply moved_sg_inv; [done|]. intros x b Hx. unfold at_obj. pose proof (fo_main _ Hok _ _ Hx).
  destruct (decide (x = o)); cbn; auto.
Qed.

(** ** Exit *)

Definition exit_effect (o code : Z) b (x : Z) (b' : Pcb) : Pcb :=
  let b' := if decide (Some x = parent (family b))
            then on_sg (on_psig (insert_process_signal (sig_flag SIGCHLD) (wrap_i32 (pcb_pid b)) 0)) b' else b' in
  if decide (x = o) then
    mkPcb (pcb_pid b') (on_threads (take 1) (sg b')) (mkFamily true (parent (family b')) [] code (vfork_vm_parent (family b'))) (exit_codes b')
  else if decide (x ∈ children (family b)) then on_family (with_parent (Some INITPROC)) b'
  else if decide (x = INITPROC) then on_family (with_children (λ cs, cs ++ children (family b))) b'
  else b'.

Lemma orphans_spec o cs (Q : unit → World → Prop) w : o ≠ INITPROC → NoDup cs → INITPROC ∉ cs →
  (∀ c, c ∈ cs → is_Some (heap w !! c)) → is_Some (heap w !! INITPROC) →
  Q tt (moved (λ x b, if decide (x ∈ cs) then on_family (with_parent (Some INITPROC)) b
                      else at_obj INITPROC (on_family (with_children (λ l, l ++ cs))) x b) w) →
  wp (m_for cs (orphan o)) Q w.
Proof.
  intros Ho Hnd H0 Hcs Hi HQ.
  eapply wp_mono; [apply (wp_for cs (orphan o) (λ done w', w' = moved (λ x b,
    if decide (x ∈ done) then on_family (with_parent (Some INITPROC)) b
    else at_obj INITPROC (on_family (with_children (λ l, l ++ done))) x b) w))|by intros [] ? ->].
  - symmetry. rewrite <-(moved_id w) at 2. apply moved_ext. intros x b _. unfold at_obj. rewrite decide_False by set_solver.
    destruct (decide _); [|done]. destruct b as [? ? [] ?]. cbn. unfold on_family, with_children. cbn. by rewrite app_nil_r.
  - intros before c after w' -> ->. unfold orphan. rewrite (proj2 (Z.eqb_neq _ _) Ho).
    assert (c ≠ INITPROC) as Hc by set_solver. rewrite (proj2 (Z.eqb_neq _ _) Hc).
    apply wp_bind, wp_on_pcb; [rewrite moved_lookup; apply fmap_is_Some, Hcs; set_solver|].
    apply wp_on_pcb; [rewrite !moved_lookup; by rewrite !fmap_is_Some|]. rewrite !moved_moved. apply moved_ext.
    intros x b _. unfold at_obj. apply list.NoDup_app in Hnd as (_ & Hd & Hnd').
    destruct (decide (x = c)) as [->|Hxc].
    + rewrite (decide_False (P := c = INITPROC)) by done. rewrite (decide_True (P := c ∈ before ++ [c])) by set_solver.
      rewrite decide_False; [by rewrite decide_False|]. intros Hin. apply (Hd c Hin). set_solver.
    + destruct (decide (x ∈ before)) as [Hin|Hin].
      * rewrite (decide_True (P := x ∈ before ++ [c])) by set_solver. rewrite decide_False; [done|]. set_solver.
      * rewrite (decide_False (P := x ∈ before ++ [c])) by set_solver. destruct (decide (x = INITPROC)); [|done].
        destruct b as [? ? [] ?]. cbn. unfold on_family, with_children. cbn. by rewrite <-app_assoc.
Qed.

Lemma process_exit_spec o code b w : family_ok w → heap w !! o = Some b → o ≠ INITPROC → pcb_pid b ≠ IDLE_PID →
  wp (process_exit o code) (λ _ w', w' = moved (exit_effect o code b) w) w.
Proof.
  intros Hok Ho Hne Hp. unfold process_exit. apply wp_bind, (wp_pcb _ b); [done|].
  rewrite (proj2 (Z.eqb_neq _ _) Hp). apply wp_bind, wp_on_pcb; [by rewrite Ho|]. apply wp_bind, wp_get.
  destruct (fo_parent _ Hok o b Ho Hne) as (q & Hq & Hlt & Hqs). set (cs := children (family b)).
  assert (∀ c, c ∈ cs → is_Some (heap w !! c) ∧ c ≠ INITPROC ∧ c ≠ o) as Hcs.
  { intros c Hc. destruct (kids_parent w o b c Hok Ho Hc) as (cb & Hcb & _ & H1 & H2). by rewrite Hcb. }
  assert (q ≠ o) as Hqo by lia.
  assert (upgrade (moved (at_obj o (on_family (λ f, mkFamily true (parent f) (children f) code (vfork_vm_parent f)))) w) (parent (family b)) = Some q) as ->.
  { rewrite Hq. destruct Hqs as [bq Hbq]. cbn [upgrade mbind option_bind]. by rewrite moved_lookup, Hbq. }
  apply wp_bind, wp_on_pcb; [rewrite moved_lookup; by apply fmap_is_Some|]. rewrite moved_moved.
  match goal with |- wp _ _ (moved ?G w) => set (G1 := G) end.
  assert (children (family (G1 o b)) = cs) as Hc1 by (unfold G1, at_obj; repeat case_decide; done).
  apply wp_bind, (wp_pcb _ (G1 o b)); [by rewrite moved_lookup, Ho|]. rewrite Hc1.
  apply wp_bind, orphans_spec; [done|apply (fo_kids _ Hok o b Ho)|intros H; by apply Hcs in H as (_ & ? & _)| | |].
  { intros c Hc. rewrite moved_lookup. by apply fmap_is_Some, Hcs. }
  { rewrite moved_lookup. destruct (fo_init _ Hok) as (b0 & -> & _). by eexists. }
  rewrite moved_moved. apply wp_bind, wp_on_pcb; [rewrite moved_lookup, Ho; by eexists|]. rewrite moved_moved.
  match goal with |- wp _ _ (moved ?G w) => set (G2 := G) end.
  apply wp_bind. eapply wp_mono; [apply (wp_for cs drop_arc (λ _ w', w' = moved G2 w)); [done|]|].
  { intros before c after w' Hbc ->. unfold drop_arc. apply wp_bind, wp_get. apply drop_owned; [|done].
    destruct (Hcs c) as [[cb Hcb] _]; [rewrite Hbc; set_solver|]. exists (pcb_pid cb). apply (fo_table _ Hok). by rewrite Hcb. }
  intros [] ? ->. apply wp_on_pcb; [rewrite moved_lookup, Ho; by eexists|]. rewrite moved_moved. apply moved_ext.
  intros x b' Hx. unfold G2, G1, exit_effect, at_obj. rewrite Hq. fold cs.
  destruct (decide (x = o)) as [->|Hxo].
  - assert (b' = b) as -> by congruence. rewrite (decide_False (P := o ∈ cs)) by (intros H; by apply Hcs in H as (_ & _ & ?)).
    rewrite (decide_False (P := o = INITPROC)) by done. rewrite (decide_False (P := o = q)) by done. rewrite decide_False by congruence. done.
  - destruct (decide (x = q)) as [->|Hxq]; [rewrite (decide_True (P := Some q = Some q)) by done|rewrite (decide_False (P := Some x = Some q)) by congruence]; done.
Qed.

Lemma thread_take n pr : thread 0 (on_threads (take (S n)) pr) = thread 0 pr.
Proof. unfold thread, on_threads. cbn [p_threads]. by rewrite lookup_take_lt by lia. Qed.

Section exit_effect.
Context (w : World) (Hok : family_ok w) (o code : Z) (b : Pcb) (Ho : heap w !! o = Some b) (Hne : o ≠ INITPROC).
Local Abbreviation E := (exit_effect o code b).
Local Abbreviation cs := (children (family b)).

Lemma ee_pid x b' : pcb_pid (E x b') = pcb_pid b'.
Proof. unfold exit_effect. repeat case_decide; done. Qed.
Lemma ee_thread x b' : is_Some (thread 0 (sg b')) → is_Some (thread 0 (sg (E x b'))).
Proof. unfold exit_effect. repeat case_decide; cbn; by rewrite ?thread_take. Qed.
Lemma ee_zombie x b' : is_zombie (family (E x b')) = bool_decide (x = o) || is_zombie (family b').
Proof. unfold exit_effect. case_bool_decide; repeat case_decide; done. Qed.
Lemma ee_parent x b' : heap w !! x = Some b' → parent (family (E x b')) = if decide (x ∈ cs) then Some INITPROC else parent (family b').
Proof.
  intros Hx. unfold exit_effect. destruct (decide (x = o)) as [->|]; [|repeat case_decide; done].
  rewrite (decide_False (P := o ∈ cs)); [by repeat case_decide|].
  intros (? & _ & _ & _ & ?)%(kids_parent w o b o Hok Ho). done.
Qed.
Lemma ee_children x b' : children (family (E x b')) =
  if decide (x = o) then [] else if decide (x = INITPROC) then children (family b') ++ cs else children (family b').
Proof.
  unfold exit_effect. destruct (decide (x = o)) as [->|]; [done|].
  destruct (decide (x ∈ cs)) as [Hx|]; [|by repeat case_decide].
  rewrite (decide_False (P := x = INITPROC)); [by repeat case_decide|].
  apply (kids_parent w o b x Hok Ho) in Hx as (? & _ & _ & ? & _). done.
Qed.

Lemma exit_inv : family_ok (moved E w).
Proof.
  assert (∀ c, c ∈ cs ↔ ∃ cb, heap w !! c = Some cb ∧ parent (family cb) = Some o) as Hcs by apply (fo_kids _ Hok o b Ho).
  assert (∀ x b', heap w !! x = Some b' → x ∈ cs → parent (family b') = Some o) as Hin.
  { intros x b' Hx (cb & Hc & Hp)%Hcs. congruence. }
  apply moved_inv; [done|..].
  - intros x b' Hx. split; [apply ee_pid|]. apply ee_thread, (fo_main _ Hok _ _ Hx).
  - intros x b' Hx. rewrite ee_children. destruct (fo_kids _ Hok x b' Hx) as [Hnd Hk].
    assert (∀ c, (∃ cb, heap w !! c = Some cb ∧ parent (family (E c cb)) = Some x) ↔
      ∃ cb, heap w !! c = Some cb ∧ (if decide (c ∈ cs) then Some INITPROC else parent (family cb)) = Some x) as Hpe.
    { intros c. split; intros (cb & Hc & Hp); exists cb; (split; [done|]); [by rewrite <-(ee_parent _ _ Hc)|by rewrite (ee_parent _ _ Hc)]. }
    setoid_rewrite Hpe. clear Hpe. destruct (decide (x = o)) as [->|Hxo]; [|destruct (decide (x = INITPROC)) as [->|Hx0]].
    + split; [constructor|]. intros c. split; [set_solver|]. intros (cb & Hc & Hp). destruct (decide (c ∈ cs)) as [|Hn]; [congruence|].
      destruct Hn. apply Hcs. by exists cb.
    + split.
      * apply list.NoDup_app. split; [done|]. split; [|apply (fo_kids _ Hok o b Ho)].
        intros c (cb & Hc & Hp)%Hk Hi. pose proof (Hin c cb Hc Hi). congruence.
      * intros c. rewrite elem_of_app, Hk. split.
        -- intros [(cb & Hc & Hp)|Hi]; [exists cb; by case_decide|].
           destruct (proj1 (Hcs c) Hi) as (cb & Hc & _). exists cb. by rewrite decide_True.
        -- intros (cb & Hc & Hp). destruct (decide (c ∈ cs)); [by right|left; by exists cb].
    + split; [done|]. intros c. rewrite Hk. split; intros (cb & Hc & Hp); exists cb; (split; [done|]).
      * rewrite decide_False; [done|]. intros Hi. pose proof (Hin c cb Hc Hi). congruence.
      * by destruct (decide (c ∈ cs)); [congruence|].
  - intros b' Hb'. destruct (fo_init _ Hok) as (b0 & H0 & Hz & Hp). assert (b' = b0) as -> by congruence.
    rewrite ee_zombie, (ee_parent _ _ H0), bool_decide_eq_false_2 by done. split; [done|].
    destruct (decide _) as [Hi|]; [|done]. pose proof (Hin _ _ H0 Hi). congruence.
  - intros x b' Hx Hx0. rewrite (ee_parent _ _ Hx). destruct (decide _); [|by apply (fo_parent _ Hok)].
    exists INITPROC. destruct (fo_init _ Hok) as (b0 & H0 & _). rewrite H0. split_and!; [done| |by eexists].
    pose proof (fo_fresh _ Hok x b' Hx). lia.
  - intros x b' Hx. rewrite ee_zombie, ee_children. destruct (decide (x = o)) as [->|Hxo]; [done|].
    rewrite bool_decide_eq_false_2 by done. cbn [orb]. intros Hz. rewrite (fo_zombie _ Hok x b' Hx Hz).
    destruct (decide (x = INITPROC)) as [->|]; [|done]. destruct (fo_init _ Hok) as (b0 & H0 & Hz0 & _). congruence.
Qed.
End exit_effect.

(** ** A new process *)

Definition adopted w (q : Z) (child : Pcb) (a : RecycleAllocator) : World :=
  mkWorld (<[next_obj w := child]> (alter (on_family (with_children (λ cs, cs ++ [next_obj w]))) q (heap w)))
    (next_obj w + 1) (<[pcb_pid child := next_obj w]> (PID2PCB w)) a.

Lemma fresh_obj w : family_ok w → heap w !! next_obj w = None.
Proof. intros Hok. destruct (heap w !! next_obj w) as [b|] eqn:E; [|done]. pose proof (fo_fresh _ Hok _ _ E). lia. Qed.

Definition pids_left w : Prop := Z.of_nat (size (heap w)) < USIZE - 2.
Lemma live_pids_length w : length (live_pids w) = size (heap w).
Proof. unfold live_pids. rewrite length_fmap. by rewrite length_map_to_list, map_size_fmap. Qed.
Lemma pid_elem w p : p ∈ live_pids w ↔ ∃ o b, heap w !! o = Some b ∧ pcb_pid b = p.
Proof.
  unfold live_pids. rewrite list_elem_of_fmap. split.
  - intros ([o p'] & -> & (b & Hb & Ho)%elem_of_map_to_list%lookup_fmap_Some). by exists o, b.
  - intros (o & b & Ho & <-). exists (o, pcb_pid b). split; [done|]. apply elem_of_map_to_list, lookup_fmap_Some. by exists b.
Qed.
Lemma alloc_fresh w p a : family_ok w → pids_left w → pid_alloc (pid_allocator w) = (p, a) →
  id_inv 1 (a, p :: live_pids w) ∧ ∀ o b, heap w !! o = Some b → pcb_pid b ≠ p.
Proof.
  intros Hok Hl Ha. assert (id_inv 1 (a, p :: live_pids w)) as Hinv.
  { eapply id_alloc_inv; [lia|apply Hok| |exact Ha]. unfold ids_bounded. rewrite live_pids_length. unfold pids_left in Hl. lia. }
  split; [done|]. intros o b Ho Hp. apply id_inv_nodup in Hinv. cbn [app] in Hinv. apply list.NoDup_cons in Hinv as [Hn _]. apply Hn.
  apply elem_of_app. left. apply pid_elem. by exists o, b.
Qed.

Lemma adopted_lookup w q child a x : family_ok w → heap (adopted w q child a) !! x =
  if decide (x = next_obj w) then Some child
  else (λ b, at_obj q (on_family (with_children (λ cs, cs ++ [next_obj w]))) x b) <$> heap w !! x.
Proof.
  intros Hok. cbn. destruct (decide (x = next_obj w)) as [->|Hx]; [by rewrite lookup_insert_eq|].
  rewrite lookup_insert_ne by done. unfold at_obj. destruct (decide (x = q)) as [->|].
  - rewrite lookup_alter_eq. done.
  - rewrite lookup_alter_ne by done. by destruct (heap w !! x).
Qed.

Lemma adopted_inv w q bq child a : family_ok w → pids_left w → pid_alloc (pid_allocator w) = (pcb_pid child, a) →
  heap w !! q = Some bq → is_zombie (family bq) = false →
  is_zombie (family child) = false → parent (family child) = Some q → children (family child) = [] → is_Some (thread 0 (sg child)) →
  family_ok (adopted w q child a).
Proof.
  intros Hok Hl Ha Hq Hqz Hz Hp Hc Ht. destruct (alloc_fresh w _ _ Hok Hl Ha) as [Hinv Hfresh].
  pose proof (fresh_obj w Hok) as Hno. pose proof (fo_fresh _ Hok _ _ Hq) as Hqn.
  assert (∀ x b', heap (adopted w q child a) !! x = Some b' → (x = next_obj w ∧ b' = child) ∨
    ∃ b, heap w !! x = Some b ∧ x ≠ next_obj w ∧ b' = at_obj q (on_family (with_children (λ cs, cs ++ [next_obj w]))) x b) as Hl'.
  { intros x b'. rewrite adopted_lookup by done. case_decide; [intros [= <-]; by left|]. intros (b & -> & Hb)%fmap_Some. right. by exists b. }
  assert (∀ x b, at_obj q (on_family (with_children (λ cs, cs ++ [next_obj w]))) x b =
     on_family (with_children (λ cs, cs ++ if decide (x = q) then [next_obj w] else [])) b) as Hat.
  { intros x b. unfold at_obj. case_decide; [done|]. destruct b as [? ? [] ?]. unfold on_family, with_children. cbn. by rewrite app_nil_r. }
  split.
  - unfold id_inv in *. cbn [fst snd] in *. destruct Hinv as [Hperm Hle]. split; [|done]. rewrite <-Hperm. apply Permutation_app_tail.
    unfold live_pids. cbn [heap adopted]. rewrite fmap_insert, map_to_list_insert.
    2:{ rewrite lookup_fmap, lookup_alter_ne, Hno by lia. done. }
    assert (pcb_pid <$> alter (on_family (with_children (λ cs, cs ++ [next_obj w]))) q (heap w) = pcb_pid <$> heap w) as ->; [|done].
    apply map_eq. intros x. rewrite !lookup_fmap.
    destruct (decide (x = q)) as [->|]; [rewrite lookup_alter_eq|by rewrite lookup_alter_ne]. by destruct (heap w !! q).
  - intros p o. rewrite adopted_lookup by done. cbn [PID2PCB adopted]. destruct (decide (p = pcb_pid child)) as [->|Hne].
    + rewrite lookup_insert_eq. case_decide as Ho; [naive_solver|]. split; [naive_solver|].
      intros (b & Hb & Hpb)%fmap_Some. apply fmap_Some in Hb as (b0 & Hb0 & ->). rewrite Hat in Hpb. cbn in Hpb. by destruct (Hfresh o b0).
    + rewrite lookup_insert_ne by done. rewrite (fo_table _ Hok). case_decide as Ho; [subst; rewrite Hno; naive_solver|].
      destruct (heap w !! o); [|done]. cbn. by rewrite Hat.
  - intros x b' [[-> ->]|(b & Hb & _)]%Hl'; cbn; [lia|]. pose proof (fo_fresh _ Hok _ _ Hb). lia.
  - destruct (fo_init _ Hok) as (b0 & H0 & Hz0 & Hp0). pose proof (fo_fresh _ Hok _ _ H0).
    exists (at_obj q (on_family (with_children (λ cs, cs ++ [next_obj w]))) INITPROC b0).
    rewrite adopted_lookup, decide_False, H0 by (done || lia). split; [done|]. by rewrite Hat.
  - intros x b' Hx'. 
    assert (∀ c, (∃ cb, heap (adopted w q child a) !! c = Some cb ∧ parent (family cb) = Some x) ↔
      (c = next_obj w ∧ x = q) ∨ ∃ cb, heap w !! c = Some cb ∧ parent (family cb) = Some x) as Hpe.
    { intros c. rewrite adopted_lookup by done. destruct (decide (c = next_obj w)) as [->|Hcn].
      - rewrite Hno. naive_solver.
      - destruct (heap w !! c) as [cb|]; [|naive_solver]. cbn. rewrite Hat. split; [intros (? & [= <-] & ?); right; by exists cb|].
        intros [[]|(? & [= <-] & ?)]; [done|]. by eexists. }
    setoid_rewrite Hpe. clear Hpe. apply Hl' in Hx' as [[-> ->]|(b & Hb & Hxn & ->)].
    + rewrite Hc. split; [constructor|]. intros c. split; [set_solver|]. intros [[_ E]|(cb & Hcb & Hpc)]; [lia|].
      exfalso. destruct (decide (c = INITPROC)) as [->|Hc0]; [destruct (fo_init _ Hok) as (? & ? & _ & ?); congruence|].
      destruct (fo_parent _ Hok _ _ Hcb Hc0) as (q' & Hq' & _ & [? ?]). congruence.
    + rewrite Hat. cbn. destruct (fo_kids _ Hok _ _ Hb) as [Hnd Hk]. split.
      * case_decide; [|by rewrite app_nil_r]. apply list.NoDup_app. split; [done|]. split; [|apply NoDup_singleton].
        intros c (cb & Hcb & _)%Hk ->%list_elem_of_singleton. congruence.
      * intros c. rewrite elem_of_app, Hk. case_decide; set_solver.
  - intros x b' [[-> ->]|(b & Hb & Hx & ->)]%Hl' Hne.
    + exists q. rewrite adopted_lookup, decide_False, Hq by (done || lia). split_and!; [done|lia|by eexists].
    + rewrite Hat. destruct (fo_parent _ Hok _ _ Hb Hne) as (q' & Hq' & Hlt & [bq' Hbq']). exists q'.
      pose proof (fo_fresh _ Hok _ _ Hbq'). rewrite adopted_lookup, (decide_False (P := q' = next_obj w)), Hbq' by (done || lia). split_and!; [done|lia|by eexists].
  - intros x b' [[-> ->]|(b & Hb & Hx & ->)]%Hl'; [congruence|]. rewrite Hat. cbn. intros Hzb.
    rewrite (fo_zombie _ Hok _ _ Hb Hzb). rewrite decide_False by congruence. done.
  - intros x b' [[-> ->]|(b & Hb & Hx & ->)]%Hl'; [done|]. rewrite Hat. apply (fo_main _ Hok _ _ Hb).
Qed.

Definition new_child (p q : Z) (vf : option Z) b (cx : TrapContext) (mask : Z) : Pcb :=
  mkPcb p (mkProcess (mkPS 0 (replicate 64 0) (replicate 64 0) (signal_actions (p_sig (sg b))))
             [Some (mkThread (mkTS None mask 0 0 0 0 false (-1)) cx false)] (pr_pgid (sg b)) false None None false)
    (mkFamily false (Some q) [] 0 vf) ∅.

Lemma table_fresh w p : family_ok w → (∀ o b, heap w !! o = Some b → pcb_pid b ≠ p) → PID2PCB w !! p = None.
Proof.
  intros Hok Hf. destruct (PID2PCB w !! p) as [o|] eqn:E; [|done]. apply (fo_table _ Hok) in E.
  apply fmap_Some in E as (b & Hb & ->). by destruct (Hf o b).
Qed.

Lemma process_fork_spec o b th cx p a w : family_ok w → pids_left w → heap w !! o = Some b → thread 0 (sg b) = Some th →
  pid_alloc (pid_allocator w) = (p, a) →
  wp (process_fork o cx) (λ c w', c = next_obj w ∧ w' = adopted w o (new_child p o None b cx (signal_mask (t_sig th))) a) w.
Proof.
  intros Hok Hl Ho Hth Ha. destruct (alloc_fresh w p a Hok Hl Ha) as [_ Hfresh].
  pose proof (fresh_obj w Hok) as Hno. pose proof (fo_fresh _ Hok _ _ Ho) as Hon.
  unfold process_fork. apply wp_bind, (wp_pcb _ b); [done|]. apply wp_bind, wp_get. rewrite Ha.
  apply wp_bind. unfold m_put. cbn [wp]. apply wp_bind, wp_on_pcb; [cbn; rewrite lookup_insert_ne, Ho by lia; by eexists|].
  apply wp_bind. eapply wp_unwrap; [exact Hth|]. apply wp_bind, wp_on_pcb.
  { rewrite moved_lookup. cbn [heap]. rewrite lookup_insert_eq. by eexists. }
  rewrite moved_moved. apply wp_bind. unfold insert_into_pid2process. apply wp_bind, wp_get. apply wp_bind. unfold m_put. cbn [wp].
  change (PID2PCB (moved _ _)) with (PID2PCB w). rewrite (table_fresh w p Hok Hfresh). apply wp_ret, wp_ret. split; [done|].
  apply world_eq; [|done..]. intros x. rewrite adopted_lookup by done. change (heap (with_table _ ?w1)) with (heap w1).
  rewrite moved_lookup. cbn [heap]. unfold at_obj. destruct (decide (x = next_obj w)) as [->|Hx].
  - rewrite lookup_insert_eq. cbn. rewrite decide_False by lia. done.
  - rewrite lookup_insert_ne by done. by destruct (heap w !! x).
Qed.

Lemma find_new_child w o b ch a : family_ok w → heap w !! o = Some b → (∀ x b', heap w !! x = Some b' → pcb_pid b' ≠ pcb_pid ch) →
  list_find (λ c, pcb_pid <$> heap (adopted w o ch a) !! c = Some (pcb_pid ch)) (children (family b) ++ [next_obj w])
  = Some (length (children (family b)), next_obj w).
Proof.
  intros Hok Ho Hf. rewrite list_find_app_r.
  - cbn. rewrite decide_True; [done|]. by rewrite lookup_insert_eq.
  - apply list_find_None, list.Forall_forall. intros c (cb & Hc & _)%(fo_kids _ Hok _ _ Ho).
    rewrite adopted_lookup, decide_False, Hc by (done || (intros ->; rewrite (fresh_obj w Hok) in Hc; done)).
    cbn. intros [= E]. apply (Hf c cb Hc). rewrite <-E. unfold at_obj. by case_decide.
Qed.

(** Where the child of a clone goes: to the parent of the caller with CLONE_PARENT. *)
Lemma clone_process_spec o tid b th th0 flags stack ptid ctid p a q w : family_ok w → pids_left w →
  heap w !! o = Some b → thread tid (sg b) = Some th → thread 0 (sg b) = Some th0 → pid_alloc (pid_allocator w) = (p, a) →
  q = (if any_bit flags CLONE_PARENT then default o (parent (family b)) else o) → (any_bit flags CLONE_PARENT = true → o ≠ INITPROC) →
  wp (clone_process o tid flags stack ptid ctid) (λ r w', r.1 = (next_obj w, p) ∧ ∃ vf,
    w' = adopted w q (new_child p q vf b (child_cx (t_cx th) stack) (signal_mask (t_sig th0))) a) w.
Proof.
  intros Hok Hl Ho Hth Hth0 Ha Hq Hinit. pose proof (fo_fresh _ Hok _ _ Ho) as Hon.
  unfold clone_process. apply wp_bind, (wp_pcb _ b); [done|]. apply wp_bind. eapply wp_unwrap; [exact Hth|].
  apply wp_bind. eapply wp_mono; [by apply (process_fork_spec o b th0 _ p a)|]. intros c w' [-> ->].
  set (cx := child_cx _ _). set (ch := new_child p o None b cx (signal_mask (t_sig th0))).
  apply wp_bind, (wp_pcb _ ch); [rewrite adopted_lookup, decide_True by done; done|].
  cbn [pcb_pid ch new_child].
  set (vf := if any_bit flags CLONE_VM && any_bit flags CLONE_VFORK then Some o else None).
  apply wp_bind. eapply (wp_mono _ (λ _ w', w' = adopted w o (new_child p o vf b cx (signal_mask (t_sig th0))) a)).
  { unfold vf. destruct (any_bit flags CLONE_VM && any_bit flags CLONE_VFORK); [|by apply wp_ret].
    apply wp_on_pcb; [rewrite adopted_lookup, decide_True by done; by eexists|]. apply world_eq; [|done..]. intros x.
    rewrite moved_lookup, !adopted_lookup by done. unfold at_obj. destruct (decide (x = next_obj w)); [done|].
    by destruct (heap w !! x). }
  intros [] ? ->. destruct (any_bit flags CLONE_PARENT) eqn:Ep.
  2:{ apply wp_bind, wp_ret, wp_ret. split; [done|]. exists vf. by subst q. }
  destruct (fo_parent _ Hok _ _ Ho (Hinit eq_refl)) as (q0 & Hq0 & Hlt & [bq Hbq]). rewrite Hq0 in Hq. cbn in Hq. subst q0.
  pose proof (fo_fresh _ Hok _ _ Hbq) as Hqn. destruct (alloc_fresh w p a Hok Hl Ha) as [_ Hfresh].
  set (ch1 := new_child p o vf b cx (signal_mask (t_sig th0))).
  assert (heap (adopted w o ch1 a) !! o = Some (on_family (with_children (λ cs, cs ++ [next_obj w])) b)) as Ho1.
  { rewrite adopted_lookup, decide_False, Ho by (done || lia). unfold at_obj. cbn. by rewrite decide_True. }
  apply wp_bind, wp_bind, (wp_pcb _ _ _ _ Ho1). cbn [on_family with_children family parent]. rewrite Hq0.
  apply wp_bind. unfold remove_child_by_pid. apply wp_bind, wp_get. apply wp_bind, (wp_pcb _ _ _ _ Ho1).
  cbn [on_family with_children family children]. pose proof (find_new_child w o b ch1 a Hok Ho Hfresh) as Hfind. change (pcb_pid ch1) with p in Hfind.
  rewrite Hfind. clear Hfind.
  apply wp_on_pcb; [by rewrite Ho1|]. apply wp_bind, wp_on_pcb; [rewrite moved_lookup, adopted_lookup, decide_True by done; by eexists|].
  rewrite moved_moved. apply wp_bind, wp_get.
  assert (heap (adopted w o ch1 a) !! q = Some bq) as Hq1.
  { rewrite adopted_lookup, decide_False, Hbq by (done || lia). unfold at_obj. cbn. by rewrite decide_False by lia. }
  assert (∀ G, upgrade (moved G (adopted w o ch1 a)) (Some q) = Some q) as Hup.
  { intros G. cbn [upgrade mbind option_bind]. by rewrite moved_lookup, Hq1. }
  rewrite Hup. apply wp_on_pcb; [rewrite moved_lookup, Hq1; by eexists|]. rewrite moved_moved. apply wp_ret. split; [done|]. exists vf.
  apply world_eq; [|done..]. intros x. rewrite moved_lookup, !adopted_lookup by done. unfold at_obj.
  destruct (decide (x = next_obj w)) as [->|Hx].
  - cbn. rewrite (decide_False (P := next_obj w = q)), (decide_False (P := next_obj w = o)) by lia. done.
  - destruct (heap w !! x) as [b'|] eqn:E; [|done]. cbn. destruct (decide (x = o)) as [->|]; [|done].
    assert (b' = b) as -> by congruence. rewrite !(decide_False (P := o = q)) by lia. f_equal.
    destruct b as [? ? [] ?]. unfold on_family, with_children. cbn.
    rewrite delete_middle, app_nil_r. done.
Qed.

(** ** Reaping *)

Lemma delete_filter (l : list Z) i c : NoDup l → l !! i = Some c → delete i l = filter (λ x, x ≠ c) l.
Proof.
  intros Hnd. revert i. induction Hnd as [|x l Hx Hnd IH]; intros [|i] Hi; [done|done|..]; cbn in Hi.
  - injection Hi as ->. change (delete 0%nat (c :: l)) with l. rewrite filter_cons_False by naive_solver. symmetry. apply filter_all_in.
    naive_solver.
  - change (delete (S i) (x :: l)) with (x :: delete i l). rewrite filter_cons_True; [f_equal; by apply IH|]. intros ->. apply Hx. by apply list_elem_of_lookup_2 in Hi.
Qed.

Lemma elem_of_kids w b c cb : (c, cb) ∈ kids w b ↔ c ∈ children (family b) ∧ heap w !! c = Some cb.
Proof.
  unfold kids. rewrite list_elem_of_omap. split.
  - intros (x & Hx & (cb' & Hc & [= -> ->])%fmap_Some). done.
  - intros [Hc Hcb]. exists c. by rewrite Hcb.
Qed.

Lemma pid_unique w o1 o2 b1 b2 : family_ok w → heap w !! o1 = Some b1 → heap w !! o2 = Some b2 → pcb_pid b1 = pcb_pid b2 → o1 = o2.
Proof.
  intros Hok H1 H2 Hp. assert (PID2PCB w !! pcb_pid b1 = Some o1) as E1 by (apply (fo_table _ Hok); by rewrite H1).
  assert (PID2PCB w !! pcb_pid b1 = Some o2) as E2 by (apply (fo_table _ Hok); by rewrite H2, Hp). congruence.
Qed.

Definition unlisted (o c : Z) w : World := moved (at_obj o (on_family (with_children (filter (λ x, x ≠ c))))) w.
Definition reaped (o c : Z) cb (a : RecycleAllocator) w : World :=
  with_pids a (with_heap (delete c) (with_table (delete (pcb_pid cb)) (unlisted o c w))).

Section reap.
Context (w : World) (Hok : family_ok w) (o c : Z) (b cb : Pcb).
Context (Ho : heap w !! o = Some b) (Hc : heap w !! c = Some cb) (Hin : c ∈ children (family b)) (Hz : is_zombie (family cb) = true).

Lemma reap_spec : wp (reap o (pcb_pid cb)) (λ _ w', w' = with_table (delete (pcb_pid cb)) (unlisted o c w)) w.
Proof.
  unfold reap, remove_child_by_pid. apply wp_bind, wp_bind, wp_get. apply wp_bind, (wp_pcb _ b); [done|].
  destruct (list_find _ _) as [[i c']|] eqn:E.
  2:{ exfalso. apply list_find_None in E. rewrite list.Forall_forall in E. apply (E c Hin). by rewrite Hc. }
  apply list_find_Some in E as (Hi & Hp & _). assert (c' = c) as ->.
  { apply fmap_Some in Hp as (cb' & Hc' & Hp). by eapply (pid_unique w c' c cb' cb). }
  apply wp_on_pcb; [by rewrite Ho|]. unfold remove_from_pid2process. apply wp_bind, wp_get.
  change (PID2PCB (moved _ w)) with (PID2PCB w). rewrite (proj2 (fo_table _ Hok (pcb_pid cb) c)) by (by rewrite Hc).
  unfold m_put. cbn [wp]. unfold unlisted. f_equal. apply moved_ext. intros x b' Hx. unfold at_obj. case_decide; [|done]. subst.
  assert (b' = b) as -> by congruence. destruct b as [? ? [] ?]. unfold on_family, with_children. cbn in *. do 2 f_equal.
  apply delete_filter; [|done]. apply (fo_kids _ Hok _ _ Ho).
Qed.

Lemma reap_obj_ne : c ≠ o ∧ c ≠ INITPROC.
Proof. destruct (kids_parent w o b c Hok Ho Hin) as (? & _ & _ & ? & ?). done. Qed.

Lemma reap_drop_spec : ∃ a, PidHandle_drop (pid_allocator w) (pcb_pid cb) = Ret a ∧
  wp (drop_arc c) (λ _ w', w' = reaped o c cb a w) (with_table (delete (pcb_pid cb)) (unlisted o c w)).
Proof.
  destruct reap_obj_ne as [Hco _].
  assert (PidHandle_drop (pid_allocator w) (pcb_pid cb) = Ret (mkRA (ra_current (pid_allocator w)) (ra_recycled (pid_allocator w) ++ [pcb_pid cb]))) as Ha.
  { unfold PidHandle_drop. eapply dealloc_live; [apply Hok|]. apply pid_elem. by exists c, cb. }
  eexists. split; [exact Ha|]. unfold drop_arc. apply wp_bind, wp_get.
  set (w1 := with_table _ _).
  assert (heap w1 !! c = Some cb) as Hc1.
  { change (heap w1) with (heap (unlisted o c w)). unfold unlisted. rewrite moved_lookup, Hc. unfold at_obj. cbn. by rewrite decide_False. }
  destruct (size (heap w1)) as [|n] eqn:Hn; [apply map_size_empty_inv in Hn; rewrite Hn in Hc1; done|].
  cbn [drop_pcb]. apply wp_bind, wp_get. assert (owned w1 c = false) as ->.
  { unfold owned. rewrite !bool_decide_eq_false_2; [done|..].
    - intros (x & b' & Hx & Hb'). change (heap w1) with (heap (unlisted o c w)) in Hx. unfold unlisted in Hx. rewrite moved_lookup in Hx.
      apply fmap_Some in Hx as (b0 & Hx & ->). unfold at_obj in Hb'. destruct (decide (x = o)) as [->|Hxo].
      + cbn in Hb'. apply list_elem_of_filter in Hb' as [? _]. done.
      + apply (fo_kids _ Hok _ _ Hx) in Hb' as (cb' & Hcb' & Hp). apply (fo_kids _ Hok _ _ Ho) in Hin as (cb2 & Hcb2 & Hp2). congruence.
    - intros (p & c' & Hp & ->). cbn in Hp. apply lookup_delete_Some in Hp as [Hne Hp]. apply (fo_table _ Hok) in Hp.
      rewrite Hc in Hp. cbn in Hp. congruence. }
  rewrite Hc1. change (pid_allocator w1) with (pid_allocator w). rewrite Ha. apply wp_bind. unfold m_put. cbn [wp].
  rewrite (fo_zombie _ Hok _ _ Hc Hz). cbn [m_for]. by apply wp_ret.
Qed.

Lemma reaped_lookup a x : heap (reaped o c cb a w) !! x =
  if decide (x = c) then None else at_obj o (on_family (with_children (filter (λ y, y ≠ c)))) x <$> heap w !! x.
Proof.
  unfold reaped, unlisted. cbn [heap with_pids with_heap with_table]. destruct (decide (x = c)) as [->|].
  - apply lookup_delete_eq.
  - rewrite lookup_delete_ne by done. apply (moved_lookup (at_obj o _) w).
Qed.

Lemma reaped_inv a : PidHandle_drop (pid_allocator w) (pcb_pid cb) = Ret a → family_ok (reaped o c cb a w).
Proof.
  intros Ha. destruct reap_obj_ne as [Hco Hc0].
  assert (∀ x b', heap (reaped o c cb a w) !! x = Some b' → ∃ b0, heap w !! x = Some b0 ∧ x ≠ c ∧
    b' = at_obj o (on_family (with_children (filter (λ y, y ≠ c)))) x b0) as Hl.
  { intros x b'. rewrite reaped_lookup. case_decide; [done|]. intros (b0 & -> & Hb0)%fmap_Some. by exists b0. }
  pose proof (reaped_lookup a) as Hlk.
  set (g := at_obj o (on_family (with_children (filter (λ y, y ≠ c))))) in *.
  assert (∀ x b0, pcb_pid (g x b0) = pcb_pid b0 ∧ sg (g x b0) = sg b0 ∧ parent (family (g x b0)) = parent (family b0) ∧
    is_zombie (family (g x b0)) = is_zombie (family b0) ∧
    children (family (g x b0)) = if decide (x = o) then filter (λ y, y ≠ c) (children (family b0)) else children (family b0)) as Hg.
  { intros x b0. unfold g, at_obj. by case_decide. }
  clearbody g. split.
  - assert (live_pids w ≡ₚ pcb_pid cb :: live_pids (reaped o c cb a w)) as Hperm.
    { unfold live_pids. assert (pcb_pid <$> heap (reaped o c cb a w) = delete c (pcb_pid <$> heap w)) as ->.
      { apply map_eq. intros x. rewrite !lookup_fmap, reaped_lookup. destruct (decide (x = c)) as [->|]; [by rewrite lookup_delete_eq|].
        rewrite lookup_delete_ne, lookup_fmap by done. destruct (heap w !! x) as [b0|]; [|done]. cbn. f_equal. unfold at_obj. by case_decide. }
      rewrite <-(map_to_list_delete (pcb_pid <$> heap w) c (pcb_pid cb)); [done|]. by rewrite lookup_fmap, Hc. }
    change (pid_allocator (reaped o c cb a w)) with a. apply (id_dealloc_inv 1 (pid_allocator w) [] (pcb_pid cb)); [|done].
    cbn [app]. pose proof (fo_pids _ Hok) as Hinv. unfold id_inv in *. cbn [fst snd] in *. by rewrite <-Hperm.
  - intros p x. cbn [PID2PCB reaped with_pids with_heap with_table unlisted moved]. rewrite lookup_delete_Some, (fo_table _ Hok).
    destruct (heap (reaped o c cb a w) !! x) as [b'|] eqn:E.
    + apply Hl in E as (b0 & Hx & Hxc & ->). rewrite Hx. cbn. rewrite (proj1 (Hg x b0)). split; [naive_solver|].
      intros [= <-]. split; [|done]. intros Heq. by destruct (pid_unique w c x cb b0 Hok Hc Hx Heq).
    + cbn. rewrite reaped_lookup in E. split; [|done]. intros [Hne Hp]. apply fmap_Some in Hp as (b0 & Hx & ->). rewrite Hx in E.
      case_decide; [|done]. subst. congruence.
  - intros x b' (b0 & Hx & _)%Hl. exact (fo_fresh _ Hok _ _ Hx).
  - destruct (fo_init _ Hok) as (b0 & H0 & Hz0 & Hp0). exists (g INITPROC b0). destruct (Hg INITPROC b0) as (_ & _ & -> & -> & _).
    split_and!; [|done|done]. by rewrite Hlk, decide_False, H0 by done.
  - intros x b' (b0 & Hx & Hxc & ->)%Hl. destruct (Hg x b0) as (_ & _ & _ & _ & ->). destruct (fo_kids _ Hok _ _ Hx) as [Hnd Hk].
    assert (∀ y, (∃ yb, heap (reaped o c cb a w) !! y = Some yb ∧ parent (family yb) = Some x) ↔
      y ≠ c ∧ ∃ yb, heap w !! y = Some yb ∧ parent (family yb) = Some x) as Hpe.
    { intros y. rewrite Hlk. destruct (decide (y = c)) as [->|Hyc]; [naive_solver|].
      destruct (heap w !! y) as [yb|]; [|naive_solver]. cbn. destruct (Hg y yb) as (_ & _ & Hpy & _). split.
      - intros (? & [= <-] & Hp). split; [done|]. exists yb. by rewrite <-Hpy.
      - intros (_ & ? & [= <-] & Hp). eexists. split; [done|]. by rewrite Hpy. }
    setoid_rewrite Hpe. split; [case_decide; [by apply list.NoDup_filter|done]|].
    intros y. case_decide as Hxo; [rewrite list_elem_of_filter, Hk; done|]. rewrite Hk. split; [|naive_solver].
    intros (yb & Hy & Hp). split; [|by exists yb]. intros ->. apply (fo_kids _ Hok _ _ Ho) in Hin as (cb2 & Hcb2 & Hp2). congruence.
  - intros x b' (b0 & Hx & Hxc & ->)%Hl Hx0. destruct (Hg x b0) as (_ & _ & -> & _). destruct (fo_parent _ Hok _ _ Hx Hx0) as (q & Hq & Hlt & Hqs).
    exists q. split_and!; [done|done|]. rewrite Hlk, decide_False; [by apply fmap_is_Some|]. intros ->.
    assert (x ∈ children (family cb)) as Hi by (apply (fo_kids _ Hok _ _ Hc); by exists b0). rewrite (fo_zombie _ Hok _ _ Hc Hz) in Hi. set_solver.
  - intros x b' (b0 & Hx & Hxc & ->)%Hl. destruct (Hg x b0) as (_ & _ & _ & -> & ->). intros Hzx.
    rewrite (fo_zombie _ Hok _ _ Hx Hzx). by case_decide.
  - intros x b' (b0 & Hx & Hxc & ->)%Hl. destruct (Hg x b0) as (_ & -> & _). apply (fo_main _ Hok _ _ Hx).
Qed.
End reap.

(** ** What wait4 reports *)

Section wait_spec.
Context {U : Type} {UM : UserMemory U} (poke : U → Z → list Z → outcome U).

Definition can_store (u : U) (ptr : Z) : Prop := ptr = 0 ∨ ∀ bytes, length bytes = 4%nat → ∃ u', poke u ptr bytes = Ret u'.
Definition stored (u : U) (ptr status : Z) (u' : U) : Prop := if ptr =? 0 then u' = u else poke u ptr (le_put 4 status) = Ret u'.

Lemma put_status_spec u ptr status w : can_store u ptr → wp (put_status poke ptr status u) (λ u' w', stored u ptr status u' ∧ w' = w) w.
Proof.
  intros Hc. unfold put_status, stored. destruct (Z.eqb_spec ptr 0) as [->|Hne]; [by apply wp_ret|].
  destruct Hc as [?|Hc]; [done|]. destruct (Hc (le_put 4 status) (le_put_length _ _)) as [u' ->]. by apply wp_ret.
Qed.

Definition candidates (arg my_pgid : Z) w b : list (Z * Pcb) :=
  filter (λ kb : Z * Pcb, matches_pid arg my_pgid (pcb_pid kb.2) (pr_pgid (sg kb.2)) = true) (kids w b).

(** The outcome of a round: nobody to wait for; the report of a stop, which clears
    it; the report of an exit, which removes the zombie and frees its pid; or
    nothing to report. *)
Definition waitpid_post (o arg my_pgid ptr options : Z) (u : U) b w (r : option Z) (u' : U) w' : Prop :=
  let cs := candidates arg my_pgid w b in
  let stops cb := is_Some (ptrace_stop (sg cb)) ∨ (any_bit options 2 = true ∧ is_stop (wait_event (sg cb)) = true) in
  (cs = [] ∧ r = Some (errno ECHILD) ∧ u' = u ∧ w' = w) ∨
  (∃ c cb, (c, cb) ∈ cs ∧ r = Some (pcb_pid cb) ∧
     ((∃ s, ptrace_stop (sg cb) = Some s ∧ stored u ptr (stop_status s) u' ∧ w' = moved (at_obj c (on_sg clear_ptrace_stop)) w) ∨
      (any_bit options 2 = true ∧ is_stop (wait_event (sg cb)) = true ∧ w' = moved (at_obj c (on_sg clear_wait_event)) w) ∨
      ((∀ kb, kb ∈ cs → ¬ stops kb.2) ∧ is_zombie (family cb) = true ∧ stored u ptr (encode_wait_status (exit_code (family cb))) u' ∧
       ∃ a, PidHandle_drop (pid_allocator w) (pcb_pid cb) = Ret a ∧ w' = reaped o c cb a w))) ∨
  (cs ≠ [] ∧ (∀ kb, kb ∈ cs → ¬ stops kb.2 ∧ is_zombie (family kb.2) = false) ∧
   r = (if any_bit options 1 then Some 0 else None) ∧ u' = u ∧ w' = w).

Lemma find_some {A} (P : A → Prop) `{∀ x, Decision (P x)} (l : list A) i x : list_find P l = Some (i, x) → x ∈ l ∧ P x.
Proof. intros (Hi & HP & _)%list_find_Some. split; [by eapply list_elem_of_lookup_2|done]. Qed.
Lemma find_none {A} (P : A → Prop) `{∀ x, Decision (P x)} (l : list A) : list_find P l = None → ∀ x, x ∈ l → ¬ P x.
Proof. intros Hf. apply list_find_None in Hf. rewrite list.Forall_forall in Hf. exact Hf. Qed.

Lemma candidate_child arg my_pgid w b c cb : (c, cb) ∈ candidates arg my_pgid w b →
  c ∈ children (family b) ∧ heap w !! c = Some cb ∧ matches_pid arg my_pgid (pcb_pid cb) (pr_pgid (sg cb)) = true.
Proof. unfold candidates. rewrite list_elem_of_filter, elem_of_kids. cbn. naive_solver. Qed.

Lemma waitpid_spec o arg my_pgid ptr options u b w : family_ok w → heap w !! o = Some b → can_store u ptr →
  wp (waitpid_round poke o arg my_pgid ptr options u)
    (λ r w', family_ok w' ∧ waitpid_post o arg my_pgid ptr options u b w r.1 r.2 w') w.
Proof.
  intros Hok Ho Hst. unfold waitpid_round. apply wp_bind, wp_get. apply wp_bind, (wp_pcb _ b); [done|].
  fold (candidates arg my_pgid w b). set (cs := candidates _ _ _ _).
  case_bool_decide as Hcs; [apply wp_ret; split; [done|by left]|].
  destruct (list_find _ cs) as [[i [c cb]]|] eqn:E1.
  { apply find_some in E1 as [Hin [s Hs]]. cbn in Hs. destruct (candidate_child _ _ _ _ _ _ Hin) as (Hc & Hcb & _).
    apply wp_bind, wp_on_pcb; [by rewrite Hcb|]. rewrite Hs. apply wp_bind. eapply wp_mono; [by apply put_status_spec|].
    intros u' w' [Hu ->]. apply wp_ret. split; [by apply at_sg_inv|]. right. left. exists c, cb. split; [done|]. split; [done|].
    left. by exists s. }
  assert (∀ kb, kb ∈ cs → ¬ is_Some (ptrace_stop (sg kb.2))) as Hn1 by exact (find_none _ _ E1). clear E1.
  destruct (if any_bit options 2 then _ else None) as [[i [c cb]]|] eqn:E2.
  { destruct (any_bit options 2) eqn:Ew; [|done]. apply find_some in E2 as [Hin Hs]. cbn in Hs.
    destruct (candidate_child _ _ _ _ _ _ Hin) as (Hc & Hcb & _).
    apply wp_bind, wp_on_pcb; [by rewrite Hcb|]. apply wp_bind. eapply wp_mono; [by apply put_status_spec|].
    intros u' w' [Hu ->]. apply wp_ret. split; [by apply at_sg_inv|]. right. left. exists c, cb. split; [done|]. split; [done|].
    right. left. done. }
  assert (∀ kb, kb ∈ cs → ¬ (any_bit options 2 = true ∧ is_stop (wait_event (sg kb.2)) = true)) as Hn2.
  { intros kb Hkb [Hw Hs]. rewrite Hw in E2. by apply (find_none _ _ E2 kb Hkb). }
  clear E2.
  destruct (list_find _ cs) as [[i [c cb]]|] eqn:E3.
  - apply find_some in E3 as [Hin Hz]. cbn in Hz. destruct (candidate_child _ _ _ _ _ _ Hin) as (Hc & Hcb & _).
    apply wp_bind. eapply wp_mono; [by apply (reap_spec w Hok o c b cb)|]. intros [] ? ->.
    apply wp_bind. eapply wp_mono; [by apply put_status_spec|]. intros u' w' [Hu ->].
    destruct (reap_drop_spec w Hok o c b cb Ho Hcb Hc Hz) as (a & Ha & Hd). apply wp_bind. eapply wp_mono; [exact Hd|]. intros [] ? ->.
    apply wp_ret. split; [by eapply reaped_inv|]. right. left. exists c, cb. split; [done|]. split; [done|]. right. right.
    split; [intros kb Hkb [?|?]; [by eapply Hn1|by eapply Hn2]|]. split; [done|]. split; [done|]. by exists a.
  - assert (waitpid_post o arg my_pgid ptr options u b w (if any_bit options 1 then Some 0 else None) u w) as Hpost.
    { right. right. split; [done|]. split; [|done]. intros kb Hkb. split; [intros [?|?]; [by eapply Hn1|by eapply Hn2]|].
      apply not_true_is_false. by apply (find_none _ _ E3). }
    destruct (any_bit options 1); by apply wp_ret.
Qed.

(** waitid keeps the tree as well. *)
Lemma waitid_inv o idtype id my_pgid infop options u b w : family_ok w → heap w !! o = Some b →
  wp (waitid_round o idtype id my_pgid infop options u) (λ _ w', family_ok w') w.
Proof.
  intros Hok Ho. unfold waitid_round. apply wp_bind, wp_get. apply wp_bind, (wp_pcb _ b); [done|].
  set (cs := filter _ (kids w b)).
  assert (∀ c cb, (c, cb) ∈ cs → c ∈ children (family b) ∧ heap w !! c = Some cb) as Hcs.
  { intros c cb. unfold cs. rewrite list_elem_of_filter, elem_of_kids. naive_solver. }
  destruct (list_find _ cs) as [[i [c cb]]|] eqn:E1.
  { apply find_some in E1 as [Hin _]. destruct (Hcs _ _ Hin) as [Hc Hcb]. destruct (default _ _) as [s code].
    destruct (any_bit options 0x1000000); [by apply wp_bind, wp_ret, wp_ret|].
    apply wp_bind, wp_on_pcb; [by rewrite Hcb|]. apply wp_ret. by apply at_sg_inv. }
  destruct (if any_bit options 4 then _ else None) as [[i [c cb]]|] eqn:E2.
  2:{ repeat case_match; by apply wp_ret. }
  destruct (any_bit options 4); [|done]. apply find_some in E2 as [Hin Hz]. cbn in Hz. destruct (Hcs _ _ Hin) as [Hc Hcb].
  destruct (any_bit options 0x1000000).
  - apply wp_bind, wp_ret. destruct (exit_code_to_waitid _) as [status code]. apply wp_bind. unfold drop_arc. apply wp_bind, wp_get.
    apply drop_owned; [|by apply wp_ret]. exists (pcb_pid cb). apply (fo_table _ Hok). by rewrite Hcb.
  - apply wp_bind. eapply wp_mono; [by apply (reap_spec w Hok o c b cb)|]. intros [] ? ->.
    destruct (exit_code_to_waitid _) as [status code].
    destruct (reap_drop_spec w Hok o c b cb Ho Hcb Hc Hz) as (a & Ha & Hd). apply wp_bind. eapply wp_mono; [exact Hd|]. intros [] ? ->.
    apply wp_ret. by eapply reaped_inv.
Qed.
End wait_spec.

(** ** Systems of processes *)

Section system.
Context {U : Type} {UM : UserMemory U} (poke : U → Z → list Z → outcome U).

(** What the process [o] may do, one round of a wait at a time.  [CProc] stands for
    whatever else it does to its signals, group and threads. *)
Inductive fcall : Type :=
| CFork (o : Z) (tid : nat)
| CClone (o : Z) (tid : nat) (flags stack ptid ctid : Z)
| CExit (o : Z) (tid : nat) (code : Z)
| CWaitpid (o arg my_pgid ptr options : Z) (u : U)
| CWaitid (o idtype id my_pgid infop options : Z) (u : U)
| CProc (o : Z) (g : Process → Process).

Definition do_fcall (c : fcall) : M World unit :=
  match c with
  | CFork o tid => let! _ := sys_fork o tid in m_ret tt
  | CClone o tid flags stack ptid ctid => let! _ := sys_clone o tid flags stack ptid ctid in m_ret tt
  | CExit o tid code => exit_current o tid code
  | CWaitpid o arg my_pgid ptr options u => let! _ := waitpid_round poke o arg my_pgid ptr options u in m_ret tt
  | CWaitid o idtype id my_pgid infop options u => let! _ := waitid_round o idtype id my_pgid infop options u in m_ret tt
  | CProc o g => on_pcb o (on_sg g)
  end.

(** The caller is a live process and its thread exists; pids are not exhausted; the
    first process neither exits nor passes its children to a parent it has not. *)
Definition alive w (o : Z) b : Prop := heap w !! o = Some b ∧ is_zombie (family b) = false.
Definition fcall_ok w (c : fcall) : Prop :=
  match c with
  | CFork o tid => pids_left w ∧ ∃ b, alive w o b ∧ is_Some (thread tid (sg b))
  | CClone o tid flags _ _ _ =>
      pids_left w ∧ (any_bit flags CLONE_PARENT = true → o ≠ INITPROC) ∧ ∃ b, alive w o b ∧ is_Some (thread tid (sg b))
  | CExit o _ _ => o ≠ INITPROC ∧ ∃ b, alive w o b
  | CWaitpid o _ _ ptr _ u => can_store poke u ptr ∧ ∃ b, alive w o b
  | CWaitid o _ _ _ _ _ _ => ∃ b, alive w o b
  | CProc o g => (∀ pr, is_Some (thread 0 pr) → is_Some (thread 0 (g pr))) ∧ ∃ b, alive w o b
  end.

Inductive family_step w : World → Prop :=
| family_call c w' : fcall_ok w c → do_fcall c w = Ret (tt, w') → family_step w w'.

Lemma pid_pos w o b : family_ok w → heap w !! o = Some b → 1 <= pcb_pid b.
Proof.
  intros Hok Ho. apply (id_inv_in _ _ _ (pcb_pid b) (fo_pids _ Hok)). left. apply pid_elem. by exists o, b.
Qed.

Lemma fork_inv o tid b w : family_ok w → pids_left w → alive w o b → is_Some (thread tid (sg b)) →
  wp (sys_fork o tid) (λ _ w', family_ok w') w.
Proof.
  intros Hok Hl [Ho Hz] [th Hth]. destruct (fo_main _ Hok _ _ Ho) as [th0 Hth0]. destruct (pid_alloc (pid_allocator w)) as [p a] eqn:Ha.
  unfold sys_fork. apply wp_bind, (wp_pcb _ b); [done|]. apply wp_bind. eapply wp_unwrap; [exact Hth|].
  apply wp_bind. eapply wp_mono; [by apply (process_fork_spec o b th0 _ p a)|]. intros c w' [-> ->].
  apply wp_bind. eapply wp_pcb; [rewrite adopted_lookup, decide_True by done; done|]. apply wp_ret.
  by eapply adopted_inv.
Qed.

Lemma clone_inv o tid b flags stack ptid ctid w : family_ok w → pids_left w → alive w o b → is_Some (thread tid (sg b)) →
  (any_bit flags CLONE_PARENT = true → o ≠ INITPROC) → wp (sys_clone o tid flags stack ptid ctid) (λ _ w', family_ok w') w.
Proof.
  intros Hok Hl Hal Ht Hinit. unfold sys_clone. destruct (any_bit flags 0x20000000); [by apply wp_ret|].
  destruct (_ && _); [by apply wp_ret|]. destruct (negb _).
  { apply wp_bind. eapply wp_mono; [by eapply fork_inv|]. intros p w' Hw'. by apply wp_ret. }
  destruct Hal as [Ho Hz]. destruct Ht as [th Hth]. destruct (fo_main _ Hok _ _ Ho) as [th0 Hth0].
  destruct (pid_alloc (pid_allocator w)) as [p a] eqn:Ha.
  apply wp_bind. eapply wp_mono; [by eapply (clone_process_spec o tid b th th0)|]. intros [[c p'] st] w' [_ [vf ->]]. apply wp_ret.
  destruct (any_bit flags CLONE_PARENT) eqn:Ep; [|by eapply adopted_inv].
  destruct (fo_parent _ Hok _ _ Ho (Hinit eq_refl)) as (q & Hq & _ & [bq Hbq]). rewrite Hq. cbn [default from_option id].
  eapply adopted_inv; [done|done|done|exact Hbq| |done..].
  apply not_true_is_false. intros Hzq. pose proof (fo_zombie _ Hok _ _ Hbq Hzq) as Hnil.
  assert (o ∈ children (family bq)) as Hin by (apply (fo_kids _ Hok _ _ Hbq); by exists b). rewrite Hnil in Hin. set_solver.
Qed.

Lemma exit_current_inv o tid code b w : family_ok w → heap w !! o = Some b → o ≠ INITPROC → wp (exit_current o tid code) (λ _ w', family_ok w') w.
Proof.
  intros Hok Ho Hne. unfold exit_current. apply wp_bind, wp_on_pcb; [by rewrite Ho|].
  set (g := λ b, mkPcb _ _ _ _). assert (family_ok (moved (at_obj o g) w)) as Hok1.
  { apply moved_sg_inv; [done|]. intros x b' Hx. pose proof (fo_main _ Hok _ _ Hx). unfold at_obj. by case_decide. }
  assert (heap (moved (at_obj o g) w) !! o = Some (g b)) as Ho1.
  { rewrite moved_lookup, Ho. unfold at_obj. cbn. by rewrite decide_True. }
  apply wp_bind, (wp_pcb _ _ _ _ Ho1). destruct (_ || _); [|by apply wp_ret].
  pose proof (pid_pos _ _ _ Hok1 Ho1). eapply wp_mono; [apply (process_exit_spec o code (g b)); [done|done|done|lia]|].
  intros [] ? ->. by apply exit_inv.
Qed.

Lemma fcall_inv c w : family_ok w → fcall_ok w c → wp (do_fcall c) (λ _ w', family_ok w') w.
Proof.
  intros Hok Hc. destruct c; cbn [do_fcall fcall_ok] in *.
  - destruct Hc as (Hl & b & Hal & Ht). apply wp_bind. eapply wp_mono; [by eapply fork_inv|]. intros; by apply wp_ret.
  - destruct Hc as (Hl & Hi & b & Hal & Ht). apply wp_bind. eapply wp_mono; [by eapply clone_inv|]. intros; by apply wp_ret.
  - destruct Hc as (Hne & b & Ho & _). by eapply exit_current_inv.
  - destruct Hc as (Hst & b & Ho & _). apply wp_bind. eapply wp_mono; [by eapply waitpid_spec|]. intros ? ? []. by apply wp_ret.
  - destruct Hc as (b & Ho & _). apply wp_bind. eapply wp_mono; [by eapply waitid_inv|]. intros; by apply wp_ret.
  - destruct Hc as (Hg & b & Ho & _). apply wp_on_pcb; [by rewrite Ho|]. by apply at_sg_inv.
Qed.

(** The system after boot ([ProcessControlBlock::new]). *)
Definition init_pcb (cx : TrapContext) (p : Z) : Pcb :=
  let task := mkThread (mkTS None 0 0 0 0 0 false (-1)) cx false in
  mkPcb p (mkProcess (mkPS 0 (replicate 64 0) (replicate 64 0) (replicate 65 default_action)) [Some task] 0 false None None false)
    (mkFamily false None [] 0 None) ∅.
Definition init_world (cx : TrapContext) : World :=
  let '(p, a) := pid_alloc PID_ALLOCATOR in mkWorld {[INITPROC := init_pcb cx p]} 1 {[p := INITPROC]} a.

Lemma init_ok cx : family_ok (init_world cx).
Proof.
  assert (init_world cx = mkWorld {[INITPROC := init_pcb cx 1]} 1 {[1 := INITPROC]} (mkRA 2 [])) as -> by done.
  split; cbn [heap PID2PCB next_obj].
  - split; vm_compute; done.
  - intros p o. rewrite lookup_singleton_Some. destruct (decide (o = INITPROC)) as [->|].
    + rewrite lookup_singleton_eq. cbn. naive_solver.
    + rewrite lookup_singleton_ne by done. naive_solver.
  - intros o b [<- _]%lookup_singleton_Some. lia.
  - eexists. rewrite lookup_singleton_eq. done.
  - intros o b [<- <-]%lookup_singleton_Some. cbn. split; [constructor|]. intros c. split; [set_solver|].
    intros (cb & [<- <-]%lookup_singleton_Some & Hp). done.
  - intros o b [<- _]%lookup_singleton_Some. done.
  - intros o b [<- <-]%lookup_singleton_Some. done.
  - intros o b [<- <-]%lookup_singleton_Some. by eexists.
Qed.

Lemma reachable_ok cx w : rtc family_step (init_world cx) w → family_ok w.
Proof.
  intros Hrun. pose proof (init_ok cx) as Hok. induction Hrun as [|w1 w2 w3 [c w' Hc Hd] _ IH]; [done|]. apply IH.
  pose proof (fcall_inv c w1 Hok Hc) as Hwp. unfold wp in Hwp. by rewrite Hd in Hwp.
Qed.

Definition parent_of w (o q : Z) : Prop := ∃ b, heap w !! o = Some b ∧ parent (family b) = Some q.

Lemma ancestor_init w o : family_ok w → is_Some (heap w !! o) → rtc (parent_of w) o INITPROC.
Proof.
  intros Hok. assert (∀ n o, (Z.to_nat o < n)%nat → is_Some (heap w !! o) → rtc (parent_of w) o INITPROC) as H; [|by apply (H (S (Z.to_nat o))); lia].
  induction n as [|n IH]; intros x Hx [b Hb]; [lia|]. destruct (decide (x = INITPROC)) as [->|Hne]; [done|].
  destruct (fo_parent _ Hok _ _ Hb Hne) as (q & Hq & Hlt & Hs). eapply rtc_l; [by exists b|]. apply IH; [|done].
  destruct Hs as [bq Hbq]. pose proof (fo_fresh _ Hok _ _ Hbq). lia.
Qed.

(** A process that has just ended, as its parent finds it. *)
Lemma exited_child w c code cb o : family_ok w → heap w !! c = Some cb → c ≠ INITPROC → parent (family cb) = Some o →
  let ec := exit_effect c code cb c cb in
  (c ∉ children (family cb)) ∧ o ≠ c ∧ pcb_pid ec = pcb_pid cb ∧ is_zombie (family ec) = true ∧ exit_code (family ec) = code ∧
  parent (family ec) = Some o ∧ ptrace_stop (sg ec) = ptrace_stop (sg cb) ∧ is_stop (wait_event (sg ec)) = is_stop (wait_event (sg cb)).
Proof.
  intros Hok Hc Hne Hp. destruct (fo_parent _ Hok _ _ Hc Hne) as (q & Hq & Hlt & _). assert (q = o) as -> by congruence.
  assert (c ∉ children (family cb)) as Hn by (intros (? & _ & _ & _ & ?)%(kids_parent w c cb c Hok Hc); done).
  cbn zeta. unfold exit_effect. rewrite !(decide_True (P := c = c)) by done. rewrite !decide_False by (rewrite Hp; intros [= ?]; lia).
  split_and!; try done. lia.
Qed.
Lemma exit_signals c code cb o b : parent (family cb) = Some o → o ≠ c →
  has_sig (p_pending (p_sig (sg (exit_effect c code cb o b)))) SIGCHLD = true.
Proof.
  intros Hp Hoc. assert (sg (exit_effect c code cb o b) = on_psig (insert_process_signal (sig_flag SIGCHLD) (wrap_i32 (pcb_pid cb)) 0) (sg b)) as ->.
  { unfold exit_effect. rewrite (decide_True (P := Some o = parent (family cb))), (decide_False (P := o = c)) by done. by repeat case_decide. }
  cbn [on_psig p_sig]. rewrite insert_one by lia. unfold set_pending_signal_siginfo. cbn -[has_sig Z.lor sig_flag].
  rewrite has_sig_lor, has_sig_flag by lia. by rewrite orb_true_r.
Qed.

(** [C0] The processes are a tree, whatever they do.  After any sequence of forks,
    clones, exits, waits and other activity, every process but the first is a child
    of exactly one live process that has not ended and leads back to the first; it is
    listed there once.  The table holds exactly the processes there are, no two of
    which share a pid, and the pids that are free again are exactly the others.  No
    call panics. *)
Theorem family_tree cx w : rtc family_step (init_world cx) w →
  (∀ o b, heap w !! o = Some b → o ≠ INITPROC → rtc (parent_of w) o INITPROC ∧
     ∃ q bq, parent (family b) = Some q ∧ heap w !! q = Some bq ∧ is_zombie (family bq) = false ∧ NoDup (children (family bq)) ∧
       ∀ q' bq', heap w !! q' = Some bq' → (o ∈ children (family bq') ↔ q' = q)) ∧
  (∀ o b c, heap w !! o = Some b → c ∈ children (family b) → is_Some (heap w !! c)) ∧
  (∀ p o, PID2PCB w !! p = Some o ↔ pcb_pid <$> heap w !! o = Some p) ∧
  (∀ p, 1 <= p < ra_current (pid_allocator w) → (p ∈ ra_recycled (pid_allocator w) ↔ PID2PCB w !! p = None)) ∧
  (∀ c, fcall_ok w c → ∃ w', do_fcall c w = Ret (tt, w')).
Proof.
  intros Hrun. pose proof (reachable_ok cx w Hrun) as Hok. split_and!.
  - intros o b Ho Hne. split; [by apply ancestor_init|]. destruct (fo_parent _ Hok _ _ Ho Hne) as (q & Hq & _ & [bq Hbq]).
    exists q, bq. assert (∀ q' bq', heap w !! q' = Some bq' → (o ∈ children (family bq') ↔ q' = q)) as Hiff.
    { intros q' bq' Hq'. rewrite (proj2 (fo_kids _ Hok _ _ Hq') o). split; [naive_solver|intros ->; by exists b]. }
    split_and!; [done|done| |apply (fo_kids _ Hok _ _ Hbq)|done].
    apply not_true_is_false. intros Hz. pose proof (proj2 (Hiff q bq Hbq) eq_refl) as Hin.
    rewrite (fo_zombie _ Hok _ _ Hbq Hz) in Hin. set_solver.
  - intros o b c Ho (cb & -> & _)%(fo_kids _ Hok _ _ Ho). by eexists.
  - apply (fo_table _ Hok).
  - intros p Hp. pose proof (id_inv_nodup _ _ _ (fo_pids _ Hok)) as Hnd. apply list.NoDup_app in Hnd as (_ & Hd & _).
    rewrite eq_None_not_Some. split.
    + intros Hr [o (b & Hb & ->)%(fo_table _ Hok)%fmap_Some]. apply (Hd (pcb_pid b)); [|done]. apply pid_elem. by exists o, b.
    + intros Hn. destruct (proj1 (id_inv_in _ _ _ p (fo_pids _ Hok)) Hp) as [Hl|]; [|done].
      apply pid_elem in Hl as (o & b & Hb & <-). destruct Hn. exists o. apply (fo_table _ Hok). by rewrite Hb.
  - intros c Hc. pose proof (fcall_inv c w Hok Hc) as Hwp. unfold wp in Hwp. destruct (do_fcall c w) as [[[] w']|]; [|done]. by exists w'.
Qed.

(** [C0] The exit of a process reaches its parent.  When a process ends, its parent
    has SIGCHLD pending, and a wait4 for its pid returns that pid at once and stores
    the exit status; then the process and its pid are gone from the system, and its
    children are the children of the first process. *)
Theorem exit_reported w o b c cb code my_pgid ptr options u : family_ok w →
  heap w !! c = Some cb → c ≠ INITPROC → parent (family cb) = Some o → heap w !! o = Some b →
  ptrace_stop (sg cb) = None → is_stop (wait_event (sg cb)) = false → can_store poke u ptr →
  ∃ w1 w2 u', process_exit c code w = Ret (tt, w1) ∧
    waitpid_round poke o (pcb_pid cb) my_pgid ptr options u w1 = Ret ((Some (pcb_pid cb), u'), w2) ∧
    (∃ b1, heap w1 !! o = Some b1 ∧ has_sig (p_pending (p_sig (sg b1))) SIGCHLD = true) ∧
    stored poke u ptr (encode_wait_status code) u' ∧
    heap w2 !! c = None ∧ PID2PCB w2 !! pcb_pid cb = None ∧ pcb_pid cb ∈ ra_recycled (pid_allocator w2) ∧
    (∀ x, x ∈ children (family cb) → ∃ xb, heap w2 !! x = Some xb ∧ parent (family xb) = Some INITPROC) ∧ family_ok w2.
Proof.
  intros Hok Hc Hne Hp Ho Hps Hev Hst. pose proof (pid_pos w c cb Hok Hc) as Hpos.
  pose proof (process_exit_spec c code cb w Hok Hc Hne ltac:(lia)) as Hex. pose proof (exit_inv w Hok c code cb Hc Hne) as Hok1.
  set (w1 := moved (exit_effect c code cb) w) in *. unfold wp in Hex.
  destruct (process_exit c code w) as [[[] w1']|] eqn:Ex; [|done]. subst w1'.
  destruct (exited_child w c code cb o Hok Hc Hne Hp) as (Hec & Hoc & Hpid & Hzom & Hcode & Hparent & Hps1 & Hev1). rewrite Hps in Hps1. rewrite Hev in Hev1.
  assert (heap w1 !! c = Some (exit_effect c code cb c cb)) as Hc1 by (unfold w1; by rewrite moved_lookup, Hc).
  assert (heap w1 !! o = Some (exit_effect c code cb o b)) as Ho1 by (unfold w1; by rewrite moved_lookup, Ho).
  set (ec := exit_effect c code cb c cb) in *. set (eo := exit_effect c code cb o b) in *.
  assert ((c, ec) ∈ candidates (pcb_pid cb) my_pgid w1 eo) as Hcand.
  { unfold candidates. rewrite list_elem_of_filter, elem_of_kids. split_and!; [|apply (fo_kids _ Hok1 _ _ Ho1); by exists ec|done].
    cbn. rewrite Hpid. unfold matches_pid. by replace (pcb_pid cb =? -1) with false by lia; replace (pcb_pid cb =? 0) with false by lia;
      replace (0 <? pcb_pid cb) with true by lia; rewrite Z.eqb_refl. }
  pose proof (waitpid_spec poke o (pcb_pid cb) my_pgid ptr options u eo w1 Hok1 Ho1 Hst) as Hw. unfold wp in Hw.
  destruct (waitpid_round _ _ _ _ _ _ _ w1) as [[[r u'] w2]|] eqn:Ew; [|done]. destruct Hw as [Hok2 Hpost]. cbn [fst snd] in Hpost.
  destruct Hpost as [(E & _)|[(c' & cb' & Hin & Hr & Hcase)|(_ & Hno & _)]].
  { rewrite E in Hcand. set_solver. }
  2:{ destruct (Hno _ Hcand) as [_ Hz]. cbn in Hz. congruence. }
  assert (c' = c ∧ cb' = ec) as [-> ->].
  { destruct (candidate_child _ _ _ _ _ _ Hin) as (_ & Hcb' & Hm). unfold matches_pid in Hm.
    replace (pcb_pid cb =? -1) with false in Hm by lia. replace (pcb_pid cb =? 0) with false in Hm by lia.
    replace (0 <? pcb_pid cb) with true in Hm by lia. apply Z.eqb_eq in Hm.
    assert (c' = c) as -> by (eapply (pid_unique w1 c' c cb' ec); [done..|congruence]). split; [done|congruence]. }
  destruct Hcase as [(s & Hs & _)|[(_ & Hs & _)|(_ & _ & Hstore & a & Ha & ->)]]; [congruence|congruence|].
  exists w1, (reaped o c ec a w1), u'. rewrite Hpid in Hr. rewrite Hcode in Hstore. split_and!; [done|by rewrite Ew, Hr| |done| | | | |done].
  - exists eo. split; [done|]. by apply exit_signals.
  - by rewrite reaped_lookup, decide_True.
  - cbn. rewrite Hpid. apply lookup_delete_eq.
  - change (pid_allocator (reaped o c ec a w1)) with a. unfold PidHandle_drop in Ha.
    rewrite (dealloc_live 1 _ (live_pids w1)) in Ha by (apply Hok1 || (apply pid_elem; by exists c, ec)). injection Ha as <-. rewrite Hpid. cbn. set_solver.
  - intros x Hx. destruct (kids_parent w c cb x Hok Hc Hx) as (xb & Hxb & _ & _ & Hxc).
    exists (at_obj o (on_family (with_children (filter (λ y, y ≠ c)))) x (exit_effect c code cb x xb)).
    rewrite reaped_lookup, decide_False by done. unfold w1. rewrite moved_lookup, Hxb. split; [done|].
    pose proof (ee_parent w Hok c code cb Hc x xb Hxb) as Hpx. rewrite decide_True in Hpx by done. unfold at_obj. by case_decide.
Qed.
End system.

(** ** Examples *)

Definition flat_poke (u : list Z) (addr : Z) (b : list Z) : outcome (list Z) :=
  let '(ok, u) := user_write u addr b in if ok then Ret u else Panic.
Definition boot : World := init_world (mkCx (seqZ 0 32) 0 0).
Definition after (c : fcall (U := list Z)) w : World := match do_fcall flat_poke c w with Ret (_, w) => w | Panic => w end.

(** The first process forks, its child forks and exits, and the first process waits:
    the grandchild is its child then, and pid 2 is free. *)
Definition demo1 : World := after (CFork 0 0) boot.
Definition demo2 : World := after (CFork 1 0) demo1.
Definition demo3 : World := after (CExit 1 0 7) demo2.
Definition demo4 : World := after (CWaitpid 0 2 0 0 0 []) demo3.

Lemma demo2_run : rtc (family_step flat_poke) boot demo2.
Proof.
  eapply rtc_l; [apply (family_call _ _ (CFork 0 0) demo1)|eapply rtc_l; [apply (family_call _ _ (CFork 1 0) demo2)|done]]; [|by vm_compute| |by vm_compute].
  all: split; [by vm_compute|]; eexists; (split; [split; by vm_compute|]); by eexists.
Qed.
Lemma demo4_run : rtc (family_step flat_poke) boot demo4.
Proof.
  etrans; [exact demo2_run|].
  eapply rtc_l; [apply (family_call _ _ (CExit 1 0 7) demo3)|eapply rtc_l; [apply (family_call _ _ (CWaitpid 0 2 0 0 0 []) demo4)|done]].
  - split; [done|]. eexists. split; by vm_compute.
  - by vm_compute.
  - split; [by left|]. eexists. split; by vm_compute.
  - by vm_compute.
Qed.

Lemma family_tree_witness : rtc (parent_of demo4) 2 INITPROC ∧ PID2PCB demo4 !! 2 = None ∧ 2 ∈ ra_recycled (pid_allocator demo4).
Proof.
  destruct (family_tree flat_poke (mkCx (seqZ 0 32) 0 0) demo4 demo4_run) as (H1 & _ & _ & H2 & _).
  assert (PID2PCB demo4 !! 2 = None) as Hn by (by vm_compute).
  split_and!; [|done|by apply H2; [by vm_compute|]].
  assert (is_Some (heap demo4 !! 2)) as [b Hb] by (vm_compute; by eexists). by apply (H1 2 b Hb).
Defined.

Definition pcb_of w (o : Z) : Pcb := default (init_pcb (mkCx [] 0 0) 0) (heap w !! o).
Lemma exit_reported_witness : ∃ w1 w2 u', process_exit 1 7 demo2 = Ret (tt, w1) ∧
  waitpid_round flat_poke 0 2 0 4 0 (replicate 8 0) w1 = Ret ((Some 2, u'), w2) ∧ u' = [0; 0; 0; 0; 0; 7; 0; 0] ∧ PID2PCB w2 !! 2 = None ∧
  ∃ xb, heap w2 !! 2 = Some xb ∧ parent (family xb) = Some INITPROC.
Proof.
  destruct (exit_reported flat_poke demo2 0 (pcb_of demo2 0) 1 (pcb_of demo2 1) 7 0 4 0 (replicate 8 0)) as (w1 & w2 & u' & E1 & E2 & _ & E3 & _ & E4 & _ & E5 & _).
  - exact (reachable_ok flat_poke (mkCx (seqZ 0 32) 0 0) demo2 demo2_run).
  - by vm_compute.
  - done.
  - by vm_compute.
  - by vm_compute.
  - by vm_compute.
  - by vm_compute.
  - right. intros bytes Hb. unfold flat_poke. cbn [user_write flat_memory]. rewrite Hb. by eexists.
  - exists w1, w2, u'. split_and!; [done|exact E2| |exact E4|].
    + unfold stored in E3. vm_compute in E3. by injection E3.
    + apply E5. vm_compute. left.
Defined.
