(* ===== verification/Msg.v ===== *)
(** * System V message queues (os/src/syscall/ipc.rs)

    Message queues, their manager and the system calls on them.  The process
    that calls is described by its identity, the clock by a number of seconds,
    and user memory by an interface with a read and a write that may fail. *)

From stdpp Require Import base list numbers list_numbers option sets gmap sorting.
From S2P Require Import Prelude Errno UserIface.

(** ** Constants and data *)

Abbreviation IPC_PRIVATE := (0).
Abbreviation IPC_CREAT := (0x200).
Abbreviation IPC_EXCL := (0x400).
Abbreviation IPC_NOWAIT := (0x800).
Abbreviation MSG_NOERROR := (0x1000).
Abbreviation MSG_EXCEPT := (0x2000).
Abbreviation MSG_COPY := (0x4000).
Abbreviation IPC_RMID := (0).
Abbreviation IPC_SET := (1).
Abbreviation IPC_STAT := (2).
Abbreviation IPC_INFO := (3).
Abbreviation MSG_STAT := (11).
Abbreviation MSG_INFO := (12).
Abbreviation MSGMAX := (8192).
Abbreviation MSGMNB := (16384).
Abbreviation MSGMNI_DEFAULT := (16).

Record Message : Type := mkMessage { mtype : Z; mtext : list Z }.

Record MessageQueue : Type := mkMessageQueue {
  mq_key : Z;
  mq_id : Z;
  messages : list Message;
  total_bytes : Z;
  max_bytes : Z;
  permissions : Z;
  mq_uid : Z;
  mq_gid : Z;
  mq_cuid : Z;
  mq_cgid : Z;
  ctime : Z;
  stime : Z;
  rtime : Z;
  lspid : Z;
  lrpid : Z;
}.

(** [current_ipc_identity]: effective ids, pid, and whether the user is root. *)
Record identity : Type := mkIdentity { euid : Z; egid : Z; ipc_pid : Z }.
Definition is_super (who : identity) : bool := euid who =? 0.

Definition requested_rw_bits (msgflg : Z) : Z :=
  let raw := Z.land msgflg 0x1ff in
  if raw =? 0 then 0
  else if any_bit raw 0x1c0 then Z.land (Z.shiftr raw 6) 7
  else if any_bit raw 0x38 then Z.land (Z.shiftr raw 3) 7
  else Z.land raw 7.

(** ** One queue *)

Definition MessageQueue_new (key id perm uid gid now_sec : Z) : MessageQueue :=
  mkMessageQueue key id [] 0 MSGMNB perm uid gid uid gid now_sec 0 0 0 0.

Definition access_bits_for (q : MessageQueue) (uid gid : Z) : Z :=
  if (uid =? mq_uid q) || (uid =? mq_cuid q) then Z.land (Z.shiftr (permissions q) 6) 7
  else if (gid =? mq_gid q) || (gid =? mq_cgid q) then Z.land (Z.shiftr (permissions q) 3) 7
  else Z.land (permissions q) 7.

Definition has_access (q : MessageQueue) (uid gid req : Z) : bool :=
  if req =? 0 then true else Z.land (access_bits_for q uid gid) req =? req.

Definition can_ctl (q : MessageQueue) (uid : Z) : bool := (uid =? mq_uid q) || (uid =? mq_cuid q).

Definition set_messages (ms : list Message) (n : Z) (q : MessageQueue) : MessageQueue :=
  mkMessageQueue (mq_key q) (mq_id q) ms n (max_bytes q) (permissions q) (mq_uid q) (mq_gid q) (mq_cuid q) (mq_cgid q)
    (ctime q) (stime q) (rtime q) (lspid q) (lrpid q).
Definition set_sent (now pid : Z) (q : MessageQueue) : MessageQueue :=
  mkMessageQueue (mq_key q) (mq_id q) (messages q) (total_bytes q) (max_bytes q) (permissions q) (mq_uid q) (mq_gid q)
    (mq_cuid q) (mq_cgid q) (ctime q) now (rtime q) pid (lrpid q).
Definition set_received (now pid : Z) (q : MessageQueue) : MessageQueue :=
  mkMessageQueue (mq_key q) (mq_id q) (messages q) (total_bytes q) (max_bytes q) (permissions q) (mq_uid q) (mq_gid q)
    (mq_cuid q) (mq_cgid q) (ctime q) (stime q) now (lspid q) pid.
Definition set_control (perm qbytes now : Z) (q : MessageQueue) : MessageQueue :=
  mkMessageQueue (mq_key q) (mq_id q) (messages q) (total_bytes q) qbytes perm (mq_uid q) (mq_gid q)
    (mq_cuid q) (mq_cgid q) now (stime q) (rtime q) (lspid q) (lrpid q).

Definition msg_len (m : Message) : Z := Z.of_nat (length (mtext m)).

Definition MessageQueue_send (q : MessageQueue) (msg : Message) (pid now_sec : Z) : result MessageQueue Z :=
  let msg_size := msg_len msg in
  if MSGMAX <? msg_size then Err (errno EINVAL)
  else if max_bytes q <? total_bytes q + msg_size then Err (errno EAGAIN)
  else Ok (set_sent now_sec (wrap_i32 pid) (set_messages (messages q ++ [msg]) (total_bytes q + msg_size) q)).

(** [messages.iter().position(p)] *)
Fixpoint position (p : Message → bool) (l : list Message) : option nat :=
  match l with
  | [] => None
  | m :: l => if p m then Some O else S <$> position p l
  end.

(** The loop for a negative type: the first message of the lowest type not
    above [abs_type]; [best] is the pair of [best_idx] and [best_type]. *)
Fixpoint best_loop (abs_type : Z) (idx : nat) (l : list Message) (best : option (nat * Z)) : option (nat * Z) :=
  match l with
  | [] => best
  | m :: l =>
      let best :=
        if mtype m <=? abs_type then
          match best with
          | None => Some (idx, mtype m)
          | Some (_, t) => if mtype m <? t then Some (idx, mtype m) else best
          end
        else best in
      best_loop abs_type (S idx) l best
  end.

Definition receive_position (ms : list Message) (msgtyp : Z) (msg_except : bool) : option nat :=
  if msgtyp =? 0 then match ms with [] => None | _ => Some O end
  else if 0 <? msgtyp then
    if msg_except then position (λ m, negb (mtype m =? msgtyp)) ms else position (λ m, mtype m =? msgtyp) ms
  else fst <$> best_loop (wrap_i64 (- msgtyp)) 0 ms None.

Definition MessageQueue_receive (q : MessageQueue) (msgtyp msgsz msgflg pid now_sec : Z) : result (Message * MessageQueue) Z :=
  let msg_noerror := any_bit msgflg MSG_NOERROR in
  let msg_except := any_bit msgflg MSG_EXCEPT in
  if any_bit msgflg MSG_COPY then
    if negb (any_bit msgflg IPC_NOWAIT) || msg_except || (msgtyp <? 0) then Err (errno EINVAL)
    else
      match messages q !! Z.to_nat msgtyp with
      | None => Err (errno ENOMSG)
      | Some msg => if (msgsz <? msg_len msg) && negb msg_noerror then Err (errno E2BIG) else Ok (msg, q)
      end
  else
    match receive_position (messages q) msgtyp msg_except with
    | Some idx =>
        match messages q !! idx with
        | Some msg =>
            if (msgsz <? msg_len msg) && negb msg_noerror then Err (errno E2BIG)
            else Ok (msg, set_received now_sec (wrap_i32 pid)
                            (set_messages (delete idx (messages q)) (total_bytes q - msg_len msg) q))
        | None => Err (errno ENOMSG)
        end
    | None => Err (errno ENOMSG)
    end.

(** ** The manager *)

(** [msgmni] is the value of [MSGMNI_LIMIT]. *)
Record IpcManager : Type := mkIpc {
  message_queues : gmap Z MessageQueue;
  next_msgid : Z;
  msgmni : Z;
}.

Definition IpcManager_new : IpcManager := mkIpc ∅ 1 MSGMNI_DEFAULT.

(** The ids of the [BTreeMap], in order. *)
Definition msg_ids (m : IpcManager) : list Z := merge_sort Z.le (map_to_list (message_queues m)).*1.

Definition create_msgq (m : IpcManager) (now key perm uid gid : Z) : result Z Z * IpcManager :=
  if msgmni m <=? Z.of_nat (size (message_queues m)) then (Err (errno ENOSPC), m)
  else
    let id := next_msgid m in
    (Ok id, mkIpc (<[id := MessageQueue_new key id perm uid gid now]> (message_queues m)) (wrap_i32 (id + 1)) (msgmni m)).

Definition get_msgq (m : IpcManager) (id : Z) : option MessageQueue := message_queues m !! id.

Fixpoint find_key_loop (key : Z) (qs : gmap Z MessageQueue) (ids : list Z) : option (Z * MessageQueue) :=
  match ids with
  | [] => None
  | id :: ids =>
      match qs !! id with
      | Some q => if mq_key q =? key then Some (id, q) else find_key_loop key qs ids
      | None => find_key_loop key qs ids
      end
  end.
Definition find_msgq_by_key (m : IpcManager) (key : Z) : option (Z * MessageQueue) :=
  find_key_loop key (message_queues m) (msg_ids m).

Definition set_queue (m : IpcManager) (id : Z) (q : MessageQueue) : IpcManager :=
  mkIpc (<[id := q]> (message_queues m)) (next_msgid m) (msgmni m).
Definition remove_msgq (m : IpcManager) (id : Z) : bool * IpcManager :=
  (bool_decide (is_Some (message_queues m !! id)), mkIpc (delete id (message_queues m)) (next_msgid m) (msgmni m)).

(** [set_msgmni_from_proc_write], once the text is parsed. *)
Definition set_msgmni (m : IpcManager) (limit : option Z) : IpcManager :=
  match limit with
  | Some limit => if 0 <? limit then mkIpc (message_queues m) (next_msgid m) limit else m
  | None => m
  end.

Definition ret_of (r : result Z Z) : Z := match r with Ok v => v | Err e => e end.

(** ** System calls *)

Definition sys_msgget (who : identity) (now : Z) (m : IpcManager) (key msgflg : Z) : Z * IpcManager :=
  let perm := Z.land msgflg 0x1ff in
  if key =? IPC_PRIVATE then
    let '(r, m) := create_msgq m now key perm (euid who) (egid who) in (ret_of r, m)
  else
    match find_msgq_by_key m key with
    | Some (id, q) =>
        if any_bit msgflg IPC_CREAT && any_bit msgflg IPC_EXCL then (errno EEXIST, m)
        else
          let req := requested_rw_bits msgflg in
          if negb (is_super who) && negb (req =? 0) && negb (has_access q (euid who) (egid who) req)
          then (errno EACCES, m)
          else (id, m)
    | None =>
        if negb (any_bit msgflg IPC_CREAT) then (errno ENOENT, m)
        else let '(r, m) := create_msgq m now key perm (euid who) (egid who) in (ret_of r, m)
    end.

Section user.
Context {U : Type} {UM : UserMemory U}.

Definition sys_msgsnd (who : identity) (now : Z) (u : U) (m : IpcManager) (msqid msgp msgsz : Z) : Z * IpcManager :=
  if MSGMAX <? msgsz then (errno EINVAL, m)
  else if msgp =? 0 then (errno EFAULT, m)
  else
    match get_msgq m msqid with
    | None => (errno EINVAL, m)
    | Some q =>
        if negb (is_super who) && negb (has_access q (euid who) (egid who) 2) then (errno EACCES, m)
        else
          match user_read u msgp 8 with
          | None => (errno EFAULT, m)
          | Some b =>
              let ty := wrap_i64 (le_get b) in
              if ty <=? 0 then (errno EINVAL, m)
              else
                match user_read u (msgp +w 8) (Z.to_nat msgsz) with
                | None => (errno EFAULT, m)
                | Some text =>
                    match MessageQueue_send q (mkMessage ty text) (ipc_pid who) now with
                    | Ok q => (0, set_queue m msqid q)
                    | Err e => (e, m)
                    end
                end
          end
    end.

Definition sys_msgrcv (who : identity) (now : Z) (u : U) (m : IpcManager) (msqid msgp msgsz msgtyp msgflg : Z)
    : Z * IpcManager * U :=
  if msgp =? 0 then (errno EFAULT, m, u)
  else if MSGMAX <? msgsz then (errno EINVAL, m, u)
  else
    match get_msgq m msqid with
    | None => (errno EINVAL, m, u)
    | Some q =>
        if negb (is_super who) && negb (has_access q (euid who) (egid who) 4) then (errno EACCES, m, u)
        else
          match MessageQueue_receive q msgtyp msgsz msgflg (ipc_pid who) now with
          | Err e => (e, m, u)
          | Ok (msg, q) =>
              let m := set_queue m msqid q in
              if (msgsz <? msg_len msg) && negb (any_bit msgflg MSG_NOERROR) then (errno E2BIG, m, u)
              else
                let actual_size := Z.min (msg_len msg) msgsz in
                let '(ok1, u) := user_write u msgp (le_put 8 (mtype msg)) in
                if negb ok1 then (errno EFAULT, m, u)
                else
                  let '(ok2, u) := user_write u (msgp +w 8) (take (Z.to_nat actual_size) (mtext msg)) in
                  if negb ok2 then (errno EFAULT, m, u) else (actual_size, m, u)
          end
    end.

(** [MsqidDsUser], as the bytes of its [repr(C)] layout on riscv64; [pad] is
    the padding between [pad2] and [unused1]. *)
Definition msgq_to_user_ds (pad : list Z) (q : MessageQueue) : list Z :=
  le_put 4 (mq_key q) ++ le_put 4 (mq_uid q) ++ le_put 4 (mq_gid q) ++ le_put 4 (mq_cuid q) ++ le_put 4 (mq_cgid q) ++
  le_put 2 (Z.land (permissions q) 0x1ff) ++ le_put 2 0 ++ le_put 2 0 ++ le_put 2 0 ++ pad ++ le_put 8 0 ++ le_put 8 0 ++
  le_put 8 (stime q) ++ le_put 8 (rtime q) ++ le_put 8 (ctime q) ++ le_put 8 (total_bytes q) ++
  le_put 8 (Z.of_nat (length (messages q))) ++ le_put 8 (max_bytes q) ++ le_put 4 (lspid q) ++ le_put 4 (lrpid q) ++
  le_put 8 0 ++ le_put 8 0.
Definition MSQID_DS_SZ : nat := 120.
(** The fields of a [MsqidDsUser] that [IPC_SET] uses. *)
Definition ds_mode (b : list Z) : Z := le_get (take 2 (drop 20 b)).
Definition ds_qbytes (b : list Z) : Z := le_get (take 8 (drop 88 b)).

Definition msg_info (m : IpcManager) : list Z :=
  le_put 4 MSGMNB ++ le_put 4 (msgmni m) ++ le_put 4 MSGMAX ++ le_put 4 MSGMNB ++ le_put 4 (msgmni m) ++
  le_put 4 0 ++ le_put 4 0 ++ le_put 4 0.

(** [IPC_STAT] and [MSG_STAT], which differ in what they return. *)
Definition msg_stat (who : identity) (pad : list Z) (u : U) (m : IpcManager) (msqid buf r : Z) : Z * IpcManager * U :=
  if buf =? 0 then (errno EFAULT, m, u)
  else
    match get_msgq m msqid with
    | None => (errno EINVAL, m, u)
    | Some q =>
        if negb (is_super who) && negb (has_access q (euid who) (egid who) 4) then (errno EACCES, m, u)
        else let '(ok, u) := user_write u buf (msgq_to_user_ds pad q) in
             if negb ok then (errno EFAULT, m, u) else (r, m, u)
    end.

Definition sys_msgctl (who : identity) (now : Z) (pad : list Z) (u : U) (m : IpcManager) (msqid cmd buf : Z)
    : Z * IpcManager * U :=
  let cmd := Z.land cmd 0xff in
  if cmd =? IPC_RMID then
    match get_msgq m msqid with
    | None => (errno EINVAL, m, u)
    | Some q =>
        if negb (is_super who) && negb (can_ctl q (euid who)) then (errno EPERM, m, u)
        else let '(removed, m) := remove_msgq m msqid in
             if removed then (0, m, u) else (errno EINVAL, m, u)
    end
  else if cmd =? IPC_STAT then msg_stat who pad u m msqid buf 0
  else if cmd =? IPC_SET then
    if buf =? 0 then (errno EFAULT, m, u)
    else
      match get_msgq m msqid with
      | None => (errno EINVAL, m, u)
      | Some q =>
          match user_read u buf MSQID_DS_SZ with
          | None => (errno EFAULT, m, u)
          | Some ds =>
              if negb (is_super who) && negb (can_ctl q (euid who)) then (errno EPERM, m, u)
              else if (ds_qbytes ds =? 0) || (MSGMNB <? ds_qbytes ds) then (errno EINVAL, m, u)
              else (0, set_queue m msqid (set_control (Z.land (ds_mode ds) 0x1ff) (ds_qbytes ds) now q), u)
          end
      end
  else if (cmd =? IPC_INFO) || (cmd =? MSG_INFO) then
    if buf =? 0 then (errno EFAULT, m, u)
    else
      let '(ok, u) := user_write u buf (msg_info m) in
      if negb ok then (errno EFAULT, m, u) else (default 0 (last (msg_ids m)), m, u)
  else if cmd =? MSG_STAT then msg_stat who pad u m msqid buf msqid
  else (errno EINVAL, m, u).
End user.

(** ** The message a receive takes *)

(** Which messages a [msgtyp] asks for, and by what it prefers one of them;
    ties go to the oldest. *)
Definition eligible (msgtyp : Z) (msg_except : bool) (m : Message) : Prop :=
  if decide (msgtyp = 0) then True
  else if decide (0 < msgtyp) then (if msg_except then mtype m ≠ msgtyp else mtype m = msgtyp)
  else mtype m <= - msgtyp.
Definition rank (msgtyp : Z) (m : Message) : Z := if decide (msgtyp < 0) then mtype m else 0.

Record chosen (ms : list Message) (msgtyp : Z) (msg_except : bool) (idx : nat) (m : Message) : Prop := mkChosen {
  ch_lookup : ms !! idx = Some m;
  ch_eligible : eligible msgtyp msg_except m;
  ch_first : ∀ j m', ms !! j = Some m' → eligible msgtyp msg_except m' →
    rank msgtyp m < rank msgtyp m' ∨ (rank msgtyp m = rank msgtyp m' ∧ (idx <= j)%nat);
}.

Lemma position_Some p l i : position p l = Some i →
  ∃ m, l !! i = Some m ∧ p m = true ∧ ∀ j m', l !! j = Some m' → p m' = true → (i <= j)%nat.
Proof.
  revert i. induction l as [|a l IH]; intros i; cbn [position]; [done|].
  destruct (p a) eqn:Ea; intros H.
  - injection H as <-. exists a. split; [done|]. split; [done|]. intros. lia.
  - destruct (position p l) as [k|]; [|done]. injection H as <-. destruct (IH k eq_refl) as (m & Hm & Hp & Hf).
    exists m. split; [done|]. split; [done|]. intros [|j] m' Hj Hp'; cbn in Hj; [congruence|].
    specialize (Hf j m' Hj Hp'). lia.
Qed.

Lemma position_None p l : position p l = None → ∀ m, m ∈ l → p m = false.
Proof.
  induction l as [|a l IH]; cbn [position]; intros H m Hm; [by apply not_elem_of_nil in Hm|].
  destruct (p a) eqn:Ea; [done|]. destruct (position p l); [done|].
  apply elem_of_cons in Hm as [->|Hm]; [done|by apply IH].
Qed.

(** What [best_loop] has found over the messages [pre] already seen. *)
Definition best_of (t : Z) (pre : list Message) (best : option (nat * Z)) : Prop :=
  match best with
  | None => ∀ m, m ∈ pre → t < mtype m
  | Some (i, ty) =>
      ∃ m, pre !! i = Some m ∧ mtype m = ty ∧ ty <= t ∧
           ∀ j m', pre !! j = Some m' → mtype m' <= t → ty < mtype m' ∨ (ty = mtype m' ∧ (i <= j)%nat)
  end.

Lemma best_of_snoc t pre a best : best_of t pre best →
  best_of t (pre ++ [a])
    (if mtype a <=? t then
       match best with
       | None => Some (length pre, mtype a)
       | Some (_, ty) => if mtype a <? ty then Some (length pre, mtype a) else best
       end
     else best).
Proof.
  assert (Hlast : ∀ j m', (pre ++ [a]) !! j = Some m' → pre !! j = Some m' ∨ (j = length pre ∧ m' = a)).
  { intros j m' Hj. apply lookup_app_Some in Hj as [Hj|[Hl Hj]]; [by left|right].
    apply list_lookup_singleton_Some in Hj as [Hj ->]. split; [lia|done]. }
  assert (Hend : (pre ++ [a]) !! length pre = Some a) by (rewrite lookup_app_r by lia; by rewrite Nat.sub_diag).
  intros H. destruct (mtype a <=? t) eqn:Et; [apply Z.leb_le in Et|apply Z.leb_gt in Et].
  - destruct best as [[i ty]|].
    + destruct H as (m & Hm & Hty & Hle & Hf). pose proof (lookup_lt_Some _ _ _ Hm).
      destruct (mtype a <? ty) eqn:El; [apply Z.ltb_lt in El|apply Z.ltb_ge in El].
      * exists a. split; [done|]. split; [done|]. split; [lia|]. intros j m' Hj Hm'.
        destruct (Hlast _ _ Hj) as [Hj'|[-> ->]]; [destruct (Hf _ _ Hj' Hm'); lia|lia].
      * exists m. split; [by apply lookup_app_l_Some|]. split; [done|]. split; [done|]. intros j m' Hj Hm'.
        destruct (Hlast _ _ Hj) as [Hj'|[-> ->]]; [exact (Hf _ _ Hj' Hm')|lia].
    + exists a. split; [done|]. split; [done|]. split; [lia|]. intros j m' Hj Hm'.
      destruct (Hlast _ _ Hj) as [Hj'|[-> ->]]; [|lia].
      apply list_elem_of_lookup_2 in Hj'. specialize (H _ Hj'). lia.
  - destruct best as [[i ty]|].
    + destruct H as (m & Hm & Hty & Hle & Hf). exists m. split; [by apply lookup_app_l_Some|]. split; [done|].
      split; [done|]. intros j m' Hj Hm'.
      destruct (Hlast _ _ Hj) as [Hj'|[-> ->]]; [exact (Hf _ _ Hj' Hm')|lia].
    + intros m [Hm|Hm]%elem_of_app; [by apply H|]. apply list_elem_of_singleton in Hm as ->. done.
Qed.

Lemma best_loop_spec t l : ∀ pre best, best_of t pre best → best_of t (pre ++ l) (best_loop t (length pre) l best).
Proof.
  induction l as [|a l IH]; intros pre best H; cbn [best_loop]; [by rewrite app_nil_r|].
  apply best_of_snoc with (a := a) in H. specialize (IH _ _ H).
  rewrite length_app in IH. cbn [length] in IH. rewrite Nat.add_1_r in IH. by rewrite <- app_assoc in IH.
Qed.

(** What a receive position stands for. *)
Definition position_for (ms : list Message) (msgtyp : Z) (ex : bool) (r : option nat) : Prop :=
  match r with
  | Some idx => ∃ m, chosen ms msgtyp ex idx m
  | None => ∀ m, m ∈ ms → ¬ eligible msgtyp ex m
  end.

Lemma position_for_first ms msgtyp ex p : 0 < msgtyp → (∀ m, p m = true ↔ eligible msgtyp ex m) →
  position_for ms msgtyp ex (position p ms).
Proof.
  intros Hpos Hp. unfold position_for. destruct (position p ms) as [i|] eqn:E.
  - apply position_Some in E as (m & Hm & Hpm & Hf). exists m. constructor; [done|by apply Hp|].
    intros j m' Hj He. right. unfold rank. rewrite !decide_False by lia. split; [done|].
    apply (Hf j m' Hj). by apply Hp.
  - intros m Hm He. apply Hp in He. rewrite (position_None _ _ E m Hm) in He. done.
Qed.

Lemma position_for_best ms msgtyp ex : - 2 ^ 63 < msgtyp < 0 →
  position_for ms msgtyp ex (fst <$> best_loop (wrap_i64 (- msgtyp)) 0 ms None).
Proof.
  intros Hr.
  replace (wrap_i64 (- msgtyp)) with (- msgtyp) by (unfold wrap_i64; rewrite Z.mod_small; lia).
  assert (He : ∀ m', eligible msgtyp ex m' ↔ mtype m' <= - msgtyp)
    by (intros; unfold eligible; by rewrite !decide_False by lia).
  pose proof (best_loop_spec (- msgtyp) ms [] None) as H. cbn [app length] in H.
  specialize (H ltac:(intros m Hm; by apply not_elem_of_nil in Hm)).
  destruct (best_loop _ _ _ _) as [[i ty]|]; cbn [fmap option_fmap option_map fst position_for].
  - destruct H as (m & Hm & <- & Hle & Hf). exists m.
    constructor; [done|by apply He|]. intros j m' Hj Hm'. apply He in Hm'.
    unfold rank. rewrite !decide_True by lia. exact (Hf _ _ Hj Hm').
  - intros m Hm He'. apply He in He'. specialize (H m Hm). lia.
Qed.

Lemma receive_position_spec ms msgtyp ex : - 2 ^ 63 < msgtyp < 2 ^ 63 →
  position_for ms msgtyp ex (receive_position ms msgtyp ex).
Proof.
  intros Hr. unfold receive_position.
  destruct (msgtyp =? 0) eqn:E0; [apply Z.eqb_eq in E0 as ->|apply Z.eqb_neq in E0].
  - destruct ms as [|m ms]; [intros m Hm; by apply not_elem_of_nil in Hm|].
    exists m. constructor; [done|done|]. intros j m' _ _. right. split; [done|lia].
  - destruct (0 <? msgtyp) eqn:Ep; [apply Z.ltb_lt in Ep|apply Z.ltb_ge in Ep; apply position_for_best; lia].
    destruct ex; (apply position_for_first; [done|]); intros m; unfold eligible;
      rewrite decide_False, decide_True by lia; [|apply Z.eqb_eq].
    rewrite negb_true_iff. apply Z.eqb_neq.
Qed.

(** The queue after its message number [idx], [msg], has been received. *)
Definition taken (q : MessageQueue) (idx : nat) (msg : Message) (pid now : Z) : MessageQueue :=
  set_received now (wrap_i32 pid) (set_messages (delete idx (messages q)) (total_bytes q - msg_len msg) q).

Definition too_long (msgsz msgflg : Z) (msg : Message) : bool := (msgsz <? msg_len msg) && negb (any_bit msgflg MSG_NOERROR).

Lemma MessageQueue_receive_cases q msgtyp msgsz msgflg pid now :
  - 2 ^ 63 < msgtyp < 2 ^ 63 → any_bit msgflg MSG_COPY = false →
  let ex := any_bit msgflg MSG_EXCEPT in
  (MessageQueue_receive q msgtyp msgsz msgflg pid now = Err (errno ENOMSG) ∧ ∀ msg, msg ∈ messages q → ¬ eligible msgtyp ex msg) ∨
  ∃ idx msg, chosen (messages q) msgtyp ex idx msg ∧
    MessageQueue_receive q msgtyp msgsz msgflg pid now =
      (if too_long msgsz msgflg msg then Err (errno E2BIG) else Ok (msg, taken q idx msg pid now)).
Proof.
  intros Hr Hc ex. unfold MessageQueue_receive. rewrite Hc. fold ex.
  pose proof (receive_position_spec (messages q) msgtyp ex Hr) as H.
  destruct (receive_position (messages q) msgtyp ex) as [idx|]; [|by left].
  destruct H as [msg H]. right. exists idx, msg. split; [exact H|]. by rewrite (ch_lookup _ _ _ _ _ H).
Qed.

(** ** Well-formed queues *)

Definition bytes_in (ms : list Message) : Z := foldr Z.add 0 (msg_len <$> ms).

Definition message_ok (m : Message) : Prop := 0 < mtype m < 2 ^ 63 ∧ msg_len m <= MSGMAX ∧ Forall is_byte (mtext m).

Record queue_ok (id : Z) (q : MessageQueue) : Prop := mkQueueOk {
  qo_id : mq_id q = id;
  qo_messages : Forall message_ok (messages q);
  qo_total : total_bytes q = bytes_in (messages q);
  qo_bound : total_bytes q <= MSGMNB;
  qo_max : 0 < max_bytes q <= MSGMNB;
  qo_perm : 0 <= permissions q < 512;
}.

(** [n] bounds the number of queues ever created. *)
Record manager_ok (n : nat) (m : IpcManager) : Prop := mkManagerOk {
  mo_queues : ∀ id q, message_queues m !! id = Some q → queue_ok id q ∧ 1 <= id < next_msgid m;
  mo_keys : ∀ i j qi qj, message_queues m !! i = Some qi → message_queues m !! j = Some qj →
    mq_key qi = mq_key qj → mq_key qi ≠ IPC_PRIVATE → i = j;
  mo_next : 1 <= next_msgid m <= 1 + Z.of_nat n;
  mo_mni : 0 < msgmni m;
}.

Lemma bytes_in_app a b : bytes_in (a ++ b) = bytes_in a + bytes_in b.
Proof.
  induction a as [|x a IH]; [done|].
  change (msg_len x + bytes_in (a ++ b) = msg_len x + bytes_in a + bytes_in b). lia.
Qed.

Lemma bytes_in_nonneg ms : 0 <= bytes_in ms.
Proof.
  induction ms as [|x ms IH]; [done|]. change (0 <= msg_len x + bytes_in ms). unfold msg_len. lia.
Qed.

Lemma bytes_in_delete ms idx msg : ms !! idx = Some msg → bytes_in (delete idx ms) = bytes_in ms - msg_len msg.
Proof.
  intros H. rewrite <- (take_drop_middle _ _ _ H) at 2. rewrite delete_take_drop, !bytes_in_app.
  change (bytes_in (msg :: drop (S idx) ms)) with (msg_len msg + bytes_in (drop (S idx) ms)). lia.
Qed.

Lemma manager_ok_mono n n' m : (n <= n')%nat → manager_ok n m → manager_ok n' m.
Proof. intros Hn [? ? ? ?]. constructor; [done..|lia|done]. Qed.

Lemma land_range a n : 0 <= n → 0 <= Z.land a (Z.ones n) < 2 ^ n.
Proof. intros Hn. rewrite Z.land_ones by done. apply Z.mod_pos_bound. by apply Z.pow_pos_nonneg. Qed.

Lemma manager_ok_set n m id q q' : manager_ok n m → message_queues m !! id = Some q → queue_ok id q' →
  mq_key q' = mq_key q → manager_ok n (set_queue m id q').
Proof.
  intros Hm Hq Hq' Hk. constructor; cbn [set_queue message_queues next_msgid msgmni];
    [| |exact (mo_next _ _ Hm)|exact (mo_mni _ _ Hm)].
  - intros j p [[-> ->]|[Hj Hp]]%lookup_insert_Some; [|exact (mo_queues _ _ Hm j p Hp)].
    split; [done|]. exact (proj2 (mo_queues _ _ Hm _ _ Hq)).
  - intros i j qi qj Hi Hj He Hne.
    assert (Hback : ∀ x p, <[id:=q']> (message_queues m) !! x = Some p →
      ∃ p', message_queues m !! x = Some p' ∧ mq_key p' = mq_key p).
    { intros x p [[-> ->]|[Hx Hp]]%lookup_insert_Some; [exists q; split; congruence|by exists p]. }
    destruct (Hback _ _ Hi) as (pi & Hpi & Hki), (Hback _ _ Hj) as (pj & Hpj & Hkj).
    apply (mo_keys _ _ Hm i j pi pj Hpi Hpj); congruence.
Qed.

Lemma manager_ok_remove n m id : manager_ok n m → manager_ok n (remove_msgq m id).2.
Proof.
  intros Hm. constructor; cbn [remove_msgq snd message_queues next_msgid msgmni];
    [| |exact (mo_next _ _ Hm)|exact (mo_mni _ _ Hm)].
  - intros j p [_ Hp]%lookup_delete_Some. exact (mo_queues _ _ Hm j p Hp).
  - intros i j qi qj [_ Hi]%lookup_delete_Some [_ Hj]%lookup_delete_Some. exact (mo_keys _ _ Hm i j qi qj Hi Hj).
Qed.

Lemma elem_of_msg_ids m id : id ∈ msg_ids m ↔ is_Some (message_queues m !! id).
Proof.
  unfold msg_ids. rewrite merge_sort_Permutation, list_elem_of_fmap. split.
  - intros ([i q] & -> & H%elem_of_map_to_list). by exists q.
  - intros [q H]. exists (id, q). split; [done|]. by apply elem_of_map_to_list.
Qed.

Lemma find_key_loop_None key qs ids : find_key_loop key qs ids = None →
  ∀ id q, id ∈ ids → qs !! id = Some q → mq_key q ≠ key.
Proof.
  induction ids as [|i ids IH]; cbn [find_key_loop]; intros H id q Hid Hq; [by apply not_elem_of_nil in Hid|].
  apply elem_of_cons in Hid as [->|Hid].
  - rewrite Hq in H. destruct (mq_key q =? key) eqn:E; [done|]. by apply Z.eqb_neq.
  - apply (IH ltac:(destruct (qs !! i) as [p|]; [destruct (mq_key p =? key)|]; done) id q Hid Hq).
Qed.

Lemma find_msgq_by_key_None m key : find_msgq_by_key m key = None →
  ∀ id q, message_queues m !! id = Some q → mq_key q ≠ key.
Proof. intros H id q Hq. apply (find_key_loop_None _ _ _ H id q); [|done]. apply elem_of_msg_ids. by exists q. Qed.

Lemma manager_ok_create n m now key perm uid gid : manager_ok n m → Z.of_nat n < 2 ^ 31 - 2 → 0 <= perm < 512 →
  (key ≠ IPC_PRIVATE → ∀ id q, message_queues m !! id = Some q → mq_key q ≠ key) →
  manager_ok (S n) (create_msgq m now key perm uid gid).2.
Proof.
  intros Hm Hn Hperm Hkey. unfold create_msgq. destruct (msgmni m <=? _) eqn:E; cbn [snd];
    [by apply (manager_ok_mono n); [lia|]|].
  pose proof (mo_next _ _ Hm) as Hnext.
  assert (Hw : wrap_i32 (next_msgid m + 1) = next_msgid m + 1) by (unfold wrap_i32; rewrite Z.mod_small; lia).
  constructor; cbn [message_queues next_msgid msgmni]; rewrite ?Hw; [| |lia|exact (mo_mni _ _ Hm)].
  - intros id q [[<- <-]|[_ Hq]]%lookup_insert_Some; [|destruct (mo_queues _ _ Hm id q Hq); split; [done|lia]].
    split; [|lia]. constructor; cbn; (done || lia).
  - intros i j qi qj [[<- <-]|[Hi Hqi]]%lookup_insert_Some [[<- <-]|[Hj Hqj]]%lookup_insert_Some He Hne.
    + done.
    + exfalso. apply (Hkey Hne j qj Hqj). by symmetry.
    + exfalso. cbn [MessageQueue_new mq_key] in He. rewrite He in Hne. by apply (Hkey Hne i qi Hqi).
    + by apply (mo_keys _ _ Hm i j qi qj).
Qed.

(** ** Sequences of calls *)

(** A call, with who makes it, when, and the user memory it sees. *)
Inductive msg_call (U : Type) : Type :=
  | Msgget (who : identity) (now key msgflg : Z)
  | Msgsnd (who : identity) (now : Z) (u : U) (msqid msgp msgsz : Z)
  | Msgrcv (who : identity) (now : Z) (u : U) (msqid msgp msgsz msgtyp msgflg : Z)
  | Msgctl (who : identity) (now : Z) (pad : list Z) (u : U) (msqid cmd buf : Z)
  | Msgmni (limit : option Z).
Arguments Msgget {U}. Arguments Msgsnd {U}. Arguments Msgrcv {U}. Arguments Msgctl {U}. Arguments Msgmni {U}.

Section calls.
Context {U : Type} {UM : UserMemory U}.

Definition msg_step (m : IpcManager) (c : msg_call U) : IpcManager :=
  match c with
  | Msgget who now key msgflg => (sys_msgget who now m key msgflg).2
  | Msgsnd who now u msqid msgp msgsz => (sys_msgsnd who now u m msqid msgp msgsz).2
  | Msgrcv who now u msqid msgp msgsz msgtyp msgflg => (sys_msgrcv who now u m msqid msgp msgsz msgtyp msgflg).1.2
  | Msgctl who now pad u msqid cmd buf => (sys_msgctl who now pad u m msqid cmd buf).1.2
  | Msgmni limit => set_msgmni m limit
  end.

Context {UMS : UserMemorySpec U}.

Lemma sys_msgget_ok n m who now key msgflg : manager_ok n m → Z.of_nat n < 2 ^ 31 - 2 →
  manager_ok (S n) (sys_msgget who now m key msgflg).2.
Proof.
  intros Hm Hn. assert (Hm' : manager_ok (S n) m) by (by apply (manager_ok_mono n); [lia|]).
  pose proof (land_range msgflg 9 ltac:(lia)) as Hperm. change (Z.ones 9) with 0x1ff in Hperm.
  unfold sys_msgget. destruct (key =? IPC_PRIVATE) eqn:Ek; [apply Z.eqb_eq in Ek|apply Z.eqb_neq in Ek].
  - pose proof (manager_ok_create n m now key (Z.land msgflg 0x1ff) (euid who) (egid who) Hm Hn Hperm ltac:(done)) as H.
    by destruct (create_msgq _ _ _ _ _ _).
  - destruct (find_msgq_by_key m key) as [[id q]|] eqn:Ef; [by repeat case_match|].
    pose proof (manager_ok_create n m now key (Z.land msgflg 0x1ff) (euid who) (egid who) Hm Hn Hperm
                  (λ _, find_msgq_by_key_None m key Ef)) as H.
    case_match; [done|]. by destruct (create_msgq _ _ _ _ _ _).
Qed.

Lemma MessageQueue_send_ok id q msg pid now q' : queue_ok id q → message_ok msg →
  MessageQueue_send q msg pid now = Ok q' → queue_ok id q' ∧ mq_key q' = mq_key q.
Proof.
  intros Hq Hmsg. unfold MessageQueue_send. case_match; [done|]. destruct (max_bytes q <? _) eqn:E; [done|].
  apply Z.ltb_ge in E. intros H0. injection H0 as <-. split; [|done].
  pose proof (qo_max _ _ Hq).
  constructor; cbn [taken set_received set_sent set_messages mq_id messages total_bytes max_bytes permissions];
    [apply Hq| | |lia|apply Hq|apply Hq].
  - apply Forall_app. split; [apply Hq|]. by constructor.
  - rewrite bytes_in_app, (qo_total _ _ Hq). change (bytes_in [msg]) with (msg_len msg + 0). lia.
Qed.

Lemma sys_msgsnd_ok n m who now (u : U) msqid msgp msgsz : manager_ok n m →
  manager_ok n (sys_msgsnd who now u m msqid msgp msgsz).2.
Proof.
  intros Hm. unfold sys_msgsnd. destruct (MSGMAX <? msgsz) eqn:Esz; [done|]. apply Z.ltb_ge in Esz.
  case_match; [done|]. destruct (get_msgq m msqid) as [q|] eqn:Eq; [|done]. case_match; [done|].
  destruct (user_read u msgp 8) as [b|] eqn:Eb; [|done].
  destruct (wrap_i64 (le_get b) <=? 0) eqn:Ety; [done|]. apply Z.leb_gt in Ety.
  destruct (user_read u _ (Z.to_nat msgsz)) as [text|] eqn:Et; [|done].
  destruct (MessageQueue_send _ _ _ _) as [q'|e] eqn:Es; [|done]. cbn [snd].
  apply user_read_bytes in Et as [Hlen Hbytes].
  eapply MessageQueue_send_ok in Es as [Hq' Hk]; [by apply (manager_ok_set n m msqid q q')| |].
  - exact (proj1 (mo_queues _ _ Hm _ _ Eq)).
  - split; cbn [mtype mtext]; [unfold wrap_i64 in *; pose proof (Z.mod_pos_bound (le_get b + 2 ^ 63) (2 ^ 64)); lia|].
    split; [|done]. unfold msg_len in *. cbn [mtext]. lia.
Qed.

Lemma taken_ok id q idx msg pid now : queue_ok id q → messages q !! idx = Some msg → queue_ok id (taken q idx msg pid now).
Proof.
  intros Hq Hm. pose proof (qo_bound _ _ Hq).
  constructor; cbn [taken set_received set_sent set_messages mq_id messages total_bytes max_bytes permissions];
    [apply Hq|apply Forall_delete, Hq| | |apply Hq|apply Hq].
  - by rewrite (bytes_in_delete _ _ _ Hm), (qo_total _ _ Hq).
  - unfold msg_len. lia.
Qed.

Lemma MessageQueue_receive_ok id q msgtyp msgsz msgflg pid now msg q' : queue_ok id q →
  MessageQueue_receive q msgtyp msgsz msgflg pid now = Ok (msg, q') → queue_ok id q' ∧ mq_key q' = mq_key q.
Proof.
  intros Hq. unfold MessageQueue_receive. case_match.
  - case_match; [done|]. destruct (messages q !! Z.to_nat msgtyp); [|done]. case_match; [done|]. by intros [= <- <-].
  - destruct (receive_position _ _ _) as [idx|]; [|done]. destruct (messages q !! idx) as [x|] eqn:Ex; [|done].
    case_match; [done|]. intros [= <- <-]. split; [|done]. by apply taken_ok.
Qed.

Lemma sys_msgrcv_ok n m who now (u : U) msqid msgp msgsz msgtyp msgflg : manager_ok n m →
  manager_ok n (sys_msgrcv who now u m msqid msgp msgsz msgtyp msgflg).1.2.
Proof.
  intros Hm. unfold sys_msgrcv. do 2 (case_match; [done|]).
  destruct (get_msgq m msqid) as [q|] eqn:Eq; [|done]. case_match; [done|].
  destruct (MessageQueue_receive _ _ _ _ _ _) as [[msg q']|e] eqn:Er; [|done].
  eapply MessageQueue_receive_ok in Er as [Hq' Hk]; [|exact (proj1 (mo_queues _ _ Hm _ _ Eq))].
  pose proof (manager_ok_set n m msqid q q' Hm Eq Hq' Hk) as H'.
  case_match; [done|]. destruct (user_write _ _ _) as [[] u1]; [|done]. cbn [negb].
  destruct (user_write _ _ _) as [[] u2]; done.
Qed.

Lemma ds_qbytes_nonneg b : Forall is_byte b → 0 <= ds_qbytes b.
Proof. intros H. apply le_get_range. by apply Forall_take, Forall_drop. Qed.

Lemma msg_stat_same who pad (u : U) m msqid buf r : (msg_stat who pad u m msqid buf r).1.2 = m.
Proof.
  unfold msg_stat. case_match; [done|]. destruct (get_msgq m msqid); [|done]. case_match; [done|].
  by destruct (user_write _ _ _) as [[] u'].
Qed.

Lemma sys_msgctl_ok n m who now pad (u : U) msqid cmd buf : manager_ok n m →
  manager_ok n (sys_msgctl who now pad u m msqid cmd buf).1.2.
Proof.
  intros Hm. unfold sys_msgctl. cbv zeta. case_match.
  { destruct (get_msgq m msqid); [|done]. case_match; [done|].
    pose proof (manager_ok_remove n m msqid Hm) as H'. by destruct (remove_msgq m msqid) as [[] m']. }
  case_match; [by rewrite msg_stat_same|]. case_match.
  { case_match; [done|]. destruct (get_msgq m msqid) as [q|] eqn:Eq; [|done].
    destruct (user_read u buf MSQID_DS_SZ) as [ds|] eqn:Er; [|done]. case_match; [done|].
    destruct ((ds_qbytes ds =? 0) || _) eqn:E; [done|]. cbn [fst snd].
    apply orb_false_iff in E as [E1%Z.eqb_neq E2%Z.ltb_ge].
    apply user_read_bytes in Er as [_ Hb%ds_qbytes_nonneg].
    destruct (proj1 (mo_queues _ _ Hm _ _ Eq)). apply (manager_ok_set n m msqid q); [done..| |done].
    constructor; cbn; [done|done|done|done|lia|]. exact (land_range (ds_mode ds) 9 ltac:(lia)). }
  case_match.
  { case_match; [done|]. by destruct (user_write _ _ _) as [[] u']. }
  case_match; [by rewrite msg_stat_same|done].
Qed.

Lemma msg_step_ok n m c : manager_ok n m → Z.of_nat n < 2 ^ 31 - 2 → manager_ok (S n) (msg_step m c).
Proof.
  intros Hm Hn. assert (Hup : ∀ m', manager_ok n m' → manager_ok (S n) m') by (intros m'; apply manager_ok_mono; lia).
  destruct c as [who now key flg|who now u id p sz|who now u id p sz ty flg|who now pad u id cmd buf|limit]; cbn [msg_step].
  - by apply sys_msgget_ok.
  - by apply Hup, sys_msgsnd_ok.
  - by apply Hup, sys_msgrcv_ok.
  - by apply Hup, sys_msgctl_ok.
  - apply Hup. unfold set_msgmni. destruct limit as [l|]; [|done]. destruct (0 <? l) eqn:E; [|done].
    apply Z.ltb_lt in E. destruct Hm. by constructor.
Qed.

Lemma msg_steps_ok cs : ∀ n m, manager_ok n m → Z.of_nat (n + length cs) < 2 ^ 31 - 1 →
  manager_ok (n + length cs) (foldl msg_step m cs).
Proof.
  induction cs as [|c cs IH]; intros n m Hm Hn; cbn [foldl length] in *; [by rewrite Nat.add_0_r|].
  rewrite Nat.add_succ_r, <- Nat.add_succ_l in Hn |- *. apply IH; [|done]. apply msg_step_ok; [done|lia].
Qed.

Lemma manager_ok_new : manager_ok 0 IpcManager_new.
Proof. by constructor. Qed.

(** [C27] Whatever processes ask of the message-queue system calls, in any order
    and with any arguments, user memory and identities, the manager stays
    well-formed as long as fewer than 2^31 - 1 calls have been made: every
    queue is filed under its own id, below the next one; it holds messages of
    a positive type and of at most [MSGMAX] bytes; its byte count is the sum
    of their lengths and never exceeds [MSGMNB]; its limit and its mode are in
    range; and no two queues share a key other than [IPC_PRIVATE]. *)
Theorem msg_queues_typed (cs : list (msg_call U)) : Z.of_nat (length cs) < 2 ^ 31 - 1 →
  manager_ok (length cs) (foldl msg_step IpcManager_new cs).
Proof. intros H. exact (msg_steps_ok cs 0 IpcManager_new manager_ok_new H). Qed.

(** [C28] A receive that is not a copy takes the message its type asks for.
    With type 0 that is the oldest one; with a positive type the oldest of that
    type (with [MSG_EXCEPT], of any other type); with a negative type the oldest
    of the lowest type not above its absolute value.  If none qualifies the call
    fails with [ENOMSG]; if the message does not fit and [MSG_NOERROR] is not
    given it fails with [E2BIG]; both leave the queue and user memory alone.
    Otherwise exactly that message leaves the queue, its type and as much of its
    text as fits are written to the caller's buffer, and the length written is
    returned, or [EFAULT] if one of the two writes fails. *)
Theorem sys_msgrcv_exact who now (u : U) m q msqid msgp msgsz msgtyp msgflg :
  get_msgq m msqid = Some q → msgp ≠ 0 → 0 <= msgsz <= MSGMAX →
  is_super who || has_access q (euid who) (egid who) 4 = true →
  - 2 ^ 63 < msgtyp < 2 ^ 63 → any_bit msgflg MSG_COPY = false →
  let ex := any_bit msgflg MSG_EXCEPT in
  let call := sys_msgrcv who now u m msqid msgp msgsz msgtyp msgflg in
  (call = (errno ENOMSG, m, u) ∧ ∀ msg, msg ∈ messages q → ¬ eligible msgtyp ex msg) ∨
  ∃ idx msg, chosen (messages q) msgtyp ex idx msg ∧
    if too_long msgsz msgflg msg then call = (errno E2BIG, m, u)
    else
      let m' := set_queue m msqid (taken q idx msg (ipc_pid who) now) in
      let n := Z.min (msg_len msg) msgsz in
      let '(ok1, u1) := user_write u msgp (le_put 8 (mtype msg)) in
      let '(ok2, u2) := user_write u1 (msgp +w 8) (take (Z.to_nat n) (mtext msg)) in
      call = if ok1 then (if ok2 then n else errno EFAULT, m', u2) else (errno EFAULT, m', u1).
Proof.
  intros Hq Hp Hsz Hacc Hty Hc ex call. unfold call, sys_msgrcv.
  rewrite (proj2 (Z.eqb_neq msgp 0) Hp), (proj2 (Z.ltb_ge MSGMAX msgsz)), Hq by lia.
  replace (negb (is_super who) && _) with false by (rewrite <- negb_orb, Hacc; done).
  destruct (MessageQueue_receive_cases q msgtyp msgsz msgflg (ipc_pid who) now Hty Hc)
    as [[-> He]|(idx & msg & Hch & ->)]; [by left|right].
  exists idx, msg. split; [exact Hch|]. destruct (too_long msgsz msgflg msg) eqn:Etl; [done|].
  cbv zeta. change ((msgsz <? msg_len msg) && _) with (too_long msgsz msgflg msg). rewrite Etl.
  destruct (user_write u msgp _) as [[] u1]; cbn [negb].
  - destruct (user_write u1 _ _) as [[] u2]; done.
  - by destruct (user_write u1 _ _).
Qed.
End calls.

(** ** A flat user memory, for the witnesses *)

(** Three messages, of types 3, 2 and 2, in a queue of root's. *)
Definition demo_sender : identity := mkIdentity 0 0 7.
Definition demo_user : list Z :=
  repeat 0 8 ++ [3; 0; 0; 0; 0; 0; 0; 0; 10; 11] ++ repeat 0 6 ++ [2; 0; 0; 0; 0; 0; 0; 0; 20; 21; 22] ++ repeat 0 37.
Definition demo_sends : list (msg_call (list Z)) :=
  [Msgget demo_sender 5 77 0x3b0; Msgsnd demo_sender 6 demo_user 1 8 2; Msgsnd demo_sender 7 demo_user 1 24 3;
   Msgsnd demo_sender 8 demo_user 1 24 1].
Definition demo_msgs : IpcManager := foldl msg_step IpcManager_new demo_sends.
Definition demo_queue : MessageQueue := default (MessageQueue_new 0 0 0 0 0 0) (get_msgq demo_msgs 1).

Lemma msg_queues_typed_witness : manager_ok 4 demo_msgs ∧ messages <$> get_msgq demo_msgs 1 =
  Some [mkMessage 3 [10; 11]; mkMessage 2 [20; 21; 22]; mkMessage 2 [20]].
Proof. split; [exact (msg_queues_typed demo_sends eq_refl)|vm_compute; reflexivity]. Defined.

(** With type -3 the receive takes the first message of type 2, not the oldest message. *)
Lemma sys_msgrcv_exact_witness :
  ∃ idx msg, chosen (messages demo_queue) (-3) false idx msg ∧ (idx = 1)%nat ∧ msg = mkMessage 2 [20; 21; 22] ∧
    (sys_msgrcv demo_sender 9 demo_user demo_msgs 1 48 16 (-3) 0).1.1 = 3.
Proof.
  destruct (sys_msgrcv_exact demo_sender 9 demo_user demo_msgs demo_queue 1 48 16 (-3) 0) as [[He _]|(idx & msg & Hch & _)];
    [vm_compute; reflexivity|done|lia|vm_compute; reflexivity|lia|vm_compute; reflexivity| |].
  - exfalso. assert (E : (sys_msgrcv demo_sender 9 demo_user demo_msgs 1 48 16 (-3) 0).1.1 = 3) by (vm_compute; reflexivity).
    rewrite He in E. discriminate E.
  - exists idx, msg. pose proof (ch_lookup _ _ _ _ _ Hch) as Hl. pose proof (ch_first _ _ _ _ _ Hch 1%nat (mkMessage 2 [20; 21; 22])) as Hf.
    assert (Eq : messages demo_queue = [mkMessage 3 [10; 11]; mkMessage 2 [20; 21; 22]; mkMessage 2 [20]])
      by (vm_compute; reflexivity).
    rewrite Eq in Hl, Hf. specialize (Hf eq_refl ltac:(vm_compute; discriminate)).
    split; [exact Hch|]. destruct idx as [|[|[|idx]]]; cbn in Hl; simplify_eq.
    + destruct Hf as [Hf|[Hf _]]; vm_compute in Hf; discriminate Hf.
    + split; [done|]. split; [done|]. vm_compute; reflexivity.
    + destruct Hf as [Hf|[_ Hf]]; [vm_compute in Hf; discriminate Hf|lia].
Defined.
