(* ===== verification/Shm.v ===== *)
(** * System V shared memory (os/src/syscall/ipc.rs)

    Segments, the table of attachments, and the system calls on them.  A segment
    holds its frames through [Arc]s, so creating one allocates frames, attaching
    it clones the references into an area of the caller's address space, and
    removing it drops them: the calls run on the machine.  The manager and the
    memory of the calling process are passed explicitly. *)

From stdpp Require Import base gmap list numbers list_numbers option fin_maps sets sorting.
From S2P Require Import Prelude Errno UserIface Address FrameAllocator Machine PageTable MapArea MemorySet Msg.

(** ** Constants and data *)

Abbreviation SHMMAX := (32 * 1024 * 1024).
Abbreviation SHMMIN := (1).
Abbreviation SHMMNI := (128).
Abbreviation SHMSEG := (128).
Abbreviation SHM_RDONLY := (0x1000).
Abbreviation SHM_RND := (0x2000).
Abbreviation SHM_EXEC := (0x8000).

Record ShmSegment : Type := mkShmSegment {
  shm_key : Z;
  shm_id : Z;
  shm_size : Z;
  shm_frames : list Z;
  shm_perm : Z;
  attach_count : Z;
  marked_for_delete : bool;
}.

(** The part of [IpcManager] for shared memory: attachments are keyed by pid and
    address and hold the segment and the size. *)
Record ShmManager : Type := mkShmManager {
  shm_segments : gmap Z ShmSegment;
  shm_attachments : gmap (Z * Z) (Z * Z);
  next_shmid : Z;
}.

Definition ShmManager_new : ShmManager := mkShmManager ∅ ∅ 1.

(** The memory of a process, as far as these calls use it. *)
Record ProcessMemory (F : Type) : Type := mkProcessMemory {
  memory_set : MemorySet F;
  mmap_base : Z;
}.
Arguments mkProcessMemory {F}.
Arguments memory_set {F}.
Arguments mmap_base {F}.

Definition align_up (value align : Z) : Z := Z.ldiff (value +w align -w 1) (align - 1).

Definition set_count (n : Z) (g : ShmSegment) : ShmSegment :=
  mkShmSegment (shm_key g) (shm_id g) (shm_size g) (shm_frames g) (shm_perm g) n (marked_for_delete g).
Definition set_marked (g : ShmSegment) : ShmSegment :=
  mkShmSegment (shm_key g) (shm_id g) (shm_size g) (shm_frames g) (shm_perm g) (attach_count g) true.

(** Writing through the lock of a segment. *)
Definition put_shm (mg : ShmManager) (id : Z) (g : ShmSegment) : ShmManager :=
  mkShmManager (<[id := g]> (shm_segments mg)) (shm_attachments mg) (next_shmid mg).

(** ** The manager *)

Definition get_shm (mg : ShmManager) (id : Z) : option ShmSegment := shm_segments mg !! id.

Definition shm_ids (mg : ShmManager) : list Z := merge_sort Z.le (map_to_list (shm_segments mg)).*1.

Fixpoint find_shm_loop (key : Z) (gs : gmap Z ShmSegment) (ids : list Z) : option (Z * ShmSegment) :=
  match ids with
  | [] => None
  | id :: ids =>
      match gs !! id with
      | Some g =>
          if (shm_key g =? key) && negb (marked_for_delete g) then Some (id, g) else find_shm_loop key gs ids
      | None => find_shm_loop key gs ids
      end
  end.
Definition find_shm_by_key (mg : ShmManager) (key : Z) : option (Z * ShmSegment) :=
  find_shm_loop key (shm_segments mg) (shm_ids mg).

Definition attachment_count_of_pid (mg : ShmManager) (pid : Z) : Z :=
  Z.of_nat (size (filter (λ kv : Z * Z * (Z * Z), kv.1.1 = pid) (shm_attachments mg))).

Definition add_attachment (mg : ShmManager) (pid addr shmid size : Z) : result unit Z * ShmManager :=
  match shm_attachments mg !! (pid, addr) with
  | Some _ => (Err (errno EINVAL), mg)
  | None => (Ok tt, mkShmManager (shm_segments mg) (<[(pid, addr) := (shmid, size)]> (shm_attachments mg)) (next_shmid mg))
  end.

Definition remove_attachment (mg : ShmManager) (pid addr : Z) : option (Z * Z) * ShmManager :=
  (shm_attachments mg !! (pid, addr),
   mkShmManager (shm_segments mg) (delete (pid, addr) (shm_attachments mg)) (next_shmid mg)).

Section ops.
Context {A : Type} {FA : FrameAllocator A} {F : Type}.

(** The loop of [ShmSegment::new]; frames already taken are dropped on failure. *)
Fixpoint shm_alloc_loop (n : nat) (frames : list Z) : M (machine A) (option (list Z)) :=
  match n with
  | O => m_ret (Some frames)
  | S n =>
      let! frame := frame_alloc in
      match frame with
      | None => m_for frames arc_drop ;;; m_ret None
      | Some ppn => arc_new ppn ;;; shm_alloc_loop n (frames ++ [ppn])
      end
  end.
Definition ShmSegment_new (key id sz perm : Z) : M (machine A) (result ShmSegment Z) :=
  let aligned_size := align_up sz PAGE_SIZE in
  let! frames := shm_alloc_loop (Z.to_nat (aligned_size / PAGE_SIZE)) [] in
  m_ret (match frames with
         | Some frames => Ok (mkShmSegment key id aligned_size frames perm 0 false)
         | None => Err (errno ENOMEM)
         end).

Definition create_shm (mg : ShmManager) (key sz perm : Z) : M (machine A) (result Z Z * ShmManager) :=
  if SHMMNI <=? Z.of_nat (size (shm_segments mg)) then m_ret (Err (errno ENOMEM), mg)
  else
    let id := next_shmid mg in
    let mg := mkShmManager (shm_segments mg) (shm_attachments mg) (wrap_i32 (id + 1)) in
    let! g := ShmSegment_new key id sz perm in
    m_ret (match g with
           | Ok g => (Ok id, put_shm mg id g)
           | Err e => (Err e, mg)
           end).

(** Removing the segment from the map drops it and its frames. *)
Definition remove_shm (mg : ShmManager) (id : Z) : M (machine A) (bool * ShmManager) :=
  match shm_segments mg !! id with
  | None => m_ret (false, mg)
  | Some g =>
      m_for (shm_frames g) arc_drop ;;;
      m_ret (true, mkShmManager (delete id (shm_segments mg))
                     (filter (λ kv : Z * Z * (Z * Z), kv.2.1 ≠ id) (shm_attachments mg)) (next_shmid mg))
  end.

(** What [shmdt] and the exit of a process do once an attachment of [shmid] is
    out of the table. *)
Definition release_shm (mg : ShmManager) (shmid : Z) : M (machine A) ShmManager :=
  match get_shm mg shmid with
  | Some g =>
      let n := if 0 <? attach_count g then attach_count g - 1 else attach_count g in
      let mg := put_shm mg shmid (set_count n g) in
      if marked_for_delete g && (n =? 0) then let! (_, mg) := remove_shm mg shmid in m_ret mg
      else m_ret mg
  | None => m_ret mg
  end.

(** ** System calls *)

Definition alloc_mmap_base (pm : ProcessMemory F) (len : Z) : result Z Z * ProcessMemory F :=
  let base := align_up (mmap_base pm) PAGE_SIZE in
  match checked_add base len with
  | None => (Err (-12), pm)
  | Some next_base => (Ok base, mkProcessMemory (memory_set pm) next_base)
  end.

Definition sys_shmget (mg : ShmManager) (key sz shmflg : Z) : M (machine A) (Z * ShmManager) :=
  if (sz <? SHMMIN) || (SHMMAX <? sz) then m_ret (errno EINVAL, mg)
  else
    let perm := Z.land shmflg 0x1ff in
    if key =? IPC_PRIVATE then
      let! (r, mg) := create_shm mg key sz perm in m_ret (ret_of r, mg)
    else
      match find_shm_by_key mg key with
      | Some (id, g) =>
          if any_bit shmflg IPC_CREAT && any_bit shmflg IPC_EXCL then m_ret (errno EEXIST, mg)
          else if shm_size g <? sz then m_ret (errno EINVAL, mg)
          else m_ret (id, mg)
      | None =>
          if negb (any_bit shmflg IPC_CREAT) then m_ret (errno ENOENT, mg)
          else let! (r, mg) := create_shm mg key sz perm in m_ret (ret_of r, mg)
      end.

Definition shm_map_perm (shmflg : Z) : Z :=
  let perm := Z.lor MP_U MP_R in
  let perm := if negb (any_bit shmflg SHM_RDONLY) then Z.lor perm MP_W else perm in
  if any_bit shmflg SHM_EXEC then Z.lor perm MP_X else perm.

(** Where to attach: chosen by the system for a null address. *)
Definition shm_attach_addr (pm : ProcessMemory F) (sz shmaddr shmflg : Z) : result Z Z * ProcessMemory F :=
  if shmaddr =? 0 then alloc_mmap_base pm sz
  else if any_bit shmaddr (PAGE_SIZE - 1) then
    if any_bit shmflg SHM_RND then (Ok (Z.ldiff shmaddr (PAGE_SIZE - 1)), pm) else (Err (errno EINVAL), pm)
  else (Ok shmaddr, pm).

Definition sys_shmat (mg : ShmManager) (pid : Z) (pm : ProcessMemory F) (shmid shmaddr shmflg : Z)
    : M (machine A) (Z * ShmManager * ProcessMemory F) :=
  match get_shm mg shmid with
  | None => m_ret (errno EINVAL, mg, pm)
  | Some g =>
      if SHMSEG <=? attachment_count_of_pid mg pid then m_ret (errno EMFILE, mg, pm)
      else if marked_for_delete g then m_ret (errno EINVAL, mg, pm)
      else
        let map_perm := shm_map_perm shmflg in
        match shm_attach_addr pm (shm_size g) shmaddr shmflg with
        | (Err e, pm) => m_ret (e, mg, pm)
        | (Ok attach_addr, pm) =>
            match checked_add attach_addr (shm_size g) with
            | None => m_ret (errno ENOMEM, mg, pm)
            | Some attach_end =>
                if 0 <? overlap_count (memory_set pm) attach_addr attach_end then m_ret (errno EINVAL, mg, pm)
                else
                  let! (ok, ms) := insert_shm_area (memory_set pm) attach_addr attach_end map_perm (shm_frames g) in
                  let pm := mkProcessMemory ms (mmap_base pm) in
                  if negb ok then m_ret (errno EINVAL, mg, pm)
                  else
                    match add_attachment mg pid attach_addr shmid (shm_size g) with
                    | (Err _, mg) =>
                        let! ms := remove_area_with_start_vpn ms (VirtAddr_floor attach_addr) in
                        m_ret (errno EINVAL, mg, mkProcessMemory ms (mmap_base pm))
                    | (Ok _, mg) => m_ret (attach_addr, put_shm mg shmid (set_count (attach_count g + 1) g), pm)
                    end
            end
        end
  end.

Definition sys_shmdt (mg : ShmManager) (pid : Z) (pm : ProcessMemory F) (shmaddr : Z)
    : M (machine A) (Z * ShmManager * ProcessMemory F) :=
  if shmaddr =? 0 then m_ret (errno EINVAL, mg, pm)
  else
    match remove_attachment mg pid shmaddr with
    | (None, mg) => m_ret (errno EINVAL, mg, pm)
    | (Some (shmid, _), mg) =>
        let! ms := remove_area_with_start_vpn (memory_set pm) (VirtAddr_floor shmaddr) in
        let! mg := release_shm mg shmid in
        m_ret (0, mg, mkProcessMemory ms (mmap_base pm))
    end.

Definition sys_shmctl (mg : ShmManager) (shmid cmd : Z) : M (machine A) (Z * ShmManager) :=
  if cmd =? IPC_RMID then
    match get_shm mg shmid with
    | Some g =>
        let mg := put_shm mg shmid (set_marked g) in
        if attach_count g =? 0 then let! (_, mg) := remove_shm mg shmid in m_ret (0, mg) else m_ret (0, mg)
    | None => m_ret (errno EINVAL, mg)
    end
  else if (cmd =? IPC_STAT) || (cmd =? IPC_SET) then
    m_ret (if bool_decide (is_Some (get_shm mg shmid)) then 0 else errno EINVAL, mg)
  else m_ret (errno EINVAL, mg).

(** [cleanup_shm_attachments_for_pid] *)
Definition attached_addrs (mg : ShmManager) (pid : Z) : list Z :=
  merge_sort Z.le
    ((λ kv : Z * Z * (Z * Z), kv.1.2) <$> map_to_list (filter (λ kv : Z * Z * (Z * Z), kv.1.1 = pid) (shm_attachments mg))).
Definition cleanup_one (pid : Z) (mg : ShmManager) (addr : Z) : M (machine A) ShmManager :=
  match remove_attachment mg pid addr with
  | (Some (shmid, _), mg) => release_shm mg shmid
  | (None, mg) => m_ret mg
  end.
Definition cleanup_shm_attachments_for_pid (mg : ShmManager) (pid : Z) : M (machine A) ShmManager :=
  m_fold (cleanup_one pid) (attached_addrs mg pid) mg.
End ops.
