(* ===== verification/ShmSpace.v ===== *)
(** * Attaching and detaching segments in an address space

    What [insert_shm_area] and [remove_area_with_start_vpn] of
    os/src/mm/memory_set.rs do to a well-formed address space. *)

From stdpp Require Import base gmap list numbers list_numbers option fin_maps sets sorting.
From S2P Require Import Prelude Errno UserIface Address FrameAllocator Machine PageTable MapArea MemorySet Space.
From S2P Require Import AddressSpace Mmap Cow Msg Shm.

(** ** Pages and areas of a segment *)

(** The pages of a list of (frame, page) pairs. *)
Definition pages_of (l : list (Z * Z)) : gmap Z Z := list_to_map ((λ '(p, v), (v, p)) <$> l).

Lemma pages_of_cons p v xs : pages_of ((p, v) :: xs) = <[v := p]> (pages_of xs).
Proof. done. Qed.

Lemma pages_of_dom xs v : is_Some (pages_of xs !! v) ↔ v ∈ xs.*2.
Proof.
  induction xs as [|[p w] xs IH]; [split; [by intros [??]|by intros ?%not_elem_of_nil]|].
  rewrite pages_of_cons, lookup_insert_is_Some, IH. cbn [fmap list_fmap snd]. rewrite elem_of_cons.
  destruct (decide (w = v)); naive_solver.
Qed.

Lemma pages_of_frames xs v p : pages_of xs !! v = Some p → p ∈ xs.*1.
Proof.
  induction xs as [|[q w] xs IH]; [done|]. rewrite pages_of_cons. cbn [fmap list_fmap fst].
  intros [[_ ->]|[_ H]]%lookup_insert_Some; set_solver.
Qed.

Section shm_areas.
Context {F : Type}.

Definition shm_area (start end_ perm : Z) : MapArea F :=
  with_area_type MapArea.Shm (MapArea_new_with_kind start end_ Framed perm Shared).

Definition shm_pages (a : MapArea F) (frames : list Z) : gmap Z Z :=
  pages_of (zip frames (seqZ (area_start a) (area_end a - area_start a))).

(** [n] pages at the address [addr], below 2^38. *)
Definition user_span (addr n : Z) : Prop :=
  addr mod PAGE_SIZE = 0 ∧ 0 <= addr ∧ 0 < n ∧ addr + n * PAGE_SIZE <= 2 ^ 38.

Lemma shm_area_span addr n perm : user_span addr n →
  let a := shm_area addr (addr + n * PAGE_SIZE) perm in
  VirtAddr_ceil (addr + n * PAGE_SIZE) = addr / PAGE_SIZE + n ∧
  area_start a = addr / PAGE_SIZE ∧ area_end a = addr / PAGE_SIZE + n.
Proof.
  intros (Hm & H0 & Hn & Hlt).
  assert (Hc : VirtAddr_ceil (addr + n * PAGE_SIZE) = addr / PAGE_SIZE + n).
  { unfold VirtAddr_ceil, PAGE_SIZE in *. rewrite (wrap64_small (addr + n * 4096 - 1)) by (unfold is_usize, USIZE; lia).
    rewrite wrap64_small by (unfold is_usize, USIZE; lia). Z.div_mod_to_equations. lia. }
  split; [exact Hc|].
  unfold area_start, area_end, shm_area, with_area_type, MapArea_new_with_kind, VPNRange_new, VirtAddr_floor. cbn [vpn_range].
  rewrite Hc. destruct (Z.leb_spec (addr / PAGE_SIZE) (addr / PAGE_SIZE + n)); [done|lia].
Qed.

Lemma shm_area_fresh (ms : MemorySet F) addr n perm : user_span addr n → 0 <= perm < 256 →
  overlap_count ms addr (addr + n * PAGE_SIZE) <= 0 → fresh_area ms (shm_area addr (addr + n * PAGE_SIZE) perm).
Proof.
  intros Hs Hp Hov. destruct (shm_area_span addr n perm Hs) as (Hc & Hst & Hen). pose proof Hs as (Hm & H0 & Hn & Hlt).
  split_and!; [|done|].
  - split; rewrite ?Hst, ?Hen; [|unfold PAGE_SIZE in *|done|done|done]; Z.div_mod_to_equations; unfold PAGE_SIZE in *; lia.
  - intros b Hb v Hv Hw. unfold in_area in Hv, Hw. rewrite Hst, Hen in Hw. unfold overlap_count in Hov.
    destruct (filter _ (areas ms)) as [|x l] eqn:E; [|cbn [length] in Hov; lia].
    assert (Hin : b ∈ filter (λ a, Is_true (area_overlaps (VirtAddr_floor addr) (VirtAddr_ceil (addr + n * PAGE_SIZE)) a)) (areas ms)).
    { apply list_elem_of_filter. split; [|done]. apply Is_true_true. unfold area_overlaps, VirtAddr_floor. rewrite Hc.
      apply andb_true_iff. split; apply Z.ltb_lt; lia. }
    rewrite E in Hin. by apply not_elem_of_nil in Hin.
Qed.

End shm_areas.

Section shm_space.
Context {A : Type} {FA : FrameAllocator A} {inv : A → Prop} {owned : A → Z → Prop} {avail : A → nat}.
Context `{HFS : !FrameAllocatorSpec A inv owned avail}.
Context (ext : Z → nat) {F : Type}.
Implicit Types (s : machine A) (pt : PageTable) (lbl : gmap Z node) (am D : gmap Z Z).
Implicit Types (a b : MapArea F) (l : list (MapArea F)) (ms : MemorySet F).

#[local] Abbreviation sp_core := (sp_core (inv:=inv) (owned:=owned) ext).
#[local] Abbreviation sp_step := (sp_step (owned:=owned) (avail:=avail)).
#[local] Abbreviation ms_inv := (ms_inv (inv:=inv) (owned:=owned) ext (F:=F)).
#[local] Abbreviation kept := (kept ext).

(** References do not appear out of nothing. *)
Definition arcs_within s s' : Prop := ∀ p, is_Some (arcs s' !! p) → is_Some (arcs s !! p).

(** ** Attaching *)

(** The body of the loop of [insert_shm_area]. *)
Definition shm_map_step (perm : Z) : MapArea F * PageTable → Z * Z → M (machine A) (MapArea F * PageTable) :=
  λ '(a, pt) '(ppn, vpn),
    let flags := map_perm_to_pte_flags perm in
    let! pt := PageTable_map pt vpn ppn flags in
    arc_clone ppn ;;;
    let! fr := frames_insert (data_frames a) vpn ppn in
    m_ret (set_frames fr a, pt).

Lemma wp_shm_map_step perm a s pt lbl am D p v (Q : MapArea F * PageTable → machine A → Prop) :
  sp_core s pt lbl am D → user_vpn v → D !! v = None → data_frames a !! v = None →
  is_Some (arcs s !! p) → (2 <= avail (falloc s))%nat →
  (∀ s' pt' lbl', 0 <= p < FRAME_END →
     sp_core s' pt' lbl' (<[v := PageTableEntry_new p (Z.lor (map_perm_to_pte_flags perm) PTE_V)]> am) (<[v := p]> D) →
     sp_step (λ _, True) 2 s s' lbl lbl' → (∀ q, is_Some (arcs s' !! q) ↔ is_Some (arcs s !! q)) →
     Q (set_frames (<[v := p]> (data_frames a)) a, pt') s') →
  wp (shm_map_step perm (a, pt) (p, v)) Q s.
Proof.
  intros Hc Hu HD Ha Hp Hav HQ.
  destruct (sp_owned _ _ _ _ _ _ Hc p Hp) as [Hop _].
  assert (Hr : 0 <= p < FRAME_END) by (eapply spec_owned_range; [apply Hc|done]).
  apply wp_bind. eapply wp_sp_map; [done|done|done|apply perm_flags_range|done|].
  intros s1 pt1 lbl1 Hc1 Hst1 Ha1 _. apply wp_bind, wp_modify, wp_bind.
  unfold frames_insert. rewrite Ha. apply wp_bind, wp_ret, wp_ret, wp_ret.
  apply (HQ _ pt1 lbl1); [done| | |].
  - apply (sp_arc_clone ext _ _ _ _ D); [done|by rewrite Ha1|]. intros q. by apply refs_insert.
  - eapply sp_step_weaken; [| |eapply sp_step_trans; [exact Hst1|apply sp_step_clone]]; [done|lia].
  - intros q. cbn [set_arcs arcs]. by rewrite lookup_alter_is_Some, Ha1.
Qed.

Lemma wp_shm_map_pages perm xs : ∀ a s pt lbl am D (Q : MapArea F * PageTable → machine A → Prop),
  sp_core s pt lbl am D → NoDup xs.*2 →
  (∀ v, v ∈ xs.*2 → user_vpn v ∧ am !! v = None ∧ D !! v = None ∧ data_frames a !! v = None) →
  (∀ p, p ∈ xs.*1 → is_Some (arcs s !! p)) → (2 * length xs <= avail (falloc s))%nat →
  (∀ s' pt' lbl', (∀ v p, pages_of xs !! v = Some p → 0 <= p < FRAME_END) →
     sp_core s' pt' lbl' (entries (map_perm_to_pte_flags perm) (pages_of xs) ∪ am) (pages_of xs ∪ D) →
     sp_step (λ _, True) (2 * length xs) s s' lbl lbl' → arcs_within s s' →
     Q (set_frames (pages_of xs ∪ data_frames a) a, pt') s') →
  wp (m_fold (shm_map_step perm) xs (a, pt)) Q s.
Proof.
  induction xs as [|[p v] xs IH]; intros a s pt lbl am D Q Hc Hnd Hvs Hps Hav HQ.
  - apply wp_ret. specialize (HQ s pt lbl). unfold entries, pages_of in HQ.
    cbn [fmap list_fmap list_to_map foldr] in HQ. rewrite fmap_empty, !(left_id_L ∅ (∪)) in HQ.
    replace (set_frames (data_frames a) a) with a in HQ by by destruct a.
    apply HQ; [done|done|apply sp_step_refl|by intros q].
  - cbn [fmap list_fmap fst snd length] in *. apply NoDup_cons in Hnd as [Hv Hnd].
    destruct (Hvs v) as (Hu & Ham & HD & Ha); [set_solver|].
    apply wp_bind. eapply wp_shm_map_step; [done|done|done|done|apply Hps; set_solver|lia|].
    intros s1 pt1 lbl1 Hr Hc1 Hst1 Ha1.
    eapply IH; [exact Hc1|done| | |pose proof (step_avail _ _ _ _ _ _ Hst1); lia|].
    { intros w Hw. assert (w ≠ v) by (intros ->; done). simpl. rewrite !lookup_insert_ne by done.
      apply Hvs. set_solver. }
    { intros q Hq. apply Ha1, Hps. set_solver. }
    simpl. intros s2 pt2 lbl2 Hrs Hc2 Hst2 Hw2.
    assert (Hfv : pages_of xs !! v = None) by (apply eq_None_not_Some; by rewrite pages_of_dom).
    specialize (HQ s2 pt2 lbl2). unfold entries in *. rewrite pages_of_cons in HQ.
    rewrite fmap_insert, <- !insert_union_l, !insert_union_r in HQ by (rewrite ?lookup_fmap, Hfv; done).
    apply HQ; [|done| |].
    + intros w q [[_ <-]|[_ Hq]]%lookup_insert_Some; [done|by eapply Hrs].
    + eapply sp_step_weaken; [| |by eapply sp_step_trans]; [done|lia].
    + intros q Hq. by apply Ha1, Hw2.
Qed.

Lemma wp_insert_shm_area s ms lbl am D start end_ perm frames (Q : bool * MemorySet F → machine A → Prop) :
  let a := shm_area (F:=F) start end_ perm in
  let fr := shm_pages a frames in
  ms_inv s ms lbl am D → fresh_area ms a → Z.of_nat (length frames) = area_end a - area_start a →
  (∀ p, p ∈ frames → is_Some (arcs s !! p)) → (2 * length frames <= avail (falloc s))%nat →
  (∀ s' pt' lbl', let ms' := mkMemorySet pt' (areas ms ++ [set_frames fr a]) in
     ms_inv s' ms' lbl' (entries (map_perm_to_pte_flags perm) fr ∪ am) (fr ∪ D) →
     sp_step (λ _, True) (2 * length frames) s s' lbl lbl' → arcs_within s s' → Q (true, ms') s') →
  wp (insert_shm_area ms start end_ perm frames) Q s.
Proof.
  intros a fr Hi Hfresh Hlen Hfs Hav HQ. pose proof Hi as [Hc _ _ _ _]. pose proof Hfresh as (Ha & Hfa & _).
  set (vs := seqZ (area_start a) (area_end a - area_start a)).
  assert (Hvs : length frames = length vs) by (unfold vs; rewrite length_seqZ; lia).
  assert (H2 : (zip frames vs).*2 = vs) by (apply snd_zip; lia).
  assert (H1 : (zip frames vs).*1 = frames) by (apply fst_zip; lia).
  assert (Hz : length (zip frames vs) = length frames) by (rewrite length_zip_with; lia).
  assert (Hdom : ∀ v, is_Some (fr !! v) ↔ in_area a v).
  { intros v. unfold fr, shm_pages. fold vs. rewrite pages_of_dom, H2. unfold vs. apply in_seqZ. }
  unfold insert_shm_area. fold (shm_area (F:=F) start end_ perm). fold a. cbv zeta.
  replace (saturating_sub (area_end a) (area_start a) =? _) with true.
  2: { symmetry. apply Z.eqb_eq. unfold saturating_sub. pose proof (aw_range _ Ha). lia. }
  cbn [negb]. rewrite area_pages by done. fold vs. apply wp_bind.
  refine (wp_shm_map_pages perm (zip frames vs) a s (page_table ms) lbl am D _ Hc _ _ _ _ _);
    [rewrite H2; apply NoDup_seqZ| | |by rewrite Hz|].
  { rewrite H2. intros v Hv%in_seqZ. by eapply fresh_free. }
  { by rewrite H1. }
  rewrite Hz, Hfa, (right_id_L ∅ (∪)). intros s' pt' lbl' Hr Hc' Hst Hw. apply wp_ret.
  eapply HQ; [|exact Hst|exact Hw]. eapply ms_inv_push; [done|done|apply perm_flags_range|done|done|done].
Qed.

(** ** Detaching *)

Lemma areas_wf_mid l1 a l2 : areas_wf (l1 ++ a :: l2) → areas_wf (l1 ++ l2).
Proof.
  rewrite !areas_wf_app. intros (H1 & (Ha & Hd & H2) & H12). split_and!; [done|done|].
  intros x y Hx Hy. apply H12; [done|by right].
Qed.

Lemma wp_remove_area_list l1 a l2 : ∀ s pt lbl am D (Q : list (MapArea F) * PageTable → machine A → Prop),
  sp_core s pt lbl am D → covered am D → areas_wf (l1 ++ a :: l2) → agree (l1 ++ a :: l2) D →
  (∀ b, b ∈ l1 → area_start b ≠ area_start a) →
  let vs := seqZ (area_start a) (area_end a - area_start a) in
  (∀ s', sp_core s' pt lbl (del_all am vs) (del_all D vs) → sp_step (kept D vs) 0 s s' lbl lbl → Q (l1 ++ l2, pt) s') →
  wp (remove_area_list (l1 ++ a :: l2) pt (area_start a)) Q s.
Proof.
  induction l1 as [|b l1 IH]; intros s pt lbl am D Q Hc Hcov Hwf Hag Hne vs HQ; cbn [app remove_area_list].
  - rewrite Z.eqb_refl. apply wp_bind. unfold MapArea_unmap. destruct Hwf as (Ha & _ & _). rewrite area_pages by done.
    eapply fold_unmap_area; [apply unmap_one_unmaps|done|done|done| |by intros v Hv%in_seqZ|].
    { intros c v ->%list_elem_of_singleton Hv. apply Hag; [set_solver|done]. }
    intros s' Hc' Hst. apply wp_bind. unfold MapArea_drop. cbn [set_frames data_frames].
    rewrite frames_all_gone, frames_in_order_empty by done. apply wp_ret, wp_ret. by apply HQ.
  - destruct (Z.eqb_spec (area_start b) (area_start a)) as [E|_]; [by destruct (Hne b ltac:(set_solver))|].
    apply wp_bind. destruct Hwf as (Hb & Hd & Hwf).
    eapply IH; [done|done|done| | |].
    + intros c v Hcl. apply Hag. by right.
    + intros c Hcl. apply Hne. by right.
    + intros s' Hc' Hst. apply wp_ret. by apply HQ.
Qed.

(** The area of the space that starts at a page, when there are no empty areas. *)
Lemma wp_remove_area s ms lbl am D l1 a l2 (Q : MemorySet F → machine A → Prop) :
  ms_inv s ms lbl am D → areas ms = l1 ++ a :: l2 → (∀ b, b ∈ areas ms → area_start b < area_end b) →
  let vs := seqZ (area_start a) (area_end a - area_start a) in
  (∀ s', let ms' := mkMemorySet (page_table ms) (l1 ++ l2) in
     ms_inv s' ms' lbl (del_all am vs) (del_all D vs) → sp_step (kept D vs) 0 s s' lbl lbl → arcs_within s s' →
     Q ms' s') →
  wp (remove_area_with_start_vpn ms (area_start a)) Q s.
Proof.
  intros [Hc Hcov Hwf Hag Hin] El Hpos vs HQ. unfold remove_area_with_start_vpn. rewrite El in *.
  assert (Hdisj : ∀ b, b ∈ l1 ++ l2 → area_disj a b) by exact (λ b, areas_wf_disj l1 a l2 b Hwf).
  apply wp_bind. eapply wp_remove_area_list; [done|done|done|done| |].
  { intros b Hb E. pose proof (Hpos b ltac:(set_solver)). pose proof (Hpos a ltac:(set_solver)).
    apply (Hdisj b ltac:(set_solver) (area_start a)); unfold in_area; lia. }
  fold vs. intros s' Hc' Hst. apply wp_ret, HQ; [|done|].
  - split; cbn [page_table areas]; [done|by apply covered_del_all|by eapply areas_wf_mid| |].
    + intros b v Hb Hv. rewrite lookup_del_all, decide_False; [apply Hag; [set_solver|done]|].
      intros Hw%in_seqZ. by apply (Hdisj b Hb v).
    + intros v. rewrite lookup_del_all. case_decide as Hv; [by intros [??]|]. intros (b & Hb & Hbv)%Hin.
      apply elem_of_app in Hb as [Hb|[->|Hb]%elem_of_cons]; [exists b; set_solver| |exists b; set_solver].
      exfalso. by apply Hv, in_seqZ.
  - intros p. rewrite (sp_arcs _ _ _ _ _ _ Hc'), (sp_arcs _ _ _ _ _ _ Hc), !count_of_is_Some.
    pose proof (refs_mono D (del_all D vs) p (del_all_subseteq _ _)). lia.
Qed.
End shm_space.
