(* ===== verification/ShmWorld.v ===== *)
(** * Processes that share memory

    Several processes and the shared-memory manager on one machine.  Every
    reference to a frame is accounted for: the areas of each process and the
    segments hold [Arc]s, and the machine's counts are the totals.  Under that
    invariant the system calls of Shm.v never panic, and a page of a segment is
    the same frame in every process that has it attached. *)

From stdpp Require Import base gmap list numbers list_numbers option fin_maps sets sorting.
From S2P Require Import Prelude Errno UserIface Address FrameAllocator Machine PageTable MapArea MemorySet Space.
From S2P Require Import AddressSpace Mmap SpaceLife Cow Msg Shm ShmSpace.

(** ** Sums over maps *)

Section msum.
Context {V : Type}.
Implicit Types (f : V → nat) (m : gmap Z V).

Definition msum f m : nat := map_fold (λ _ v n, (f v + n)%nat) 0%nat m.

Lemma msum_insert f m i v : m !! i = None → msum f (<[i := v]> m) = (f v + msum f m)%nat.
Proof. intros Hi. unfold msum. rewrite map_fold_insert_L; [done| |done]. intros. lia. Qed.

Lemma msum_delete f m i v : m !! i = Some v → msum f m = (f v + msum f (delete i m))%nat.
Proof. intros Hi. rewrite <- (insert_delete_id m i v Hi) at 1. apply msum_insert, lookup_delete_eq. Qed.

Lemma msum_update f m i v w : m !! i = Some v → (msum f (<[i := w]> m) + f v = msum f m + f w)%nat.
Proof.
  intros Hi. rewrite <- (insert_delete_eq m i w), msum_insert by apply lookup_delete_eq.
  rewrite (msum_delete f m i v Hi). lia.
Qed.

Lemma msum_le f m i v : m !! i = Some v → (f v <= msum f m)%nat.
Proof. intros Hi. rewrite (msum_delete f m i v Hi). lia. Qed.
End msum.

(** ** Processes on one machine *)

(** What is known of the address space of a process. *)
Record ghost : Type := mkGhost {
  g_lbl : gmap Z node;
  g_am : gmap Z Z;
  g_D : gmap Z Z;
}.

(** How often a frame occurs in a segment. *)
Definition occ (p : Z) (frames : list Z) : nat := length (filter (λ q, q = p) frames).

Lemma occ_cons p q l : occ p (q :: l) = (hit p q + occ p l)%nat.
Proof. unfold occ, hit. rewrite filter_cons. case_decide; case_decide; cbn [length]; (congruence || lia). Qed.

Lemma occ_app p l k : occ p (l ++ k) = (occ p l + occ p k)%nat.
Proof. unfold occ. by rewrite filter_app, length_app. Qed.

Lemma occ_elem p l : p ∈ l → (0 < occ p l)%nat.
Proof. induction 1; rewrite occ_cons; [unfold hit; rewrite decide_True by done|]; lia. Qed.

Section pool.
Context {A : Type} {FA : FrameAllocator A} {inv : A → Prop} {owned : A → Z → Prop} {avail : A → nat}.
Context `{HFS : !FrameAllocatorSpec A inv owned avail}.
Context {F : Type}.
Implicit Types (s : machine A) (lbl : gmap Z node) (am D : gmap Z Z) (N : Z → nat).
Implicit Types (G : gmap Z ghost) (P : gmap Z (ProcessMemory F)) (ms : MemorySet F).

#[local] Abbreviation sp_core := (sp_core (inv:=inv) (owned:=owned)).
#[local] Abbreviation sp_step := (sp_step (owned:=owned) (avail:=avail)).
#[local] Abbreviation ms_inv := (ms_inv (inv:=inv) (owned:=owned)).

(** The references that are not those of the pages [D]. *)
Definition rest N D (p : Z) : nat := (N p - refs D p)%nat.

(** [N p] is the number of references to frame [p]. *)
Record pool N s G P : Prop := {
  po_inv : inv (falloc s);
  po_arcs p : arcs s !! p = count_of (N p);
  po_owned p : is_Some (arcs s !! p) → owned (falloc s) p;
  po_tables p i g : is_Some (arcs s !! p) → G !! i = Some g → g_lbl g !! p = None;
  po_dom i : is_Some (P !! i) ↔ is_Some (G !! i);
  po_le i g p : G !! i = Some g → (refs (g_D g) p <= N p)%nat;
  po_space i pm g : P !! i = Some pm → G !! i = Some g →
    ms_inv (rest N (g_D g)) s (memory_set pm) (g_lbl g) (g_am g) (g_D g);
  po_disj i j gi gj : i ≠ j → G !! i = Some gi → G !! j = Some gj → g_lbl gi ##ₘ g_lbl gj;
}.

Lemma ms_inv_ext ext ext' s ms lbl am D : (∀ p, ext p = ext' p) → ms_inv ext s ms lbl am D → ms_inv ext' s ms lbl am D.
Proof.
  intros He [[Hpt Hv Hd Ha Ho] Hcov Hwf Hag Hin]. split; [|done..]. split; [done..| |done].
  intros p. by rewrite Ha, He.
Qed.

Lemma pool_ext N N' s G P : (∀ p, N p = N' p) → pool N s G P → pool N' s G P.
Proof.
  intros He [Hinv Ha Ho Ht Hdom Hle Hsp Hdj]. split; try done.
  - intros p. by rewrite Ha, He.
  - intros i g p Hg. rewrite <- He. by eapply Hle.
  - intros i pm g Hpm Hg. eapply ms_inv_ext; [|by eapply Hsp]. intros p. unfold rest. by rewrite He.
Qed.

(** A process whose space is not the one that moves. *)
Lemma ms_inv_other N N' K n s s' ms lbl lbl2 lbl2' am D :
  ms_inv (rest N D) s ms lbl am D → sp_step K n s s' lbl2 lbl2' → lbl ##ₘ lbl2 →
  (∀ q, is_Some (lbl !! q) → K q) → inv (falloc s') → (∀ p, arcs s' !! p = count_of (N' p)) →
  (∀ p, is_Some (arcs s' !! p) → owned (falloc s') p ∧ lbl !! p = None) → (∀ p, (refs D p <= N' p)%nat) →
  ms_inv (rest N' D) s' ms lbl am D ∧ lbl ##ₘ lbl2'.
Proof.
  intros [Hc Hcov Hwf Hag Hin] Hst Hdj HK Hinv' Ha' Ho' Hle.
  assert (Ha'' : ∀ p, arcs s' !! p = count_of (refs D p + rest N' D p)).
  { intros p. rewrite Ha'. f_equal. unfold rest. specialize (Hle p). lia. }
  destruct (sp_core_other _ _ _ _ _ _ _ _ _ _ _ _ Hc Hst Hdj HK Hinv' Ha'' Ho') as [Hc' Hd']. done.
Qed.

(** Process [i] moves, and takes up no reference that did not exist. *)
Lemma pool_step N K n s s' G P i pm g pm' lbl' am' D' :
  pool N s G P → P !! i = Some pm → G !! i = Some g →
  ms_inv (rest N (g_D g)) s' (memory_set pm') lbl' am' D' → sp_step K n s s' (g_lbl g) lbl' → arcs_within s s' →
  (∀ q, ¬ is_Some (arcs s !! q) → K q) →
  (∀ j gj p, j ≠ i → G !! j = Some gj → (refs (g_D gj) p <= rest N (g_D g) p)%nat) →
  pool (λ p, refs D' p + rest N (g_D g) p)%nat s' (<[i := mkGhost lbl' am' D']> G) (<[i := pm']> P).
Proof.
  intros Hp Hpm Hg Hi' Hst Hw HK Hother. pose proof (mi_core _ _ _ _ _ _ Hi') as Hc'.
  set (N' := λ p, (refs D' p + rest N (g_D g) p)%nat).
  assert (Ha' : ∀ p, arcs s' !! p = count_of (N' p)) by (intros p; apply (sp_arcs _ _ _ _ _ _ Hc')).
  assert (Hsame : ∀ j pmj gj, j ≠ i → P !! j = Some pmj → G !! j = Some gj →
    ms_inv (rest N' (g_D gj)) s' (memory_set pmj) (g_lbl gj) (g_am gj) (g_D gj) ∧ g_lbl gj ##ₘ lbl').
  { intros j pmj gj Hj Hpj Hgj. eapply (ms_inv_other N); [by eapply (po_space _ _ _ _ Hp)|exact Hst| | | |exact Ha'| |].
    - by eapply (po_disj _ _ _ _ Hp).
    - intros q [x Hq]. apply HK. intros Hs. by rewrite (po_tables _ _ _ _ Hp q j gj Hs Hgj) in Hq.
    - apply Hc'.
    - intros p Hs. split; [by apply (sp_owned _ _ _ _ _ _ Hc')|]. eapply (po_tables _ _ _ _ Hp); [by apply Hw|done].
    - intros p. unfold N'. specialize (Hother j gj p Hj Hgj). lia. }
  split.
  - apply Hc'.
  - exact Ha'.
  - intros p Hs. by apply (sp_owned _ _ _ _ _ _ Hc').
  - intros p j gj Hs [[<- <-]|[Hj Hgj]]%lookup_insert_Some; [by apply (sp_owned _ _ _ _ _ _ Hc')|].
    eapply (po_tables _ _ _ _ Hp); [by apply Hw|done].
  - intros j. rewrite !lookup_insert_is_Some, (po_dom _ _ _ _ Hp j). done.
  - intros j gj p [[<- <-]|[Hj Hgj]]%lookup_insert_Some; cbn [g_D]; unfold N'; [lia|].
    specialize (Hother j gj p ltac:(congruence) Hgj). lia.
  - intros j pmj gj. destruct (decide (j = i)) as [->|Hj].
    + rewrite !lookup_insert_eq. intros [= <-] [= <-]. eapply ms_inv_ext; [|exact Hi'].
      intros p. unfold rest at 2, N'. cbn [g_D]. lia.
    + rewrite !lookup_insert_ne by congruence. intros Hpj Hgj. exact (proj1 (Hsame j pmj gj Hj Hpj Hgj)).
  - intros j k gj gk Hjk [[<- <-]|[Hj Hgj]]%lookup_insert_Some [[<- <-]|[Hk Hgk]]%lookup_insert_Some; try done.
    + destruct (proj2 (po_dom _ _ _ _ Hp k)) as [pmk Hpk]; [by eexists|]. symmetry. exact (proj2 (Hsame k pmk gk ltac:(congruence) Hpk Hgk)).
    + destruct (proj2 (po_dom _ _ _ _ Hp j)) as [pmj Hpj]; [by eexists|].
      exact (proj2 (Hsame j pmj gj ltac:(congruence) Hpj Hgj)).
    + exact (po_disj _ _ _ _ Hp j k gj gk Hjk Hgj Hgk).
Qed.

(** Frames come and go outside the address spaces. *)
Lemma pool_env N N' K n s s' G P :
  pool N s G P → sp_step K n s s' ∅ ∅ → (∀ i g q, G !! i = Some g → is_Some (g_lbl g !! q) → K q) →
  inv (falloc s') → (∀ p, arcs s' !! p = count_of (N' p)) → (∀ p, is_Some (arcs s' !! p) → owned (falloc s') p) →
  (∀ p i g, is_Some (arcs s' !! p) → G !! i = Some g → g_lbl g !! p = None) →
  (∀ i g p, G !! i = Some g → (refs (g_D g) p <= N' p)%nat) →
  pool N' s' G P.
Proof.
  intros Hp Hst HK Hinv' Ha' Ho' Ht' Hle'. split; try done; [apply Hp| |apply Hp].
  intros i pm g Hpm Hg. eapply (ms_inv_other N); [by eapply (po_space _ _ _ _ Hp)|exact Hst| | |done|done| |].
  - apply map_disjoint_empty_r.
  - intros q. by apply (HK i g).
  - intros p Hs. split; [by apply Ho'|by eapply Ht'].
  - intros p. by eapply Hle'.
Qed.

(** ** Frames of segments *)

Lemma refs_single (p q : Z) : refs {[0 := p]} q = hit q p.
Proof. rewrite <- insert_empty, refs_insert, refs_empty by apply lookup_empty. lia. Qed.

Lemma pool_refs_le N s G P i g p : pool N s G P → G !! i = Some g → (refs (g_D g) p <= N p)%nat.
Proof. intros Hp. apply (po_le _ _ _ _ Hp). Qed.

Lemma wp_pool_arc_drop N s G P p (Q : unit → machine A → Prop) :
  pool (λ q, hit q p + N q)%nat s G P → (∀ i g q, G !! i = Some g → (refs (g_D g) q <= N q)%nat) →
  (∀ s', pool N s' G P → dropped (owned:=owned) (avail:=avail) s s' → Q tt s') → wp (arc_drop p) Q s.
Proof.
  intros Hp Hle HQ.
  eapply (wp_arc_drop (inv:=inv) (owned:=owned) (avail:=avail) N s {[0 := p]} ∅).
  { split; [apply Hp| |apply Hp]. intros q. rewrite (po_arcs _ _ _ _ Hp), refs_single. done. }
  { intros q. rewrite refs_single, refs_empty. lia. }
  intros s' [Hinv' Ha' Ho'] Hd. apply HQ; [|exact Hd].
  assert (Hpa : is_Some (arcs s !! p)).
  { rewrite (po_arcs _ _ _ _ Hp). apply count_of_is_Some. unfold hit. rewrite decide_True by done. lia. }
  assert (Ha'' : ∀ q, arcs s' !! q = count_of (N q)) by (intros q; by rewrite Ha', refs_empty).
  eapply (pool_env _ N (λ q, q ≠ p) 0 s s'); [exact Hp| | |done|done|done| |done].
  - destruct Hd as [Hm Ht Hsub Hown Hav]. split; [done| | |done|lia].
    + intros q Hq Hoq _. rewrite Hm. split_and!; [|done|done]. apply Hown. split; [done|].
      rewrite (po_arcs _ _ _ _ Hp), Ha''. unfold hit. by rewrite decide_False.
    + intros q Hoq _ Haq. apply Hown in Hoq as [Hoq Himp]. split_and!; [done|done|].
      apply eq_None_not_Some. intros Hs%Himp. rewrite Haq in Hs. by destruct Hs.
  - intros i g q Hg [x Hq] ->. by rewrite (po_tables _ _ _ _ Hp p i g Hpa Hg) in Hq.
  - intros q i g Hs Hg. eapply (po_tables _ _ _ _ Hp); [|done]. by apply (dr_arcs _ _ Hd).
Qed.

Lemma wp_pool_drop frames : ∀ N s G P (Q : unit → machine A → Prop),
  pool (λ q, occ q frames + N q)%nat s G P → (∀ i g q, G !! i = Some g → (refs (g_D g) q <= N q)%nat) →
  (∀ s', pool N s' G P → dropped (owned:=owned) (avail:=avail) s s' → Q tt s') → wp (m_for frames arc_drop) Q s.
Proof.
  induction frames as [|p frames IH]; intros N s G P Q Hp Hle HQ; cbn [m_for].
  - apply wp_ret, HQ; [|apply (dropped_refl N)]. eapply pool_ext; [|exact Hp]. done.
  - apply wp_bind. eapply (wp_pool_arc_drop (λ q, occ q frames + N q)%nat).
    + eapply pool_ext; [|exact Hp]. intros q. cbn beta. rewrite occ_cons. lia.
    + intros i g q Hg. specialize (Hle i g q Hg). lia.
    + intros s1 Hp1 Hd1. eapply IH; [exact Hp1|done|]. intros s2 Hp2 Hd2. apply HQ; [done|by eapply (dropped_trans N)].
Qed.

Lemma wp_pool_alloc {B} N s G P (K : option Z → M (machine A) B) (Q : B → machine A → Prop) :
  pool N s G P → (avail (falloc s) = 0%nat → wp (K None) Q s) →
  (∀ p s', ¬ owned (falloc s) p → pool (λ q, hit q p + N q)%nat (set_arcs (<[p := 1]>) s') G P →
     (avail (falloc s) = S (avail (falloc s'))) → pm_page (mem s') p = ∅ → wp (K (Some p)) Q s') →
  wp (let! f := frame_alloc in K f) Q s.
Proof.
  intros Hp Hnone Hsome. apply wp_bind. apply wp_frame_alloc; [apply Hp|done|].
  intros p a' Hinv' Hnew Hpr Hown' Hav'.
  assert (Hap : arcs s !! p = None) by (apply eq_None_not_Some; intros Hs; by apply Hnew, (po_owned _ _ _ _ Hp)).
  assert (HN : N p = 0%nat).
  { rewrite (po_arcs _ _ _ _ Hp) in Hap. unfold count_of in Hap. by case_decide. }
  assert (Hlp : ∀ i g, G !! i = Some g → g_lbl g !! p = None).
  { intros i g Hg. apply eq_None_not_Some. intros Hs. destruct (proj2 (po_dom _ _ _ _ Hp i)) as [pm Hpm]; [by eexists|].
    apply Hnew. by apply (mi_core _ _ _ _ _ _ (po_space _ _ _ _ Hp i pm g Hpm Hg)). }
  apply Hsome; [done| |done|by unfold pm_page, pm_zero; simpl; rewrite lookup_insert_eq].
  eapply (pool_env N _ (λ _, True) 1 s); [exact Hp| |done|done| | | |].
  - split; cbn [set_arcs falloc mem arcs kernel_token]; [done| | |done|lia].
    + intros q _ Hq _. split_and!; [apply Hown'; by right|done|]. apply pm_page_zero_ne. intros ->. done.
    + intros q [->|Hq]%Hown' _; [by rewrite lookup_insert_eq|].
      intros Hn. destruct (decide (q = p)) as [->|Hne]; [by rewrite lookup_insert_eq in Hn|].
      by rewrite lookup_insert_ne in Hn.
  - intros q. cbn [set_arcs arcs]. unfold hit. destruct (decide (q = p)) as [->|Hne].
    + by rewrite lookup_insert_eq, HN.
    + rewrite lookup_insert_ne by done. apply (po_arcs _ _ _ _ Hp).
  - intros q. cbn [set_arcs arcs falloc]. intros [<-|[_ Hs]]%lookup_insert_is_Some; apply Hown'; [by left|right].
    by apply (po_owned _ _ _ _ Hp).
  - intros q i g. cbn [set_arcs arcs]. intros [<-|[_ Hs]]%lookup_insert_is_Some Hg; [by eapply Hlp|].
    by eapply (po_tables _ _ _ _ Hp).
  - intros i g q Hg. pose proof (po_le _ _ _ _ Hp i g q Hg). lia.
Qed.

(** The frames of a new segment, or none of them. *)
Lemma wp_shm_alloc_loop n : ∀ N s G P frames (Q : option (list Z) → machine A → Prop),
  pool (λ q, occ q frames + N q)%nat s G P → (∀ i g q, G !! i = Some g → (refs (g_D g) q <= N q)%nat) →
  (∀ s', pool N s' G P → (avail (falloc s) <= n + avail (falloc s'))%nat → Q None s') →
  (∀ new s', length new = n → pool (λ q, occ q (frames ++ new) + N q)%nat s' G P →
     (avail (falloc s) <= n + avail (falloc s'))%nat → Q (Some (frames ++ new)) s') →
  wp (shm_alloc_loop n frames) Q s.
Proof.
  induction n as [|n IH]; intros N s G P frames Q Hp Hle Hnone Hsome; cbn [shm_alloc_loop].
  - apply wp_ret. specialize (Hsome [] s). rewrite app_nil_r in Hsome. apply Hsome; [done|done|lia].
  - eapply wp_pool_alloc; [exact Hp| |].
    + intros Hav. apply wp_bind. eapply wp_pool_drop; [exact Hp|done|]. intros s' Hp' Hd.
      apply wp_ret, Hnone; [done|lia].
    + intros p s1 _ Hp1 Hav1 _. apply wp_bind, wp_modify. eapply (IH N); [|done| |].
      * eapply pool_ext; [|exact Hp1]. intros q. cbn beta. rewrite occ_app, occ_cons. change (occ q []) with 0%nat. lia.
      * intros s' Hp' Hav'. cbn [set_arcs falloc] in Hav'. apply Hnone; [done|lia].
      * intros new s' Hlen Hp' Hav'. cbn [set_arcs falloc] in Hav'. rewrite <- app_assoc in *. cbn [app] in *.
        apply Hsome; [cbn [length]; lia|done|lia].
Qed.

(** ** A new process *)

(** What creating a page table changes. *)
Record new_table s s' (root : Z) : Prop := mkNewTable {
  nt_new : ¬ owned (falloc s) root;
  nt_mem q : q ≠ root → pm_page (mem s') q = pm_page (mem s) q;
  nt_owned q : owned (falloc s') q ↔ q = root ∨ owned (falloc s) q;
  nt_arcs : arcs s' = arcs s;
  nt_token : kernel_token s' = kernel_token s;
  nt_avail : avail (falloc s) = S (avail (falloc s'));
}.

Lemma new_table_lbl s s' root q : new_table s s' root → owned (falloc s) q → ({[root := Root]} : gmap Z node) !! q = None.
Proof. intros Hn Hq. rewrite lookup_singleton_ne; [done|]. intros ->. by destruct (nt_new _ _ _ Hn). Qed.

Lemma new_table_step s s' root : new_table s s' root → sp_step (λ _, True) 1 s s' ∅ {[root := Root]}.
Proof.
  intros Hn. pose proof (nt_owned _ _ _ Hn) as Hown.
  split; [apply map_empty_subseteq| | |apply Hn|rewrite (nt_avail _ _ _ Hn); lia].
  - intros q _ Hq _. split_and!; [apply Hown; by right|by eapply new_table_lbl|].
    apply (nt_mem _ _ _ Hn). intros ->. by destruct (nt_new _ _ _ Hn).
  - intros q [->|Hq]%Hown Hlq Haq; [by rewrite lookup_singleton_eq in Hlq|]. by rewrite <- (nt_arcs _ _ _ Hn).
Qed.

Lemma new_space_inv N s s' root : inv (falloc s') → new_table s s' root → (∀ p, arcs s !! p = count_of (N p)) →
  (∀ p, is_Some (arcs s !! p) → owned (falloc s) p) →
  pt_ok (inv:=inv) (owned:=owned) s' (mkPageTable root [root]) {[root := Root]} →
  (∀ v, user_vpn v → PageTable_translate (mem s') (mkPageTable root [root]) v = None) →
  ms_inv (F:=F) (rest N ∅) s' (mkMemorySet (mkPageTable root [root]) []) {[root := Root]} ∅ ∅.
Proof.
  intros Hinv Hn Ha Ho Hok Ht. split; try done; [split; try done| |].
  - intros v [??]. done.
  - intros p. unfold rest. rewrite refs_empty, Nat.sub_0_r, (nt_arcs _ _ _ Hn). apply Ha.
  - intros p. rewrite (nt_arcs _ _ _ Hn). intros Hs%Ho. split; [|by eapply new_table_lbl].
    apply (nt_owned _ _ _ Hn). by right.
  - intros a v Hin. by apply not_elem_of_nil in Hin.
  - intros v [??]. done.
Qed.

Lemma pool_spawn N s s' G P pid root b : pool N s G P → P !! pid = None → inv (falloc s') → new_table s s' root →
  pt_ok (inv:=inv) (owned:=owned) s' (mkPageTable root [root]) {[root := Root]} →
  (∀ v, user_vpn v → PageTable_translate (mem s') (mkPageTable root [root]) v = None) →
  pool N s' (<[pid := mkGhost {[root := Root]} ∅ ∅]> G)
    (<[pid := mkProcessMemory (mkMemorySet (mkPageTable root [root]) []) b]> P).
Proof.
  intros Hp Hpid Hinv' Hn Hok Ht. pose proof (nt_arcs _ _ _ Hn) as Ha. pose proof (nt_owned _ _ _ Hn) as Hown.
  assert (Harc : ∀ q, is_Some (arcs s' !! q) → owned (falloc s) q) by (intros q; rewrite Ha; apply (po_owned _ _ _ _ Hp)).
  assert (Hsame : ∀ j pmj gj, P !! j = Some pmj → G !! j = Some gj →
    ms_inv (rest N (g_D gj)) s' (memory_set pmj) (g_lbl gj) (g_am gj) (g_D gj) ∧ g_lbl gj ##ₘ {[root := Root]}).
  { intros j pmj gj Hpj Hgj. eapply (ms_inv_other N); [by eapply (po_space _ _ _ _ Hp)|by apply new_table_step| |done|done| | |].
    - apply map_disjoint_empty_r.
    - intros p. rewrite Ha. apply (po_arcs _ _ _ _ Hp).
    - intros p Hs. split; [apply Hown; right; by apply Harc|]. rewrite Ha in Hs. by eapply (po_tables _ _ _ _ Hp).
    - intros p. by eapply (po_le _ _ _ _ Hp). }
  split; [done| | | | | | |].
  - intros p. rewrite Ha. apply (po_arcs _ _ _ _ Hp).
  - intros p Hs. apply Hown. right. by apply Harc.
  - intros p i g Hs [[<- <-]|[_ Hg]]%lookup_insert_Some; [by eapply new_table_lbl, Harc|].
    rewrite Ha in Hs. by eapply (po_tables _ _ _ _ Hp).
  - intros i. rewrite !lookup_insert_is_Some, (po_dom _ _ _ _ Hp). done.
  - intros i g p [[<- <-]|[_ Hg]]%lookup_insert_Some; [cbn [g_D]; rewrite refs_empty; lia|by eapply (po_le _ _ _ _ Hp)].
  - intros i pm g. destruct (decide (i = pid)) as [->|Hi].
    + rewrite !lookup_insert_eq. intros [= <-] [= <-]. by apply (new_space_inv N s); try apply Hp.
    + rewrite !lookup_insert_ne by congruence. intros Hpj Hgj. exact (proj1 (Hsame i pm g Hpj Hgj)).
  - intros i j gi gj Hij [[<- <-]|[_ Hgi]]%lookup_insert_Some [[<- <-]|[_ Hgj]]%lookup_insert_Some; [done| | |].
    + destruct (proj2 (po_dom _ _ _ _ Hp j)) as [pmj Hpj]; [by eexists|]. symmetry. exact (proj2 (Hsame j pmj gj Hpj Hgj)).
    + destruct (proj2 (po_dom _ _ _ _ Hp i)) as [pmi Hpi]; [by eexists|]. exact (proj2 (Hsame i pmi gi Hpi Hgi)).
    + exact (po_disj _ _ _ _ Hp i j gi gj Hij Hgi Hgj).
Qed.
End pool.
