(* ===== verification/ShmSafe.v ===== *)
(** * Shared memory is shared, and safe

    The invariant of a system of processes and shared segments, and that every
    sequence of shared-memory system calls keeps it. *)

From stdpp Require Import base gmap list numbers list_numbers option fin_maps sets sorting.
From S2P Require Import Prelude Errno UserIface Address FrameAllocator Machine PageTable MapArea MemorySet Space.
From S2P Require Import AddressSpace Mmap SpaceLife Cow Msg Shm ShmSpace ShmWorld.

(** ** The manager *)

(** The attachments of a segment. *)
Definition attachments_of (mg : ShmManager) (id : Z) : nat :=
  size (filter (λ kv : Z * Z * (Z * Z), kv.2.1 = id) (shm_attachments mg)).

Record segment_ok (mg : ShmManager) (id : Z) (g : ShmSegment) : Prop := mkSegmentOk {
  sg_id : shm_id g = id;
  sg_range : 1 <= id < next_shmid mg;
  sg_size : shm_size g = Z.of_nat (length (shm_frames g)) * PAGE_SIZE;
  sg_pos : 0 < shm_size g <= SHMMAX;
  sg_count : attach_count g = Z.of_nat (attachments_of mg id);
  sg_marked : marked_for_delete g = true → 0 < attach_count g;
}.

Record shm_ok (mg : ShmManager) : Prop := mkShmOk {
  mg_segs id g : shm_segments mg !! id = Some g → segment_ok mg id g;
  mg_atts k id sz : shm_attachments mg !! k = Some (id, sz) → ∃ g, shm_segments mg !! id = Some g ∧ sz = shm_size g;
  mg_keys i j gi gj : shm_segments mg !! i = Some gi → shm_segments mg !! j = Some gj → shm_key gi = shm_key gj →
    shm_key gi ≠ IPC_PRIVATE → marked_for_delete gi = false → marked_for_delete gj = false → i = j;
  mg_next : 1 <= next_shmid mg;
}.

(** [mg'] has no segments with other frames than [mg]. *)
Definition same_frames (mg mg' : ShmManager) : Prop :=
  ∀ id g', shm_segments mg' !! id = Some g' → ∃ g, shm_segments mg !! id = Some g ∧ shm_frames g' = shm_frames g.

Lemma same_frames_refl mg : same_frames mg mg.
Proof. intros id g Hg. by exists g. Qed.

Lemma same_frames_trans m1 m2 m3 : same_frames m1 m2 → same_frames m2 m3 → same_frames m1 m3.
Proof. intros H1 H2 id g (g2 & Hg2 & E2)%H2. apply H1 in Hg2 as (g1 & Hg1 & E1). exists g1. split; congruence. Qed.

Section filter_size.
Context {K V : Type} `{Countable K} (Q : K * V → Prop) `{!∀ x, Decision (Q x)}.
Implicit Types (m : gmap K V).

Definition one_if (x : K * V) : nat := if decide (Q x) then 1 else 0.

Lemma size_filter_insert m k v : m !! k = None → size (filter Q (<[k := v]> m)) = (one_if (k, v) + size (filter Q m))%nat.
Proof.
  intros Hk. unfold one_if. rewrite map_filter_insert. case_decide.
  - rewrite map_size_insert_None; [done|]. apply map_lookup_filter_None. by left.
  - by rewrite delete_id.
Qed.

Lemma size_filter_delete m k v : m !! k = Some v → size (filter Q m) = (one_if (k, v) + size (filter Q (delete k m)))%nat.
Proof. intros Hk. rewrite <- (insert_delete_id m k v Hk) at 1. apply size_filter_insert, lookup_delete_eq. Qed.

Lemma size_filter_pos m k v : m !! k = Some v → Q (k, v) → (0 < size (filter Q m))%nat.
Proof. intros Hk HQ. rewrite (size_filter_delete m k v Hk). unfold one_if. rewrite decide_True by done. lia. Qed.

Lemma size_filter_zero m k v : size (filter Q m) = 0%nat → m !! k = Some v → ¬ Q (k, v).
Proof. intros Hz Hk HQ. pose proof (size_filter_pos m k v Hk HQ). lia. Qed.
End filter_size.

Lemma attachments_of_insert mg segs n k id sz j : shm_attachments mg !! k = None →
  attachments_of (mkShmManager segs (<[k := (id, sz)]> (shm_attachments mg)) n) j =
  ((if decide (id = j) then 1 else 0) + attachments_of mg j)%nat.
Proof. intros Hk. unfold attachments_of. cbn [shm_attachments]. by rewrite size_filter_insert. Qed.

Lemma attachments_of_delete mg segs n k id sz j : shm_attachments mg !! k = Some (id, sz) →
  attachments_of mg j =
  ((if decide (id = j) then 1 else 0) + attachments_of (mkShmManager segs (delete k (shm_attachments mg)) n) j)%nat.
Proof. intros Hk. unfold attachments_of. cbn [shm_attachments]. by rewrite (size_filter_delete _ _ _ _ Hk). Qed.

Lemma attachments_none mg id k j sz : attachments_of mg id = 0%nat → shm_attachments mg !! k = Some (j, sz) → j ≠ id.
Proof. intros Hz Hk. exact (size_filter_zero _ _ _ _ Hz Hk). Qed.

(** A segment changes its count or its mark, and the attachments with it. *)
Lemma shm_ok_put mg id g g' atts :
  let mg' := mkShmManager (<[id := g']> (shm_segments mg)) atts (next_shmid mg) in
  shm_ok mg → shm_segments mg !! id = Some g →
  shm_key g' = shm_key g → shm_id g' = shm_id g → shm_size g' = shm_size g → shm_frames g' = shm_frames g →
  (marked_for_delete g = true → marked_for_delete g' = true) →
  attach_count g' = Z.of_nat (attachments_of mg' id) → (marked_for_delete g' = true → 0 < attach_count g') →
  (∀ j, j ≠ id → attachments_of mg' j = attachments_of mg j) →
  (∀ k j sz, atts !! k = Some (j, sz) → ∃ gj, shm_segments mg !! j = Some gj ∧ sz = shm_size gj) →
  shm_ok mg'.
Proof.
  intros mg' Hm Hg Ek Ei Es Ef Hmark Hc Hpos Hother Hatts.
  assert (Hback : ∀ j gj, <[id := g']> (shm_segments mg) !! j = Some gj → ∃ gj0, shm_segments mg !! j = Some gj0 ∧
    shm_key gj = shm_key gj0 ∧ (marked_for_delete gj = false → marked_for_delete gj0 = false)).
  { intros j gj [[<- <-]|[_ Hj]]%lookup_insert_Some; [|by exists gj].
    exists g. split; [done|]. split; [done|]. intros Hf. destruct (marked_for_delete g); [|done]. by rewrite Hmark in Hf. }
  split; cbn [mg' shm_segments shm_attachments next_shmid]; [| | |apply Hm].
  - intros j gj [[<- <-]|[Hj Hgj]]%lookup_insert_Some.
    + destruct (mg_segs _ Hm id g Hg). split; cbn [next_shmid]; congruence || done || (rewrite Es, ?Ef; done).
    + destruct (mg_segs _ Hm j gj Hgj). split; try done. by rewrite Hother by congruence.
  - intros k j sz Hk. destruct (Hatts k j sz Hk) as (gj & Hgj & ->).
    destruct (decide (j = id)) as [->|Hne]; [|exists gj; by rewrite lookup_insert_ne by congruence].
    rewrite Hg in Hgj. injection Hgj as <-. exists g'. by rewrite lookup_insert_eq.
  - intros i j gi gj Hi Hj He Hne Hmi Hmj.
    destruct (Hback i gi Hi) as (gi0 & Hgi0 & Eki & Hmi0), (Hback j gj Hj) as (gj0 & Hgj0 & Ekj & Hmj0).
    apply (mg_keys _ Hm i j gi0 gj0 Hgi0 Hgj0); try congruence; auto.
Qed.

Lemma shm_ok_delete mg id atts :
  let mg' := mkShmManager (delete id (shm_segments mg)) atts (next_shmid mg) in
  shm_ok mg → (∀ j, j ≠ id → attachments_of mg' j = attachments_of mg j) →
  (∀ k j sz, atts !! k = Some (j, sz) → j ≠ id ∧ shm_attachments mg !! k = Some (j, sz)) →
  shm_ok mg'.
Proof.
  intros mg' Hm Hother Hatts. split; cbn [mg' shm_segments shm_attachments next_shmid]; [| | |apply Hm].
  - intros j gj [Hj Hgj]%lookup_delete_Some. destruct (mg_segs _ Hm j gj Hgj). split; try done.
    by rewrite Hother by congruence.
  - intros k j sz Hk. destruct (Hatts k j sz Hk) as [Hne Hk0]. destruct (mg_atts _ Hm k j sz Hk0) as (g & Hg & ->).
    exists g. by rewrite lookup_delete_ne by congruence.
  - intros i j gi gj [_ Hi]%lookup_delete_Some [_ Hj]%lookup_delete_Some. by apply (mg_keys _ Hm).
Qed.

(** ** The world *)

Record world (F : Type) : Type := mkWorld {
  w_mgr : ShmManager;
  w_procs : gmap Z (ProcessMemory F);
}.
Arguments mkWorld {F}.
Arguments w_mgr {F}.
Arguments w_procs {F}.

(** The references to a frame held by segments and by address spaces. *)
Definition uses (segs : gmap Z ShmSegment) (p : Z) : nat := msum (λ g, occ p (shm_frames g)) segs.
Definition held (G : gmap Z ghost) (p : Z) : nat := msum (λ g, refs (g_D g) p) G.

Lemma uses_put segs id g g' p : segs !! id = Some g → shm_frames g' = shm_frames g → uses (<[id := g']> segs) p = uses segs p.
Proof.
  intros Hg Ef. pose proof (msum_update (λ g, occ p (shm_frames g)) segs id g g' Hg) as H. cbn beta in H.
  rewrite Ef in H. unfold uses. lia.
Qed.

(** The segment with these frames is at [addr] in a process. *)
Record attached {F : Type} (gh : ghost) (pm : ProcessMemory F) (addr : Z) (frames : list Z) : Prop := mkAttached {
  at_span : user_span addr (Z.of_nat (length frames));
  at_area : ∃ a, a ∈ areas (memory_set pm) ∧ area_start a = addr / PAGE_SIZE ∧
    area_end a = addr / PAGE_SIZE + Z.of_nat (length frames);
  at_pages k p : frames !! k = Some p →
    ∃ e, g_am gh !! (addr / PAGE_SIZE + Z.of_nat k) = Some e ∧ PageTableEntry_ppn e = p;
}.

Section safe.
Context {A : Type} {FA : FrameAllocator A} {inv : A → Prop} {owned : A → Z → Prop} {avail : A → nat}.
Context `{HFS : !FrameAllocatorSpec A inv owned avail}.
Context {F : Type} (ext : Z → nat).
Implicit Types (s : machine A) (G : gmap Z ghost) (P : gmap Z (ProcessMemory F)) (mg : ShmManager) (B : Z → nat).
Implicit Types (w : world F) (pm : ProcessMemory F) (ms : MemorySet F).

#[local] Abbreviation sp_step := (sp_step (owned:=owned) (avail:=avail)).
#[local] Abbreviation ms_inv := (ms_inv (inv:=inv) (owned:=owned)).
#[local] Abbreviation pool := (pool (inv:=inv) (owned:=owned) (F:=F)).

(** What is held besides the segments covers the address spaces. *)
Definition covers B G : Prop := ∀ i g q, G !! i = Some g → (refs (g_D g) q <= B q)%nat.

Lemma wp_remove_shm B mg id g s G P (Q : bool * ShmManager → machine A → Prop) :
  shm_segments mg !! id = Some g → (∀ k j sz, shm_attachments mg !! k = Some (j, sz) → j ≠ id) →
  pool (λ p, uses (shm_segments mg) p + B p)%nat s G P → covers B G →
  (∀ s', let mg' := mkShmManager (delete id (shm_segments mg)) (shm_attachments mg) (next_shmid mg) in
     pool (λ p, uses (shm_segments mg') p + B p)%nat s' G P → (avail (falloc s) <= avail (falloc s'))%nat → Q (true, mg') s') →
  wp (remove_shm mg id) Q s.
Proof.
  intros Hg Hno Hp Hcov HQ. unfold remove_shm. rewrite Hg. apply wp_bind.
  eapply (wp_pool_drop _ (λ p, uses (delete id (shm_segments mg)) p + B p)%nat).
  - eapply pool_ext; [|exact Hp]. intros p. cbn beta. unfold uses. rewrite (msum_delete _ _ _ _ Hg). lia.
  - intros i gi q Hi. specialize (Hcov i gi q Hi). lia.
  - intros s' Hp' Hd. apply wp_ret. rewrite map_filter_id; [|by intros k [j sz] Hk; apply (Hno k j sz)].
    apply HQ; [exact Hp'|apply Hd].
Qed.

Lemma wp_release_shm B mg k id sz s G P (Q : ShmManager → machine A → Prop) :
  shm_ok mg → shm_attachments mg !! k = Some (id, sz) →
  pool (λ p, uses (shm_segments mg) p + B p)%nat s G P → covers B G →
  (∀ mg' s', shm_ok mg' → pool (λ p, uses (shm_segments mg') p + B p)%nat s' G P → same_frames mg mg' →
     shm_attachments mg' = delete k (shm_attachments mg) → next_shmid mg' = next_shmid mg →
     (avail (falloc s) <= avail (falloc s'))%nat → Q mg' s') →
  wp (release_shm (mkShmManager (shm_segments mg) (delete k (shm_attachments mg)) (next_shmid mg)) id) Q s.
Proof.
  intros Hm Hk Hp Hcov HQ. destruct (mg_atts _ Hm k id sz Hk) as (g & Hg & ->).
  unfold release_shm, get_shm. cbn [shm_segments]. rewrite Hg. pose proof (mg_segs _ Hm id g Hg) as Hsg.
  pose proof (λ segs j, attachments_of_delete mg segs (next_shmid mg) k id (shm_size g) j Hk) as Hn.
  pose proof (sg_count _ _ _ Hsg) as Hc. pose proof (Hn (shm_segments mg) id) as Hn1. rewrite decide_True in Hn1 by done.
  assert (Hlt : (0 <? attach_count g) = true) by (apply Z.ltb_lt; lia). rewrite Hlt.
  set (n := attach_count g - 1). set (g' := set_count n g).
  assert (Ho : ∀ segs j, j ≠ id → attachments_of (mkShmManager segs (delete k (shm_attachments mg)) (next_shmid mg)) j =
    attachments_of mg j) by (intros segs j Hj; rewrite (Hn segs j), decide_False by congruence; done).
  assert (Hp' : pool (λ p, uses (<[id := g']> (shm_segments mg)) p + B p)%nat s G P).
  { eapply pool_ext; [|exact Hp]. intros p. cbn beta. by rewrite (uses_put _ _ _ _ _ Hg). }
  destruct (marked_for_delete g && (n =? 0)) eqn:E.
  - apply andb_true_iff in E as [Hmk Hz%Z.eqb_eq]. apply wp_bind.
    assert (Hno : ∀ k' j sz', delete k (shm_attachments mg) !! k' = Some (j, sz') → j ≠ id).
    { intros k' j sz' Hk'.
      apply (attachments_none (mkShmManager (shm_segments mg) (delete k (shm_attachments mg)) (next_shmid mg)) id k' j sz');
        [unfold n in Hz; lia|exact Hk']. }
    eapply (wp_remove_shm B); [apply lookup_insert_eq|exact Hno|exact Hp'|exact Hcov|].
    cbn [put_shm shm_segments shm_attachments next_shmid]. rewrite delete_insert_eq. intros s' Hps Hav.
    apply wp_ret, HQ; [|exact Hps| |done|done|exact Hav].
    + apply (shm_ok_delete mg id (delete k (shm_attachments mg))); [done|by apply Ho|].
      intros k' j sz' Hk'. split; [by eapply Hno|]. by apply lookup_delete_Some in Hk' as [_ ?].
    + unfold same_frames. cbn [shm_segments]. intros j gj Hj. apply lookup_delete_Some in Hj as [_ Hj]. by exists gj.
  - apply wp_ret, HQ; [|exact Hp'| |done|done|done].
    + apply (shm_ok_put mg id g); try done; [| |by apply Ho|].
      * specialize (Hn (<[id := g']> (shm_segments mg)) id). rewrite decide_True in Hn by done.
        cbn [g' set_count attach_count shm_attachments]. unfold n. lia.
      * cbn [set_count marked_for_delete attach_count g']. intros Hmk. rewrite Hmk in E. apply Z.eqb_neq in E. unfold n in *. lia.
      * cbn [shm_attachments]. intros k' j sz' [_ Hk']%lookup_delete_Some. by apply (mg_atts _ Hm k').
    + unfold same_frames. cbn [put_shm shm_segments]. intros j gj Hj.
      apply lookup_insert_Some in Hj as [[<- <-]|[_ Hj]]; [by exists g|by exists gj].
Qed.

(** Every reference is accounted for, the manager is in order, every attachment
    is in place, and no area is empty. *)
Record world_ok s w G : Prop := mkWorldOk {
  wk_pool : pool (λ p, uses (shm_segments (w_mgr w)) p + (held G p + ext p))%nat s G (w_procs w);
  wk_mgr : shm_ok (w_mgr w);
  wk_att pid addr id sz g : shm_attachments (w_mgr w) !! (pid, addr) = Some (id, sz) →
    shm_segments (w_mgr w) !! id = Some g →
    ∃ pm gh, w_procs w !! pid = Some pm ∧ G !! pid = Some gh ∧ attached gh pm addr (shm_frames g);
  wk_areas pid pm a : w_procs w !! pid = Some pm → a ∈ areas (memory_set pm) → area_start a < area_end a;
}.

Lemma covers_held G : covers (λ p, held G p + ext p)%nat G.
Proof. intros i g q Hg. pose proof (msum_le (λ g, refs (g_D g) q) G i g Hg) as H. cbn beta in H. unfold held. lia. Qed.

(** The manager drops attachments and segments. *)
Lemma world_ok_mgr s s' w G mg' :
  world_ok s w G → pool (λ p, uses (shm_segments mg') p + (held G p + ext p))%nat s' G (w_procs w) → shm_ok mg' →
  same_frames (w_mgr w) mg' → shm_attachments mg' ⊆ shm_attachments (w_mgr w) → world_ok s' (mkWorld mg' (w_procs w)) G.
Proof.
  intros [Hp Hm Hat Har] Hp' Hm' Hsf Hsub. split; cbn [w_mgr w_procs]; [done|done| |done].
  intros pid addr id sz g Hk Hg. destruct (Hsf id g Hg) as (g0 & Hg0 & Ef). rewrite Ef.
  eapply (Hat pid addr id sz g0); [|done]. by eapply lookup_weaken.
Qed.

Lemma wp_world_release s w G k id sz (Q : ShmManager → machine A → Prop) :
  world_ok s w G → shm_attachments (w_mgr w) !! k = Some (id, sz) →
  (∀ mg' s', world_ok s' (mkWorld mg' (w_procs w)) G → shm_attachments mg' = delete k (shm_attachments (w_mgr w)) →
     next_shmid mg' = next_shmid (w_mgr w) → (avail (falloc s) <= avail (falloc s'))%nat → Q mg' s') →
  let mg := w_mgr w in
  wp (release_shm (mkShmManager (shm_segments mg) (delete k (shm_attachments mg)) (next_shmid mg)) id) Q s.
Proof.
  intros Hw Hk HQ mg. eapply wp_release_shm; [apply Hw|done|apply Hw|apply covers_held|].
  intros mg' s' Hm' Hp' Hsf Ha Hn Hav. apply HQ; [|done|done|done].
  eapply world_ok_mgr; [exact Hw|exact Hp'|exact Hm'|exact Hsf|]. rewrite Ha. apply delete_subseteq.
Qed.

(** [cleanup_shm_attachments_for_pid] *)
Lemma wp_world_cleanup pid s w G (Q : ShmManager → machine A → Prop) :
  world_ok s w G →
  (∀ mg' s', world_ok s' (mkWorld mg' (w_procs w)) G → next_shmid mg' = next_shmid (w_mgr w) →
     (avail (falloc s) <= avail (falloc s'))%nat →
     (∀ addr, shm_attachments mg' !! (pid, addr) = None) → Q mg' s') →
  wp (cleanup_shm_attachments_for_pid (w_mgr w) pid) Q s.
Proof.
  intros Hw HQ. unfold cleanup_shm_attachments_for_pid.
  eapply wp_mono; [apply (wp_fold (cleanup_one pid) (λ done mg s', world_ok s' (mkWorld mg (w_procs w)) G ∧
    next_shmid mg = next_shmid (w_mgr w) ∧ (avail (falloc s) <= avail (falloc s'))%nat ∧
    shm_attachments mg ⊆ shm_attachments (w_mgr w) ∧ ∀ addr, addr ∈ done → shm_attachments mg !! (pid, addr) = None) _ [])|].
  - destruct w. split_and!; [done|done|done|done|]. intros addr Ha. by apply not_elem_of_nil in Ha.
  - intros before addr after mg s' _ (Hw' & Hn & Hav & Hsub & Hdone). unfold cleanup_one, remove_attachment.
    destruct (shm_attachments mg !! (pid, addr)) as [[id sz]|] eqn:Ek.
    + eapply (wp_world_release s' (mkWorld mg (w_procs w))); [done|exact Ek|]. cbn [w_mgr w_procs].
      intros mg' s2 Hw2 Ha Hn2 Hav2. split_and!; [done|congruence|lia|rewrite Ha; etrans; [apply delete_subseteq|done]|].
      intros x Hx. rewrite Ha. destruct (decide (x = addr)) as [->|Hne]; [apply lookup_delete_eq|].
      rewrite lookup_delete_ne by congruence. apply Hdone. set_solver.
    + apply wp_ret. rewrite delete_id by done. replace (mkShmManager _ _ _) with mg by by destruct mg.
      split_and!; try done. intros x Hx. destruct (decide (x = addr)) as [->|Hne]; [done|]. apply Hdone. set_solver.
  - intros mg s' (Hw' & Hn & Hav & Hsub & Hdone). apply HQ; try done. intros addr.
    apply eq_None_not_Some. intros [x Hx]. assert (Hin : addr ∈ attached_addrs (w_mgr w) pid).
    { unfold attached_addrs. rewrite merge_sort_Permutation. apply list_elem_of_fmap. exists ((pid, addr), x). split; [done|].
      apply elem_of_map_to_list, map_lookup_filter_Some. split; [by eapply lookup_weaken|done]. }
    cbn [app] in Hdone. by rewrite (Hdone addr Hin) in Hx.
Qed.

(** [sys_shmctl] *)
Lemma wp_world_shmctl shmid cmd s w G (Q : Z * ShmManager → machine A → Prop) :
  world_ok s w G →
  (∀ r mg' s', world_ok s' (mkWorld mg' (w_procs w)) G → next_shmid mg' = next_shmid (w_mgr w) →
     (avail (falloc s) <= avail (falloc s'))%nat → Q (r, mg') s') →
  wp (sys_shmctl (w_mgr w) shmid cmd) Q s.
Proof.
  intros Hw HQ. assert (Hsame : ∀ r, Q (r, w_mgr w) s) by (intros r; apply HQ; [by destruct w|done|done]).
  unfold sys_shmctl. destruct (cmd =? IPC_RMID); [|case_match; by apply wp_ret].
  destruct (get_shm (w_mgr w) shmid) as [g|] eqn:Eg; [|by apply wp_ret]. pose proof (wk_mgr _ _ _ Hw) as Hm.
  set (mg1 := put_shm (w_mgr w) shmid (set_marked g)).
  assert (Hp1 : pool (λ p, uses (shm_segments mg1) p + (held G p + ext p))%nat s G (w_procs w)).
  { eapply pool_ext; [|apply Hw]. intros p. cbn beta. cbn [mg1 put_shm shm_segments]. by rewrite (uses_put _ _ _ _ _ Eg). }
  destruct (mg_segs _ Hm shmid g Eg) as [Hid Hr Hsz Hpos Hc Hmk].
  destruct (Z.eqb_spec (attach_count g) 0) as [Hz|Hz].
  - assert (Hno : ∀ k j sz, shm_attachments (w_mgr w) !! k = Some (j, sz) → j ≠ shmid)
      by (intros k j sz; apply attachments_none; lia).
    apply wp_bind. eapply (wp_remove_shm _ mg1); [apply lookup_insert_eq|exact Hno|exact Hp1|apply covers_held|].
    cbn [mg1 put_shm shm_segments shm_attachments next_shmid]. rewrite delete_insert_eq. intros s' Hp' Hav.
    apply wp_ret, HQ; [|done|exact Hav]. eapply world_ok_mgr; [exact Hw|exact Hp'| | |done].
    + by apply shm_ok_delete; [| |intros k j sz Hk; split; [by eapply Hno|]].
    + unfold same_frames. cbn [shm_segments]. intros j gj Hj. apply lookup_delete_Some in Hj as [_ Hj]. by exists gj.
  - apply wp_ret, HQ; [|done|done]. eapply world_ok_mgr; [exact Hw|exact Hp1| | |done].
    + apply (shm_ok_put (w_mgr w) shmid g); try done; [|apply Hm]. cbn [set_marked attach_count]. lia.
    + unfold same_frames. cbn [mg1 put_shm shm_segments]. intros j gj Hj.
      apply lookup_insert_Some in Hj as [[<- <-]|[_ Hj]]; [by exists g|by exists gj].
Qed.

(** ** [sys_shmget] *)

Lemma align_up_page v : 0 <= v < 2 ^ 63 → align_up v PAGE_SIZE = (v + (PAGE_SIZE - 1)) / PAGE_SIZE * PAGE_SIZE.
Proof.
  intros Hv. unfold align_up, PAGE_SIZE. rewrite (wrap64_small (v + 4096)) by (unfold is_usize, USIZE; lia).
  rewrite wrap64_small by (unfold is_usize, USIZE; lia).
  change (4096 - 1) with (Z.ones 12). rewrite Z.ldiff_ones_r, Z.shiftl_mul_pow2, Z.shiftr_div_pow2 by lia.
  change (2 ^ 12) with 4096. change (Z.ones 12) with 4095. do 2 f_equal. lia.
Qed.

Lemma shm_ids_elem mg id : id ∈ shm_ids mg ↔ is_Some (shm_segments mg !! id).
Proof.
  unfold shm_ids. rewrite merge_sort_Permutation, list_elem_of_fmap. split.
  - intros ([i q] & -> & H%elem_of_map_to_list). by exists q.
  - intros [q H]. exists (id, q). split; [done|]. by apply elem_of_map_to_list.
Qed.

Lemma find_shm_loop_None key gs ids : find_shm_loop key gs ids = None →
  ∀ id g, id ∈ ids → gs !! id = Some g → marked_for_delete g = false → shm_key g ≠ key.
Proof.
  induction ids as [|i ids IH]; cbn [find_shm_loop]; intros H id g Hid Hg Hm; [by apply not_elem_of_nil in Hid|].
  apply elem_of_cons in Hid as [->|Hid].
  - rewrite Hg, Hm, andb_true_r in H. destruct (shm_key g =? key) eqn:E; [done|]. by apply Z.eqb_neq.
  - apply (IH ltac:(destruct (gs !! i) as [p|]; [destruct (_ && _)|]; done) id g Hid Hg Hm).
Qed.

Lemma find_shm_None mg key : find_shm_by_key mg key = None →
  ∀ id g, shm_segments mg !! id = Some g → marked_for_delete g = false → shm_key g ≠ key.
Proof. intros H id g Hg. apply (find_shm_loop_None _ _ _ H id g); [|done]. apply shm_ids_elem. by exists g. Qed.

(** A new segment, without attachments. *)
Lemma shm_ok_add mg key sz frames perm n :
  let id := next_shmid mg in
  let g := mkShmSegment key id sz frames perm 0 false in
  shm_ok mg → n = id + 1 → sz = Z.of_nat (length frames) * PAGE_SIZE → 0 < sz <= SHMMAX →
  (key ≠ IPC_PRIVATE → ∀ j gj, shm_segments mg !! j = Some gj → marked_for_delete gj = false → shm_key gj ≠ key) →
  shm_ok (mkShmManager (<[id := g]> (shm_segments mg)) (shm_attachments mg) n).
Proof.
  intros id g Hm -> Hsz Hpos Hkey. pose proof (mg_next _ Hm).
  assert (Hfresh : ∀ j gj, shm_segments mg !! j = Some gj → j < id) by (intros j gj Hj; apply (mg_segs _ Hm j gj Hj)).
  assert (Hzero : attachments_of mg id = 0%nat).
  { unfold attachments_of. apply map_size_empty_iff, map_empty. intros k. apply map_lookup_filter_None. right.
    intros [j z] Hk. cbn. destruct (mg_atts _ Hm k j z Hk) as (gj & Hj & _). pose proof (Hfresh j gj Hj). lia. }
  split; cbn [shm_segments shm_attachments next_shmid]; [| | |lia].
  - intros j gj [[<- <-]|[Hj Hgj]]%lookup_insert_Some.
    + split; cbn [shm_id next_shmid shm_size attach_count shm_frames marked_for_delete g]; try done; [lia|].
      change (attachments_of _ id) with (attachments_of mg id). by rewrite Hzero.
    + destruct (mg_segs _ Hm j gj Hgj). split; try done. cbn [next_shmid]. lia.
  - intros k j z Hk. destruct (mg_atts _ Hm k j z Hk) as (gj & Hj & ->). exists gj. split; [|done].
    rewrite lookup_insert_ne; [done|]. pose proof (Hfresh j gj Hj). lia.
  - intros i j gi gj [[<- <-]|[Hi Hgi]]%lookup_insert_Some [[<- <-]|[Hj Hgj]]%lookup_insert_Some He Hne Hmi Hmj.
    + done.
    + exfalso. apply (Hkey Hne j gj Hgj Hmj). by symmetry.
    + exfalso. cbn [shm_key g] in He. rewrite He in Hne. by apply (Hkey Hne i gi Hgi Hmi).
    + by apply (mg_keys _ Hm i j gi gj).
Qed.

Lemma wp_world_create key sz perm s w G (Q : result Z Z * ShmManager → machine A → Prop) :
  world_ok s w G → 1 <= sz <= SHMMAX → next_shmid (w_mgr w) < 2 ^ 31 - 1 →
  (key ≠ IPC_PRIVATE → ∀ j gj, shm_segments (w_mgr w) !! j = Some gj → marked_for_delete gj = false → shm_key gj ≠ key) →
  (∀ r mg' s', world_ok s' (mkWorld mg' (w_procs w)) G → next_shmid mg' <= next_shmid (w_mgr w) + 1 →
     (avail (falloc s) <= Z.to_nat (align_up sz PAGE_SIZE / PAGE_SIZE) + avail (falloc s'))%nat → Q (r, mg') s') →
  wp (create_shm (w_mgr w) key sz perm) Q s.
Proof.
  intros Hw Hsz Hnext Hkey HQ. pose proof (wk_mgr _ _ _ Hw) as Hm. pose proof (mg_next _ Hm). unfold create_shm. case_match.
  { apply wp_ret, HQ; [by destruct w|lia|lia]. }
  assert (Hwrap : wrap_i32 (next_shmid (w_mgr w) + 1) = next_shmid (w_mgr w) + 1)
    by (unfold wrap_i32; rewrite Z.mod_small; lia). rewrite Hwrap.
  assert (Hup : align_up sz PAGE_SIZE = Z.of_nat (Z.to_nat (align_up sz PAGE_SIZE / PAGE_SIZE)) * PAGE_SIZE ∧
    0 < align_up sz PAGE_SIZE <= SHMMAX).
  { rewrite align_up_page by (lia). unfold PAGE_SIZE in *. rewrite Z.div_mul by lia.
    Z.div_mod_to_equations. lia. }
  set (n := Z.to_nat (align_up sz PAGE_SIZE / PAGE_SIZE)) in *.
  apply wp_bind. unfold ShmSegment_new. cbv zeta. fold n. apply wp_bind.
  eapply (wp_shm_alloc_loop n (λ p, uses (shm_segments (w_mgr w)) p + (held G p + ext p))%nat); [apply Hw| | |].
  { intros i g q Hg. pose proof (covers_held G i g q Hg). cbn beta in *. lia. }
  - intros s' Hp' Hav. apply wp_ret, wp_ret, HQ; [|cbn; lia|lia].
    eapply world_ok_mgr; [exact Hw|exact Hp'| |by intros id g Hg; exists g|done].
    destruct Hm as [Hs Ha Hk Hn]. split; try done; [|cbn; lia].
    intros id g Hg. destruct (Hs id g Hg). split; try done. cbn [next_shmid]. lia.
  - intros frames s' Hlen Hp' Hav. cbn [app] in *. apply wp_ret, wp_ret, HQ; [|cbn; lia|lia].
    set (g := mkShmSegment key (next_shmid (w_mgr w)) (align_up sz PAGE_SIZE) frames perm 0 false).
    assert (Hno : shm_segments (w_mgr w) !! next_shmid (w_mgr w) = None).
    { apply eq_None_not_Some. intros [gj Hj]. pose proof (sg_range _ _ _ (mg_segs _ Hm _ _ Hj)). lia. }
    split; cbn [w_mgr w_procs put_shm shm_segments shm_attachments]; [| | |apply Hw].
    + eapply pool_ext; [|exact Hp']. intros p. cbn beta. unfold uses.
      rewrite (msum_insert _ _ _ _ Hno). cbn [g shm_frames]. lia.
    + apply (shm_ok_add (w_mgr w)); try done; [rewrite Hlen; apply Hup|apply Hup].
    + intros pid addr id z gi Hk Hgi. destruct (mg_atts _ Hm _ _ _ Hk) as (gj & Hj & ->).
      rewrite lookup_insert_ne in Hgi by congruence. by eapply (wk_att _ _ _ Hw).
Qed.

(** Frames a segment may take. *)
Definition get_cost : nat := Z.to_nat (SHMMAX / PAGE_SIZE).

Lemma wp_world_shmget key sz flg s w G (Q : Z * ShmManager → machine A → Prop) :
  world_ok s w G → next_shmid (w_mgr w) < 2 ^ 31 - 1 →
  (∀ r mg' s', world_ok s' (mkWorld mg' (w_procs w)) G → next_shmid mg' <= next_shmid (w_mgr w) + 1 →
     (avail (falloc s) <= get_cost + avail (falloc s'))%nat → Q (r, mg') s') →
  wp (sys_shmget (w_mgr w) key sz flg) Q s.
Proof.
  intros Hw Hnext HQ. assert (Hsame : ∀ r, Q (r, w_mgr w) s) by (intros r; apply HQ; [by destruct w|lia|lia]).
  unfold sys_shmget. destruct ((sz <? SHMMIN) || (SHMMAX <? sz)) eqn:Esz; [by apply wp_ret|].
  apply orb_false_iff in Esz as [H1%Z.ltb_ge H2%Z.ltb_ge].
  assert (Hcreate : ∀ perm, (key ≠ IPC_PRIVATE → find_shm_by_key (w_mgr w) key = None) →
    wp (let! (r, mg) := create_shm (w_mgr w) key sz perm in m_ret (ret_of r, mg)) Q s).
  { intros perm Hfind. apply wp_bind. eapply wp_world_create; [exact Hw|done|done| |].
    - intros Hne. by apply find_shm_None, Hfind.
    - intros r mg' s' Hw' Hn Hav. apply wp_ret, HQ; [done|done|]. etrans; [exact Hav|]. apply Nat.add_le_mono_r.
      unfold get_cost. rewrite align_up_page by (lia). unfold PAGE_SIZE in *.
      rewrite Z.div_mul by lia. Z.div_mod_to_equations. lia. }
  destruct (Z.eqb_spec key IPC_PRIVATE) as [Ek|Ek]; [by apply Hcreate|].
  destruct (find_shm_by_key (w_mgr w) key) as [[id g]|] eqn:Ef; [by repeat case_match; apply wp_ret|].
  case_match; [by apply wp_ret|by apply Hcreate].
Qed.

(** ** Attaching and detaching *)

Lemma held_two G i j gi gj p : i ≠ j → G !! i = Some gi → G !! j = Some gj →
  (refs (g_D gi) p + refs (g_D gj) p <= held G p)%nat.
Proof.
  intros Hij Hi Hj. unfold held. rewrite (msum_delete _ _ _ _ Hi).
  pose proof (msum_le (λ g, refs (g_D g) p) (delete i G) j gj) as H. cbn beta in H.
  rewrite lookup_delete_ne in H by done. specialize (H Hj). lia.
Qed.

Lemma held_update G i g g' p : G !! i = Some g →
  held (<[i := g']> G) p = (refs (g_D g') p + (held G p - refs (g_D g) p))%nat.
Proof.
  intros Hi. pose proof (msum_update (λ g, refs (g_D g) p) G i g g' Hi) as H. cbn beta in H.
  pose proof (msum_le (λ g, refs (g_D g) p) G i g Hi) as H'. cbn beta in H'. unfold held. lia.
Qed.

(** The accounts after a process has changed its address space. *)
Lemma world_pool_step K n s s' w G pid pm gh pm' gh' :
  world_ok s w G → w_procs w !! pid = Some pm → G !! pid = Some gh →
  ms_inv (rest (λ p, uses (shm_segments (w_mgr w)) p + (held G p + ext p))%nat (g_D gh)) s' (memory_set pm')
    (g_lbl gh') (g_am gh') (g_D gh') →
  sp_step K n s s' (g_lbl gh) (g_lbl gh') → arcs_within s s' → (∀ q, ¬ is_Some (arcs s !! q) → K q) →
  pool (λ p, uses (shm_segments (w_mgr w)) p + (held (<[pid := gh']> G) p + ext p))%nat s'
    (<[pid := gh']> G) (<[pid := pm']> (w_procs w)).
Proof.
  intros Hw Hpm Hgh Hi' Hst Hwi HK. destruct gh' as [lbl' am' D']. cbn [g_lbl g_am g_D] in *.
  eapply pool_ext; [|eapply pool_step; [apply Hw|exact Hpm|exact Hgh|exact Hi'|exact Hst|exact Hwi|exact HK|]].
  - intros p. unfold rest. cbn beta. rewrite (held_update _ _ _ _ _ Hgh). cbn [g_D].
    pose proof (msum_le (λ g, refs (g_D g) p) G pid gh Hgh) as H. cbn beta in H. unfold held. lia.
  - intros j gj p Hj Hgj. unfold rest. pose proof (held_two G pid j gh gj p ltac:(congruence) Hgh Hgj). lia.
Qed.

Lemma world_ok_base s w G pid pm b : world_ok s w G → w_procs w !! pid = Some pm →
  world_ok s (mkWorld (w_mgr w) (<[pid := mkProcessMemory (memory_set pm) b]> (w_procs w))) G.
Proof.
  intros [Hp Hm Hat Har] Hpm.
  assert (Hback : ∀ i pmi, <[pid := mkProcessMemory (memory_set pm) b]> (w_procs w) !! i = Some pmi →
    ∃ pmj, w_procs w !! i = Some pmj ∧ memory_set pmj = memory_set pmi).
  { intros i pmi [[<- <-]|[_ Hi]]%lookup_insert_Some; eauto. }
  split; cbn [w_mgr w_procs]; [|done| |].
  - destruct Hp as [Hinv Ha Ho Ht Hdom Hle Hsp Hdj]. split; try done.
    + intros i. rewrite lookup_insert_is_Some, <- Hdom. destruct (decide (pid = i)) as [<-|Hne]; [|naive_solver].
      rewrite Hpm. naive_solver.
    + intros i pmi g Hi Hg. destruct (Hback i pmi Hi) as (pmj & Hj & <-). by eapply Hsp.
  - intros i addr id sz g Hk Hg. destruct (Hat i addr id sz g Hk Hg) as (pmi & gh & Hi & Hgh & [H1 H2 H3]).
    destruct (decide (i = pid)) as [->|Hne].
    + rewrite Hpm in Hi. injection Hi as <-. exists (mkProcessMemory (memory_set pm) b), gh. rewrite lookup_insert_eq. done.
    + exists pmi, gh. by rewrite lookup_insert_ne by congruence.
  - intros i pmi a Hi Ha. destruct (Hback i pmi Hi) as (pmj & Hj & E). rewrite <- E in Ha. by eapply Har.
Qed.

(** Pages of an area that neither a new area nor a removed one touches. *)
Lemma attached_keep gh gh' pm pm' addr frames : attached gh pm addr frames →
  (∀ a, a ∈ areas (memory_set pm) → area_start a = addr / PAGE_SIZE →
     area_end a = addr / PAGE_SIZE + Z.of_nat (length frames) →
     a ∈ areas (memory_set pm') ∧ ∀ v, in_area a v → g_am gh' !! v = g_am gh !! v) →
  attached gh' pm' addr frames.
Proof.
  intros [Hs (a & Ha & Est & Een) Hpg] Hkeep. destruct (Hkeep a Ha Est Een) as [Ha' Hv]. split; [done|by exists a|].
  intros k p Hk. destruct (Hpg k p Hk) as (e & He & Ep). exists e. split; [|done]. rewrite Hv; [done|].
  apply lookup_lt_Some in Hk. unfold in_area. lia.
Qed.

Lemma shm_pages_lookup (a : MapArea F) frames k p : frames !! k = Some p →
  Z.of_nat (length frames) = area_end a - area_start a → shm_pages a frames !! (area_start a + Z.of_nat k) = Some p.
Proof.
  intros Hk Hlen. unfold shm_pages, pages_of. pose proof (lookup_lt_Some _ _ _ Hk) as Hlt.
  assert (Hfst : ((λ '(p, v), (v, p)) <$> zip frames (seqZ (area_start a) (area_end a - area_start a))).*1 =
    seqZ (area_start a) (area_end a - area_start a)).
  { rewrite <- list_fmap_compose. rewrite <- (snd_zip frames (seqZ (area_start a) (area_end a - area_start a))) at 2
      by (rewrite length_seqZ; lia). apply list_fmap_ext. by intros i [x y] _. }
  apply elem_of_list_to_map_1; [rewrite Hfst; apply NoDup_seqZ|].
  apply list_elem_of_fmap. exists (p, area_start a + Z.of_nat k). split; [done|].
  apply (list_elem_of_lookup_2 _ k). apply lookup_zip_with_Some. exists p, (area_start a + Z.of_nat k).
  split; [done|]. split; [done|]. apply lookup_seqZ. lia.
Qed.

(** Addresses a process may attach at: below 2^38, and with room for one more
    segment above its [mmap_base]. *)
Definition addr_ok (shmaddr : Z) : Prop := shmaddr = 0 ∨ 0 <= shmaddr <= 2 ^ 38 - SHMMAX.
Definition base_ok (n : Z) pm : Prop := 0 <= mmap_base pm <= 2 ^ 38 - n * (SHMMAX + PAGE_SIZE).

Lemma shm_attach_addr_spec pm n shmaddr shmflg : 0 < n → n * PAGE_SIZE <= SHMMAX → addr_ok shmaddr → base_ok 1 pm →
  let '(r, pm1) := shm_attach_addr pm (n * PAGE_SIZE) shmaddr shmflg in
  pm1 = mkProcessMemory (memory_set pm) (mmap_base pm1) ∧
  mmap_base pm <= mmap_base pm1 <= mmap_base pm + SHMMAX + PAGE_SIZE ∧ (∀ addr, r = Ok addr → user_span addr n).
Proof.
  intros Hn Hmax Ha Hb. unfold addr_ok, base_ok, PAGE_SIZE in *. unfold shm_attach_addr.
  assert (Hpm : pm = mkProcessMemory (memory_set pm) (mmap_base pm)) by by destruct pm.
  destruct (Z.eqb_spec shmaddr 0) as [->|Hne].
  - unfold alloc_mmap_base. rewrite align_up_page by lia. unfold PAGE_SIZE.
    unfold checked_add. destruct (Z.ltb_spec ((mmap_base pm + (4096 - 1)) / 4096 * 4096 + n * 4096) USIZE) as [_|Hge].
    + split; [done|]. cbn [mmap_base]. split; [Z.div_mod_to_equations; lia|]. intros addr [= <-]. unfold user_span, PAGE_SIZE.
      split; [apply Z_mod_mult|]. Z.div_mod_to_equations. lia.
    + exfalso. unfold USIZE in Hge. Z.div_mod_to_equations. lia.
  - destruct Ha as [Ha|Ha]; [done|]. unfold any_bit. change (PAGE_SIZE - 1) with (Z.ones 12). rewrite Z.land_ones by lia.
    change (2 ^ 12) with 4096. destruct (Z.eqb_spec (shmaddr mod 4096) 0) as [E|E]; cbn [negb].
    + split; [done|]. split; [lia|]. intros addr [= <-]. unfold user_span, PAGE_SIZE. lia.
    + destruct (negb (Z.land shmflg SHM_RND =? 0)); (split; [done|]; split; [lia|]); [|done].
      intros addr [= <-]. rewrite Z.ldiff_ones_r, Z.shiftl_mul_pow2, Z.shiftr_div_pow2 by lia. change (2 ^ 12) with 4096.
      unfold user_span, PAGE_SIZE. split; [apply Z_mod_mult|]. Z.div_mod_to_equations. lia.
Qed.

Lemma shm_map_perm_range shmflg : 0 <= shm_map_perm shmflg < 256.
Proof. unfold shm_map_perm. by destruct (any_bit shmflg SHM_RDONLY), (any_bit shmflg SHM_EXEC). Qed.

(** The frames of a segment are referred to. *)
Lemma segment_arcs s w G id g p : world_ok s w G → shm_segments (w_mgr w) !! id = Some g → p ∈ shm_frames g →
  is_Some (arcs s !! p).
Proof.
  intros Hw Hg Hin. rewrite (po_arcs _ _ _ _ (wk_pool _ _ _ Hw)). apply count_of_is_Some.
  pose proof (msum_le (λ g, occ p (shm_frames g)) _ id g Hg) as H. cbn beta in H. apply occ_elem in Hin. unfold uses. lia.
Qed.

(** The table entry of a new attachment. *)
Lemma shm_ok_attach mg id g k : shm_ok mg → shm_segments mg !! id = Some g → shm_attachments mg !! k = None →
  shm_ok (mkShmManager (<[id := set_count (attach_count g + 1) g]> (shm_segments mg))
    (<[k := (id, shm_size g)]> (shm_attachments mg)) (next_shmid mg)).
Proof.
  intros Hm Hg Hk. pose proof (mg_segs _ Hm id g Hg) as Hsg.
  pose proof (λ segs j, attachments_of_insert mg segs (next_shmid mg) k id (shm_size g) j Hk) as Hn.
  apply (shm_ok_put mg id g); try done.
  - rewrite Hn, decide_True by done. cbn [set_count attach_count]. rewrite (sg_count _ _ _ Hsg). lia.
  - intros Hmk. pose proof (sg_marked _ _ _ Hsg Hmk). cbn [set_count attach_count]. lia.
  - intros j Hj. by rewrite Hn, decide_False by congruence.
  - intros k' j sz [[<- [= <- <-]]|[_ Hk']]%lookup_insert_Some; [by exists g|by apply (mg_atts _ Hm k')].
Qed.

(** Once the address is chosen. *)
Lemma world_attach s s' w G pid pm gh id g addr n perm pt' lbl' :
  let a := shm_area (F:=F) addr (addr + n * PAGE_SIZE) perm in
  let fr := shm_pages a (shm_frames g) in
  let pm' := mkProcessMemory (mkMemorySet pt' (areas (memory_set pm) ++ [set_frames fr a])) (mmap_base pm) in
  let gh' := mkGhost lbl' (entries (map_perm_to_pte_flags perm) fr ∪ g_am gh) (fr ∪ g_D gh) in
  world_ok s w G → w_procs w !! pid = Some pm → G !! pid = Some gh → shm_segments (w_mgr w) !! id = Some g →
  n = Z.of_nat (length (shm_frames g)) → user_span addr n → fresh_area (memory_set pm) a →
  pool (λ p, uses (shm_segments (w_mgr w)) p + (held (<[pid := gh']> G) p + ext p))%nat s'
    (<[pid := gh']> G) (<[pid := pm']> (w_procs w)) →
  (∀ v p, fr !! v = Some p → 0 <= p < FRAME_END) → shm_attachments (w_mgr w) !! (pid, addr) = None →
  world_ok s' (mkWorld (mkShmManager (<[id := set_count (attach_count g + 1) g]> (shm_segments (w_mgr w)))
      (<[(pid, addr) := (id, shm_size g)]> (shm_attachments (w_mgr w))) (next_shmid (w_mgr w)))
    (<[pid := pm']> (w_procs w))) (<[pid := gh']> G).
Proof.
  intros a fr pm' gh' Hw Hpm Hgh Hg Hn Hspan Hfresh Hp' Hfr Hk. pose proof (wk_mgr _ _ _ Hw) as Hm.
  destruct (shm_area_span (F:=F) addr n perm Hspan) as (_ & Est & Een). fold a in Est, Een.
  assert (Hdom : ∀ v, is_Some (fr !! v) → in_area a v).
  { intros v Hv. unfold fr, shm_pages in Hv. apply pages_of_dom in Hv.
    rewrite snd_zip in Hv by (rewrite length_seqZ; lia). by apply in_seqZ. }
  split; cbn [w_mgr w_procs shm_segments shm_attachments].
  - eapply pool_ext; [|exact Hp']. intros p. cbn beta. by rewrite (uses_put _ _ _ _ _ Hg).
  - by apply shm_ok_attach.
  - intros i ad id2 sz2 g2 Hk2 Hg2.
    assert (Hg2' : ∃ g0, shm_segments (w_mgr w) !! id2 = Some g0 ∧ shm_frames g2 = shm_frames g0).
    { apply lookup_insert_Some in Hg2 as [[<- <-]|[_ Hg2]]; [by exists g|by exists g2]. }
    destruct Hg2' as (g0 & Hg0 & ->). apply lookup_insert_Some in Hk2 as [[[= <- <-] [= <- <-]]|[Hne Hk2]].
    + rewrite Hg in Hg0. injection Hg0 as <-. exists pm', gh'. rewrite !lookup_insert_eq. split_and!; [done|done|].
      split; [by rewrite <- Hn| |].
      * exists (set_frames fr a). cbn [pm' memory_set areas]. split; [set_solver|]. rewrite <- Hn. done.
      * intros k p Hkp. exists (PageTableEntry_new p (Z.lor (map_perm_to_pte_flags perm) PTE_V)).
        pose proof (shm_pages_lookup a (shm_frames g) k p Hkp ltac:(lia)) as Hl. rewrite Est in Hl. fold fr in Hl.
        cbn [gh' g_am]. unfold entries. split.
        -- apply lookup_union_Some_l. by rewrite lookup_fmap, Hl.
        -- pose proof (Hfr _ _ Hl). apply PTE_new_ppn; [lia|]. apply lor_V_range, perm_flags_range.
    + destruct (wk_att _ _ _ Hw i ad id2 sz2 g0 Hk2 Hg0) as (pmi & ghi & Hpi & Hgi & Hat).
      destruct (decide (i = pid)) as [->|Hi].
      * rewrite Hpm in Hpi. rewrite Hgh in Hgi. injection Hpi as <-. injection Hgi as <-.
        exists pm', gh'. rewrite !lookup_insert_eq. split_and!; [done|done|]. eapply attached_keep; [exact Hat|].
        intros b Hb _ _. cbn [pm' memory_set areas gh' g_am]. split; [set_solver|]. intros v Hv.
        apply lookup_union_r. unfold entries. rewrite lookup_fmap. destruct (fr !! v) eqn:E; [|done].
        exfalso. destruct Hfresh as (_ & _ & Hd). apply (Hd b Hb v Hv), Hdom. by rewrite E.
      * exists pmi, ghi. by rewrite !lookup_insert_ne by congruence.
  - intros i pmi b [[<- <-]|[_ Hi]]%lookup_insert_Some Hb; [|by eapply (wk_areas _ _ _ Hw)].
    cbn [pm' memory_set areas] in Hb. apply elem_of_app in Hb as [Hb|Hb%list_elem_of_singleton];
      [by eapply (wk_areas _ _ _ Hw)|subst b]. change (area_start a < area_end a). destruct Hspan. lia.
Qed.

Lemma world_ghost s w G pid pm : world_ok s w G → w_procs w !! pid = Some pm → ∃ gh, G !! pid = Some gh ∧
  ms_inv (rest (λ p, uses (shm_segments (w_mgr w)) p + (held G p + ext p))%nat (g_D gh)) s (memory_set pm)
    (g_lbl gh) (g_am gh) (g_D gh).
Proof.
  intros Hw Hpm. destruct (proj1 (po_dom _ _ _ _ (wk_pool _ _ _ Hw) pid)) as [gh Hgh]; [by eexists|].
  exists gh. split; [done|]. exact (po_space _ _ _ _ (wk_pool _ _ _ Hw) pid pm gh Hpm Hgh).
Qed.

(** An attachment at a place where a new area fits does not exist. *)
Lemma no_attachment s w G pid pm addr n perm : world_ok s w G → w_procs w !! pid = Some pm → user_span addr n →
  fresh_area (memory_set pm) (shm_area addr (addr + n * PAGE_SIZE) perm) → shm_attachments (w_mgr w) !! (pid, addr) = None.
Proof.
  intros Hw Hpm Hspan (_ & _ & Hd). destruct (shm_attachments (w_mgr w) !! (pid, addr)) as [[id sz]|] eqn:Ek; [|done].
  exfalso. destruct (mg_atts _ (wk_mgr _ _ _ Hw) _ _ _ Ek) as (g & Hg & ->).
  destruct (wk_att _ _ _ Hw _ _ _ _ _ Ek Hg) as (pm2 & gh & Hpm2 & _ & [Hsp (a & Ha & Est & Een) _]).
  rewrite Hpm in Hpm2. injection Hpm2 as <-. destruct (shm_area_span (F:=F) addr n perm Hspan) as (_ & Est' & Een').
  destruct Hspan as (_ & _ & Hn & _), Hsp as (_ & _ & Hn' & _).
  apply (Hd a Ha (addr / PAGE_SIZE)); unfold in_area; lia.
Qed.

(** Frames an attachment may take for page tables: two for each page. *)
Definition attach_cost : nat := Z.to_nat (2 * (SHMMAX / PAGE_SIZE)).

Lemma wp_world_insert pid pm id g addr n perm s w G (Q : Z * ShmManager * ProcessMemory F → machine A → Prop) :
  world_ok s w G → w_procs w !! pid = Some pm → shm_segments (w_mgr w) !! id = Some g →
  n = Z.of_nat (length (shm_frames g)) → user_span addr n → 0 <= perm < 256 → (attach_cost <= avail (falloc s))%nat →
  overlap_count (memory_set pm) addr (addr + shm_size g) <= 0 →
  (∀ mg' pm' s' G', world_ok s' (mkWorld mg' (<[pid := pm']> (w_procs w))) G' → mmap_base pm' = mmap_base pm →
     next_shmid mg' = next_shmid (w_mgr w) → (avail (falloc s) <= attach_cost + avail (falloc s'))%nat →
     shm_attachments mg' = <[(pid, addr) := (id, shm_size g)]> (shm_attachments (w_mgr w)) → Q (addr, mg', pm') s') →
  wp (let! (ok, ms) := insert_shm_area (memory_set pm) addr (addr + shm_size g) perm (shm_frames g) in
      let pm := mkProcessMemory ms (mmap_base pm) in
      if negb ok then m_ret (errno EINVAL, w_mgr w, pm)
      else
        match add_attachment (w_mgr w) pid addr id (shm_size g) with
        | (Err _, mg) =>
            let! ms := remove_area_with_start_vpn ms (VirtAddr_floor addr) in
            m_ret (errno EINVAL, mg, mkProcessMemory ms (mmap_base pm))
        | (Ok _, mg) => m_ret (addr, put_shm mg id (set_count (attach_count g + 1) g), pm)
        end) Q s.
Proof.
  intros Hw Hpm Hg Hn Hspan Hperm Hav Hov HQ.
  pose proof (mg_segs _ (wk_mgr _ _ _ Hw) id g Hg) as [_ _ Hsz Hpos _ _].
  assert (Eend : addr + shm_size g = addr + n * PAGE_SIZE) by lia. rewrite Eend in Hov |- *.
  destruct (world_ghost s w G pid pm Hw Hpm) as (gh & Hgh & Hi).
  pose proof (shm_area_fresh (memory_set pm) addr n perm Hspan Hperm Hov) as Hfresh.
  destruct (shm_area_span (F:=F) addr n perm Hspan) as (_ & Est & Een).
  assert (Hcost : (2 * length (shm_frames g) <= attach_cost)%nat).
  { unfold attach_cost, PAGE_SIZE in *.
    change (2 * (32 * 1024 * 1024 / 4096)) with 16384. lia. }
  pose proof (no_attachment s w G pid pm addr n perm Hw Hpm Hspan Hfresh) as Hk.
  apply wp_bind. eapply wp_insert_shm_area; [exact Hi|exact Hfresh|lia| |lia|].
  { intros p Hp. by eapply segment_arcs. }
  intros s' pt' lbl' ms' Hi' Hst Hwi. cbv zeta. cbn [negb]. unfold add_attachment. rewrite Hk. apply wp_ret.
  set (fr := shm_pages _ (shm_frames g)) in *.
  eapply (HQ _ _ s' (<[pid := mkGhost lbl' (entries (map_perm_to_pte_flags perm) fr ∪ g_am gh) (fr ∪ g_D gh)]> G));
    [|done|done|pose proof (step_avail _ _ _ _ _ _ Hst); lia|done].
  eapply world_attach; [exact Hw|exact Hpm|exact Hgh|exact Hg|exact Hn|exact Hspan|exact Hfresh| | |exact Hk].
  - eapply world_pool_step; [exact Hw|exact Hpm|exact Hgh|exact Hi'|exact Hst|exact Hwi|done].
  - intros v p Hv. eapply spec_owned_range; [apply (mi_core _ _ _ _ _ _ Hi)|].
    apply (po_owned _ _ _ _ (wk_pool _ _ _ Hw)). eapply segment_arcs; [exact Hw|exact Hg|].
    apply pages_of_frames in Hv. by rewrite fst_zip in Hv by (rewrite length_seqZ; lia).
Qed.

Lemma wp_world_shmat pid pm shmid shmaddr shmflg s w G (Q : Z * ShmManager * ProcessMemory F → machine A → Prop) :
  world_ok s w G → w_procs w !! pid = Some pm → addr_ok shmaddr → base_ok 1 pm → (attach_cost <= avail (falloc s))%nat →
  (∀ r mg' pm' s' G', world_ok s' (mkWorld mg' (<[pid := pm']> (w_procs w))) G' →
     mmap_base pm <= mmap_base pm' <= mmap_base pm + SHMMAX + PAGE_SIZE →
     next_shmid mg' = next_shmid (w_mgr w) → (avail (falloc s) <= attach_cost + avail (falloc s'))%nat →
     Q (r, mg', pm') s') →
  wp (sys_shmat (w_mgr w) pid pm shmid shmaddr shmflg) Q s.
Proof.
  intros Hw Hpm Ha Hb Hav HQ.
  assert (Hsame : ∀ r b, mmap_base pm <= b <= mmap_base pm + SHMMAX + PAGE_SIZE →
    wp (m_ret (r, w_mgr w, mkProcessMemory (memory_set pm) b)) Q s).
  { intros r b Hb'. apply wp_ret. eapply (HQ _ _ _ s G); [by apply world_ok_base|done|done|lia]. }
  assert (Hpmeq : pm = mkProcessMemory (memory_set pm) (mmap_base pm)) by by destruct pm.
  assert (Hret : ∀ r, wp (m_ret (r, w_mgr w, pm)) Q s)
    by (intros r; rewrite Hpmeq at 1; apply Hsame; unfold PAGE_SIZE; lia).
  unfold sys_shmat, get_shm. destruct (shm_segments (w_mgr w) !! shmid) as [g|] eqn:Eg; [|apply Hret].
  case_match; [apply Hret|]. case_match; [apply Hret|].
  pose proof (mg_segs _ (wk_mgr _ _ _ Hw) shmid g Eg) as [_ _ Hsz Hpos _ _].
  set (n := Z.of_nat (length (shm_frames g))) in *.
  pose proof (shm_attach_addr_spec pm n shmaddr shmflg) as Hspec. rewrite <- Hsz in Hspec.
  destruct (shm_attach_addr pm (shm_size g) shmaddr shmflg) as [r pm1].
  destruct Hspec as (Epm1 & Hbase & Hok); [unfold PAGE_SIZE in *; lia|lia|done|done|]. rewrite Epm1.
  destruct r as [addr|e]; [|by apply Hsame]. specialize (Hok addr eq_refl). pose proof Hok as (_ & Hlow & _ & Htop).
  unfold checked_add. destruct (Z.ltb_spec (addr + shm_size g) USIZE) as [_|Hge]; [|unfold USIZE in Hge; lia].
  set (pm2 := mkProcessMemory (memory_set pm) (mmap_base pm1)).
  destruct (Z.ltb_spec 0 (overlap_count (memory_set pm2) addr (addr + shm_size g))) as [_|Hov]; [by apply Hsame|].
  eapply (wp_world_insert pid pm2 shmid g addr n (shm_map_perm shmflg) s
    (mkWorld (w_mgr w) (<[pid := pm2]> (w_procs w))) G);
    [by apply world_ok_base|apply lookup_insert_eq|done|done|done|apply shm_map_perm_range|done|done|].
  cbn [w_procs w_mgr mmap_base pm2]. intros mg' pm' s' G' Hw' Eb En Hav' _. rewrite insert_insert_eq in Hw'.
  eapply HQ; [exact Hw'|lia|done|done].
Qed.

(** An area has gone, and with it the attachment at its address. *)
Lemma world_detach s s' w G pid pm gh addr id sz a l1 l2 mg' :
  let vs := seqZ (area_start a) (area_end a - area_start a) in
  let pm' := mkProcessMemory (mkMemorySet (page_table (memory_set pm)) (l1 ++ l2)) (mmap_base pm) in
  let gh' := mkGhost (g_lbl gh) (del_all (g_am gh) vs) (del_all (g_D gh) vs) in
  world_ok s w G → w_procs w !! pid = Some pm → G !! pid = Some gh →
  shm_attachments (w_mgr w) !! (pid, addr) = Some (id, sz) → addr mod PAGE_SIZE = 0 →
  areas (memory_set pm) = l1 ++ a :: l2 → areas_wf (l1 ++ a :: l2) → area_start a = addr / PAGE_SIZE →
  pool (λ p, uses (shm_segments mg') p + (held (<[pid := gh']> G) p + ext p))%nat s' (<[pid := gh']> G) (<[pid := pm']> (w_procs w)) →
  shm_ok mg' → same_frames (w_mgr w) mg' → shm_attachments mg' = delete (pid, addr) (shm_attachments (w_mgr w)) →
  world_ok s' (mkWorld mg' (<[pid := pm']> (w_procs w))) (<[pid := gh']> G).
Proof.
  intros vs pm' gh' Hw Hpm Hgh Hk Hal El Hwf Est Hp' Hm' Hsf Ea. split; cbn [w_mgr w_procs]; [done|done| |].
  - intros i ad id2 sz2 g2 Hk2 Hg2. rewrite Ea in Hk2. apply lookup_delete_Some in Hk2 as [Hne Hk2].
    destruct (Hsf id2 g2 Hg2) as (g0 & Hg0 & ->).
    destruct (wk_att _ _ _ Hw i ad id2 sz2 g0 Hk2 Hg0) as (pmi & ghi & Hpi & Hgi & Hat).
    destruct (decide (i = pid)) as [->|Hi]; [|exists pmi, ghi; by rewrite !lookup_insert_ne by congruence].
    rewrite Hpm in Hpi. rewrite Hgh in Hgi. injection Hpi as <-. injection Hgi as <-.
    exists pm', gh'. rewrite !lookup_insert_eq. split_and!; [done|done|]. eapply attached_keep; [exact Hat|].
    intros b Hb Ebst _. destruct Hat as [(Hal2 & _) _ _]. rewrite El in Hb. cbn [pm' memory_set areas gh' g_am].
    assert (Hb' : b ∈ l1 ++ l2).
    { apply elem_of_app in Hb as [Hb|[->|Hb]%elem_of_cons]; [set_solver| |set_solver]. exfalso. apply Hne. f_equal.
      unfold PAGE_SIZE in *. Z.div_mod_to_equations. lia. }
    split; [done|]. intros v Hv. rewrite lookup_del_all, decide_False; [done|]. intros Hin%in_seqZ.
    exact (areas_wf_disj l1 a l2 b Hwf Hb' v Hin Hv).
  - intros i pmi b [[<- <-]|[_ Hi]]%lookup_insert_Some Hb; [|by eapply (wk_areas _ _ _ Hw)].
    eapply (wk_areas _ _ _ Hw); [exact Hpm|]. rewrite El. cbn [pm' memory_set areas] in Hb. set_solver.
Qed.

Lemma wp_world_shmdt pid pm shmaddr s w G (Q : Z * ShmManager * ProcessMemory F → machine A → Prop) :
  world_ok s w G → w_procs w !! pid = Some pm →
  (∀ r mg' pm' s' G', world_ok s' (mkWorld mg' (<[pid := pm']> (w_procs w))) G' → mmap_base pm' = mmap_base pm →
     next_shmid mg' = next_shmid (w_mgr w) → (avail (falloc s) <= avail (falloc s'))%nat → Q (r, mg', pm') s') →
  wp (sys_shmdt (w_mgr w) pid pm shmaddr) Q s.
Proof.
  intros Hw Hpm HQ.
  assert (Hret : ∀ r, Q (r, w_mgr w, pm) s).
  { intros r. eapply (HQ _ _ _ s G); [|done|done|done]. rewrite insert_id by done. by destruct w. }
  unfold sys_shmdt. case_match; [by apply wp_ret|]. unfold remove_attachment.
  destruct (shm_attachments (w_mgr w) !! (pid, shmaddr)) as [[id sz]|] eqn:Ek.
  2: { rewrite delete_id by done. replace (mkShmManager _ _ _) with (w_mgr w) by by destruct (w_mgr w). by apply wp_ret. }
  destruct (mg_atts _ (wk_mgr _ _ _ Hw) _ _ _ Ek) as (g & Hg & ->).
  destruct (wk_att _ _ _ Hw _ _ _ _ _ Ek Hg) as (pm2 & gh & Hpm2 & Hgh & [(Hal & _) (a & Ha & Est & Een) _]).
  rewrite Hpm in Hpm2. injection Hpm2 as <-. apply list_elem_of_split in Ha as (l1 & l2 & El).
  pose proof (po_space _ _ _ _ (wk_pool _ _ _ Hw) pid pm gh Hpm Hgh) as Hi.
  apply wp_bind. change (VirtAddr_floor shmaddr) with (shmaddr / PAGE_SIZE). rewrite <- Est.
  eapply wp_remove_area; [exact Hi|exact El|intros b; exact (wk_areas _ _ _ Hw pid pm b Hpm)|].
  intros s1 ms1 Hi1 Hst1 Hwi1. set (vs := seqZ _ _) in *.
  set (gh' := mkGhost (g_lbl gh) (del_all (g_am gh) vs) (del_all (g_D gh) vs)).
  set (pm' := mkProcessMemory ms1 (mmap_base pm)).
  assert (Hp1 : pool (λ p, uses (shm_segments (w_mgr w)) p + (held (<[pid := gh']> G) p + ext p))%nat s1
    (<[pid := gh']> G) (<[pid := pm']> (w_procs w))).
  { eapply world_pool_step; [exact Hw|exact Hpm|exact Hgh|exact Hi1|exact Hst1|exact Hwi1|].
    intros q Hq. left. intros v _ Hv. apply Hq. by eapply held_arc. }
  apply wp_bind. eapply wp_release_shm; [apply Hw|exact Ek|exact Hp1|apply covers_held|].
  intros mg' s2 Hm' Hp2 Hsf Ea En Hav. apply wp_ret.
  eapply (HQ _ _ _ s2 (<[pid := gh']> G)); [|done|done|pose proof (step_avail _ _ _ _ _ _ Hst1); lia].
  eapply world_detach; [exact Hw|exact Hpm|exact Hgh|exact Ek|exact Hal|exact El| |exact Est|exact Hp2|done|done|done].
  rewrite <- El. apply Hi.
Qed.

(** ** Sequences of calls *)

Inductive shm_call : Type :=
  | Shmget (key sz shmflg : Z)
  | Shmat (pid shmid shmaddr shmflg : Z)
  | Shmdt (pid shmaddr : Z)
  | Shmctl (shmid cmd : Z)
  | ExitCleanup (pid : Z).

(** One call, by a process that exists. *)
Definition shm_run_call w (c : shm_call) : M (machine A) (world F) :=
  match c with
  | Shmget key sz shmflg => let! (_, mg) := sys_shmget (w_mgr w) key sz shmflg in m_ret (mkWorld mg (w_procs w))
  | Shmat pid shmid shmaddr shmflg =>
      match w_procs w !! pid with
      | Some pm =>
          let! (_, mg, pm) := sys_shmat (w_mgr w) pid pm shmid shmaddr shmflg in
          m_ret (mkWorld mg (<[pid := pm]> (w_procs w)))
      | None => m_ret w
      end
  | Shmdt pid shmaddr =>
      match w_procs w !! pid with
      | Some pm =>
          let! (_, mg, pm) := sys_shmdt (w_mgr w) pid pm shmaddr in m_ret (mkWorld mg (<[pid := pm]> (w_procs w)))
      | None => m_ret w
      end
  | Shmctl shmid cmd => let! (_, mg) := sys_shmctl (w_mgr w) shmid cmd in m_ret (mkWorld mg (w_procs w))
  | ExitCleanup pid => let! mg := cleanup_shm_attachments_for_pid (w_mgr w) pid in m_ret (mkWorld mg (w_procs w))
  end.
Definition shm_run (cs : list shm_call) w : M (machine A) (world F) := m_fold shm_run_call cs w.

Definition call_ok (c : shm_call) : Prop := match c with Shmat _ _ shmaddr _ => addr_ok shmaddr | _ => True end.
Definition call_cost (c : shm_call) : nat :=
  match c with Shmget _ _ _ => get_cost | Shmat _ _ _ _ => attach_cost | _ => 0%nat end.

(** Room for [n] more calls: ids, and addresses above each [mmap_base]. *)
Definition room (n : nat) w : Prop :=
  next_shmid (w_mgr w) + Z.of_nat n < 2 ^ 31 ∧
  ∀ pid pm, w_procs w !! pid = Some pm → base_ok (Z.of_nat n) pm.

Lemma base_ok_step n pm b : base_ok (Z.of_nat (S n)) pm → mmap_base pm <= b <= mmap_base pm + SHMMAX + PAGE_SIZE →
  base_ok (Z.of_nat n) (mkProcessMemory (memory_set pm) b) ∧ base_ok 1 pm.
Proof. unfold base_ok, PAGE_SIZE. cbn [mmap_base]. lia. Qed.

Lemma room_step n w mg procs : room (S n) w → next_shmid mg <= next_shmid (w_mgr w) + 1 →
  (∀ pid pm', procs !! pid = Some pm' → ∃ pm, w_procs w !! pid = Some pm ∧
     mmap_base pm <= mmap_base pm' <= mmap_base pm + SHMMAX + PAGE_SIZE) → room n (mkWorld mg procs).
Proof.
  intros [Hn Hb] Hnext Hp. split; cbn [w_mgr w_procs]; [lia|]. intros pid pm' Hpm'.
  destruct (Hp pid pm' Hpm') as (pm & Hpm & Hr). destruct pm' as [ms' b'].
  exact (proj1 (base_ok_step n pm b' (Hb pid pm Hpm) Hr)).
Qed.

Lemma room_procs n w mg : room (S n) w → next_shmid mg <= next_shmid (w_mgr w) + 1 → room n (mkWorld mg (w_procs w)).
Proof.
  intros Hr Hn. eapply room_step; [exact Hr|done|]. intros pid pm Hpm. exists pm. split; [done|].
  unfold PAGE_SIZE. lia.
Qed.

Lemma room_insert n w mg pid pm pm' : room (S n) w → next_shmid mg <= next_shmid (w_mgr w) + 1 →
  w_procs w !! pid = Some pm → mmap_base pm <= mmap_base pm' <= mmap_base pm + SHMMAX + PAGE_SIZE →
  room n (mkWorld mg (<[pid := pm']> (w_procs w))).
Proof.
  intros Hr Hn Hpm Hb. eapply room_step; [exact Hr|done|].
  intros i pmi [[<- <-]|[_ Hi]]%lookup_insert_Some; [by exists pm|]. exists pmi. split; [done|].
  unfold PAGE_SIZE. lia.
Qed.

Lemma wp_shm_run_call n c s w G : world_ok s w G → call_ok c → room (S n) w → (call_cost c <= avail (falloc s))%nat →
  wp (shm_run_call w c) (λ w' s', (∃ G', world_ok s' w' G') ∧ room n w' ∧
    (avail (falloc s) <= call_cost c + avail (falloc s'))%nat) s.
Proof.
  intros Hw Hc Hr Hav. pose proof (proj1 Hr) as Hnext.
  assert (Hsame : room n w) by (replace w with (mkWorld (w_mgr w) (w_procs w)) by (by destruct w); apply room_procs; [done|lia]).
  destruct c as [key sz flg|pid id addr flg|pid addr|id cmd|pid]; cbn [shm_run_call call_cost call_ok] in *.
  - apply wp_bind. eapply wp_world_shmget; [exact Hw|lia|]. intros r mg' s' Hw' Hn Ha. apply wp_ret.
    split_and!; [by eexists|by apply room_procs|done].
  - destruct (w_procs w !! pid) as [pm|] eqn:Hpm; [|apply wp_ret; split_and!; [by eexists|done|lia]].
    apply wp_bind. eapply wp_world_shmat; [exact Hw|exact Hpm|exact Hc| |exact Hav|].
    { eapply (base_ok_step n pm (mmap_base pm)); [by apply (proj2 Hr pid)|unfold PAGE_SIZE; lia]. }
    intros r mg' pm' s' G' Hw' Hb Hn Ha. apply wp_ret. split_and!; [by eexists| |done].
    eapply room_insert; [exact Hr|lia|exact Hpm|done].
  - destruct (w_procs w !! pid) as [pm|] eqn:Hpm; [|apply wp_ret; split_and!; [by eexists|done|lia]].
    apply wp_bind. eapply wp_world_shmdt; [exact Hw|exact Hpm|].
    intros r mg' pm' s' G' Hw' Hb Hn Ha. apply wp_ret. split_and!; [by eexists| |done].
    eapply room_insert; [exact Hr|lia|exact Hpm|unfold PAGE_SIZE; lia].
  - apply wp_bind. eapply wp_world_shmctl; [exact Hw|]. intros r mg' s' Hw' Hn Ha. apply wp_ret.
    split_and!; [by eexists|apply room_procs; [done|lia]|done].
  - apply wp_bind. eapply wp_world_cleanup; [exact Hw|]. intros mg' s' Hw' Hn Ha _. apply wp_ret.
    split_and!; [by eexists|apply room_procs; [done|lia]|done].
Qed.

Lemma wp_shm_run cs : ∀ s w G, world_ok s w G → Forall call_ok cs → room (length cs) w →
  (sum_list (call_cost <$> cs) <= avail (falloc s))%nat →
  wp (shm_run cs w) (λ w' s', ∃ G', world_ok s' w' G') s.
Proof.
  induction cs as [|c cs IH]; intros s w G Hw Hok Hr Hav; [apply wp_ret; by eexists|].
  apply Forall_cons in Hok as [Hc Hok]. cbn [length] in *.
  change (sum_list (call_cost <$> c :: cs)) with (call_cost c + sum_list (call_cost <$> cs))%nat in Hav.
  apply wp_bind. eapply wp_mono; [eapply (wp_shm_run_call (length cs)); [exact Hw|done|done|lia]|].
  intros w' s' ([G' Hw'] & Hr' & Ha). eapply IH; [exact Hw'|done|done|lia].
Qed.

(** What the processes and the manager can rely on. *)
Record shm_sound s w : Prop := mkShmSound {
  (** the counts are those of the table, so a segment marked for removal goes
      with its last attachment *)
  so_count id g : shm_segments (w_mgr w) !! id = Some g → attach_count g = Z.of_nat (attachments_of (w_mgr w) id);
  so_marked id g : shm_segments (w_mgr w) !! id = Some g → marked_for_delete g = true →
    ∃ k, fst <$> shm_attachments (w_mgr w) !! k = Some id;
  (** an attached segment exists, and its pages are its frames, whoever looks *)
  so_shared pid addr id sz : shm_attachments (w_mgr w) !! (pid, addr) = Some (id, sz) →
    ∃ g pm, shm_segments (w_mgr w) !! id = Some g ∧ sz = shm_size g ∧ w_procs w !! pid = Some pm ∧
      ∀ k p, shm_frames g !! k = Some p →
        ∃ e, PageTable_translate (mem s) (page_table (memory_set pm)) (addr / PAGE_SIZE + Z.of_nat k) = Some e ∧
             PageTableEntry_ppn e = p;
  (** no frame of a segment or of an attached page is free *)
  so_owned id g p : shm_segments (w_mgr w) !! id = Some g → p ∈ shm_frames g → owned (falloc s) p;
}.

Lemma world_sound s w G : world_ok s w G → shm_sound s w.
Proof.
  intros Hw. pose proof (wk_mgr _ _ _ Hw) as Hm. split.
  - intros id g Hg. by apply (mg_segs _ Hm).
  - intros id g Hg Hmk. destruct (mg_segs _ Hm id g Hg) as [_ _ _ _ Hc Hpos]. specialize (Hpos Hmk).
    unfold attachments_of in Hc. destruct (decide (filter (λ kv : Z * Z * (Z * Z), kv.2.1 = id) (shm_attachments (w_mgr w)) = ∅)) as [E|E].
    + rewrite E, map_size_empty in Hc. lia.
    + apply map_choose in E as (k & [j z] & [Hk Hj]%map_lookup_filter_Some). cbn in Hj. exists k. by rewrite Hk, <- Hj.
  - intros pid addr id sz Hk. destruct (mg_atts _ Hm _ _ _ Hk) as (g & Hg & ->).
    destruct (wk_att _ _ _ Hw _ _ _ _ _ Hk Hg) as (pm & gh & Hpm & Hgh & [Hs _ Hpg]). exists g, pm. split_and!; [done..|].
    intros k p Hkp. destruct (Hpg k p Hkp) as (e & He & Ep). exists e. split; [|done].
    pose proof (mi_core _ _ _ _ _ _ (po_space _ _ _ _ (wk_pool _ _ _ Hw) pid pm gh Hpm Hgh)) as Hc.
    rewrite (sp_view _ _ _ _ _ _ Hc); [done|]. apply (sp_dom _ _ _ _ _ _ Hc). by eexists.
  - intros id g p Hg Hp. apply (po_owned _ _ _ _ (wk_pool _ _ _ Hw)). by eapply segment_arcs.
Qed.


(** ** Creating processes *)

Lemma wp_world_spawn pid b s w G (Q : MemorySet F → machine A → Prop) :
  world_ok s w G → w_procs w !! pid = None → (1 <= avail (falloc s))%nat →
  (kernel_token s ≠ 0 → owned (falloc s) (kernel_root s)) →
  (∀ ms s' G', world_ok s' (mkWorld (w_mgr w) (<[pid := mkProcessMemory ms b]> (w_procs w))) G' →
     avail (falloc s) = S (avail (falloc s')) → kernel_token s' = kernel_token s →
     (∀ q, owned (falloc s) q → owned (falloc s') q) → Q ms s') →
  wp MemorySet_new_bare Q s.
Proof.
  intros Hw Hpid Hav Hk HQ. pose proof (wk_pool _ _ _ Hw) as Hp. unfold MemorySet_new_bare.
  apply wp_bind, wp_PageTable_new; [apply Hp|done|done|]. intros s' root pt Hok Hnew Ht _ Hm Hown Ha Htok Hav'. apply wp_ret.
  assert (HG : G !! pid = None) by (apply eq_None_not_Some; rewrite <- (po_dom _ _ _ _ Hp pid), Hpid; by intros [??]).
  set (gh := mkGhost {[root := Root]} ∅ ∅).
  apply (HQ _ s' (<[pid := gh]> G)); [|done|done|intros q Hq; apply Hown; by right].
  split; cbn [w_mgr w_procs]; [|apply Hw| |].
  - eapply pool_ext; [|apply (pool_spawn (avail:=avail) _ s s'); [exact Hp|done|apply Hok|by split|exact Hok|exact Ht]]. intros p. cbn beta. unfold held.
    rewrite (msum_insert _ _ _ _ HG). cbn [gh g_D]. by rewrite refs_empty.
  - intros i addr id sz g Hk' Hg. destruct (wk_att _ _ _ Hw i addr id sz g Hk' Hg) as (pm & g' & Hpm & Hg' & Hat).
    exists pm, g'. rewrite !lookup_insert_ne by congruence. done.
  - intros i pm a [[<- <-]|[_ Hi]]%lookup_insert_Some Hin; [by apply not_elem_of_nil in Hin|by eapply (wk_areas _ _ _ Hw)].
Qed.

(** No processes, no segments: every reference is external. *)
Lemma world_ok_empty s : inv (falloc s) → (∀ p, arcs s !! p = count_of (ext p)) →
  (∀ p, is_Some (arcs s !! p) → owned (falloc s) p) → world_ok s (mkWorld ShmManager_new ∅) ∅.
Proof.
  intros Hinv Ha Ho. split; cbn [w_mgr w_procs ShmManager_new shm_segments shm_attachments]; [|by split|done|done].
  split; try done. intros i. rewrite !lookup_empty. done.
Qed.
End safe.

(** ** Example: two processes and a segment of two pages *)

(** A machine with the frames of the board, as [boot_machine] otherwise. *)
Definition large_machine : kmachine :=
  mkMachine (mkSFA 101 FRAME_END []) (mem boot_machine) ∅ (kernel_token boot_machine).

Lemma large_machine_inv : sfa_inv 100 (falloc large_machine).
Proof. split; cbn; [lia|lia|constructor|set_solver]. Qed.

Definition USER_MMAP_TOP : Z := 0x600000000.

Definition demo_boot : M kmachine (world unit) :=
  let! ms1 := MemorySet_new_bare in
  let! ms2 := MemorySet_new_bare in
  m_ret (mkWorld ShmManager_new (<[2 := mkProcessMemory ms2 USER_MMAP_TOP]> (<[1 := mkProcessMemory ms1 USER_MMAP_TOP]> ∅))).

(** Process 1 creates and attaches the segment, process 2 attaches it too, it is
    marked for removal, and process 1 detaches it. *)
Definition demo_shm_calls : list shm_call :=
  [Shmget 77 5000 0x3b6; Shmat 1 1 0 0; Shmat 2 1 0x10000 SHM_RDONLY; Shmctl 1 IPC_RMID; Shmdt 1 USER_MMAP_TOP].

Lemma large_avail : (Z.to_nat 45000 <= sfa_avail (falloc large_machine))%nat.
Proof. unfold sfa_avail, large_machine. cbn [falloc FrameAllocator.end_ current recycled length]. lia. Qed.

Lemma wp_demo_boot : wp demo_boot (λ w s,
  (∃ G, world_ok (inv:=sfa_inv 100) (owned:=sfa_owned 100) (λ _, 0%nat) s w G) ∧ room 5 w ∧
  (Z.to_nat 44000 <= sfa_avail (falloc s))%nat) large_machine.
Proof.
  pose proof large_avail as Hav.
  assert (Hroot : sfa_owned 100 (falloc large_machine) (kernel_root large_machine)) by (split; [by vm_compute|set_solver]).
  assert (H0 : world_ok (F:=unit) (inv:=sfa_inv 100) (owned:=sfa_owned 100) (λ _, 0%nat) large_machine (mkWorld ShmManager_new ∅) ∅)
    by (apply world_ok_empty; [apply large_machine_inv|done|by intros p [??]]).
  apply wp_bind. eapply (wp_world_spawn (avail:=sfa_avail) _ 1 USER_MMAP_TOP); [exact H0|done|lia|done|].
  intros ms1 s1 G1 H1 Hav1 Ht1 Ho1. apply wp_bind. eapply (wp_world_spawn (avail:=sfa_avail) _ 2 USER_MMAP_TOP); [exact H1|done|lia| |].
  { intros _. unfold kernel_root. rewrite Ht1. by apply Ho1. }
  intros ms2 s2 G2 H2 Hav2 _ _. apply wp_ret. split; [by exists G2|]. split; [|lia]. split; [by vm_compute|].
  cbn [w_procs]. intros pid pm [[_ <-]|[_ [[_ <-]|[_ H]]%lookup_insert_Some]]%lookup_insert_Some; [by vm_compute..|done].
Qed.

Definition demo_world : world unit * kmachine :=
  match demo_boot large_machine with Ret x => x | Panic => (mkWorld ShmManager_new ∅, large_machine) end.


(** ** The kernel half is not protected *)

(** A machine whose kernel has a second-level table, frame 7, at entry 300 of
    its root, in the half every address space shares. *)
Definition shared_half_machine : kmachine :=
  mkMachine (mkSFA 101 200 []) {[100 := {[300 := PageTableEntry_new 7 PTE_V]}]} ∅ (kernel_token boot_machine).

(** What the user of process [pid] can reach at a page. *)
Definition user_entry (pid vpn : Z) (r : outcome (world unit * kmachine)) : option Z :=
  match r with
  | Ret (w, s) =>
      pm ← w_procs w !! pid;
      e ← PageTable_translate (mem s) (page_table (memory_set pm)) vpn;
      if contains (PageTableEntry_flags e) PTE_U then Some (PageTableEntry_ppn e) else None
  | Panic => None
  end.

