(* ===== verification/EfsCache.v ===== *)
(** * Block devices and the block cache (easy-fs/src/block_dev.rs, block_cache.rs)

    A cache of sixteen blocks in front of a block device.  [BlockStore] is what
    the layers above see: blocks that can be read and written.  The cache is
    shown to be transparent and to lose no write: it implements [BlockStore],
    and after [block_cache_sync_all] the device holds what the cache showed. *)

From stdpp Require Import base list numbers option sets gmap.
From S2P Require Import Prelude.

(** Use a block size of 512 bytes. *)
Definition BLOCK_SZ : nat := 512.

(** ** The device

    The trait [BlockDevice] and what its documentation promises. *)
Class BlockDevice (D : Type) : Type := {
  read_block : D → Z → list Z;
  write_block : D → Z → list Z → D;
}.

Class BlockDeviceSpec (D : Type) {BD : BlockDevice D} : Prop := {
  read_block_length d b : length (read_block d b) = BLOCK_SZ;
  read_write_eq d b x : length x = BLOCK_SZ → read_block (write_block d b x) b = x;
  read_write_ne d b b' x : b ≠ b' → read_block (write_block d b x) b' = read_block d b';
}.

(** ** What the file system needs of a store of blocks *)

Class BlockStore (S : Type) : Type := {
  bs_get : Z → M S (list Z);
  bs_put : Z → list Z → M S unit;
  bs_sync : M S unit;
}.

(** [view s b]: the contents of block [b]. *)
Class BlockStoreSpec (S : Type) {BS : BlockStore S} (ok : S → Prop) (view : S → Z → list Z) : Prop := {
  view_length s b : ok s → length (view s b) = BLOCK_SZ;
  wp_bs_get s b (Q : list Z → S → Prop) : ok s →
    (∀ s', ok s' → (∀ c, view s' c = view s c) → Q (view s b) s') → wp (bs_get b) Q s;
  wp_bs_put s b x (Q : unit → S → Prop) : ok s → length x = BLOCK_SZ →
    (∀ s', ok s' → (∀ c, view s' c = if decide (c = b) then x else view s c) → Q tt s') → wp (bs_put b x) Q s;
  wp_bs_sync s (Q : unit → S → Prop) : ok s →
    (∀ s', ok s' → (∀ c, view s' c = view s c) → Q tt s') → wp bs_sync Q s;
}.

(** ** The cache *)

Definition BLOCK_CACHE_SIZE : nat := 16.

(** [handles] is the number of [Arc]s outside the queue: [strong_count - 1]. *)
Record BlockCache : Type := mkBlockCache {
  cache : list Z;
  block_id : Z;
  modified : bool;
  handles : nat;
}.

Record BlockCacheManager (D : Type) : Type := mkManager {
  device : D;
  queue : list BlockCache;
}.
Arguments mkManager {D} device queue.
Arguments device {D} b.
Arguments queue {D} b.

Section block_cache.
Context {D : Type} {BD : BlockDevice D}.
Implicit Types (s : BlockCacheManager D) (c : BlockCache) (q : list BlockCache).

(** [BlockCache::new] *)
Definition BlockCache_new (d : D) (id : Z) : BlockCache := mkBlockCache (read_block d id) id false 0.

Definition BlockCache_sync (d : D) (c : BlockCache) : D * BlockCache :=
  if modified c then (write_block d (block_id c) (cache c), mkBlockCache (cache c) (block_id c) false (handles c))
  else (d, c).

(** [Drop for BlockCache] *)
Definition BlockCache_drop (d : D) (c : BlockCache) : D := (BlockCache_sync d c).1.

Definition set_handles (n : nat) (c : BlockCache) : BlockCache :=
  mkBlockCache (cache c) (block_id c) (modified c) n.

(** The first entry of the queue with the given id, changed by [f]. *)
Fixpoint update_entry (id : Z) (f : BlockCache → BlockCache) (q : list BlockCache) : list BlockCache :=
  match q with
  | [] => []
  | c :: q => if block_id c =? id then f c :: q else c :: update_entry id f q
  end.

Definition find_entry (id : Z) (q : list BlockCache) : option BlockCache :=
  List.find (λ c, block_id c =? id) q.

(** [drain(idx..=idx)] of the first entry nobody else holds, and the entry. *)
Fixpoint evict (q : list BlockCache) : option (BlockCache * list BlockCache) :=
  match q with
  | [] => None
  | c :: q => if (handles c =? 0)%nat then Some (c, q)
              else '(v, q) ← evict q; Some (v, c :: q)
  end.

(** [get_block_cache]: the caller receives a handle. *)
Definition get_block_cache (id : Z) : M (BlockCacheManager D) unit := λ s,
  match find_entry id (queue s) with
  | Some c => Ret (tt, mkManager (device s) (update_entry id (λ c, set_handles (S (handles c)) c) (queue s)))
  | None =>
      let push d q := Ret (tt, mkManager d (q ++ [set_handles 1 (BlockCache_new d id)])) in
      if (length (queue s) =? BLOCK_CACHE_SIZE)%nat then
        match evict (queue s) with
        | Some (c, q) => push (BlockCache_drop (device s) c) q
        | None => Panic
        end
      else push (device s) (queue s)
  end.

(** The handle is dropped. *)
Definition drop_handle (id : Z) : M (BlockCacheManager D) unit :=
  m_modify (λ s, mkManager (device s) (update_entry id (λ c, set_handles (pred (handles c)) c) (queue s))).

(** Access through a handle: [get_ref] and [get_mut] with [T] the whole block. *)
Definition cache_get (id : Z) : M (BlockCacheManager D) (list Z) := λ s,
  match find_entry id (queue s) with Some c => Ret (cache c, s) | None => Panic end.
Definition cache_put (id : Z) (x : list Z) : M (BlockCacheManager D) unit := λ s,
  Ret (tt, mkManager (device s) (update_entry id (λ c, mkBlockCache x (block_id c) true (handles c)) (queue s))).

(** [get_block_cache(id, dev).lock().read(..)] and [.modify(..)] *)
Definition block_read (id : Z) : M (BlockCacheManager D) (list Z) :=
  get_block_cache id ;;;
  let! x := cache_get id in
  drop_handle id ;;; m_ret x.
Definition block_write (id : Z) (x : list Z) : M (BlockCacheManager D) unit :=
  get_block_cache id ;;; cache_put id x ;;; drop_handle id.

Fixpoint sync_queue (d : D) (q : list BlockCache) : D * list BlockCache :=
  match q with
  | [] => (d, [])
  | c :: q =>
      let '(d, c) := BlockCache_sync d c in
      let '(d, q) := sync_queue d q in (d, c :: q)
  end.

Definition block_cache_sync_all : M (BlockCacheManager D) unit := λ s,
  let '(d, q) := sync_queue (device s) (queue s) in Ret (tt, mkManager d q).

#[export] Instance cache_store : BlockStore (BlockCacheManager D) := {
  bs_get := block_read;
  bs_put := block_write;
  bs_sync := block_cache_sync_all;
}.

(** ** What the cache shows *)

Definition cache_view s (b : Z) : list Z :=
  match find_entry b (queue s) with Some c => cache c | None => read_block (device s) b end.

(** [held] lists the handles outside the queue. *)
Record cache_ok (held : list Z) s : Prop := {
  co_ids : NoDup (block_id <$> queue s);
  co_size : (length (queue s) <= BLOCK_CACHE_SIZE)%nat;
  co_length c : c ∈ queue s → length (cache c) = BLOCK_SZ;
  co_clean c : c ∈ queue s → modified c = false → cache c = read_block (device s) (block_id c);
  co_handles c : c ∈ queue s → handles c = length (filter (λ b, b = block_id c) held);
  co_held b : b ∈ held → b ∈ block_id <$> queue s;
}.

(** ** Entries of the queue *)

Lemma find_entry_in q c : NoDup (block_id <$> q) → c ∈ q → find_entry (block_id c) q = Some c.
Proof.
  induction q as [|x q IH]; intros Hnd Hc; [by apply elem_of_nil in Hc|]. rewrite fmap_cons, NoDup_cons in Hnd.
  destruct Hnd as [Hx Hnd]. unfold find_entry. simpl. apply elem_of_cons in Hc as [->|Hc].
  - by rewrite Z.eqb_refl.
  - destruct (Z.eqb_spec (block_id x) (block_id c)) as [E|_]; [|by apply IH].
    destruct Hx. rewrite E. by apply list_elem_of_fmap_2.
Qed.

Lemma find_entry_Some q b c : find_entry b q = Some c → c ∈ q ∧ block_id c = b.
Proof.
  intros H. apply find_some in H as [Hin E%Z.eqb_eq]. split; [by apply list_elem_of_In|done].
Qed.

Lemma find_entry_None q b : find_entry b q = None ↔ b ∉ block_id <$> q.
Proof.
  unfold find_entry. induction q as [|x q IH]; simpl; [set_solver|].
  rewrite not_elem_of_cons. destruct (Z.eqb_spec (block_id x) b); [naive_solver|]. rewrite IH. naive_solver.
Qed.

(** The id of an entry determines it, and splits the queue. *)
Lemma entry_split q b : b ∈ block_id <$> q →
  ∃ q1 c q2, q = q1 ++ c :: q2 ∧ block_id c = b ∧ b ∉ block_id <$> q1.
Proof.
  induction q as [|x q IH]; simpl; [by intros ?%elem_of_nil|]. intros Hb.
  destruct (decide (block_id x = b)) as [<-|Hne]; [by exists [], x, q; split_and!; [done|done|set_solver]|].
  destruct IH as (q1 & c & q2 & -> & Hc & Hn); [set_solver|].
  exists (x :: q1), c, q2. split_and!; [done|done|set_solver].
Qed.

Lemma update_entry_split q1 c q2 f : block_id c ∉ block_id <$> q1 →
  update_entry (block_id c) f (q1 ++ c :: q2) = q1 ++ f c :: q2.
Proof.
  induction q1 as [|x q1 IH]; simpl; intros Hn; [by rewrite Z.eqb_refl|].
  rewrite not_elem_of_cons in Hn. destruct (Z.eqb_spec (block_id x) (block_id c)); [naive_solver|].
  by rewrite IH by naive_solver.
Qed.

Lemma update_entry_ids b f q : (∀ c, block_id (f c) = block_id c) → block_id <$> update_entry b f q = block_id <$> q.
Proof.
  intros Hf. induction q as [|x q IH]; [done|]. cbn [update_entry].
  destruct (block_id x =? b); rewrite !fmap_cons; [by rewrite Hf|by rewrite IH].
Qed.

Lemma find_update_entry b f q b' : (∀ c, block_id (f c) = block_id c) →
  find_entry b' (update_entry b f q) =
    if decide (b' = b) then f <$> find_entry b' q else find_entry b' q.
Proof.
  intros Hf. unfold find_entry. induction q as [|x q IH]; simpl; [by case_decide|].
  destruct (Z.eqb_spec (block_id x) b) as [E|E]; simpl.
  - rewrite Hf. case_decide as Hb.
    + subst b'. by destruct (Z.eqb_spec (block_id x) b); [|done].
    + by destruct (Z.eqb_spec (block_id x) b'); [congruence|].
  - destruct (Z.eqb_spec (block_id x) b') as [E'|E'].
    + case_decide as Hb; [congruence|done].
    + apply IH.
Qed.

Lemma find_entry_app q q' b :
  find_entry b (q ++ q') = match find_entry b q with Some c => Some c | None => find_entry b q' end.
Proof. unfold find_entry. induction q as [|x q IH]; simpl; [done|]. by destruct (block_id x =? b). Qed.

Lemma evict_Some q c q' : evict q = Some (c, q') → handles c = 0%nat ∧ ∃ q1 q2, q = q1 ++ c :: q2 ∧ q' = q1 ++ q2.
Proof.
  revert q'. induction q as [|x q IH]; simpl; intros q' H; [done|].
  destruct (Nat.eqb_spec (handles x) 0).
  - injection H as -> ->. split; [done|]. by exists [], q'.
  - apply bind_Some in H as ([v r] & Hv & H). injection H as -> <-.
    destruct (IH r Hv) as (Hc & q1 & q2 & -> & ->). split; [done|]. by exists (x :: q1), q2.
Qed.

Lemma evict_None q c : evict q = None → c ∈ q → handles c ≠ 0%nat.
Proof.
  induction q as [|x q IH]; simpl; intros H Hc; [by apply elem_of_nil in Hc|].
  destruct (Nat.eqb_spec (handles x) 0); [done|]. destruct (evict q) as [[]|]; [done|].
  apply elem_of_cons in Hc as [->|Hc]; auto.
Qed.

(** ** The operations keep the cache well formed and the view *)

Context {BDS : BlockDeviceSpec D}.

Definition count_held (b : Z) (held : list Z) : nat := length (filter (λ x, x = b) held).

Lemma count_held_cons b x held : count_held b (x :: held) = ((if decide (x = b) then 1 else 0) + count_held b held)%nat.
Proof. unfold count_held. rewrite filter_cons. by case_decide. Qed.

Lemma count_held_pos b held : count_held b held ≠ 0%nat → b ∈ held.
Proof.
  unfold count_held. destruct (filter (λ x, x = b) held) as [|x l] eqn:Hf; [done|]. intros _.
  assert (x ∈ filter (λ x, x = b) held) as Hx by (rewrite Hf; by left).
  by apply list_elem_of_filter in Hx as [-> ?].
Qed.

(** Writing an entry back makes the device agree with it. *)
Lemma drop_device held s c : cache_ok held s → c ∈ queue s →
  read_block (BlockCache_drop (device s) c) (block_id c) = cache c ∧
  ∀ b, b ≠ block_id c → read_block (BlockCache_drop (device s) c) b = read_block (device s) b.
Proof.
  intros Hok Hc. unfold BlockCache_drop, BlockCache_sync. destruct (modified c) eqn:Hm; simpl.
  - split; [apply read_write_eq; by eapply co_length|]. intros b Hb. by apply read_write_ne.
  - split; [|done]. symmetry. by eapply co_clean.
Qed.

(** A new entry at the end of the queue. *)
Lemma push_ok held d q id : cache_ok held (mkManager d q) → (length q < BLOCK_CACHE_SIZE)%nat → id ∉ block_id <$> q →
  let s' := mkManager d (q ++ [set_handles 1 (BlockCache_new d id)]) in
  cache_ok (id :: held) s' ∧ (∀ b, cache_view s' b = cache_view (mkManager d q) b) ∧ id ∈ block_id <$> queue s'.
Proof.
  intros [A B C E F G] Hlen Hid s'. simpl in *. split_and!.
  - split; simpl.
    + rewrite fmap_app. apply NoDup_app. split_and!; [done| |apply NoDup_singleton].
      intros x Hx ->%list_elem_of_singleton. done.
    + rewrite length_app. simpl. lia.
    + intros c [Hc|Hc]%elem_of_app; [by apply C|]. apply list_elem_of_singleton in Hc as ->. apply read_block_length.
    + intros c [Hc|Hc]%elem_of_app; [by apply E|]. by apply list_elem_of_singleton in Hc as ->.
    + intros c [Hc|Hc]%elem_of_app.
      * fold (count_held (block_id c) (id :: held)). rewrite count_held_cons, decide_False; [by apply F|].
        intros ->. apply Hid. by apply list_elem_of_fmap_2.
      * apply list_elem_of_singleton in Hc as ->. simpl. fold (count_held id (id :: held)).
        rewrite count_held_cons, decide_True by done. assert (count_held id held = 0%nat) as ->; [|done].
        destruct (decide (count_held id held = 0%nat)) as [|Hp]; [done|]. by apply count_held_pos, G in Hp.
    + intros b [->|Hb]%elem_of_cons; rewrite fmap_app, elem_of_app; [right; by left|left; by apply G].
  - intros b. unfold cache_view, s'. simpl. rewrite find_entry_app. destruct (find_entry b q) eqn:Hf; [done|].
    unfold find_entry. simpl. by destruct (Z.eqb_spec id b) as [->|].
  - unfold s'. simpl. rewrite fmap_app, elem_of_app. right. by left.
Qed.

(** The first entry nobody holds leaves the queue. *)
Lemma evict_ok held s c q1 q2 : cache_ok held s → queue s = q1 ++ c :: q2 → handles c = 0%nat →
  let s' := mkManager (BlockCache_drop (device s) c) (q1 ++ q2) in
  cache_ok held s' ∧ (∀ b, cache_view s' b = cache_view s b).
Proof.
  intros Hok Hq Hh s'. assert (c ∈ queue s) as Hc by (rewrite Hq; set_solver).
  destruct (drop_device held s c Hok Hc) as [D1 D2]. destruct Hok as [A B C E F G]. rewrite Hq in A, B.
  rewrite fmap_app, fmap_cons in A. apply NoDup_app in A as (A1 & A2 & A3). apply NoDup_cons in A3 as [A3 A4].
  assert (∀ x, x ∈ q1 ++ q2 → x ∈ queue s ∧ block_id x ≠ block_id c) as Hin.
  { intros x Hx. split; [rewrite Hq; set_solver|]. intros E'. apply elem_of_app in Hx as [Hx|Hx].
    - apply (A2 (block_id x)); [by apply list_elem_of_fmap_2|]. rewrite E'. by left.
    - apply A3. rewrite <- E'. by apply list_elem_of_fmap_2. }
  split; [split; simpl|].
  - rewrite fmap_app. apply NoDup_app. split_and!; [done| |done]. intros x Hx Hx'. apply (A2 x Hx). by right.
  - rewrite length_app in *. simpl in B. lia.
  - intros x Hx. by apply C, Hin.
  - intros x Hx Hm. destruct (Hin x Hx) as [Hx' Hne]. rewrite D2 by done. by apply E.
  - intros x Hx. by apply F, Hin.
  - intros b Hb. specialize (G b Hb). rewrite Hq, fmap_app, fmap_cons in G. rewrite fmap_app.
    apply elem_of_app in G as [G|[->|G]%elem_of_cons]; apply elem_of_app; [by left| |by right].
    specialize (F c Hc). rewrite Hh in F. symmetry in F. apply length_zero_iff_nil in F.
    assert (block_id c ∈ filter (λ b, b = block_id c) held) as Hf by (by apply list_elem_of_filter).
    rewrite F in Hf. by apply elem_of_nil in Hf.
  - intros b. unfold cache_view, s'. simpl. rewrite Hq, !find_entry_app.
    destruct (find_entry b q1) eqn:Hf1; [done|]. unfold find_entry at 2. simpl.
    destruct (Z.eqb_spec (block_id c) b) as [<-|Hne].
    + assert (find_entry (block_id c) q2 = None) as -> by (by apply find_entry_None). done.
    + fold (find_entry b q2). destruct (find_entry b q2); [done|]. apply D2. congruence.
Qed.

Lemma update_entry_elem b f q c : NoDup (block_id <$> q) → c ∈ update_entry b f q →
  (∃ x, x ∈ q ∧ block_id x = b ∧ c = f x) ∨ (c ∈ q ∧ block_id c ≠ b).
Proof.
  induction q as [|x q IH]; cbn [update_entry]; [by intros _ ?%elem_of_nil|].
  rewrite fmap_cons, NoDup_cons. intros [Hx Hnd]. destruct (Z.eqb_spec (block_id x) b) as [E|E].
  - intros [->|Hc]%elem_of_cons; [left; exists x; split_and!; [by left|done|done]|]. right.
    split; [by right|]. intros E'. apply Hx. rewrite E, <- E'. by apply list_elem_of_fmap_2.
  - intros [->|Hc]%elem_of_cons; [right; split; [by left|done]|].
    destruct (IH Hnd Hc) as [(y & Hy & Hb & ->)|[Hc' Hb]]; [left; exists y|right]; split_and!; try done; by right.
Qed.

(** One entry changes, and with it perhaps the handles of its block. *)
Lemma update_ok held held' s b f : cache_ok held s → (∀ c, block_id (f c) = block_id c) →
  (∀ c, c ∈ queue s → block_id c = b → length (cache (f c)) = BLOCK_SZ ∧
     (modified (f c) = false → cache (f c) = read_block (device s) b) ∧ handles (f c) = count_held b held') →
  (∀ x, x ≠ b → count_held x held' = count_held x held) → (∀ x, x ∈ held' → x ∈ block_id <$> queue s) →
  cache_ok held' (mkManager (device s) (update_entry b f (queue s))).
Proof.
  intros [A B C E F G] Hid Hf Hcnt Hheld. split; simpl.
  - by rewrite update_entry_ids.
  - pose proof (f_equal length (update_entry_ids b f (queue s) Hid)) as Hl. rewrite !length_fmap in Hl. lia.
  - intros c [(x & Hx & Hb & ->)|[Hc Hb]]%update_entry_elem; [|by apply C|done]. by apply (Hf x).
  - intros c [(x & Hx & Hb & ->)|[Hc Hb]]%update_entry_elem Hm; [|by apply E|done]. rewrite Hid, Hb. by apply (Hf x).
  - intros c [(x & Hx & Hb & ->)|[Hc Hb]]%update_entry_elem; [rewrite Hid, Hb; by apply (Hf x)| |done].
    fold (count_held (block_id c) held'). rewrite Hcnt by done. by apply F.
  - intros x Hx. rewrite update_entry_ids by done. by apply Hheld.
Qed.

Lemma wp_get_block_cache held s id (Q : unit → BlockCacheManager D → Prop) :
  cache_ok held s → (length held < BLOCK_CACHE_SIZE)%nat →
  (∀ s', cache_ok (id :: held) s' → (∀ b, cache_view s' b = cache_view s b) →
     id ∈ block_id <$> queue s' → Q tt s') →
  wp (get_block_cache id) Q s.
Proof.
  intros Hok Hlen HQ. unfold wp, get_block_cache. destruct (find_entry id (queue s)) as [c|] eqn:Hf.
  - apply find_entry_Some in Hf as [Hc Hid]. apply HQ.
    + apply (update_ok held); [done|done| |intros x Hx; rewrite count_held_cons, decide_False; done|].
      * intros x Hx Hb. simpl. destruct Hok as [A B C E F G]. split_and!; [by apply C|subst id; rewrite <- Hb; by apply E|].
        rewrite count_held_cons, decide_True by done. rewrite (F x Hx), Hb. done.
      * intros x [->|Hx]%elem_of_cons; [rewrite <- Hid; by apply list_elem_of_fmap_2|by apply Hok].
    + intros b. unfold cache_view. simpl. rewrite find_update_entry by done.
      case_decide; [|done]. by destruct (find_entry b (queue s)).
    + simpl. rewrite update_entry_ids, <- Hid by done. by apply list_elem_of_fmap_2.
  - apply find_entry_None in Hf. destruct (Nat.eqb_spec (length (queue s)) BLOCK_CACHE_SIZE) as [Hfull|Hroom].
    + destruct (evict (queue s)) as [[c q]|] eqn:Hev.
      * apply evict_Some in Hev as (Hh & q1 & q2 & Hq & ->). destruct (evict_ok held s c q1 q2 Hok Hq Hh) as [Hok1 Hv1].
        destruct (push_ok held _ _ id Hok1) as (Hok2 & Hv2 & Hin).
        { rewrite Hq, length_app in Hfull. rewrite length_app. simpl in Hfull. lia. }
        { rewrite Hq, fmap_app, fmap_cons in Hf. rewrite fmap_app. set_solver. }
        apply HQ; [done| |done]. intros b. by rewrite Hv2, Hv1.
      * exfalso. assert (length (block_id <$> queue s) <= length held)%nat as Hle; [|rewrite length_fmap in Hle; lia].
        apply submseteq_length, NoDup_submseteq; [apply Hok|]. intros b (c & -> & Hc)%list_elem_of_fmap.
        apply count_held_pos. unfold count_held. rewrite <- (co_handles _ _ Hok c Hc). by eapply evict_None.
    + destruct s as [d q]. simpl in *. destruct (push_ok held d q id Hok) as (Hok2 & Hv2 & Hin); [|done|by apply HQ].
      pose proof (co_size _ _ Hok). simpl in *. lia.
Qed.

Lemma wp_cache_get held s id (Q : list Z → BlockCacheManager D → Prop) :
  cache_ok held s → id ∈ held → Q (cache_view s id) s → wp (cache_get id) Q s.
Proof.
  intros Hok Hid HQ. unfold wp, cache_get, cache_view in *.
  destruct (find_entry id (queue s)) as [c|] eqn:Hf; [done|]. apply find_entry_None in Hf. by apply Hok in Hid.
Qed.

Lemma wp_cache_put held s id x (Q : unit → BlockCacheManager D → Prop) :
  cache_ok held s → id ∈ held → length x = BLOCK_SZ →
  (∀ s', cache_ok held s' → (∀ b, cache_view s' b = if decide (b = id) then x else cache_view s b) → Q tt s') →
  wp (cache_put id x) Q s.
Proof.
  intros Hok Hid Hx HQ. unfold wp, cache_put. apply HQ.
  - apply (update_ok held); [done|done| |done|apply Hok].
    intros c Hc Hb. simpl. split_and!; [done|done|]. rewrite (co_handles _ _ Hok c Hc), Hb. done.
  - intros b. unfold cache_view. simpl. rewrite find_update_entry by done. case_decide as Hb; [|done]. subst b.
    destruct (find_entry id (queue s)) eqn:Hf; [done|]. apply find_entry_None in Hf. by apply Hok in Hid.
Qed.

Lemma wp_drop_handle held s id (Q : unit → BlockCacheManager D → Prop) :
  cache_ok (id :: held) s →
  (∀ s', cache_ok held s' → (∀ b, cache_view s' b = cache_view s b) → Q tt s') →
  wp (drop_handle id) Q s.
Proof.
  intros Hok HQ. apply wp_modify, HQ.
  - apply (update_ok (id :: held)); [done|done| |intros x Hx; by rewrite count_held_cons, decide_False|].
    + intros c Hc Hb. simpl. split_and!; [by apply Hok|rewrite <- Hb; by apply Hok|].
      rewrite (co_handles _ _ Hok c Hc), Hb. fold (count_held id (id :: held)).
      by rewrite count_held_cons, decide_True.
    + intros x Hx. apply Hok. by right.
  - intros b. unfold cache_view. simpl. rewrite find_update_entry by done.
    case_decide; [|done]. by destruct (find_entry b (queue s)).
Qed.

(** ** Writing everything back *)

Definition cleaned (c : BlockCache) : BlockCache := mkBlockCache (cache c) (block_id c) false (handles c).

Lemma sync_queue_spec q : ∀ d, NoDup (block_id <$> q) → (∀ c, c ∈ q → length (cache c) = BLOCK_SZ) →
  (∀ c, c ∈ q → modified c = false → cache c = read_block d (block_id c)) →
  let '(d', q') := sync_queue d q in
  q' = cleaned <$> q ∧ (∀ c, c ∈ q → read_block d' (block_id c) = cache c) ∧
  (∀ b, b ∉ block_id <$> q → read_block d' b = read_block d b).
Proof.
  induction q as [|c q IH]; intros d Hnd Hlen Hcl; simpl.
  { split_and!; [done|by intros ? ?%elem_of_nil|done]. }
  rewrite fmap_cons, NoDup_cons in Hnd. destruct Hnd as [Hc Hnd].
  assert (∃ d1, BlockCache_sync d c = (d1, cleaned c) ∧ read_block d1 (block_id c) = cache c ∧
    ∀ b, b ≠ block_id c → read_block d1 b = read_block d b) as (d1 & -> & Heq & Hne).
  { unfold BlockCache_sync. destruct (modified c) eqn:Hm; eexists; split; [reflexivity| | |].
    - split; [apply read_write_eq, Hlen; by left|]. intros b Hb. by apply read_write_ne.
    - f_equal. destruct c. simpl in *. by subst.
    - split; [|done]. symmetry. apply Hcl; [by left|done]. }
  specialize (IH d1 Hnd ltac:(set_solver)). destruct (sync_queue d1 q) as [d2 q2].
  destruct IH as (-> & Hin & Hout).
  { intros x Hx Hm. rewrite Hne; [apply Hcl; [by right|done]|]. intros E. apply Hc. rewrite <- E.
    by apply list_elem_of_fmap_2. }
  split_and!; [done| |].
  - intros x [->|Hx]%elem_of_cons; [by rewrite Hout|by apply Hin].
  - intros b Hb. rewrite not_elem_of_cons in Hb. destruct Hb. rewrite Hout by done. by apply Hne.
Qed.

Lemma find_cleaned q b : find_entry b (cleaned <$> q) = cleaned <$> find_entry b q.
Proof. unfold find_entry. induction q as [|c q IH]; [done|]. simpl. by destruct (block_id c =? b). Qed.

Lemma wp_sync_all held s (Q : unit → BlockCacheManager D → Prop) : cache_ok held s →
  (∀ s', cache_ok held s' → (∀ b, cache_view s' b = cache_view s b) →
     (∀ b, read_block (device s') b = cache_view s b) → Q tt s') →
  wp block_cache_sync_all Q s.
Proof.
  intros Hok HQ. unfold wp, block_cache_sync_all. pose proof Hok as [A B C E F G].
  pose proof (sync_queue_spec (queue s) (device s) A C E) as Hs.
  destruct (sync_queue (device s) (queue s)) as [d q]. destruct Hs as (-> & Hin & Hout).
  assert (block_id <$> (cleaned <$> queue s) = block_id <$> queue s) as Hids
    by (rewrite <- list_fmap_compose; by apply list_fmap_ext).
  apply HQ.
  - split; simpl; [by rewrite Hids|by rewrite length_fmap|..|intros b; rewrite Hids; apply G];
      intros c (x & -> & Hx)%list_elem_of_fmap; simpl; [by apply C| |by apply F].
    intros _. symmetry. by apply Hin.
  - intros b. unfold cache_view. simpl. rewrite find_cleaned. destruct (find_entry b (queue s)) eqn:Hf; [done|].
    simpl. by apply Hout, find_entry_None.
  - intros b. unfold cache_view. simpl. destruct (find_entry b (queue s)) as [c|] eqn:Hf.
    + apply find_entry_Some in Hf as [Hc <-]. by apply Hin.
    + by apply Hout, find_entry_None.
Qed.

(** ** The cache is a block store *)

Lemma cache_view_length held s b : cache_ok held s → length (cache_view s b) = BLOCK_SZ.
Proof.
  intros Hok. unfold cache_view. destruct (find_entry b (queue s)) as [c|] eqn:Hf; [|apply read_block_length].
  apply find_entry_Some in Hf as [Hc _]. by eapply co_length.
Qed.

#[export] Instance cache_store_spec : BlockStoreSpec (BlockCacheManager D) (cache_ok []) cache_view.
Proof.
  split.
  - intros s b Hok. by eapply cache_view_length.
  - intros s b Q Hok HQ. unfold bs_get, cache_store, block_read. apply wp_bind.
    eapply (wp_get_block_cache []); [done|simpl; unfold BLOCK_CACHE_SIZE; lia|]. intros s1 Hok1 Hv1 _.
    apply wp_bind. eapply (wp_cache_get [b]); [done|by left|]. apply wp_bind.
    eapply wp_drop_handle; [done|]. intros s2 Hok2 Hv2. apply wp_ret. rewrite Hv1. apply HQ; [done|].
    intros c. by rewrite Hv2.
  - intros s b x Q Hok Hx HQ. unfold bs_put, cache_store, block_write. apply wp_bind.
    eapply (wp_get_block_cache []); [done|simpl; unfold BLOCK_CACHE_SIZE; lia|]. intros s1 Hok1 Hv1 _.
    apply wp_bind. eapply (wp_cache_put [b]); [done|by left|done|]. intros s2 Hok2 Hv2.
    eapply wp_drop_handle; [done|]. intros s3 Hok3 Hv3. apply HQ; [done|]. intros c. by rewrite Hv3, Hv2, Hv1.
  - intros s Q Hok HQ. eapply wp_sync_all; [done|]. intros s' Hok' Hv' _. by apply HQ.
Qed.

(** ** Any use of the cache *)

(** Handles are taken and dropped, blocks are read and written through them,
    and everything is written back from time to time.  A step that needs a
    handle nobody has, or would exceed sixteen handles, does nothing. *)
Inductive cache_op : Type :=
| OGet (b : Z)
| ORead (b : Z)
| OWrite (b : Z) (x : list Z)
| ODrop (b : Z)
| OSync.

Fixpoint remove_one (b : Z) (l : list Z) : list Z :=
  match l with [] => [] | x :: l => if decide (x = b) then l else x :: remove_one b l end.

Definition cache_step (held : list Z) (o : cache_op) : M (BlockCacheManager D) (list Z * list (list Z)) :=
  match o with
  | OGet b => if decide (length held < BLOCK_CACHE_SIZE)%nat
              then get_block_cache b ;;; m_ret (b :: held, []) else m_ret (held, [])
  | ORead b => if decide (b ∈ held) then let! x := cache_get b in m_ret (held, [x]) else m_ret (held, [])
  | OWrite b x => if decide (b ∈ held ∧ length x = BLOCK_SZ) then cache_put b x ;;; m_ret (held, []) else m_ret (held, [])
  | ODrop b => if decide (b ∈ held) then drop_handle b ;;; m_ret (remove_one b held, []) else m_ret (held, [])
  | OSync => block_cache_sync_all ;;; m_ret (held, [])
  end.

Fixpoint cache_run (held : list Z) (os : list cache_op) : M (BlockCacheManager D) (list (list Z)) :=
  match os with
  | [] => m_ret []
  | o :: os =>
      let! (held, out) := cache_step held o in
      let! outs := cache_run held os in m_ret (out ++ outs)
  end.

(** The same operations on the blocks themselves. *)
Definition plain_step (held : list Z) (o : cache_op) (v : Z → list Z) : list Z * list (list Z) * (Z → list Z) :=
  match o with
  | OGet b => if decide (length held < BLOCK_CACHE_SIZE)%nat then (b :: held, [], v) else (held, [], v)
  | ORead b => if decide (b ∈ held) then (held, [v b], v) else (held, [], v)
  | OWrite b x => if decide (b ∈ held ∧ length x = BLOCK_SZ)
                  then (held, [], λ z, if decide (z = b) then x else v z) else (held, [], v)
  | ODrop b => if decide (b ∈ held) then (remove_one b held, [], v) else (held, [], v)
  | OSync => (held, [], v)
  end.

Fixpoint plain_run (held : list Z) (os : list cache_op) (v : Z → list Z) : list (list Z) * (Z → list Z) :=
  match os with
  | [] => ([], v)
  | o :: os =>
      let '(held, out, v) := plain_step held o v in
      let '(outs, v) := plain_run held os v in (out ++ outs, v)
  end.

Lemma remove_one_perm b l : b ∈ l → l ≡ₚ b :: remove_one b l.
Proof.
  induction l as [|x l IH]; simpl; [by intros ?%elem_of_nil|]. intros Hb.
  case_decide as Hx; [by subst|]. rewrite IH at 1 by set_solver. constructor.
Qed.

#[export] Instance cache_ok_proper : Proper ((≡ₚ) ==> eq ==> iff) cache_ok.
Proof.
  assert (∀ h h' s, h ≡ₚ h' → cache_ok h s → cache_ok h' s) as H.
  { intros h h' s Hp [A B C E F G]. split; try done.
    - intros c Hc. rewrite (F c Hc). by rewrite Hp.
    - intros b Hb. apply G. by rewrite Hp. }
  intros h h' Hp s ? <-. split; by apply H.
Qed.

(** One step agrees with the plain blocks. *)
Lemma cache_step_ok held s v o : cache_ok held s → (∀ b, cache_view s b = v b) →
  let '(held', out, v') := plain_step held o v in
  wp (cache_step held o) (λ r s', r = (held', out) ∧ cache_ok held' s' ∧ ∀ b, cache_view s' b = v' b) s.
Proof.
  intros Hok Hv. destruct o as [b|b|b x|b|]; simpl; try case_decide as Hd; try (by apply wp_ret).
  - apply wp_bind. eapply wp_get_block_cache; [done|done|]. intros s' Hok' Hv' _. apply wp_ret.
    split_and!; [done|done|]. intros c. by rewrite Hv'.
  - apply wp_bind. eapply wp_cache_get; [done|done|]. apply wp_ret. by rewrite Hv.
  - destruct Hd as [Hb Hx]. apply wp_bind. eapply wp_cache_put; [done|done|done|]. intros s' Hok' Hv'. apply wp_ret.
    split_and!; [done|done|]. intros c. rewrite Hv'. by case_decide.
  - apply wp_bind. apply (wp_drop_handle (remove_one b held)); [by rewrite <- remove_one_perm|].
    intros s' Hok' Hv'. apply wp_ret. split_and!; [done|done|]. intros c. by rewrite Hv'.
  - apply wp_bind. eapply wp_sync_all; [done|]. intros s' Hok' Hv' _. apply wp_ret.
    split_and!; [done|done|]. intros c. by rewrite Hv'.
Qed.

Lemma cache_run_ok os : ∀ held s v, cache_ok held s → (∀ b, cache_view s b = v b) →
  wp (cache_run held os) (λ outs s', outs = (plain_run held os v).1 ∧ (∃ h, cache_ok h s') ∧
    ∀ b, cache_view s' b = (plain_run held os v).2 b) s.
Proof.
  induction os as [|o os IH]; intros held s v Hok Hv; simpl; [apply wp_ret; eauto|].
  pose proof (cache_step_ok held s v o Hok Hv) as Hs.
  destruct (plain_step held o v) as [[held' out] v']. apply wp_bind. eapply wp_mono; [exact Hs|].
  intros r s' (-> & Hok' & Hv'). apply wp_bind. eapply wp_mono; [by apply (IH held' s' v')|].
  intros outs s2 (-> & Hok2 & Hv2). apply wp_ret. destruct (plain_run held' os v') as [outs v2]. done.
Qed.

Lemma empty_cache_ok d : cache_ok [] (mkManager d []).
Proof. split; simpl; [constructor|lia|by intros ? ?%elem_of_nil..]. Qed.

(** [C14] The block cache is transparent and loses no write.  Any sequence of
    taking and dropping handles, reading, writing and syncing, starting from an
    empty cache over any device, never panics while fewer than sixteen handles
    are out, reads exactly what the same operations on plain blocks read
    (evictions included), and after [block_cache_sync_all] the device itself
    holds the contents of every block. *)
Theorem cache_transparent os d :
  ∃ s1 s2, cache_run [] os (mkManager d []) = Ret ((plain_run [] os (read_block d)).1, s1) ∧
    (∀ b, cache_view s1 b = (plain_run [] os (read_block d)).2 b) ∧
    block_cache_sync_all s1 = Ret (tt, s2) ∧
    ∀ b, read_block (device s2) b = (plain_run [] os (read_block d)).2 b.
Proof.
  pose proof (cache_run_ok os [] (mkManager d []) (read_block d) (empty_cache_ok d) ltac:(done)) as H.
  apply wp_det in H as (outs & s1 & Hrun & -> & [h Hok] & Hv). exists s1.
  assert (wp block_cache_sync_all (λ _ s', ∀ b, read_block (device s') b = cache_view s1 b) s1) as Hs.
  { eapply wp_sync_all; [done|]. auto. }
  apply wp_det in Hs as ([] & s2 & Hrun2 & Hd). exists s2. split_and!; [done|done|done|].
  intros b. by rewrite Hd.
Qed.
End block_cache.

(** ** A device in memory *)

#[export] Instance map_device : BlockDevice (gmap Z (list Z)) := {
  read_block d b := match d !! b with
                    | Some x => if decide (length x = BLOCK_SZ) then x else replicate BLOCK_SZ 0
                    | None => replicate BLOCK_SZ 0
                    end;
  write_block d b x := <[b := x]> d;
}.

#[export] Instance map_device_spec : BlockDeviceSpec (gmap Z (list Z)).
Proof.
  split; unfold read_block, write_block, map_device.
  - intros d b. destruct (d !! b); [case_decide; [done|]|]; apply length_replicate.
  - intros d b x Hx. by rewrite lookup_insert_eq, decide_True.
  - intros d b b' x Hb. by rewrite lookup_insert_ne.
Qed.

(** One block written, another read. *)
Lemma cache_transparent_witness :
  ∃ s1 s2, cache_run [] [OGet 1; OWrite 1 (replicate BLOCK_SZ 7); ODrop 1; OGet 2; ORead 2]
      (mkManager (∅ : gmap Z (list Z)) []) = Ret ([replicate BLOCK_SZ 0], s1) ∧
    block_cache_sync_all s1 = Ret (tt, s2) ∧ read_block (device s2) 1 = replicate BLOCK_SZ 7.
Proof.
  destruct (cache_transparent (D:=gmap Z (list Z)) [OGet 1; OWrite 1 (replicate BLOCK_SZ 7); ODrop 1; OGet 2; ORead 2] ∅)
    as (s1 & s2 & H1 & _ & H2 & H3).
  exists s1, s2. split; [exact H1|]. split; [exact H2|]. exact (H3 1).
Defined.
