(* ===== verification/EfsBitmap.v ===== *)
(** * Typed access to blocks, and bitmaps (easy-fs/src/bitmap.rs)

    Little-endian words inside a block, as [get_ref::<T>] and [get_mut::<T>]
    see them, and the bitmap allocator: [alloc] is shown to return the first
    free bit and to change nothing else. *)

From stdpp Require Import base list numbers list_numbers option.
From S2P Require Import Prelude EfsCache.

(** ** Words of a block *)

(** The [w]-byte word at offset [off] of a block. *)
Definition rd (w : nat) (b : list Z) (off : nat) : Z := le_get (take w (drop off b)).
Definition wr (w : nat) (b : list Z) (off : nat) (v : Z) : list Z := splice off (le_put w v) b.

Definition block_ok (b : list Z) : Prop := length b = BLOCK_SZ ∧ Forall is_byte b.

Lemma rd_range w b off : block_ok b → (off + w <= BLOCK_SZ)%nat → 0 <= rd w b off < 256 ^ Z.of_nat w.
Proof.
  intros [Hl Hb] Hoff. unfold rd.
  replace (Z.of_nat w) with (Z.of_nat (length (take w (drop off b)))) by (rewrite length_take, length_drop; lia).
  apply le_get_range, Forall_take, Forall_drop, Hb.
Qed.

Lemma splice_ok off src b : block_ok b → Forall is_byte src → (off + length src <= BLOCK_SZ)%nat → block_ok (splice off src b).
Proof.
  intros [Hl Hb] Hs Hoff. split; [rewrite splice_length by lia; done|].
  unfold splice. rewrite !Forall_app. split_and!; [by apply Forall_take|done|by apply Forall_drop].
Qed.

Lemma wr_ok w b off v : block_ok b → (off + w <= BLOCK_SZ)%nat → block_ok (wr w b off v).
Proof. intros Hb Hoff. apply splice_ok; [done|apply le_put_bytes|by rewrite le_put_length]. Qed.

Lemma rd_wr_eq w b off v : block_ok b → (off + w <= BLOCK_SZ)%nat → 0 <= v < 256 ^ Z.of_nat w →
  rd w (wr w b off v) off = v.
Proof.
  intros [Hl _] Hoff Hv. unfold rd, wr. rewrite <- (le_put_length w v) at 1.
  rewrite splice_read by (rewrite le_put_length; lia). rewrite le_get_put. by apply Z.mod_small.
Qed.

Lemma rd_wr_ne w w' b off off' v : block_ok b → (off + w <= BLOCK_SZ)%nat →
  (off' + w' <= off ∨ off + w <= off')%nat → rd w' (wr w b off v) off' = rd w' b off'.
Proof.
  intros [Hl _] Hoff Hd. unfold rd, wr. by rewrite splice_read_ne by (rewrite le_put_length; lia).
Qed.

(** ** The bitmap *)

Definition BLOCK_BITS : Z := 4096.

Record Bitmap : Type := mkBitmap { start_block_id : Z; bm_blocks : Z }.

Definition U64_MAX : Z := 2 ^ 64 - 1.

(** [trailing_ones] of a word: the position of its first zero bit. *)
Fixpoint first_zero (fuel : nat) (i w : Z) : Z :=
  match fuel with
  | O => i
  | S fuel => if Z.testbit w i then first_zero fuel (i + 1) w else i
  end.
Definition trailing_ones (w : Z) : Z := first_zero 64 0 w.

(** The first word of a bitmap block that is not full: its index and value. *)
Fixpoint find_word (n : nat) (i : nat) (b : list Z) : option (nat * Z) :=
  match n with
  | O => None
  | S n => let w := rd 8 b (8 * i) in if negb (w =? U64_MAX) then Some (i, w) else find_word n (S i) b
  end.

(** [(block_pos, bits64_pos, inner_pos)] *)
Definition decomposition (bit : Z) : Z * Z * Z :=
  let block_pos := bit / BLOCK_BITS in
  let bit := bit mod BLOCK_BITS in
  (block_pos, bit / 64, bit mod 64).

Section bitmap.
Context {S : Type} {BS : BlockStore S}.

Definition Bitmap_new (start blocks : Z) : Bitmap := mkBitmap start blocks.

Fixpoint Bitmap_alloc_loop (bm : Bitmap) (ids : list Z) : M S (option Z) :=
  match ids with
  | [] => m_ret None
  | block_id :: ids =>
      let! b := bs_get (block_id + start_block_id bm) in
      match find_word 64 0 b with
      | Some (bits64_pos, bits64) =>
          let inner_pos := trailing_ones bits64 in
          bs_put (block_id + start_block_id bm)
            (wr 8 b (8 * bits64_pos) (Z.lor bits64 (Z.shiftl 1 inner_pos))) ;;;
          m_ret (Some (block_id * BLOCK_BITS + Z.of_nat bits64_pos * 64 + inner_pos))
      | None =>
          bs_put (block_id + start_block_id bm) b ;;;
          Bitmap_alloc_loop bm ids
      end
  end.

Definition Bitmap_alloc (bm : Bitmap) : M S (option Z) := Bitmap_alloc_loop bm (seqZ 0 (bm_blocks bm)).

Definition Bitmap_dealloc (bm : Bitmap) (bit : Z) : M S unit :=
  let '(block_pos, bits64_pos, inner_pos) := decomposition bit in
  let! b := bs_get (block_pos + start_block_id bm) in
  let w := rd 8 b (8 * Z.to_nat bits64_pos) in
  m_assert (0 <? Z.land w (Z.shiftl 1 inner_pos)) ;;;
  bs_put (block_pos + start_block_id bm) (wr 8 b (8 * Z.to_nat bits64_pos) (w - Z.shiftl 1 inner_pos)).

Definition Bitmap_maximum (bm : Bitmap) : Z := bm_blocks bm * BLOCK_BITS.
End bitmap.

(** ** Bits of a block *)

(** Bit [i] of a bitmap block, [0 <= i < 4096]. *)
Definition block_bit (b : list Z) (i : Z) : bool := Z.testbit (rd 8 b (8 * Z.to_nat (i / 64))) (i mod 64).

(** Bit [i] of the bitmap. *)
Definition bm_bit (v : Z → list Z) (bm : Bitmap) (i : Z) : bool :=
  block_bit (v (i / BLOCK_BITS + start_block_id bm)) (i mod BLOCK_BITS).

Lemma first_zero_spec fuel : ∀ i w, 0 <= i → (∃ j, i <= j < i + Z.of_nat fuel ∧ Z.testbit w j = false) →
  let k := first_zero fuel i w in i <= k < i + Z.of_nat fuel ∧ Z.testbit w k = false ∧
    ∀ j, i <= j < k → Z.testbit w j = true.
Proof.
  induction fuel as [|fuel IH]; intros i w Hi (j & Hj & Hbit); [lia|]. simpl.
  destruct (Z.testbit w i) eqn:Ht.
  - destruct (IH (i + 1) w ltac:(lia)) as (H1 & H2 & H3).
    { exists j. split; [|done]. assert (j ≠ i) by congruence. lia. }
    split_and!; [lia|lia|done|]. intros x Hx. destruct (decide (x = i)) as [->|]; [done|]. apply H3. lia.
  - split_and!; [lia|lia|done|]. lia.
Qed.

Lemma not_full_word w : 0 <= w < 2 ^ 64 → w ≠ U64_MAX → ∃ j, 0 <= j < 64 ∧ Z.testbit w j = false.
Proof.
  intros Hw Hne. destruct (decide (Forall (λ j, Z.testbit w j = true) (seqZ 0 64))) as [Hall|Hn].
  - destruct Hne. unfold U64_MAX. change (2 ^ 64 - 1) with (Z.ones 64).
    apply Z.bits_inj'. intros j Hj. destruct (decide (j < 64)).
    + rewrite Z.ones_spec_low by lia. rewrite Forall_forall in Hall. apply Hall, list_elem_of_In, elem_of_seqZ. lia.
    + rewrite Z.ones_spec_high by lia. apply (testbit_small w 64); lia.
  - apply not_Forall_Exists in Hn; [|apply _]. apply Exists_exists in Hn as (j & Hj%list_elem_of_In%elem_of_seqZ & Hb).
    exists j. split; [lia|]. by apply not_true_is_false.
Qed.

Lemma trailing_ones_spec w : 0 <= w < 2 ^ 64 → w ≠ U64_MAX →
  0 <= trailing_ones w < 64 ∧ Z.testbit w (trailing_ones w) = false ∧
  ∀ j, 0 <= j < trailing_ones w → Z.testbit w j = true.
Proof. intros Hw Hne. apply (first_zero_spec 64 0 w); [lia|]. by apply not_full_word. Qed.

Lemma full_word j : 0 <= j < 64 → Z.testbit U64_MAX j = true.
Proof. intros Hj. change U64_MAX with (Z.ones 64). apply Z.ones_spec_low. lia. Qed.

Lemma word_bit b p k : (p < 64)%nat → 0 <= k < 64 → block_bit b (Z.of_nat p * 64 + k) = Z.testbit (rd 8 b (8 * p)) k.
Proof.
  intros Hp Hk. unfold block_bit. rewrite Z.div_add_l, Z.div_small, Z.add_0_r, Nat2Z.id by lia.
  by rewrite Z.add_comm, Z.mod_add, Z.mod_small by lia.
Qed.

(** A word of a block changes: the bits of that word are the new ones. *)
Lemma block_bit_wr b p w i : block_ok b → (p < 64)%nat → 0 <= w < 2 ^ 64 → 0 <= i < 4096 →
  block_bit (wr 8 b (8 * p) w) i = if decide (i / 64 = Z.of_nat p) then Z.testbit w (i mod 64) else block_bit b i.
Proof.
  intros Hb Hp Hw Hi. unfold block_bit, BLOCK_SZ in *. case_decide as E.
  - rewrite E, Nat2Z.id, rd_wr_eq; [done|done|unfold BLOCK_SZ; lia|done].
  - rewrite rd_wr_ne; [done|done|unfold BLOCK_SZ; lia|].
    assert (0 <= i / 64 < 64) by (Z.div_mod_to_equations; lia). lia.
Qed.

Lemma rd8_range b p : block_ok b → (p < 64)%nat → 0 <= rd 8 b (8 * p) < 2 ^ 64.
Proof. intros Hb Hp. apply (rd_range 8 b (8 * p) Hb). unfold BLOCK_SZ. lia. Qed.

Lemma index_split i p k : 0 <= k < 64 → (i / 64 = Z.of_nat p ∧ i mod 64 = k) ↔ i = Z.of_nat p * 64 + k.
Proof. intros Hk. split; [intros [? ?]|intros ->]; Z.div_mod_to_equations; lia. Qed.

(** Setting the first zero bit of a word. *)
Lemma set_block_bit b p k i : block_ok b → (p < 64)%nat → 0 <= k < 64 → 0 <= i < 4096 →
  block_bit (wr 8 b (8 * p) (Z.lor (rd 8 b (8 * p)) (Z.shiftl 1 k))) i =
    if decide (i = Z.of_nat p * 64 + k) then true else block_bit b i.
Proof.
  intros Hb Hp Hk Hi. pose proof (rd8_range b p Hb Hp) as Hr.
  assert (0 <= Z.lor (rd 8 b (8 * p)) (Z.shiftl 1 k) < 2 ^ 64) as Hw.
  { split; [apply Z.lor_nonneg; split; [lia|apply Z.shiftl_nonneg; lia]|].
    apply Z.log2_lt_cancel. rewrite Z.log2_lor, Z.log2_pow2 by (lia || apply Z.shiftl_nonneg; lia).
    rewrite Z.log2_shiftl by lia. apply Z.max_lub_lt; [|simpl; lia].
    destruct (decide (rd 8 b (8 * p) = 0)) as [->|]; [simpl; lia|]. apply Z.log2_lt_pow2; lia. }
  rewrite block_bit_wr by done. pose proof (index_split i p k Hk) as Hs.
  destruct (decide (i / 64 = Z.of_nat p)) as [E|E].
  - assert (0 <= i mod 64 < 64) by (apply Z.mod_pos_bound; lia).
    rewrite Z.lor_spec, Z.shiftl_spec by lia. destruct (decide (i mod 64 = k)) as [Ek|Hne].
    + rewrite decide_True by tauto. by rewrite Ek, Z.sub_diag, orb_true_r.
    + rewrite decide_False by tauto. unfold block_bit. rewrite E, Nat2Z.id.
      destruct (decide (i mod 64 < k)); [by rewrite (Z.testbit_neg_r 1), orb_false_r by lia|].
      rewrite (testbit_small 1 1) by lia. by rewrite orb_false_r.
  - by rewrite decide_False by tauto.
Qed.

(** Clearing a set bit by subtraction. *)
Lemma sub_bit w k : 0 <= k → Z.testbit w k = true → w - Z.shiftl 1 k = Z.ldiff w (Z.shiftl 1 k).
Proof.
  intros Hk Ht. symmetry. rewrite Z.shiftl_mul_pow2, Z.mul_1_l by lia.
  assert (Z.ldiff w (2 ^ k) + 2 ^ k = w) as H; [|lia].
  rewrite Z.add_nocarry_lxor.
  - apply Z.bits_inj'. intros j Hj. rewrite Z.lxor_spec, Z.ldiff_spec, Z.pow2_bits_eqb by lia.
    destruct (Z.eqb_spec k j) as [->|]; [by rewrite Ht|]. by destruct (Z.testbit w j).
  - apply Z.bits_inj'. intros j Hj. rewrite Z.land_spec, Z.ldiff_spec, Z.pow2_bits_eqb, Z.bits_0 by lia.
    destruct (Z.eqb_spec k j); simpl; [by rewrite andb_false_r|]. by rewrite ?andb_false_r.
Qed.

Lemma clear_block_bit b p k i : block_ok b → (p < 64)%nat → 0 <= k < 64 → 0 <= i < 4096 →
  Z.testbit (rd 8 b (8 * p)) k = true →
  block_bit (wr 8 b (8 * p) (rd 8 b (8 * p) - Z.shiftl 1 k)) i =
    if decide (i = Z.of_nat p * 64 + k) then false else block_bit b i.
Proof.
  intros Hb Hp Hk Hi Ht. pose proof (rd8_range b p Hb Hp) as Hr.
  assert (0 <= rd 8 b (8 * p) - Z.shiftl 1 k < 2 ^ 64) as Hw.
  { pose proof (proj2 (Z.shiftl_nonneg 1 k) ltac:(lia)). split; [|lia].
    rewrite sub_bit by (done || lia). apply Z.ldiff_nonneg. lia. }
  rewrite block_bit_wr, sub_bit by (done || lia). pose proof (index_split i p k Hk) as Hs.
  destruct (decide (i / 64 = Z.of_nat p)) as [E|E].
  - assert (0 <= i mod 64 < 64) by (apply Z.mod_pos_bound; lia).
    rewrite Z.ldiff_spec, Z.shiftl_spec by lia. destruct (decide (i mod 64 = k)) as [Ek|Hne].
    + rewrite decide_True by tauto. by rewrite Ek, Z.sub_diag, andb_false_r.
    + rewrite decide_False by tauto. unfold block_bit. rewrite E, Nat2Z.id.
      destruct (decide (i mod 64 < k)); [by rewrite (Z.testbit_neg_r 1), andb_true_r by lia|].
      rewrite (testbit_small 1 1) by lia. by rewrite andb_true_r.
  - by rewrite decide_False by tauto.
Qed.

Lemma find_word_spec n : ∀ i b, match find_word n i b with
  | Some (p, w) => (i <= p < i + n)%nat ∧ w = rd 8 b (8 * p) ∧ w ≠ U64_MAX ∧
                   ∀ q, (i <= q < p)%nat → rd 8 b (8 * q) = U64_MAX
  | None => ∀ q, (i <= q < i + n)%nat → rd 8 b (8 * q) = U64_MAX
  end.
Proof.
  induction n as [|n IH]; intros i b; cbn [find_word]; [lia|].
  destruct (Z.eqb_spec (rd 8 b (8 * i)) U64_MAX) as [E|E]; cbn [negb].
  - specialize (IH (S i) b). destruct (find_word n (S i) b) as [[p w]|].
    + destruct IH as (H1 & H2 & H3 & H4). split; [lia|]. split_and!; [done|done|].
      intros q Hq. destruct (decide (q = i)) as [->|]; [done|]. apply H4. lia.
    + intros q Hq. destruct (decide (q = i)) as [->|]; [done|]. apply IH. lia.
  - split; [lia|]. split_and!; [done|done|lia].
Qed.

(** A block whose words are all full has all its bits set. *)
Lemma find_word_None b : find_word 64 0 b = None → ∀ i, 0 <= i < BLOCK_BITS → block_bit b i = true.
Proof.
  intros Hf i Hi. pose proof (find_word_spec 64 0 b) as H. rewrite Hf in H. unfold BLOCK_BITS in Hi.
  assert (0 <= i / 64 < 64) by (Z.div_mod_to_equations; lia).
  unfold block_bit. rewrite H by lia. apply full_word, Z.mod_pos_bound. lia.
Qed.

(** The first word that is not full holds the first clear bit of the block. *)
Lemma find_word_Some b p w : block_ok b → find_word 64 0 b = Some (p, w) →
  let k := trailing_ones w in
  (p < 64)%nat ∧ w = rd 8 b (8 * p) ∧ 0 <= k < 64 ∧ block_bit b (Z.of_nat p * 64 + k) = false ∧
  ∀ i, 0 <= i < Z.of_nat p * 64 + k → block_bit b i = true.
Proof.
  intros Hb Hf k. pose proof (find_word_spec 64 0 b) as H. rewrite Hf in H. destruct H as (Hp & Hw & Hne & Hlt).
  pose proof (rd8_range b p Hb ltac:(lia)) as Hr. rewrite <- Hw in Hr.
  destruct (trailing_ones_spec w Hr Hne) as (Hk & Hkb & Hkl). fold k in Hk, Hkb, Hkl.
  split_and!; [lia|done|lia|lia| |].
  - rewrite word_bit by lia. by rewrite <- Hw.
  - intros i Hi. pose proof (Z.mod_pos_bound i 64 ltac:(lia)) as Hm.
    unfold block_bit. destruct (decide (i / 64 = Z.of_nat p)) as [E|E].
    + rewrite E, Nat2Z.id, <- Hw. apply Hkl. Z.div_mod_to_equations. lia.
    + rewrite Hlt by (Z.div_mod_to_equations; lia). by apply full_word.
Qed.

(** ** What the operations do *)

(** Every block of a store is 512 bytes. *)
Definition disk_ok (v : Z → list Z) : Prop := ∀ c, block_ok (v c).

Definition bm_block (bm : Bitmap) (c : Z) : Prop := start_block_id bm <= c < start_block_id bm + bm_blocks bm.

(** Bit [i] of the bitmap becomes [x], and nothing else of the disk changes. *)
Record bm_updated (bm : Bitmap) (i : Z) (x : bool) (v v' : Z → list Z) : Prop := {
  bu_ok : disk_ok v';
  bu_bit j : 0 <= j < Bitmap_maximum bm → bm_bit v' bm j = if decide (j = i) then x else bm_bit v bm j;
  bu_frame c : ¬ bm_block bm c → v' c = v c;
}.

Lemma bm_index bm i : 0 <= i < Bitmap_maximum bm →
  0 <= i / BLOCK_BITS < bm_blocks bm ∧ 0 <= i mod BLOCK_BITS < BLOCK_BITS.
Proof. unfold Bitmap_maximum, BLOCK_BITS. intros H. Z.div_mod_to_equations. lia. Qed.

Lemma bm_index_inv k i : 0 <= i < BLOCK_BITS → (k * BLOCK_BITS + i) / BLOCK_BITS = k ∧ (k * BLOCK_BITS + i) mod BLOCK_BITS = i.
Proof. unfold BLOCK_BITS. intros H. Z.div_mod_to_equations. lia. Qed.

(** One block of the bitmap is replaced by one that differs in one bit. *)
Lemma bm_updated_put bm k i x v v' b' : disk_ok v → 0 <= k < bm_blocks bm → 0 <= i < BLOCK_BITS → block_ok b' →
  (∀ j, 0 <= j < BLOCK_BITS → block_bit b' j = if decide (j = i) then x else block_bit (v (k + start_block_id bm)) j) →
  (∀ c, v' c = if decide (c = k + start_block_id bm) then b' else v c) →
  bm_updated bm (k * BLOCK_BITS + i) x v v'.
Proof.
  intros Hv Hk Hi Hb' Hbit Hv'. destruct (bm_index_inv k i Hi) as [Hq Hr]. split.
  - intros c. rewrite Hv'. case_decide; [done|apply Hv].
  - intros j Hj. destruct (bm_index bm j Hj) as [J1 J2]. unfold bm_bit. rewrite Hv'.
    destruct (decide (j / BLOCK_BITS = k)) as [E|E].
    + rewrite decide_True by lia. rewrite Hbit by done. rewrite E.
      destruct (decide (j mod BLOCK_BITS = i)) as [E'|E'].
      * rewrite decide_True; [done|]. rewrite (Z.div_mod j BLOCK_BITS) by (unfold BLOCK_BITS; lia). lia.
      * rewrite decide_False; [done|]. intros ->. lia.
    + rewrite decide_False by lia. rewrite decide_False; [done|]. intros ->. lia.
  - intros c Hc. rewrite Hv', decide_False; [done|]. unfold bm_block in Hc. lia.
Qed.

Section bitmap_spec.
Context {S : Type} {BS : BlockStore S} {ok : S → Prop} {view : S → Z → list Z} {spec : BlockStoreSpec S ok view}.
Implicit Types (s : S).

Definition alloc_post (bm : Bitmap) s (r : option Z) s' : Prop :=
  ok s' ∧ match r with
  | Some i => 0 <= i < Bitmap_maximum bm ∧ bm_bit (view s) bm i = false ∧
      (∀ j, 0 <= j < i → bm_bit (view s) bm j = true) ∧ bm_updated bm i true (view s) (view s')
  | None => (∀ j, 0 <= j < Bitmap_maximum bm → bm_bit (view s) bm j = true) ∧ ∀ c, view s' c = view s c
  end.

Lemma wp_alloc_loop bm s0 n : ∀ k s, ok s → disk_ok (view s0) → (∀ c, view s c = view s0 c) →
  0 <= k → k + Z.of_nat n = bm_blocks bm →
  (∀ j, 0 <= j < k * BLOCK_BITS → bm_bit (view s0) bm j = true) →
  wp (Bitmap_alloc_loop bm (seqZ k (Z.of_nat n))) (alloc_post bm s0) s.
Proof.
  induction n as [|n IH]; intros k s Hok Hd Hs Hk Hkn Hset.
  - simpl. apply wp_ret. split; [done|]. split; [|done]. intros j Hj. apply Hset.
    unfold Bitmap_maximum in Hj. by replace k with (bm_blocks bm) by lia.
  - rewrite seqZ_cons by lia. replace (Z.pred (Z.of_nat (Datatypes.S n))) with (Z.of_nat n) by lia.
    cbn [Bitmap_alloc_loop]. apply wp_bind, wp_bs_get; [done|]. intros s1 Hok1 Hv1. rewrite Hs.
    set (b := view s0 (k + start_block_id bm)). assert (block_ok b) as Hb by apply Hd.
    destruct (find_word 64 0 b) as [[p w]|] eqn:Hf.
    + destruct (find_word_Some b p w Hb Hf) as (Hp & Hw & Hk1 & Hclear & Hbelow). set (t := trailing_ones w) in *.
      assert (block_ok (wr 8 b (8 * p) (Z.lor w (Z.shiftl 1 t)))) as Hb' by (apply wr_ok; [done|unfold BLOCK_SZ; lia]).
      apply wp_bind, wp_bs_put; [done|apply Hb'|]. intros s2 Hok2 Hv2. apply wp_ret. split; [done|].
      assert (0 <= Z.of_nat p * 64 + t < BLOCK_BITS) as Hi by (unfold BLOCK_BITS; lia).
      rewrite <- Z.add_assoc. destruct (bm_index_inv k _ Hi) as [Hq Hr]. split_and!.
      * unfold Bitmap_maximum, BLOCK_BITS in *. lia.
      * unfold Bitmap_maximum, BLOCK_BITS in *. lia.
      * unfold bm_bit. by rewrite Hq, Hr.
      * intros j Hj. destruct (decide (j < k * BLOCK_BITS)) as [|Hge]; [apply Hset; lia|].
        destruct (bm_index_inv k (j - k * BLOCK_BITS) ltac:(lia)) as [Hq' Hr'].
        unfold bm_bit. replace j with (k * BLOCK_BITS + (j - k * BLOCK_BITS)) by lia. rewrite Hq', Hr'.
        apply Hbelow. lia.
      * eapply bm_updated_put; [done|lia|done|exact Hb'| |].
        -- intros j Hj. fold b. rewrite Hw. by apply set_block_bit.
        -- intros c. rewrite Hv2, Hv1, Hs. done.
    + apply wp_bind, wp_bs_put; [done|apply Hb|]. intros s2 Hok2 Hv2.
      apply (IH (k + 1)); [done|done| |lia|lia|].
      * intros c. rewrite Hv2, Hv1, Hs. by case_decide as E; [rewrite E|].
      * intros j Hj. destruct (decide (j < k * BLOCK_BITS)) as [|Hge]; [apply Hset; lia|].
        destruct (bm_index_inv k (j - k * BLOCK_BITS) ltac:(lia)) as [Hq' Hr'].
        unfold bm_bit. replace j with (k * BLOCK_BITS + (j - k * BLOCK_BITS)) by lia. rewrite Hq', Hr'.
        apply (find_word_None b Hf). lia.
Qed.

(** [alloc] returns the first clear bit, if there is one, and sets it. *)
Lemma wp_Bitmap_alloc bm s : ok s → disk_ok (view s) → 0 <= bm_blocks bm → wp (Bitmap_alloc bm) (alloc_post bm s) s.
Proof.
  intros Hok Hd Hbm. unfold Bitmap_alloc. rewrite <- (Z2Nat.id (bm_blocks bm)) by done.
  apply wp_alloc_loop; [done|done|done|done|lia|lia].
Qed.

(** [dealloc] of a set bit clears it; of a clear bit, it panics. *)
Lemma wp_Bitmap_dealloc bm i s : ok s → disk_ok (view s) → 0 <= i < Bitmap_maximum bm → bm_bit (view s) bm i = true →
  wp (Bitmap_dealloc bm i) (λ _ s', ok s' ∧ bm_updated bm i false (view s) (view s')) s.
Proof.
  intros Hok Hd Hi Hset. destruct (bm_index bm i Hi) as [Hq Hr]. unfold Bitmap_dealloc, decomposition.
  apply wp_bind, wp_bs_get; [done|]. intros s1 Hok1 Hv1.
  set (b := view s (i / BLOCK_BITS + start_block_id bm)). assert (block_ok b) as Hb by apply Hd.
  set (m := i mod BLOCK_BITS) in *. unfold BLOCK_BITS in Hr.
  assert (0 <= m / 64 < 64) as Hp by (Z.div_mod_to_equations; lia).
  assert (0 <= m mod 64 < 64) as Hk by (apply Z.mod_pos_bound; lia).
  assert (Z.testbit (rd 8 b (8 * Z.to_nat (m / 64))) (m mod 64) = true) as Ht by exact Hset.
  apply wp_bind, wp_assert.
  { apply Z.ltb_lt. assert (0 <= Z.land (rd 8 b (8 * Z.to_nat (m / 64))) (Z.shiftl 1 (m mod 64))) as Hn.
    { apply Z.land_nonneg. right. apply Z.shiftl_nonneg. lia. }
    destruct (Z.eq_dec (Z.land (rd 8 b (8 * Z.to_nat (m / 64))) (Z.shiftl 1 (m mod 64))) 0) as [E|]; [|lia].
    apply (f_equal (λ z, Z.testbit z (m mod 64))) in E.
    rewrite Z.land_spec, Ht, Z.shiftl_spec, Z.sub_diag, Z.bits_0 in E by lia. done. }
  apply wp_bs_put; [done|apply wr_ok; [done|unfold BLOCK_SZ; lia]|]. intros s2 Hok2 Hv2. split; [done|].
  rewrite (Z.div_mod i BLOCK_BITS), (Z.mul_comm BLOCK_BITS) by (unfold BLOCK_BITS; lia). fold m.
  eapply (bm_updated_put _ _ _ _ _ _ (wr 8 b (8 * Z.to_nat (m / 64)) _)); [done|done|unfold BLOCK_BITS; lia| | |].
  - apply wr_ok; [exact Hb|unfold BLOCK_SZ; lia].
  - intros j Hj. rewrite clear_block_bit by (done || lia).
    rewrite Z2Nat.id, Z.mul_comm, <- Z.div_mod by lia. done.
  - intros c. rewrite Hv2, Hv1. done.
Qed.

Lemma Bitmap_dealloc_clear bm i s : ok s → disk_ok (view s) → 0 <= i < Bitmap_maximum bm → bm_bit (view s) bm i = false →
  Bitmap_dealloc bm i s = Panic.
Proof.
  intros Hok Hd Hi Hset. unfold Bitmap_dealloc, decomposition, m_bind.
  destruct (wp_det (bs_get (i / BLOCK_BITS + start_block_id bm)) (λ r _, r = view s (i / BLOCK_BITS + start_block_id bm)) s)
    as (b & s1 & -> & ->); [by apply wp_bs_get|].
  destruct (bm_index bm i Hi) as [_ Hr]. unfold bm_bit, block_bit in Hset.
  set (w := rd _ _ _) in *. set (m := i mod BLOCK_BITS mod 64) in *.
  assert (0 <= m < 64) by (apply Z.mod_pos_bound; lia).
  assert (Z.land w (Z.shiftl 1 m) = 0) as ->; [|done].
  apply Z.bits_inj'. intros j Hj. rewrite Z.land_spec, Z.shiftl_1_l, Z.pow2_bits_eqb, Z.bits_0 by lia.
  destruct (Z.eqb_spec m j) as [<-|]; [by rewrite Hset|apply andb_false_r].
Qed.
End bitmap_spec.
