(* ===== verification/EfsInode.v ===== *)
(** * Inodes on disk (easy-fs/src/layout.rs)

    [DiskInode] with its direct, indirect and doubly indirect block ids: the
    ids of a file's blocks, growing and clearing a file, reading and writing
    its bytes.  A file's bytes are the concatenation of its data blocks, cut
    to its size; every operation is shown to do to that list of bytes what it
    should, and to touch no block of another file. *)

From stdpp Require Import base list numbers list_numbers option sets.
From S2P Require Import Prelude EfsCache EfsBitmap.

(** ** Layout *)

Definition EFS_MAGIC : Z := 0x3b800001.
Definition INODE_DIRECT_COUNT : Z := 28.
Abbreviation NAME_LENGTH_LIMIT := (27)%Z.
Definition INODE_INDIRECT1_COUNT : Z := 128.
Definition INODE_INDIRECT2_COUNT : Z := INODE_INDIRECT1_COUNT * INODE_INDIRECT1_COUNT.
Definition DIRECT_BOUND : Z := INODE_DIRECT_COUNT.
Definition INDIRECT1_BOUND : Z := DIRECT_BOUND + INODE_INDIRECT1_COUNT.
Definition INDIRECT2_BOUND : Z := INDIRECT1_BOUND + INODE_INDIRECT2_COUNT.

Inductive DiskInodeType : Type := File | Directory.
#[export] Instance DiskInodeType_eq_dec : EqDecision DiskInodeType.
Proof. solve_decision. Defined.

Record DiskInode : Type := mkDiskInode {
  size : Z;
  direct : list Z;
  indirect1 : Z;
  indirect2 : Z;
  type_ : DiskInodeType;
}.

Definition set_size (n : Z) (d : DiskInode) : DiskInode := mkDiskInode n (direct d) (indirect1 d) (indirect2 d) (type_ d).
Definition set_direct (l : list Z) (d : DiskInode) : DiskInode := mkDiskInode (size d) l (indirect1 d) (indirect2 d) (type_ d).
Definition set_indirect1 (x : Z) (d : DiskInode) : DiskInode := mkDiskInode (size d) (direct d) x (indirect2 d) (type_ d).
Definition set_indirect2 (x : Z) (d : DiskInode) : DiskInode := mkDiskInode (size d) (direct d) (indirect1 d) x (type_ d).

(** A block seen as [IndirectBlock], an array of 128 [u32]. *)
Definition words (b : list Z) : list Z := (λ i, rd 4 b (4 * i)) <$> seq 0 128.
Definition unwords (ws : list Z) : list Z := concat (le_put 4 <$> ws).

(** [sizeof(DiskInode)], and the [repr(C)] layout of its fields. *)
Definition DISK_INODE_SZ : nat := 128.
Definition type_byte (t : DiskInodeType) : Z := match t with File => 0 | Directory => 1 end.

Definition inode_bytes (d : DiskInode) : list Z :=
  le_put 4 (size d) ++ unwords (direct d) ++ le_put 4 (indirect1 d) ++ le_put 4 (indirect2 d) ++ [type_byte (type_ d)].

Definition load_inode (b : list Z) (off : nat) : DiskInode :=
  mkDiskInode (rd 4 b off) ((λ i, rd 4 b (off + 4 + 4 * i)) <$> seq 0 28) (rd 4 b (off + 116)) (rd 4 b (off + 120))
    (if rd 1 b (off + 124) =? 0 then File else Directory).
Definition store_inode (b : list Z) (off : nat) (d : DiskInode) : list Z := splice off (inode_bytes d) b.

(** ** Operations that do not touch the disk *)

Definition DiskInode_initialize (t : DiskInodeType) (d : DiskInode) : DiskInode :=
  mkDiskInode 0 ((λ _, 0) <$> direct d) 0 0 t.
Definition is_dir (d : DiskInode) : bool := bool_decide (type_ d = Directory).
Definition is_file (d : DiskInode) : bool := bool_decide (type_ d = File).

Definition data_blocks_of (sz : Z) : Z := wrap32 (wrap32 (sz + 512) - 1) / 512.
Definition data_blocks (d : DiskInode) : Z := data_blocks_of (size d).

Definition total_blocks (sz : Z) : Z :=
  let data_blocks := data_blocks_of sz in
  let total := data_blocks in
  let total := if INODE_DIRECT_COUNT <? data_blocks then total + 1 else total in
  let total :=
    if INDIRECT1_BOUND <? data_blocks
    then total + 1 + (data_blocks - INDIRECT1_BOUND + INODE_INDIRECT1_COUNT - 1) / INODE_INDIRECT1_COUNT
    else total in
  wrap32 total.

Section disk_inode.
Context {St : Type} {BS : BlockStore St}.

Definition blocks_num_needed (d : DiskInode) (new_size : Z) : M St Z :=
  m_assert (size d <=? new_size) ;;;
  m_ret (wrap32 (total_blocks new_size - total_blocks (size d))).

(** Arrays, indexed with their bounds check, and [new_blocks.next().unwrap()]. *)
Definition arr_get (l : list Z) (i : Z) : M St Z := m_unwrap (l !! Z.to_nat i).
Definition arr_set (l : list Z) (i : Z) (x : Z) : M St (list Z) :=
  if bool_decide (Z.to_nat i < length l)%nat then m_ret (<[Z.to_nat i := x]> l) else m_panic.
Definition next_unwrap (l : list Z) : M St (Z * list Z) :=
  match l with x :: l => m_ret (x, l) | [] => m_panic end.

Definition get_block_id (d : DiskInode) (inner_id : Z) : M St Z :=
  if inner_id <? INODE_DIRECT_COUNT then arr_get (direct d) inner_id
  else if inner_id <? INDIRECT1_BOUND then
    let! b := bs_get (indirect1 d) in
    arr_get (words b) (inner_id - INODE_DIRECT_COUNT)
  else
    let last := inner_id - INDIRECT1_BOUND in
    let! b := bs_get (indirect2 d) in
    let! indirect1 := arr_get (words b) (last / INODE_INDIRECT1_COUNT) in
    let! b := bs_get indirect1 in
    arr_get (words b) (last mod INODE_INDIRECT1_COUNT).

(** [while current_blocks < bound { ws[current_blocks] = new_blocks.next().unwrap(); current_blocks += 1 }]
    with [n] iterations to go. *)
Fixpoint fill_words (n : nat) (current_blocks : Z) (ws new_blocks : list Z) : M St (Z * list Z * list Z) :=
  match n with
  | O => m_ret (current_blocks, ws, new_blocks)
  | S n =>
      let! (x, new_blocks) := next_unwrap new_blocks in
      let! ws := arr_set ws current_blocks x in
      fill_words n (current_blocks + 1) ws new_blocks
  end.

(** The loop over [(a0, b0)] that fills the doubly indirect part; [indirect2]
    is the open block.  The fuel is the number of blocks to place. *)
Fixpoint fill_indirect2 (fuel : nat) (a0 b0 a1 b1 : Z) (indirect2 new_blocks : list Z) : M St (list Z) :=
  if (a0 <? a1) || ((a0 =? a1) && (b0 <? b1)) then
    match fuel with
    | O => m_panic
    | S fuel =>
        let! (indirect2, new_blocks) :=
          (if b0 =? 0 then
             let! (x, new_blocks) := next_unwrap new_blocks in
             let! indirect2 := arr_set indirect2 a0 x in
             m_ret (indirect2, new_blocks)
           else m_ret (indirect2, new_blocks)) in
        let! id := arr_get indirect2 a0 in
        let! b := bs_get id in
        let! (x, new_blocks) := next_unwrap new_blocks in
        let! ws := arr_set (words b) b0 x in
        bs_put id (unwords ws) ;;;
        let b0 := b0 + 1 in
        let '(a0, b0) := if b0 =? INODE_INDIRECT1_COUNT then (a0 + 1, 0) else (a0, b0) in
        fill_indirect2 fuel a0 b0 a1 b1 indirect2 new_blocks
    end
  else m_ret indirect2.

(** alloc indirect2, and fill it from (a0, b0) to (a1, b1) *)
Definition increase_indirect2 (d : DiskInode) (current_blocks total_blocks : Z) (new_blocks : list Z) : M St DiskInode :=
  if INODE_INDIRECT1_COUNT <? total_blocks then
    let! (d, new_blocks) :=
      (if current_blocks =? INODE_INDIRECT1_COUNT then
         let! (x, new_blocks) := next_unwrap new_blocks in m_ret (set_indirect2 x d, new_blocks)
       else m_ret (d, new_blocks)) in
    let current_blocks := current_blocks - INODE_INDIRECT1_COUNT in
    let total_blocks := total_blocks - INODE_INDIRECT1_COUNT in
    let a0 := current_blocks / INODE_INDIRECT1_COUNT in
    let b0 := current_blocks mod INODE_INDIRECT1_COUNT in
    let a1 := total_blocks / INODE_INDIRECT1_COUNT in
    let b1 := total_blocks mod INODE_INDIRECT1_COUNT in
    let! b := bs_get (indirect2 d) in
    let! ws := fill_indirect2 (Z.to_nat (total_blocks - current_blocks)) a0 b0 a1 b1 (words b) new_blocks in
    bs_put (indirect2 d) (unwords ws) ;;;
    m_ret d
  else m_ret d.

(** alloc indirect1, fill it, and go on *)
Definition increase_indirect1 (d : DiskInode) (current_blocks total_blocks : Z) (new_blocks : list Z) : M St DiskInode :=
  if INODE_DIRECT_COUNT <? total_blocks then
    let! (d, new_blocks) :=
      (if current_blocks =? INODE_DIRECT_COUNT then
         let! (x, new_blocks) := next_unwrap new_blocks in m_ret (set_indirect1 x d, new_blocks)
       else m_ret (d, new_blocks)) in
    let current_blocks := current_blocks - INODE_DIRECT_COUNT in
    let total_blocks := total_blocks - INODE_DIRECT_COUNT in
    let! b := bs_get (indirect1 d) in
    let! (current_blocks, ws, new_blocks) :=
      fill_words (Z.to_nat (Z.min total_blocks INODE_INDIRECT1_COUNT - current_blocks)) current_blocks (words b) new_blocks in
    bs_put (indirect1 d) (unwords ws) ;;;
    increase_indirect2 d current_blocks total_blocks new_blocks
  else m_ret d.

Definition DiskInode_increase_size (d : DiskInode) (new_size : Z) (new_blocks : list Z) : M St DiskInode :=
  let current_blocks := data_blocks d in
  let d := set_size new_size d in
  let total_blocks := data_blocks d in
  let! (current_blocks, l, new_blocks) :=
    fill_words (Z.to_nat (Z.min total_blocks INODE_DIRECT_COUNT - current_blocks)) current_blocks (direct d) new_blocks in
  increase_indirect1 (set_direct l d) current_blocks total_blocks new_blocks.

(** [while current_blocks < bound { v.push(direct[current_blocks]); direct[current_blocks] = 0; ... }] *)
Fixpoint take_direct (n : nat) (current_blocks : Z) (direct v : list Z) : M St (list Z * list Z) :=
  match n with
  | O => m_ret (direct, v)
  | S n =>
      let! x := arr_get direct current_blocks in
      let! direct := arr_set direct current_blocks 0 in
      take_direct n (current_blocks + 1) direct (v ++ [x])
  end.

(** [while current_blocks < bound { v.push(indirect1[current_blocks]); ... }] *)
Fixpoint push_words (n : nat) (current_blocks : Z) (ws v : list Z) : M St (list Z) :=
  match n with
  | O => m_ret v
  | S n => let! x := arr_get ws current_blocks in push_words n (current_blocks + 1) ws (v ++ [x])
  end.

(** One entry of the doubly indirect block: its id and the first [n] ids in it. *)
Definition push_indirect1 (n : nat) (v : list Z) (entry : Z) : M St (list Z) :=
  let! b := bs_get entry in
  bs_put entry b ;;;
  m_ret ((v ++ [entry]) ++ take n (words b)).

(** The doubly indirect part of [clear_size]: full blocks of ids, then the last one. *)
Definition clear_indirect2 (d : DiskInode) (data_blocks : Z) (v : list Z) : M St (list Z * DiskInode) :=
  if INODE_INDIRECT1_COUNT <? data_blocks then
    let v := v ++ [indirect2 d] in
    let data_blocks := data_blocks - INODE_INDIRECT1_COUNT in
    m_assert (data_blocks <=? INODE_INDIRECT2_COUNT) ;;;
    let a1 := data_blocks / INODE_INDIRECT1_COUNT in
    let b1 := data_blocks mod INODE_INDIRECT1_COUNT in
    let! b := bs_get (indirect2 d) in
    let! v := m_fold (push_indirect1 128) (take (Z.to_nat a1) (words b)) v in
    let! v :=
      (if 0 <? b1 then
         let! entry := arr_get (words b) a1 in push_indirect1 (Z.to_nat b1) v entry
       else m_ret v) in
    bs_put (indirect2 d) b ;;;
    m_ret (v, set_indirect2 0 d)
  else m_ret (v, d).

Definition clear_indirect1 (d : DiskInode) (data_blocks : Z) (v : list Z) : M St (list Z * DiskInode) :=
  if INODE_DIRECT_COUNT <? data_blocks then
    let v := v ++ [indirect1 d] in
    let data_blocks := data_blocks - INODE_DIRECT_COUNT in
    let! b := bs_get (indirect1 d) in
    let! v := push_words (Z.to_nat (Z.min data_blocks INODE_INDIRECT1_COUNT)) 0 (words b) v in
    bs_put (indirect1 d) b ;;;
    clear_indirect2 (set_indirect1 0 d) data_blocks v
  else m_ret (v, d).

Definition clear_size (d : DiskInode) : M St (list Z * DiskInode) :=
  let data_blocks := data_blocks d in
  let d := set_size 0 d in
  let! (l, v) := take_direct (Z.to_nat (Z.min data_blocks INODE_DIRECT_COUNT)) 0 (direct d) [] in
  clear_indirect1 (set_direct l d) data_blocks v.

(** [&b[lo .. lo + len]] of a slice. *)
Definition slice_of (b : list Z) (lo len : Z) : M St (list Z) :=
  if bool_decide (lo + len <= Z.of_nat (length b)) then m_ret (take (Z.to_nat len) (drop (Z.to_nat lo) b)) else m_panic.

(** The loop of [read_at]; the fuel bounds the number of blocks. *)
Fixpoint read_loop (fuel : nat) (d : DiskInode) (start start_block end_ read_size : Z) (buf : list Z) : M St (Z * list Z) :=
  match fuel with
  | O => m_panic
  | S fuel =>
      let end_current_block := Z.min ((start / 512 + 1) * 512) end_ in
      let block_read_size := end_current_block - start in
      let! id := get_block_id d (wrap32 start_block) in
      let! data_block := bs_get id in
      let! src := slice_of data_block (start mod 512) block_read_size in
      let buf := splice (Z.to_nat read_size) src buf in
      let read_size := read_size + block_read_size in
      if end_current_block =? end_ then m_ret (read_size, buf)
      else read_loop fuel d end_current_block (start_block + 1) end_ read_size buf
  end.

Definition blocks_between (start end_ : Z) : nat := S (Z.to_nat (end_ / 512 - start / 512)).

(** [read_at]: the number of bytes read, and the buffer. *)
Definition DiskInode_read_at (d : DiskInode) (offset : Z) (buf : list Z) : M St (Z * list Z) :=
  let start := offset in
  let end_ := Z.min (offset +w Z.of_nat (length buf)) (size d) in
  if end_ <=? start then m_ret (0, buf)
  else read_loop (blocks_between start end_) d start (start / 512) end_ 0 buf.

Fixpoint write_loop (fuel : nat) (d : DiskInode) (start start_block end_ write_size : Z) (buf : list Z) : M St Z :=
  match fuel with
  | O => m_panic
  | S fuel =>
      let end_current_block := Z.min ((start / 512 + 1) * 512) end_ in
      let block_write_size := end_current_block - start in
      let! id := get_block_id d (wrap32 start_block) in
      let! data_block := bs_get id in
      let! src := slice_of buf write_size block_write_size in
      bs_put id (splice (Z.to_nat (start mod 512)) src data_block) ;;;
      let write_size := write_size + block_write_size in
      if end_current_block =? end_ then m_ret write_size
      else write_loop fuel d end_current_block (start_block + 1) end_ write_size buf
  end.

Definition DiskInode_write_at (d : DiskInode) (offset : Z) (buf : list Z) : M St Z :=
  let start := offset in
  let end_ := Z.min (offset +w Z.of_nat (length buf)) (size d) in
  m_assert (start <=? end_) ;;;
  write_loop (blocks_between start end_) d start (start / 512) end_ 0 buf.
End disk_inode.

(** ** Words of a block *)

Definition u32s (ws : list Z) : Prop := Forall is_u32 ws.

Lemma le_get_put4 x : is_u32 x → le_get (le_put 4 x) = x.
Proof. intros Hx. rewrite le_get_put. by apply Z.mod_small. Qed.

Lemma chunks4 ws : Forall (λ b, length b = 4%nat) (le_put 4 <$> ws).
Proof. apply Forall_fmap, Forall_true. intros x. apply le_put_length. Qed.

Lemma unwords_length ws : length (unwords ws) = (4 * length ws)%nat.
Proof. unfold unwords. by rewrite (length_chunks 4 _ (chunks4 ws)), length_fmap. Qed.

Lemma unwords_bytes ws : Forall is_byte (unwords ws).
Proof. unfold unwords. apply Forall_concat, Forall_fmap, Forall_true. intros x. apply le_put_bytes. Qed.

Lemma unwords_read ws i : u32s ws → (i < length ws)%nat → le_get (take 4 (drop (4 * i) (unwords ws))) = ws !!! i.
Proof.
  intros Hw Hi. unfold unwords. rewrite <- (Nat.add_0_r (4 * i)).
  rewrite (chunk_read 4 _ i 0 4 (chunks4 ws)) by (rewrite ?length_fmap; lia). rewrite drop_0.
  destruct (lookup_lt_is_Some_2 ws i Hi) as [x Hx].
  rewrite !list_lookup_total_alt, list_lookup_fmap, Hx. simpl default.
  rewrite <- (le_put_length 4 x) at 1. rewrite firstn_all. apply le_get_put4.
  eapply Forall_lookup_1; [exact Hw|done].
Qed.

Lemma words_length b : length (words b) = 128%nat.
Proof. unfold words. by rewrite length_fmap, length_seq. Qed.

Lemma words_lookup b i : (i < 128)%nat → words b !!! i = rd 4 b (4 * i).
Proof.
  intros Hi. unfold words. rewrite list_lookup_total_alt, list_lookup_fmap, lookup_seq_lt by done. done.
Qed.

Lemma words_u32 b : block_ok b → u32s (words b).
Proof.
  intros Hb. apply Forall_fmap, Forall_seq. intros i Hi. simpl.
  apply (rd_range 4); [done|]. unfold BLOCK_SZ. lia.
Qed.

Lemma words_unwords ws : length ws = 128%nat → u32s ws → words (unwords ws) = ws.
Proof.
  intros Hl Hw. apply list_eq_same_length with 128%nat; [done|by rewrite words_length|].
  intros i x y Hi Hx Hy. apply list_lookup_total_correct in Hx as <-. apply list_lookup_total_correct in Hy as <-.
  rewrite words_lookup by done. unfold rd. apply unwords_read; [done|lia].
Qed.

Lemma unwords_cat n : ∀ l, length l = (4 * n)%nat → Forall is_byte l →
  unwords ((λ i, le_get (take 4 (drop (4 * i) l))) <$> seq 0 n) = l.
Proof.
  induction n as [|n IH]; intros l Hl Hb; [by destruct l|]. rewrite <- cons_seq, <- fmap_S_seq. unfold unwords.
  rewrite !fmap_cons, <- !list_fmap_compose. cbn [concat].
  transitivity (take 4 l ++ drop 4 l); [|apply take_drop]. f_equal.
  - rewrite drop_0. assert (length (take 4 l) = 4%nat) as E by (rewrite length_take; lia).
    rewrite <- E at 1. apply le_put_get. by apply Forall_take.
  - rewrite <- (IH (drop 4 l)); [|rewrite length_drop; lia|by apply Forall_drop]. unfold unwords.
    rewrite <- list_fmap_compose. f_equal. apply list_fmap_ext. intros i x _. unfold compose.
    rewrite drop_drop. do 4 f_equal. lia.
Qed.

Lemma unwords_words b : block_ok b → unwords (words b) = b.
Proof. intros [Hl Hb]. by apply (unwords_cat 128). Qed.

Lemma unwords_ok ws : length ws = 128%nat → block_ok (unwords ws).
Proof. intros Hl. split; [rewrite unwords_length, Hl; done|apply unwords_bytes]. Qed.

(** ** The blocks of an inode *)

#[local] Arguments Nat.div : simpl never.
#[local] Arguments Nat.modulo : simpl never.

Section block_map.
#[local] Open Scope nat_scope.
Implicit Types (V : Z → list Z) (d : DiskInode) (n k i : nat).

(** Word [k] of block [c]. *)
Definition ind V (c : Z) k : Z := words (V c) !!! k.

(** The id of data block [i], what [get_block_id] computes. *)
Definition blk V d i : Z :=
  if i <? 28 then direct d !!! i
  else if i <? 156 then ind V (indirect1 d) (i - 28)
  else ind V (ind V (indirect2 d) ((i - 156) / 128)) ((i - 156) mod 128).

(** The number of blocks the doubly indirect block points to. *)
Definition subs n : nat := (n - 156 + 127) / 128.

(** The data blocks of an inode of [n] blocks, and its blocks of block ids. *)
Definition datas V d n : list Z := blk V d <$> seq 0 n.
Definition metas V d n : list Z :=
  (if 28 <? n then [indirect1 d] else []) ++ (if 156 <? n then [indirect2 d] else []) ++
  (ind V (indirect2 d) <$> seq 0 (subs n)).
Definition blocks_of V d n : list Z := datas V d n ++ metas V d n.

Definition tot n : nat := n + (if 28 <? n then 1 else 0) + (if 156 <? n then 1 else 0) + subs n.

Lemma datas_length V d n : length (datas V d n) = n.
Proof. unfold datas. by rewrite length_fmap, length_seq. Qed.

Lemma metas_length V d n : n + length (metas V d n) = tot n.
Proof.
  unfold metas, tot. rewrite !length_app, length_fmap, length_seq. destruct (28 <? n), (156 <? n); simpl; lia.
Qed.

Lemma blocks_of_length V d n : length (blocks_of V d n) = tot n.
Proof. unfold blocks_of. rewrite length_app, datas_length. apply metas_length. Qed.

Lemma subs_0 n : n <= 156 → subs n = 0.
Proof. intros H. unfold subs. replace (n - 156) with 0 by lia. done. Qed.

Lemma subs_S n : 156 <= n → (n - 156) / 128 + (if (n - 156) mod 128 =? 0 then 0 else 1) = subs n ∧
  subs (S n) = S ((n - 156) / 128).
Proof.
  intros H. unfold subs. pose proof (Nat.div_mod (n - 156) 128 ltac:(lia)) as E.
  pose proof (Nat.mod_upper_bound (n - 156) 128 ltac:(lia)) as B.
  set (a := (n - 156) / 128) in *. set (b := (n - 156) mod 128) in *.
  replace (S n - 156 + 127) with ((a + 1) * 128 + b) by lia. rewrite Nat.div_add_l, (Nat.div_small b) by lia.
  split; [|lia]. destruct (Nat.eqb_spec b 0) as [->|].
  - replace (n - 156 + 127) with (a * 128 + 127) by lia. rewrite Nat.div_add_l, (Nat.div_small 127) by lia. lia.
  - replace (n - 156 + 127) with ((a + 1) * 128 + (b - 1)) by lia. rewrite Nat.div_add_l, (Nat.div_small (b - 1)) by lia. lia.
Qed.

Lemma subs_lt n i : 156 <= i → i < n → (i - 156) / 128 < subs n.
Proof.
  intros Hi Hn. destruct (subs_S i Hi) as [_ E]. assert (subs (S i) <= subs n); [|lia].
  unfold subs. apply Nat.Div0.div_le_mono. lia.
Qed.

Lemma tot_mono n m : n <= m → tot n <= tot m.
Proof.
  intros H. assert (subs n <= subs m) by (unfold subs; apply Nat.Div0.div_le_mono; lia). unfold tot.
  destruct (Nat.ltb_spec 28 n), (Nat.ltb_spec 156 n), (Nat.ltb_spec 28 m), (Nat.ltb_spec 156 m); lia.
Qed.

(** The ids depend on the blocks of ids only. *)
Lemma indirect1_meta V d n : 28 < n → indirect1 d ∈ metas V d n.
Proof. intros H. unfold metas. destruct (Nat.ltb_spec 28 n); [set_solver|lia]. Qed.
Lemma indirect2_meta V d n : 156 < n → indirect2 d ∈ metas V d n.
Proof. intros H. unfold metas. destruct (Nat.ltb_spec 156 n); [set_solver|lia]. Qed.
Lemma sub_meta V d n k : k < subs n → ind V (indirect2 d) k ∈ metas V d n.
Proof.
  intros H. unfold metas. rewrite !elem_of_app. right; right. apply list_elem_of_fmap_2, elem_of_seq. lia.
Qed.

Lemma blk_ext V V' d n i : (∀ c, c ∈ metas V d n → V' c = V c) → i < n → blk V' d i = blk V d i.
Proof.
  intros H Hi. unfold blk. destruct (Nat.ltb_spec i 28); [done|]. destruct (Nat.ltb_spec i 156).
  - unfold ind. by rewrite H by (apply indirect1_meta; lia).
  - unfold ind at 2. rewrite (H (indirect2 d)) by (apply indirect2_meta; lia). fold (ind V (indirect2 d) ((i - 156) / 128)).
    unfold ind at 1. rewrite H; [done|]. apply sub_meta, subs_lt; lia.
Qed.

Lemma datas_ext V V' d n : (∀ c, c ∈ metas V d n → V' c = V c) → datas V' d n = datas V d n.
Proof.
  intros H. unfold datas. apply list_fmap_ext. intros i x [-> Hi]%lookup_seq. by apply (blk_ext V V' d n).
Qed.

Lemma metas_ext V V' d n : (∀ c, c ∈ metas V d n → V' c = V c) → metas V' d n = metas V d n.
Proof.
  intros H. destruct (decide (n <= 156)) as [Hn|Hn]; [unfold metas; by rewrite subs_0|].
  unfold metas. do 2 f_equal. unfold ind. by rewrite H by (apply indirect2_meta; lia).
Qed.

(** ** One word of one block changes *)

Definition word_set V (c : Z) k (x : Z) V' : Prop :=
  ∀ c', V' c' = if decide (c' = c) then unwords (<[k := x]> (words (V c))) else V c'.

Lemma word_set_ok V c k x V' : disk_ok V → word_set V c k x V' → disk_ok V'.
Proof.
  intros HV H c'. rewrite H. case_decide; [|apply HV]. apply unwords_ok. by rewrite length_insert, words_length.
Qed.

Lemma u32s_insert ws k x : u32s ws → is_u32 x → u32s (<[k := x]> ws).
Proof. intros Hw Hx. by apply Forall_insert. Qed.

Lemma ind_word_set V c k x V' c' k' : disk_ok V → k < 128 → is_u32 x → word_set V c k x V' →
  ind V' c' k' = if decide (c' = c ∧ k' = k) then x else ind V c' k'.
Proof.
  intros HV Hk Hx H. unfold ind. rewrite H. destruct (decide (c' = c)) as [->|Hne]; [|by rewrite decide_False by tauto].
  rewrite words_unwords; [|by rewrite length_insert, words_length|by apply u32s_insert; [apply words_u32, HV|]].
  destruct (decide (k' = k)) as [->|Hk'].
  - rewrite decide_True by done. rewrite list_lookup_total_insert_eq; [done|]. by rewrite words_length.
  - rewrite decide_False by tauto. by apply list_lookup_total_insert_ne.
Qed.

(** ** One more data block *)

Lemma datas_step V d V' d' n x : (∀ i, i < n → blk V' d' i = blk V d i) → blk V' d' n = x →
  datas V' d' (S n) = datas V d n ++ [x].
Proof.
  intros H <-. unfold datas. rewrite seq_S, fmap_app. f_equal.
  apply list_fmap_ext. intros i y [-> Hi]%lookup_seq. by apply H.
Qed.

Lemma metas_direct V d n : n <= 28 → metas V d n = [].
Proof.
  intros H. unfold metas. rewrite subs_0 by lia. destruct (Nat.ltb_spec 28 n), (Nat.ltb_spec 156 n); (done || lia).
Qed.
Lemma metas_single V d n : 28 < n <= 156 → metas V d n = [indirect1 d].
Proof.
  intros H. unfold metas. rewrite subs_0 by lia. destruct (Nat.ltb_spec 28 n), (Nat.ltb_spec 156 n); (done || lia).
Qed.
Lemma metas_double V d n : 156 < n → metas V d n = indirect1 d :: indirect2 d :: (ind V (indirect2 d) <$> seq 0 (subs n)).
Proof. intros H. unfold metas. destruct (Nat.ltb_spec 28 n), (Nat.ltb_spec 156 n); (done || lia). Qed.

Lemma grow_direct V d n x : n < 28 → length (direct d) = 28 →
  datas V (set_direct (<[n := x]> (direct d)) d) (S n) = datas V d n ++ [x].
Proof.
  intros Hn Hl. apply datas_step.
  - intros i Hi. unfold blk. destruct (Nat.ltb_spec i 28); [|lia]. apply list_lookup_total_insert_ne. lia.
  - unfold blk. destruct (Nat.ltb_spec n 28); [|lia]. simpl. rewrite list_lookup_total_insert_eq; [done|lia].
Qed.

Lemma grow_indirect1 V d n x V' : 28 <= n < 156 → disk_ok V → is_u32 x → word_set V (indirect1 d) (n - 28) x V' →
  datas V' d (S n) = datas V d n ++ [x].
Proof.
  intros Hn HV Hx Hw. assert (n - 28 < 128) as Hk by lia. apply datas_step.
  - intros i Hi. unfold blk. destruct (Nat.ltb_spec i 28); [done|]. destruct (Nat.ltb_spec i 156); [|lia].
    rewrite (ind_word_set V _ _ _ V' _ _ HV Hk Hx Hw). by rewrite decide_False by lia.
  - unfold blk. destruct (Nat.ltb_spec n 28); [lia|]. destruct (Nat.ltb_spec n 156); [|lia].
    rewrite (ind_word_set V _ _ _ V' _ _ HV Hk Hx Hw). by rewrite decide_True.
Qed.

(** A new block of ids is entered in the doubly indirect block. *)
Lemma grow_sub V d n z V1 : 156 <= n < 156 + 128 * 128 → (n - 156) mod 128 = 0 → disk_ok V → is_u32 z →
  NoDup (indirect1 d :: indirect2 d :: (ind V (indirect2 d) <$> seq 0 (subs n))) →
  word_set V (indirect2 d) ((n - 156) / 128) z V1 →
  datas V1 d n = datas V d n ∧
  metas V1 d (S n) = indirect1 d :: indirect2 d :: (ind V (indirect2 d) <$> seq 0 (subs n)) ++ [z] ∧
  ind V1 (indirect2 d) ((n - 156) / 128) = z.
Proof.
  intros Hn Hb HV Hz Hnd Hw. destruct (subs_S n ltac:(lia)) as [Es Es']. rewrite Hb, Nat.eqb_refl in Es.
  assert ((n - 156) / 128 < 128) as Ha by (apply Nat.Div0.div_lt_upper_bound; lia).
  pose proof (λ c k, ind_word_set V _ _ _ V1 c k HV Ha Hz Hw) as Hi. rewrite !NoDup_cons in Hnd.
  destruct Hnd as (H1 & H2 & _). rewrite not_elem_of_cons in H1. destruct H1 as [H1 H1'].
  assert (∀ k, k < subs n → ind V1 (indirect2 d) k = ind V (indirect2 d) k) as Hk.
  { intros k Hk. rewrite Hi, decide_False by lia. done. }
  split_and!.
  - unfold datas. apply list_fmap_ext. intros i y [-> Hin]%lookup_seq. simpl in Hin |- *. unfold blk.
    destruct (Nat.ltb_spec i 28); [done|]. destruct (Nat.ltb_spec i 156); [by rewrite Hi, decide_False by tauto|].
    pose proof (subs_lt n i ltac:(lia) Hin) as Hs. rewrite Hk by done. rewrite Hi, decide_False; [done|].
    intros [E _]. apply H2. rewrite <- E at 1. apply list_elem_of_fmap_2, elem_of_seq. lia.
  - rewrite metas_double, Es' by lia. do 2 f_equal. rewrite seq_S, fmap_app. simpl. f_equal.
    + rewrite <- Es, Nat.add_0_r. apply list_fmap_ext. intros i y [-> Hin]%lookup_seq. simpl. apply Hk. lia.
    + by rewrite Hi, decide_True.
  - by rewrite Hi, decide_True.
Qed.

(** A data block is entered in the last block of ids. *)
Lemma grow_leaf V d n x V' : 156 <= n → let a := (n - 156) / 128 in
  disk_ok V → is_u32 x → NoDup (metas V d (S n)) →
  word_set V (ind V (indirect2 d) a) ((n - 156) mod 128) x V' →
  datas V' d (S n) = datas V d n ++ [x] ∧ metas V' d (S n) = metas V d (S n).
Proof.
  intros Hn a HV Hx Hnd Hw. destruct (subs_S n Hn) as [_ Es]. fold a in Es.
  pose proof (Nat.mod_upper_bound (n - 156) 128 ltac:(lia)) as Hb.
  pose proof (λ c k, ind_word_set V _ _ _ V' c k HV Hb Hx Hw) as Hi. set (z := ind V (indirect2 d) a) in *.
  rewrite metas_double, Es, !NoDup_cons in Hnd by lia. destruct Hnd as (H1 & H2 & Hnd).
  assert (∀ k, k <= a → ind V (indirect2 d) k ∈ ind V (indirect2 d) <$> seq 0 (S a)) as Hin.
  { intros k Hk. apply list_elem_of_fmap_2, elem_of_seq. lia. }
  assert (z ≠ indirect1 d) as Hz1 by (intros E; apply H1; right; rewrite <- E; by apply Hin).
  assert (z ≠ indirect2 d) as Hz2 by (intros E; apply H2; rewrite <- E at 1; by apply Hin).
  assert (∀ k, ind V' (indirect2 d) k = ind V (indirect2 d) k) as Hk by (intros k; rewrite Hi, decide_False; naive_solver).
  split; [apply datas_step|].
  - intros i Hin'. unfold blk. destruct (Nat.ltb_spec i 28); [done|].
    destruct (Nat.ltb_spec i 156); [rewrite Hi, decide_False; naive_solver|].
    rewrite Hk, Hi, decide_False; [done|]. intros [E Eb].
    assert ((i - 156) / 128 <= a) as Hle by (apply Nat.Div0.div_le_mono; lia).
    assert ((i - 156) / 128 = a) as Ea.
    { eapply (NoDup_lookup (ind V (indirect2 d) <$> seq 0 (S a))); [done| |].
      - rewrite list_lookup_fmap, lookup_seq_lt by lia. done.
      - rewrite list_lookup_fmap, lookup_seq_lt by lia. simpl. by rewrite E. }
    pose proof (Nat.div_mod (i - 156) 128 ltac:(lia)). pose proof (Nat.div_mod (n - 156) 128 ltac:(lia)). lia.
  - unfold blk. destruct (Nat.ltb_spec n 28); [lia|]. destruct (Nat.ltb_spec n 156); [lia|].
    rewrite Hk, Hi, decide_True; done.
  - rewrite !metas_double by lia. do 2 f_equal. apply list_fmap_ext. intros i y _. apply Hk.
Qed.
End block_map.

(** ** Growing an inode *)

Definition inode_ok (d : DiskInode) : Prop :=
  is_u32 (size d) ∧ length (direct d) = 28%nat ∧ u32s (direct d) ∧ is_u32 (indirect1 d) ∧ is_u32 (indirect2 d).

Section growth.
#[local] Open Scope nat_scope.
Context (V0 : Z → list Z) (d0 : DiskInode) (n0 : nat) (new_blocks : list Z).
Implicit Types (V : Z → list Z) (d : DiskInode) (k : nat) (used pend nb : list Z).

(** From [(V0, d0)] with [n0] data blocks to [(V, d)] with [k], with the blocks
    [used]; [pend] is a block of ids that is chosen and still empty. *)
Record grown k V d used pend : Prop := {
  g_data : ∃ xs ms, datas V d k = datas V0 d0 n0 ++ xs ∧ metas V d k = metas V0 d0 n0 ++ ms ∧ used ≡ₚ xs ++ ms ++ pend;
  g_ok : disk_ok V;
  g_frame c : (c ∉ metas V d k) → (c ∉ pend) → V c = V0 c;
  g_inode : inode_ok d;
  g_type : type_ d = type_ d0;
}.

Lemma grown_ext k V V' d used pend : (∀ c, V' c = V c) → grown k V d used pend → grown k V' d used pend.
Proof.
  intros H [A B C D E]. assert (metas V' d k = metas V d k) as Em by (apply metas_ext; naive_solver).
  split; [|intros c; rewrite H; apply B|intros c; rewrite H, Em; apply C|done|done].
  rewrite (datas_ext V V' d k), Em by naive_solver. done.
Qed.

Context (Hnd : NoDup (blocks_of V0 d0 n0 ++ new_blocks)) (Hu : u32s new_blocks).

Lemma grown_nodup k V d used pend nb : grown k V d used pend → new_blocks = used ++ nb →
  NoDup (datas V d k ++ (metas V d k ++ pend) ++ nb).
Proof.
  intros [(xs & ms & -> & -> & Hp) _ _ _ _] E. rewrite E, Hp in Hnd. unfold blocks_of in Hnd.
  assert ((datas V0 d0 n0 ++ xs) ++ ((metas V0 d0 n0 ++ ms) ++ pend) ++ nb ≡ₚ
    (datas V0 d0 n0 ++ metas V0 d0 n0) ++ (xs ++ ms ++ pend) ++ nb) as ->; [solve_Permutation|exact Hnd].
Qed.

Lemma grown_length k V d used pend nb : grown k V d used pend → new_blocks = used ++ nb →
  length new_blocks + tot n0 = tot k + length pend + length nb.
Proof.
  intros [(xs & ms & Hx & Hm & Hp) _ _ _ _] E. apply (f_equal length) in Hx, Hm. apply Permutation_length in Hp.
  rewrite E, length_app. rewrite !length_app in *. rewrite !datas_length in Hx.
  pose proof (metas_length V d k). pose proof (metas_length V0 d0 n0). lia.
Qed.

Lemma new_u32 used x nb : new_blocks = used ++ x :: nb → is_u32 x.
Proof. intros E. unfold u32s in Hu. rewrite E, Forall_app, Forall_cons in Hu. tauto. Qed.

Lemma grown_direct k V d used x nb : grown k V d used [] → new_blocks = used ++ x :: nb → k < 28 →
  grown (S k) V (set_direct (<[k := x]> (direct d)) d) (used ++ [x]) [].
Proof.
  intros [(xs & ms & Hx & Hm & Hp) B C (D1 & D2 & D3 & D4) E] Hnb Hk. rewrite metas_direct in Hm, C by lia. split.
  - exists (xs ++ [x]), ms. rewrite grow_direct, Hx, app_assoc, metas_direct by (done || lia).
    split_and!; [done|done|]. rewrite Hp. solve_Permutation.
  - done.
  - rewrite metas_direct by lia. done.
  - unfold inode_ok. simpl. rewrite length_insert. split_and!; try apply D1; try done; try apply D4.
    apply u32s_insert; [done|]. by eapply new_u32.
  - done.
Qed.

Lemma grown_alloc1 V d used x nb : grown 28 V d used [] → new_blocks = used ++ x :: nb →
  grown 28 V (set_indirect1 x d) (used ++ [x]) [x].
Proof.
  intros [(xs & ms & Hx & Hm & Hp) B C (D1 & D2 & D3 & D4 & D5) E] Hnb. rewrite metas_direct in Hm, C by lia. split.
  - exists xs, ms. rewrite metas_direct by lia. split_and!; [|done|rewrite Hp; solve_Permutation].
    rewrite <- Hx. unfold datas. apply list_fmap_ext. intros i y [-> Hi]%lookup_seq. simpl. unfold blk.
    by destruct (Nat.ltb_spec i 28); [|lia].
  - done.
  - intros c _ _. apply C; set_solver.
  - pose proof (new_u32 used x nb Hnb). done.
  - done.
Qed.

Lemma grown_indirect1 k V d used pend x nb V' : grown k V d used pend → new_blocks = used ++ x :: nb → 28 <= k < 156 →
  pend = (if k =? 28 then [indirect1 d] else []) → word_set V (indirect1 d) (k - 28) x V' →
  grown (S k) V' d (used ++ [x]) [].
Proof.
  intros [(xs & ms & Hx & Hm & Hp) B C D E] Hnb Hk Hpend Hw. pose proof (new_u32 used x nb Hnb) as Hx32.
  assert (metas V d k ++ pend = [indirect1 d]) as Hmp.
  { rewrite Hpend. destruct (Nat.eqb_spec k 28) as [->|]; [by rewrite metas_direct by lia|]. by rewrite metas_single by lia. }
  split.
  - exists (xs ++ [x]), (ms ++ pend). rewrite (grow_indirect1 V d k x V'), Hx, (metas_single V'), <- Hmp, Hm by (done || lia).
    rewrite !app_assoc. split_and!; [done|done|]. rewrite Hp. solve_Permutation.
  - by eapply word_set_ok.
  - rewrite metas_single by lia. intros c Hc _. rewrite Hw, decide_False by set_solver.
    apply C; [|]; intros Hin; apply Hc; rewrite <- Hmp; set_solver.
  - done.
  - done.
Qed.

Lemma grown_alloc2 V d used x nb : grown 156 V d used [] → new_blocks = used ++ x :: nb →
  grown 156 V (set_indirect2 x d) (used ++ [x]) [x].
Proof.
  intros [(xs & ms & Hx & Hm & Hp) B C (D1 & D2 & D3 & D4 & D5) E] Hnb. rewrite metas_single in Hm, C by lia. split.
  - exists xs, ms. rewrite metas_single by lia. split_and!; [|done|rewrite Hp; solve_Permutation].
    rewrite <- Hx. unfold datas. apply list_fmap_ext. intros i y [-> Hi]%lookup_seq. simpl. unfold blk.
    destruct (Nat.ltb_spec i 28); [done|]. by destruct (Nat.ltb_spec i 156); [|lia].
  - done.
  - rewrite metas_single by lia. intros c Hc _. apply C; set_solver.
  - pose proof (new_u32 used x nb Hnb). done.
  - done.
Qed.

Lemma metas_pend V d k pend : 156 <= k → pend = (if k =? 156 then [indirect2 d] else []) →
  metas V d k ++ pend = indirect1 d :: indirect2 d :: (ind V (indirect2 d) <$> seq 0 (subs k)).
Proof.
  intros Hk ->. destruct (Nat.eqb_spec k 156) as [->|]; [by rewrite metas_single by lia|].
  by rewrite app_nil_r, metas_double by lia.
Qed.

(** The doubly indirect block is none of the blocks it points to. *)
Lemma fresh_indirect2 k V d used pend z nb : grown k V d used pend → new_blocks = used ++ z :: nb → 156 <= k →
  pend = (if k =? 156 then [indirect2 d] else []) → z ≠ indirect2 d.
Proof.
  intros HG Hnb Hk Hpend ->. pose proof (grown_nodup _ _ _ _ _ _ HG Hnb) as Hn.
  apply NoDup_app in Hn as (_ & _ & Hn). rewrite (metas_pend V d k pend) in Hn by done.
  apply NoDup_app in Hn as (_ & Hn & _). apply (Hn (indirect2 d)); [right; by left|by left].
Qed.

Lemma sub_indirect2 k V d used nb j : grown k V d used [] → new_blocks = used ++ nb → 156 < k → j < subs k →
  ind V (indirect2 d) j ≠ indirect2 d.
Proof.
  intros HG Hnb Hk Hj Ez. pose proof (grown_nodup _ _ _ _ _ _ HG Hnb) as Hn.
  apply NoDup_app in Hn as (_ & _ & Hn). rewrite (metas_pend V d k []) in Hn by (destruct (Nat.eqb_spec k 156); (done || lia)).
  apply NoDup_app in Hn as (Hn & _ & _). rewrite !NoDup_cons in Hn. destruct Hn as (_ & Hn & _).
  apply Hn. rewrite <- Ez at 1. apply list_elem_of_fmap_2, elem_of_seq. lia.
Qed.

(** One iteration of the doubly indirect loop, without a new block of ids. *)
Lemma grown_leaf k V d used x nb V' : grown k V d used [] → new_blocks = used ++ x :: nb → 156 < k →
  (k - 156) mod 128 ≠ 0 → word_set V (ind V (indirect2 d) ((k - 156) / 128)) ((k - 156) mod 128) x V' →
  grown (S k) V' d (used ++ [x]) [].
Proof.
  intros HG Hnb Hk Hb Hw. pose proof (grown_nodup _ _ _ _ _ _ HG Hnb) as Hn. rewrite app_nil_r in Hn.
  apply NoDup_app in Hn as (_ & _ & Hn). apply NoDup_app in Hn as (Hn & _ & _).
  destruct HG as [(xs & ms & Hx & Hm & Hp) B C D E]. pose proof (new_u32 used x nb Hnb) as Hx32.
  destruct (subs_S k ltac:(lia)) as [Es Es']. destruct (Nat.eqb_spec ((k - 156) mod 128) 0) as [|_]; [done|].
  assert (metas V d (S k) = metas V d k) as Em by (rewrite !metas_double, Es', <- Es, Nat.add_1_r by lia; done).
  rewrite <- Em in Hn, Hm, C. destruct (grow_leaf V d k x V' ltac:(lia) B Hx32 Hn Hw) as [Gd Gm].
  assert (ind V (indirect2 d) ((k - 156) / 128) ∈ metas V d (S k)) as Hz by (apply sub_meta; lia).
  split.
  - exists (xs ++ [x]), ms. rewrite Gd, Gm, Hx, app_assoc. split_and!; [done|done|]. rewrite Hp. solve_Permutation.
  - by eapply word_set_ok.
  - rewrite Gm. intros c Hc _. rewrite Hw, decide_False by set_solver. apply C; set_solver.
  - done.
  - done.
Qed.

(** One iteration that starts with a new block of ids [z]. *)
Lemma grown_sub k V d used pend z x nb V1 V' : grown k V d used pend → new_blocks = used ++ z :: x :: nb →
  156 <= k < 156 + 128 * 128 → (k - 156) mod 128 = 0 → pend = (if k =? 156 then [indirect2 d] else []) →
  word_set V (indirect2 d) ((k - 156) / 128) z V1 → word_set V1 z 0 x V' →
  grown (S k) V' d (used ++ [z; x]) [].
Proof.
  intros HG Hnb Hk Hb Hpend Hw1 Hw. pose proof (grown_nodup _ _ _ _ _ _ HG Hnb) as Hn.
  apply NoDup_app in Hn as (_ & _ & Hn). rewrite (metas_pend V d k pend) in Hn by (done || lia).
  destruct HG as [(xs & ms & Hx & Hm & Hp) B C D E]. pose proof (new_u32 used z (x :: nb) Hnb) as Hz32.
  rewrite cons_middle, app_assoc in Hnb. pose proof (new_u32 (used ++ [z]) x nb Hnb) as Hx32.
  assert (∃ L, L = ind V (indirect2 d) <$> seq 0 (subs k)) as [L HL] by eauto. rewrite <- HL in Hn.
  assert (NoDup (indirect1 d :: indirect2 d :: L ++ [z])) as Hn2.
  { replace ((indirect1 d :: indirect2 d :: L) ++ z :: x :: nb) with
      ((indirect1 d :: indirect2 d :: L ++ [z]) ++ x :: nb) in Hn by (simpl; by rewrite <- app_assoc).
    by apply NoDup_app in Hn as (Hn & _ & _). }
  apply NoDup_app in Hn as (Hn & Hz & _).
  destruct (grow_sub V d k z V1) as (G1 & G2 & G3); try (done || lia); [by rewrite <- HL|]. rewrite <- HL in G2.
  rewrite <- Hb, <- G3 in Hw at 1.
  destruct (grow_leaf V1 d k x V' ltac:(lia)) as [Gd Gm]; [by eapply word_set_ok|done|by rewrite G2|done|].
  assert (metas V' d (S k) = (metas V d k ++ pend) ++ [z]) as Hmm.
  { rewrite Gm, G2, (metas_pend V d k pend), <- HL by (done || lia). done. }
  split.
  - exists (xs ++ [x]), (ms ++ pend ++ [z]). rewrite Gd, G1, Hx, Hmm, Hm, !app_assoc.
    split_and!; [done|done|]. rewrite Hp. solve_Permutation.
  - eapply word_set_ok; [|exact Hw]. by eapply word_set_ok.
  - rewrite Hmm. intros c Hc _. rewrite !not_elem_of_app, list_elem_of_singleton in Hc. destruct Hc as [[Hc1 Hc2] Hc3].
    rewrite Hw, G3, decide_False by done. rewrite Hw1, decide_False; [by apply C|]. intros ->.
    assert (indirect2 d ∈ metas V d k ++ pend) as Hin; [|apply elem_of_app in Hin; tauto].
    rewrite (metas_pend V d k pend) by (done || lia). right. by left.
  - done.
  - done.
Qed.
End growth.

(** A block of a disk replaced. *)
Definition upd (V : Z → list Z) (c : Z) (b : list Z) : Z → list Z := λ c', if decide (c' = c) then b else V c'.

Lemma word_set_upd V c k x ws : words (V c) = ws → word_set V c k x (upd V c (unwords (<[k := x]> ws))).
Proof. by intros <- c'. Qed.

Lemma upd_words V c : disk_ok V → ∀ c', upd V c (unwords (words (V c))) c' = V c'.
Proof. intros HV c'. unfold upd. case_decide as E; [|done]. rewrite E. apply unwords_words, HV. Qed.

(** The size in blocks, and the largest file. *)
Definition nblocks (sz : Z) : nat := Z.to_nat (data_blocks_of sz).
Definition MAX_BLOCKS : nat := 156 + 128 * 128.
Definition MAX_SIZE : Z := INDIRECT2_BOUND * 512.

Lemma data_blocks_of_small sz : 0 <= sz <= MAX_SIZE → data_blocks_of sz = (sz + 511) / 512.
Proof.
  intros H. unfold data_blocks_of, MAX_SIZE, INDIRECT2_BOUND, INDIRECT1_BOUND, DIRECT_BOUND, INODE_DIRECT_COUNT,
    INODE_INDIRECT2_COUNT, INODE_INDIRECT1_COUNT in *.
  rewrite (wrap32_small (sz + 512)) by (unfold is_u32, U32; lia). rewrite wrap32_small by (unfold is_u32, U32; lia).
  f_equal. lia.
Qed.

Lemma nblocks_Z sz : 0 <= sz <= MAX_SIZE → Z.of_nat (nblocks sz) = data_blocks_of sz.
Proof.
  intros H. unfold nblocks. rewrite Z2Nat.id; [done|]. rewrite data_blocks_of_small by done. apply Z.div_pos; lia.
Qed.

Lemma nblocks_spec sz : 0 <= sz <= MAX_SIZE →
  sz <= 512 * Z.of_nat (nblocks sz) < sz + 512 ∧ (Z.of_nat (nblocks sz) <= 16540).
Proof.
  intros H. rewrite nblocks_Z, data_blocks_of_small by done.
  unfold MAX_SIZE, INDIRECT2_BOUND, INDIRECT1_BOUND, DIRECT_BOUND, INODE_DIRECT_COUNT,
    INODE_INDIRECT2_COUNT, INODE_INDIRECT1_COUNT in H. Z.div_mod_to_equations. lia.
Qed.

Lemma nblocks_max sz : 0 <= sz <= MAX_SIZE → (nblocks sz <= MAX_BLOCKS)%nat.
Proof. intros H. destruct (nblocks_spec sz H). unfold MAX_BLOCKS. lia. Qed.

Lemma nblocks_mono a b : 0 <= a <= b → b <= MAX_SIZE → (nblocks a <= nblocks b)%nat.
Proof. intros H Hb. pose proof (nblocks_spec a). pose proof (nblocks_spec b). lia. Qed.

(** [total_blocks] counts the data blocks and the blocks of ids. *)
Lemma total_blocks_tot sz : 0 <= sz <= MAX_SIZE → total_blocks sz = Z.of_nat (tot (nblocks sz)).
Proof.
  intros H. destruct (nblocks_spec sz H) as [_ Hle]. unfold total_blocks. rewrite <- nblocks_Z by done.
  set (n := nblocks sz) in *. unfold tot, subs, INDIRECT1_BOUND, DIRECT_BOUND, INODE_DIRECT_COUNT, INODE_INDIRECT1_COUNT.
  rewrite Nat2Z.inj_add, Nat2Z.inj_div. replace (28 + 128) with 156 by done.
  assert (∀ z, 0 <= z <= 40000 → wrap32 z = z) as Hwr by (intros z Hz; apply wrap32_small; unfold is_u32, U32; lia).
  assert (0 <= (Z.of_nat n - 156 + 128 - 1) / 128 <= 16384 ∨ Z.of_nat n <= 156) as Hd by (Z.div_mod_to_equations; lia).
  destruct (Z.ltb_spec 28 (Z.of_nat n)), (Z.ltb_spec 156 (Z.of_nat n)), (Nat.ltb_spec 28 n), (Nat.ltb_spec 156 n);
    try lia; rewrite Hwr by lia.
  - replace (Z.of_nat (n - 156 + 127)) with (Z.of_nat n - 156 + 128 - 1) by lia. lia.
  - replace (n - 156 + 127)%nat with 127%nat by lia. change (Z.of_nat 127 / Z.of_nat 128) with 0. lia.
  - replace (n - 156 + 127)%nat with 127%nat by lia. change (Z.of_nat 127 / Z.of_nat 128) with 0. lia.
Qed.

(** ** The loops of [increase_size] *)

Section increase_size.
Context {St : Type} {BS : BlockStore St} {ok : St → Prop} {view : St → Z → list Z} {spec : BlockStoreSpec St ok view}.
Implicit Types (s : St) (d : DiskInode).

Lemma wp_arr_get (l : list Z) i (Q : Z → St → Prop) s : (i < length l)%nat → Q (l !!! i) s → wp (arr_get l (Z.of_nat i)) Q s.
Proof.
  intros Hi HQ. apply wp_unwrap with (l !!! i); [|done]. rewrite Nat2Z.id. by apply list_lookup_lookup_total_lt.
Qed.

Lemma wp_arr_set (l : list Z) i x (Q : list Z → St → Prop) s :
  (i < length l)%nat → Q (<[i := x]> l) s → wp (arr_set l (Z.of_nat i) x) Q s.
Proof. intros Hi HQ. unfold arr_set. rewrite Nat2Z.id. by rewrite bool_decide_true by done. Qed.

Lemma wp_fill_words (I : nat → list Z → list Z → Prop) m : ∀ j ws nb (Q : Z * list Z * list Z → St → Prop) s,
  I j ws nb →
  (∀ i ws nb, (j <= i < j + m)%nat → I i ws nb →
     (i < length ws)%nat ∧ ∃ x nb', nb = x :: nb' ∧ I (S i) (<[i := x]> ws) nb') →
  (∀ ws' nb', I (j + m)%nat ws' nb' → Q (Z.of_nat (j + m), ws', nb') s) →
  wp (fill_words m (Z.of_nat j) ws nb) Q s.
Proof.
  induction m as [|m IH]; intros j ws nb Q s HI Hstep HQ.
  - rewrite Nat.add_0_r in HQ. by apply wp_ret, HQ.
  - cbn [fill_words]. destruct (Hstep j ws nb ltac:(lia) HI) as (Hj & x & nb' & -> & HI').
    apply wp_bind, wp_ret, wp_bind, wp_arr_set; [done|]. replace (Z.of_nat j + 1) with (Z.of_nat (S j)) by lia.
    apply IH; [done| |].
    + intros i ws' nb Hi. apply Hstep. lia.
    + replace (S j + m)%nat with (j + S m)%nat by lia. done.
Qed.

Context (V0 : Z → list Z) (d0 : DiskInode) (n0 n1 : nat) (new_blocks : list Z).
Context (Hnd : NoDup (blocks_of V0 d0 n0 ++ new_blocks)) (Hu : u32s new_blocks).
Context (Hlen : (length new_blocks + tot n0 = tot n1)%nat) (Hmax : (n1 <= MAX_BLOCKS)%nat).

Let grown := grown V0 d0 n0.

(** While the inode is short, the blocks have not run out. *)
Lemma grown_more k V d used pend nb : grown k V d used pend → new_blocks = used ++ nb → (k < n1)%nat →
  (tot (S k) <= tot k + length pend + length nb)%nat.
Proof.
  intros HG E Hk. pose proof (grown_length V0 d0 n0 new_blocks _ _ _ _ _ _ HG E). pose proof (tot_mono (S k) n1 Hk). lia.
Qed.

Lemma grown_all V d used nb : grown n1 V d used [] → new_blocks = used ++ nb → nb = [] ∧ used = new_blocks.
Proof.
  intros HG E. pose proof (grown_length V0 d0 n0 new_blocks _ _ _ _ _ _ HG E) as H. simpl in H.
  destruct nb; [|simpl in H; lia]. split; [done|]. by rewrite E, app_nil_r.
Qed.

Definition phase1_inv d V j ws nb : Prop :=
  ∃ used, new_blocks = used ++ nb ∧ grown j V (set_direct ws d) used [].

Lemma phase1_step d V j ws nb : (j < 28)%nat → (j < n1)%nat → phase1_inv d V j ws nb →
  (j < length ws)%nat ∧ ∃ x nb', nb = x :: nb' ∧ phase1_inv d V (S j) (<[j := x]> ws) nb'.
Proof.
  intros Hj Hn (used & E & HG). destruct (g_inode _ _ _ _ _ _ _ _ HG) as (_ & Hl & _). simpl in Hl. split; [lia|].
  pose proof (grown_more _ _ _ _ _ _ HG E Hn) as Hm. destruct nb as [|x nb].
  { simpl in Hm. unfold tot in Hm. rewrite !subs_0 in Hm by lia.
    destruct (Nat.ltb_spec 28 j), (Nat.ltb_spec 28 (S j)), (Nat.ltb_spec 156 j), (Nat.ltb_spec 156 (S j)); lia. }
  exists x, nb. split; [done|]. exists (used ++ [x]). split; [by rewrite E, <- app_assoc|].
  by apply (grown_direct V0 d0 n0 new_blocks Hu j V (set_direct ws d) used x nb).
Qed.

(** [V] with the open block of ids [c] holding [ws]. *)
Definition phase2_inv d V j ws nb : Prop :=
  length ws = 128%nat ∧ u32s ws ∧ ∃ used, new_blocks = used ++ nb ∧
    grown (28 + j) (upd V (indirect1 d) (unwords ws)) d used (if (28 + j =? 28)%nat then [indirect1 d] else []).

Lemma phase2_step d V j ws nb : (j < 128)%nat → (28 + j < n1)%nat → phase2_inv d V j ws nb →
  (j < length ws)%nat ∧ ∃ x nb', nb = x :: nb' ∧ phase2_inv d V (S j) (<[j := x]> ws) nb'.
Proof.
  intros Hj Hn (Hl & Hws & used & E & HG). split; [lia|].
  pose proof (grown_more _ _ _ _ _ _ HG E Hn) as Hm. destruct nb as [|x nb].
  { change (length (@nil Z)) with 0%nat in Hm. unfold tot in Hm. rewrite !subs_0 in Hm by lia.
    destruct (Nat.eqb_spec (28 + j) 28), (Nat.ltb_spec 28 (28 + j)), (Nat.ltb_spec 28 (S (28 + j))),
      (Nat.ltb_spec 156 (28 + j)), (Nat.ltb_spec 156 (S (28 + j))); simpl length in Hm; lia. }
  exists x, nb. split; [done|]. split_and!; [by rewrite length_insert| |].
  { apply u32s_insert; [done|]. exact (new_u32 new_blocks Hu used x nb E). }
  exists (used ++ [x]). split; [by rewrite E, <- app_assoc|].
  rewrite Nat.add_succ_r. destruct (Nat.eqb_spec (S (28 + j)) 28); [lia|].
  eapply (grown_indirect1 V0 d0 n0 new_blocks Hnd Hu); [exact HG|exact E|lia|done|].
  replace (28 + j - 28)%nat with j by lia. intros c. unfold upd. rewrite (decide_True _ _ eq_refl), words_unwords by done.
  by case_decide.
Qed.

Definition phase3_inv d V k ws nb : Prop :=
  length ws = 128%nat ∧ u32s ws ∧ (156 <= k)%nat ∧ ∃ used, new_blocks = used ++ nb ∧
    grown k (upd V (indirect2 d) (unwords ws)) d used (if (k =? 156)%nat then [indirect2 d] else []).

Lemma index_next k : (156 <= k)%nat →
  (if Z.of_nat ((k - 156) mod 128) + 1 =? 128 then (Z.of_nat ((k - 156) / 128) + 1, 0)
   else (Z.of_nat ((k - 156) / 128), Z.of_nat ((k - 156) mod 128) + 1)) =
  (Z.of_nat ((S k - 156) / 128), Z.of_nat ((S k - 156) mod 128)).
Proof.
  intros Hk. replace (S k - 156)%nat with (k - 156 + 1)%nat by lia. rewrite !Nat2Z.inj_div, !Nat2Z.inj_mod, Nat2Z.inj_add.
  destruct (Z.eqb_spec (Z.of_nat (k - 156) mod Z.of_nat 128 + 1) 128); f_equal; Z.div_mod_to_equations; lia.
Qed.

Lemma index_lt k n : (156 <= k)%nat → (156 <= n)%nat →
  (Z.of_nat ((k - 156) / 128) <? Z.of_nat ((n - 156) / 128)) ||
  ((Z.of_nat ((k - 156) / 128) =? Z.of_nat ((n - 156) / 128)) &&
   (Z.of_nat ((k - 156) mod 128) <? Z.of_nat ((n - 156) mod 128))) = (k <? n)%nat.
Proof.
  intros Hk Hn. rewrite !Nat2Z.inj_div, !Nat2Z.inj_mod. destruct (Nat.ltb_spec k n);
    zcase; rewrite ?orb_true_r, ?orb_false_r; try done; exfalso; Z.div_mod_to_equations; lia.
Qed.

(** One word is written through the handle of the block [id], while the block [c] is open. *)
Lemma wp_leaf {A} (K : list Z → M St A) id c ws b0 x nb (Q : A → St → Prop) s : ok s → id ≠ c → (b0 < 128)%nat →
  (∀ s', ok s' → word_set (upd (view s) c (unwords ws)) id b0 x (upd (view s') c (unwords ws)) → wp (K nb) Q s') →
  wp (let! b := bs_get id in
      let! (x, nb) := next_unwrap (x :: nb) in
      let! ws := arr_set (words b) (Z.of_nat b0) x in
      bs_put id (unwords ws) ;;; K nb) Q s.
Proof.
  intros Hok Hne Hb HK. apply wp_bind, wp_bs_get; [done|]. intros s1 Hok1 Hv1.
  apply wp_bind, wp_ret, wp_bind, wp_arr_set; [by rewrite words_length|].
  apply wp_bind, wp_bs_put; [done|rewrite unwords_length, length_insert, words_length; done|].
  intros s2 Hok2 Hv2. apply HK; [done|]. intros c'. unfold upd. rewrite Hv2, Hv1, (decide_False (P := id = c)) by done.
  by destruct (decide (c' = c)) as [->|]; [rewrite decide_False by done|].
Qed.

Lemma wp_fill_indirect2 d (Hn1 : (156 < n1)%nat) fuel : ∀ k s ws nb (Q : list Z → St → Prop), ok s →
  phase3_inv d (view s) k ws nb → (k + fuel = n1)%nat →
  (∀ ws' s', ok s' → length ws' = 128%nat → u32s ws' →
     grown n1 (upd (view s') (indirect2 d) (unwords ws')) d new_blocks [] → Q ws' s') →
  wp (fill_indirect2 fuel (Z.of_nat ((k - 156) / 128)) (Z.of_nat ((k - 156) mod 128))
        (Z.of_nat ((n1 - 156) / 128)) (Z.of_nat ((n1 - 156) mod 128)) ws nb) Q s.
Proof.
  induction fuel as [|fuel IH]; intros k s ws nb Q Hok (Hl & Hws & Hk & used & E & HG) Hf HQ; cbn [fill_indirect2].
  { rewrite index_lt by lia. destruct (Nat.ltb_spec k n1); [lia|]. apply wp_ret. replace k with n1 in HG by lia.
    destruct (Nat.eqb_spec n1 156); [lia|]. destruct (grown_all _ _ _ _ HG E) as [_ ->]. by apply HQ. }
  rewrite index_lt by lia. destruct (Nat.ltb_spec k n1) as [Hkn|]; [|lia].
  pose proof (grown_more _ _ _ _ _ _ HG E Hkn) as Hm.
  assert ((k - 156) / 128 < 128)%nat as Ha by (unfold MAX_BLOCKS in Hmax; apply Nat.Div0.div_lt_upper_bound; lia).
  pose proof (Nat.mod_upper_bound (k - 156) 128 ltac:(lia)) as Hb.
  destruct (subs_S k Hk) as [Es Es'].
  assert (∀ ws', length ws' = 128%nat → u32s ws' → words (upd (view s) (indirect2 d) (unwords ws') (indirect2 d)) = ws') as Hwu.
  { intros ws' Hl' Hu'. unfold upd. rewrite decide_True by done. by apply words_unwords. }
  destruct (Z.eqb_spec (Z.of_nat ((k - 156) mod 128)) 0) as [Eb|Eb].
  - assert ((k - 156) mod 128 = 0)%nat as Eb' by lia. rewrite Eb', Nat.eqb_refl in Es.
    assert (2 <= length nb)%nat as Hnb.
    { unfold tot in Hm. rewrite Es' in Hm. rewrite <- Es in Hm.
      destruct (Nat.eqb_spec k 156), (Nat.ltb_spec 28 k), (Nat.ltb_spec 28 (S k)), (Nat.ltb_spec 156 k), (Nat.ltb_spec 156 (S k));
        simpl length in Hm; lia. }
    destruct nb as [|z [|x nb]]; simpl in Hnb; [lia|lia|].
    assert (is_u32 z) as Hz32 by exact (new_u32 _ Hu used z (x :: nb) E).
    pose proof (fresh_indirect2 V0 d0 n0 new_blocks Hnd _ _ _ _ _ z (x :: nb) HG E Hk eq_refl) as Hz.
    apply wp_bind, wp_bind, wp_ret, wp_bind, wp_arr_set; [lia|]. apply wp_ret, wp_bind, wp_arr_get; [rewrite length_insert; lia|].
    rewrite list_lookup_total_insert_eq by lia.
    apply wp_leaf with (c := indirect2 d) (ws := <[((k - 156) / 128)%nat := z]> ws); [done|done|done|].
    intros s' Hok' Hw. unfold INODE_INDIRECT1_COUNT. rewrite index_next by done.
    apply IH; [done| |lia|done].
    split_and!; [by rewrite length_insert|by apply u32s_insert|lia|]. exists (used ++ [z; x]).
    split; [by rewrite E, <- app_assoc|]. destruct (Nat.eqb_spec (S k) 156); [lia|]. rewrite Eb' in Hw.
    eapply (grown_sub V0 d0 n0 new_blocks Hnd Hu); [exact HG|exact E|unfold MAX_BLOCKS in Hmax; lia|done|done| |exact Hw].
    intros c. rewrite Hwu by done. unfold upd. by destruct (decide (c = indirect2 d)).
  - assert ((k - 156) mod 128 ≠ 0)%nat as Eb' by lia. destruct (Nat.eqb_spec ((k - 156) mod 128) 0) as [|_]; [done|].
    assert (156 < k)%nat as Hk' by (destruct (decide (k = 156)%nat) as [->|]; [done|lia]).
    destruct (Nat.eqb_spec k 156); [lia|]. destruct nb as [|x nb].
    { unfold tot in Hm. rewrite Es' in Hm. rewrite <- Es in Hm. change (length (@nil Z)) with 0%nat in Hm.
      destruct (Nat.ltb_spec 28 k), (Nat.ltb_spec 28 (S k)), (Nat.ltb_spec 156 k), (Nat.ltb_spec 156 (S k)); lia. }
    pose proof (sub_indirect2 V0 d0 n0 new_blocks Hnd _ _ _ _ _ ((k - 156) / 128)%nat HG E Hk' ltac:(lia)) as Hz.
    assert (ind (upd (view s) (indirect2 d) (unwords ws)) (indirect2 d) ((k - 156) / 128)%nat = ws !!! ((k - 156) / 128)%nat) as Ez.
    { unfold ind. by rewrite Hwu. }
    rewrite Ez in Hz. apply wp_bind, wp_ret, wp_bind, wp_arr_get; [lia|].
    apply wp_leaf with (c := indirect2 d) (ws := ws); [done|done|done|].
    intros s' Hok' Hw. unfold INODE_INDIRECT1_COUNT. rewrite index_next by done.
    apply IH; [done| |lia|done].
    split_and!; [done|done|lia|]. exists (used ++ [x]).
    split; [by rewrite E, <- app_assoc|]. destruct (Nat.eqb_spec (S k) 156); [lia|].
    eapply (grown_leaf V0 d0 n0 new_blocks Hnd Hu); [exact HG|exact E|done|done|]. by rewrite Ez.
Qed.

Lemma wp_increase_indirect2 d k used nb (Q : DiskInode → St → Prop) s : ok s →
  k = Nat.max n0 (Nat.min n1 156) → (28 < k)%nat → (n0 <= n1)%nat → grown k (view s) d used [] → new_blocks = used ++ nb →
  (∀ d' s', ok s' → grown n1 (view s') d' new_blocks [] → size d' = size d → Q d' s') →
  wp (increase_indirect2 d (Z.of_nat k - 28) (Z.of_nat n1 - 28) nb) Q s.
Proof.
  intros Hok Hk Hk28 Hn HG E HQ. unfold increase_indirect2, INODE_INDIRECT1_COUNT.
  destruct (Z.ltb_spec 128 (Z.of_nat n1 - 28)).
  2: { replace k with n1 in HG by lia. destruct (grown_all _ _ _ _ HG E) as [_ Eu]. rewrite Eu in HG.
       apply wp_ret. by apply HQ. }
  apply wp_bind.
  assert (wp (if Z.of_nat k - 28 =? 128 then
                let! (x, nb) := next_unwrap nb in m_ret (set_indirect2 x d, nb)
              else m_ret (d, nb))
    (λ '(d', nb') s', s' = s ∧ size d' = size d ∧ ∃ used', new_blocks = used' ++ nb' ∧
       grown k (view s) d' used' (if (k =? 156)%nat then [indirect2 d'] else [])) s) as Hchoose.
  { destruct (Z.eqb_spec (Z.of_nat k - 28) 128), (Nat.eqb_spec k 156); try lia; [|by apply wp_ret; eauto].
    subst k. replace (Nat.max n0 (Nat.min n1 156)) with 156%nat in * by lia.
    pose proof (grown_more _ _ _ _ _ _ HG E ltac:(lia)) as Hm. destruct nb as [|x nb]; [vm_compute tot in Hm; simpl in Hm; lia|].
    apply wp_bind, wp_ret, wp_ret. split_and!; [done|done|]. exists (used ++ [x]). split; [by rewrite E, <- app_assoc|].
    by eapply (grown_alloc2 V0 d0 n0 new_blocks Hnd Hu). }
  eapply wp_mono; [exact Hchoose|]. intros [d1 nb1] s1 (-> & Hsz & used1 & E1 & HG1).
  apply wp_bind, wp_bs_get; [done|]. intros s1 Hok1 Hv1. apply wp_bind.
  replace (Z.of_nat k - 28 - 128) with (Z.of_nat (k - 156)) by lia.
  replace (Z.of_nat n1 - 28 - 128) with (Z.of_nat (n1 - 156)) by lia.
  rewrite <- !(Nat2Z.inj_div _ 128), <- !(Nat2Z.inj_mod _ 128).
  assert (disk_ok (view s)) as Hd by apply (g_ok _ _ _ _ _ _ _ _ HG1).
  apply (wp_fill_indirect2 d1); [lia|done| |lia|].
  - split_and!; [apply words_length|apply words_u32, Hd|lia|]. exists used1. split; [done|].
    eapply grown_ext; [|exact HG1]. intros c. unfold upd. case_decide as Ec; [|apply Hv1].
    rewrite Ec. by apply unwords_words.
  - intros ws' s2 Hok2 Hl2 _ HG2. apply wp_bind, wp_bs_put; [done|by rewrite unwords_length, Hl2|].
    intros s3 Hok3 Hv3. apply wp_ret, HQ; [done| |done]. by eapply grown_ext; [|exact HG2].
Qed.

Lemma wp_increase_indirect1 d k used nb (Q : DiskInode → St → Prop) s : ok s →
  k = Nat.max n0 (Nat.min n1 28) → (n0 <= n1)%nat → grown k (view s) d used [] → new_blocks = used ++ nb →
  (∀ d' s', ok s' → grown n1 (view s') d' new_blocks [] → size d' = size d → Q d' s') →
  wp (increase_indirect1 d (Z.of_nat k) (Z.of_nat n1) nb) Q s.
Proof.
  intros Hok Hk Hn HG E HQ. unfold increase_indirect1, INODE_DIRECT_COUNT, INODE_INDIRECT1_COUNT.
  destruct (Z.ltb_spec 28 (Z.of_nat n1)).
  2: { replace k with n1 in HG by lia. destruct (grown_all _ _ _ _ HG E) as [_ Eu]. rewrite Eu in HG.
       apply wp_ret. by apply HQ. }
  apply wp_bind.
  assert (wp (if Z.of_nat k =? 28 then
                let! (x, nb) := next_unwrap nb in m_ret (set_indirect1 x d, nb)
              else m_ret (d, nb))
    (λ '(d', nb') s', s' = s ∧ size d' = size d ∧ ∃ used', new_blocks = used' ++ nb' ∧
       grown k (view s) d' used' (if (k =? 28)%nat then [indirect1 d'] else [])) s) as Hchoose.
  { destruct (Z.eqb_spec (Z.of_nat k) 28), (Nat.eqb_spec k 28); try lia; [|by apply wp_ret; eauto].
    subst k. replace (Nat.max n0 (Nat.min n1 28)) with 28%nat in * by lia.
    pose proof (grown_more _ _ _ _ _ _ HG E ltac:(lia)) as Hm. destruct nb as [|x nb]; [vm_compute tot in Hm; simpl in Hm; lia|].
    apply wp_bind, wp_ret, wp_ret. split_and!; [done|done|]. exists (used ++ [x]). split; [by rewrite E, <- app_assoc|].
    by eapply (grown_alloc1 V0 d0 n0 new_blocks Hnd Hu). }
  eapply wp_mono; [exact Hchoose|]. intros [d1 nb1] s1 (-> & Hsz & used1 & E1 & HG1).
  apply wp_bind, wp_bs_get; [done|]. intros s1 Hok1 Hv1. apply wp_bind.
  assert (disk_ok (view s)) as Hd by apply (g_ok _ _ _ _ _ _ _ _ HG1).
  set (m := Z.to_nat (Z.min (Z.of_nat n1 - 28) 128 - (Z.of_nat k - 28))).
  replace (Z.of_nat k - 28) with (Z.of_nat (k - 28)) by lia.
  apply (wp_fill_words (phase2_inv d1 (view s)) m).
  - split_and!; [apply words_length|apply words_u32, Hd|]. exists used1. split; [done|].
    replace (28 + (k - 28))%nat with k by lia. eapply grown_ext; [|exact HG1]. by apply upd_words.
  - intros i ws nb' Hi. apply phase2_step; lia.
  - intros ws nb' (Hl & _ & used2 & E2 & HG2). apply wp_bind, wp_bs_put; [done|by rewrite unwords_length, Hl|].
    intros s2 Hok2 Hv2. destruct (Nat.eqb_spec (28 + (k - 28 + m)) 28); [lia|].
    replace (Z.of_nat (k - 28 + m)) with (Z.of_nat (28 + (k - 28 + m)) - 28) by lia.
    eapply (wp_increase_indirect2 d1); [done|lia|lia|done| |exact E2|].
    + eapply grown_ext; [|exact HG2]. intros c. rewrite Hv2, Hv1. done.
    + intros d' s' Hok' HG' Hsz'. apply HQ; [done|done|congruence].
Qed.

Lemma wp_increase_size new_size (Q : DiskInode → St → Prop) s : ok s → (∀ c, view s c = V0 c) → disk_ok V0 → inode_ok d0 →
  0 <= size d0 <= new_size → new_size <= MAX_SIZE → n0 = nblocks (size d0) → n1 = nblocks new_size →
  (∀ d' s', ok s' → grown n1 (view s') d' new_blocks [] → size d' = new_size → Q d' s') →
  wp (DiskInode_increase_size d0 new_size new_blocks) Q s.
Proof.
  intros Hok Hv HV (D1 & D2 & D3 & D4 & D5) Hsz Hmx E0 E1 HQ. unfold DiskInode_increase_size, data_blocks, INODE_DIRECT_COUNT.
  simpl size. rewrite <- !nblocks_Z, <- E0, <- E1 by lia.
  assert (n0 <= n1)%nat as Hn by (rewrite E0, E1; apply nblocks_mono; lia).
  set (m := Z.to_nat (Z.min (Z.of_nat n1) 28 - Z.of_nat n0)). apply wp_bind.
  apply (wp_fill_words (phase1_inv (set_size new_size d0) (view s)) m).
  - exists []. split; [done|]. eapply grown_ext; [exact Hv|]. split.
    + exists [], []. rewrite !app_nil_r. by split_and!.
    + done.
    + done.
    + split_and!; simpl; try done. change MAX_SIZE with 8468480 in Hmx. unfold is_u32, U32. lia.
    + done.
  - intros i ws nb' Hi. apply phase1_step; lia.
  - intros ws nb' (used & E & HG). by eapply wp_increase_indirect1; [done|lia|done|exact HG|exact E|].
Qed.
End increase_size.

(** ** Clearing an inode *)

Section clear_lists.
#[local] Open Scope nat_scope.
Implicit Types (V : Z → list Z) (d : DiskInode).

Lemma words_seq (b : list Z) m : m <= 128 → take m (words b) = (λ i, words b !!! i) <$> seq 0 m.
Proof.
  intros Hm. apply list_eq_same_length with m; [by rewrite length_fmap, length_seq|rewrite length_take, words_length; lia|].
  intros i x y Hi Hx Hy. rewrite lookup_take_lt in Hx by done. apply list_lookup_total_correct in Hx.
  rewrite list_lookup_fmap, lookup_seq_lt in Hy by done. simpl in Hy. congruence.
Qed.

(** The data blocks under entry [a] of the doubly indirect block. *)
Lemma blk_leaf V d a m : m <= 128 →
  blk V d <$> seq (156 + a * 128) m = take m (words (V (ind V (indirect2 d) a))).
Proof.
  intros Hm. rewrite words_seq by done. rewrite <- (Nat.add_0_r (156 + a * 128)), <- fmap_add_seq, <- list_fmap_compose.
  apply list_fmap_ext. intros i x [-> Hi]%lookup_seq. unfold compose, blk.
  rewrite Nat.add_0_l. set (t := 156 + a * 128 + i). assert (t - 156 = a * 128 + i) as -> by lia.
  destruct (Nat.ltb_spec t 28); [lia|]. destruct (Nat.ltb_spec t 156); [lia|].
  rewrite Nat.div_add_l, (Nat.div_small i), Nat.add_0_r by lia.
  by rewrite Nat.add_comm, Nat.Div0.mod_add, Nat.mod_small by lia.
Qed.

Lemma blk_leaves V d a : blk V d <$> seq 156 (a * 128) = concat ((λ e, words (V e)) <$> (ind V (indirect2 d) <$> seq 0 a)).
Proof.
  induction a as [|a IH]; [done|]. replace (S a * 128) with (a * 128 + 128) by lia.
  rewrite seq_app, fmap_app, IH, blk_leaf by lia. rewrite (seq_S a 0), !fmap_app, concat_app. by f_equal.
Qed.

Lemma blk_indirect1 V d m : m <= 128 → blk V d <$> seq 28 m = ind V (indirect1 d) <$> seq 0 m.
Proof.
  intros Hm. rewrite <- (Nat.add_0_r 28), <- (fmap_add_seq 28 0 m), <- list_fmap_compose. apply list_fmap_ext.
  intros i x [-> Hi]%lookup_seq. unfold compose, blk. destruct (Nat.ltb_spec (28 + (0 + i)) 28); [lia|].
  destruct (Nat.ltb_spec (28 + (0 + i)) 156); [|lia]. f_equal. lia.
Qed.

Lemma blk_indirect2 V d d' m : indirect2 d' = indirect2 d → blk V d' <$> seq 156 m = blk V d <$> seq 156 m.
Proof.
  intros E. apply list_fmap_ext. intros i x [-> Hi]%lookup_seq. unfold blk.
  destruct (Nat.ltb_spec (156 + i) 28); [lia|]. destruct (Nat.ltb_spec (156 + i) 156); [lia|]. by rewrite E.
Qed.

Lemma blk_direct V d m : m <= 28 → blk V d <$> seq 0 m = (λ i, direct d !!! i) <$> seq 0 m.
Proof.
  intros Hm. apply list_fmap_ext. intros i x [-> Hi]%lookup_seq. unfold blk.
  by destruct (Nat.ltb_spec (0 + i) 28); [|lia].
Qed.

Lemma concat_cons_perm {A} (f : A → list A) (l : list A) : concat ((λ e, e :: f e) <$> l) ≡ₚ l ++ concat (f <$> l).
Proof. induction l as [|x l IH]; [done|]. rewrite !fmap_cons. simpl. rewrite IH. solve_Permutation. Qed.
End clear_lists.

Section clear_size.
Context {St : Type} {BS : BlockStore St} {ok : St → Prop} {view : St → Z → list Z} {spec : BlockStoreSpec St ok view}.
Implicit Types (s : St) (d : DiskInode).

Lemma wp_take_direct m : ∀ j l v (Q : list Z * list Z → St → Prop) s, (j + m <= length l)%nat → u32s l →
  (∀ l', length l' = length l → u32s l' → Q (l', v ++ ((λ i, l !!! i) <$> seq j m)) s) →
  wp (take_direct m (Z.of_nat j) l v) Q s.
Proof.
  induction m as [|m IH]; intros j l v Q s Hj Hu HQ; cbn [take_direct].
  - apply wp_ret. rewrite <- (app_nil_r v). by apply HQ.
  - apply wp_bind, wp_arr_get; [lia|]. apply wp_bind, wp_arr_set; [lia|].
    replace (Z.of_nat j + 1) with (Z.of_nat (S j)) by lia. apply IH.
    + rewrite length_insert. lia.
    + by apply u32s_insert.
    + intros l' Hl Hu'. rewrite length_insert in Hl. specialize (HQ l' Hl Hu'). rewrite <- cons_seq, fmap_cons in HQ.
      rewrite <- app_assoc. simpl. erewrite list_fmap_ext; [exact HQ|].
      intros i x [-> Hi]%lookup_seq. apply list_lookup_total_insert_ne. lia.
Qed.

Lemma wp_push_words m : ∀ j ws v (Q : list Z → St → Prop) s, (j + m <= length ws)%nat →
  Q (v ++ ((λ i, ws !!! i) <$> seq j m)) s → wp (push_words m (Z.of_nat j) ws v) Q s.
Proof.
  induction m as [|m IH]; intros j ws v Q s Hj HQ; cbn [push_words].
  - apply wp_ret. by rewrite app_nil_r in HQ.
  - apply wp_bind, wp_arr_get; [lia|]. replace (Z.of_nat j + 1) with (Z.of_nat (S j)) by lia. apply IH; [lia|].
    by rewrite <- app_assoc.
Qed.

Lemma wp_push_indirect1 n v e (Q : list Z → St → Prop) s : ok s →
  (∀ s', ok s' → (∀ c, view s' c = view s c) → Q (v ++ e :: take n (words (view s e))) s') →
  wp (push_indirect1 n v e) Q s.
Proof.
  intros Hok HQ. apply wp_bind, wp_bs_get; [done|]. intros s1 Hok1 Hv1.
  apply wp_bind, wp_bs_put; [done|by eapply view_length|]. intros s2 Hok2 Hv2. apply wp_ret.
  rewrite <- app_assoc. apply HQ; [done|]. intros c. rewrite Hv2, Hv1. by case_decide as E; [rewrite E|].
Qed.

Lemma wp_push_full V l v (Q : list Z → St → Prop) s : ok s → (∀ c, view s c = V c) →
  (∀ s', ok s' → (∀ c, view s' c = V c) → Q (v ++ concat ((λ e, e :: words (V e)) <$> l)) s') →
  wp (m_fold (push_indirect1 128) l v) Q s.
Proof.
  revert v s. induction l as [|e l IH]; intros v s Hok Hv HQ; cbn [m_fold].
  - apply wp_ret. rewrite <- (app_nil_r v). by apply HQ.
  - apply wp_bind, wp_push_indirect1; [done|]. intros s' Hok' Hv'. apply IH; [done|by intros c; rewrite Hv', Hv|].
    intros s'' Hok'' Hv''. rewrite <- app_assoc, Hv, firstn_all2 by (rewrite words_length; lia). by apply HQ.
Qed.

Lemma wp_clear_indirect2 V d m v (Q : list Z * DiskInode → St → Prop) s : ok s → (∀ c, view s c = V c) →
  (156 < 28 + m <= MAX_BLOCKS)%nat →
  (∀ v' s', ok s' → (∀ c, view s' c = V c) →
     v' ≡ₚ v ++ indirect2 d :: (ind V (indirect2 d) <$> seq 0 (subs (28 + m))) ++ (blk V d <$> seq 156 (m - 128)) →
     Q (v', set_indirect2 0 d) s') →
  wp (clear_indirect2 d (Z.of_nat m) v) Q s.
Proof.
  intros Hok Hv Hm HQ. unfold clear_indirect2, INODE_INDIRECT2_COUNT, INODE_INDIRECT1_COUNT, MAX_BLOCKS in *.
  destruct (Z.ltb_spec 128 (Z.of_nat m)); [|lia]. replace (Z.of_nat m - 128) with (Z.of_nat (m - 128)) by lia.
  apply wp_bind, wp_assert; [apply Z.leb_le; lia|]. apply wp_bind, wp_bs_get; [done|]. intros s1 Hok1 Hv1. rewrite Hv.
  rewrite <- (Nat2Z.inj_div _ 128), <- (Nat2Z.inj_mod _ 128), !Nat2Z.id.
  set (a := ((m - 128) / 128)%nat). set (r := ((m - 128) mod 128)%nat).
  assert (m - 128 = a * 128 + r)%nat as Em by (unfold a, r; rewrite Nat.mul_comm; apply Nat.div_mod; lia).
  assert (r < 128)%nat as Hr by (apply Nat.mod_upper_bound; lia).
  assert (a <= 128)%nat as Ha by (apply Nat.Div0.div_le_upper_bound; lia).
  assert (28 + m - 156 = m - 128)%nat as Esub by lia.
  apply wp_bind, (wp_push_full V); [done|by intros c; rewrite Hv1|]. intros s2 Hok2 Hv2.
  rewrite words_seq by done. fold (ind V (indirect2 d)). change (λ i : nat, words (V (indirect2 d)) !!! i) with (ind V (indirect2 d)).
  rewrite Em, seq_app, fmap_app, blk_leaves, blk_leaf in HQ by lia.
  set (full := ind V (indirect2 d) <$> seq 0 a) in *.
  assert (∀ x s', ok s' → (∀ c, view s' c = V c) → x ≡ₚ v ++ indirect2 d :: (ind V (indirect2 d) <$> seq 0 (subs (28 + m))) ++
            concat ((λ e, words (V e)) <$> full) ++ take r (words (V (ind V (indirect2 d) a))) →
          wp (bs_put (indirect2 d) (V (indirect2 d)) ;;; m_ret (x, set_indirect2 0 d)) Q s') as Hend.
  { intros x s' Hok' Hv' Hx. apply wp_bind, wp_bs_put; [done|rewrite <- Hv; by eapply view_length|].
    intros s4 Hok4 Hv4. apply wp_ret, HQ; [done| |done]. intros c. rewrite Hv4, Hv'. by case_decide as E; [rewrite E|]. }
  assert (subs (28 + m) = a + (if (r =? 0)%nat then 0 else 1))%nat as Es.
  { destruct (subs_S (28 + m) ltac:(lia)) as [<- _]. by rewrite Esub. }
  rewrite Es in Hend. destruct (Nat.eqb_spec r 0) as [Er|Er].
  - rewrite Er in *. apply wp_bind, wp_ret, Hend; [done|done|]. rewrite (Nat.add_0_r a). fold full.
    rewrite (concat_cons_perm (λ e, words (V e))). simpl. solve_Permutation.
  - destruct (Z.ltb_spec 0 (Z.of_nat r)); [|lia]. apply wp_bind, wp_bind, wp_arr_get; [rewrite words_length; lia|].
    apply wp_push_indirect1; [done|]. intros s3 Hok3 Hv3. apply Hend; [done|by intros c; rewrite Hv3, Hv2|].
    rewrite Nat.add_1_r, seq_S, fmap_app. fold full. rewrite (concat_cons_perm (λ e, words (V e))), Hv2. fold (ind V (indirect2 d) a).
    set (z := ind V (indirect2 d) a). simpl. fold z. solve_Permutation.
Qed.

(** [clear_size] returns every block of the inode exactly once. *)
Lemma wp_clear_size d (Q : list Z * DiskInode → St → Prop) s : ok s → inode_ok d → 0 <= size d <= MAX_SIZE →
  (∀ v d' s', ok s' → (∀ c, view s' c = view s c) → v ≡ₚ blocks_of (view s) d (nblocks (size d)) →
     inode_ok d' → size d' = 0 → type_ d' = type_ d → Q (v, d') s') →
  wp (clear_size d) Q s.
Proof.
  intros Hok (D1 & D2 & D3 & D4 & D5) Hsz HQ. pose proof (nblocks_max _ Hsz) as Hn. unfold clear_size, data_blocks.
  rewrite <- nblocks_Z by done. set (n := nblocks (size d)) in *. unfold INODE_DIRECT_COUNT.
  replace (Z.min (Z.of_nat n) 28) with (Z.of_nat (n `min` 28)) by lia. rewrite Nat2Z.id.
  assert (is_u32 0) as H0 by done. apply wp_bind, (wp_take_direct _ 0); [simpl; lia|done|]. intros l Hl Hlu. simpl in Hl.
  rewrite app_nil_l. simpl direct. rewrite <- (blk_direct (view s) d) by lia.
  unfold clear_indirect1, INODE_DIRECT_COUNT, INODE_INDIRECT1_COUNT. unfold blocks_of, datas in HQ.
  destruct (Z.ltb_spec 28 (Z.of_nat n)).
  2: { rewrite metas_direct, app_nil_r in HQ by lia. replace (n `min` 28)%nat with n by lia. apply wp_ret.
       apply HQ; try done. split_and!; simpl; (done || congruence). }
  simpl indirect1. apply wp_bind, wp_bs_get; [done|]. intros s1 Hok1 Hv1.
  replace (Z.min (Z.of_nat n - 28) 128) with (Z.of_nat ((n - 28) `min` 128)) by lia. rewrite Nat2Z.id.
  apply wp_bind, (wp_push_words _ 0); [rewrite words_length; lia|].
  change (λ i : nat, words (view s (indirect1 d)) !!! i) with (ind (view s) (indirect1 d)).
  rewrite <- (blk_indirect1 (view s) d) by lia.
  apply wp_bind, wp_bs_put; [done|by eapply view_length|]. intros s2 Hok2 Hv2.
  assert (∀ c, view s2 c = view s c) as Hv by (intros c; rewrite Hv2, Hv1; by case_decide as E; [rewrite E|]).
  replace (n `min` 28)%nat with 28%nat by lia. destruct (decide (n <= 156)%nat).
  - rewrite metas_single in HQ by lia. unfold clear_indirect2, INODE_INDIRECT1_COUNT.
    destruct (Z.ltb_spec 128 (Z.of_nat n - 28)); [lia|]. apply wp_ret. apply HQ; try done.
    + replace (seq 0 n) with (seq 0 28 ++ seq 28 ((n - 28) `min` 128)) by (rewrite <- (seq_app 28); f_equal; lia).
      rewrite fmap_app. solve_Permutation.
    + split_and!; simpl; (done || congruence).
  - replace (Z.of_nat n - 28) with (Z.of_nat (n - 28)) by lia.
    apply (wp_clear_indirect2 (view s)); [done|done|lia|]. intros v s3 Hok3 Hv3 Hp. cbn [indirect2 set_indirect1 set_direct set_size] in Hp.
    apply HQ; try done; [|split_and!; simpl; (done || congruence)]. rewrite Hp, metas_double by lia.
    replace (28 + (n - 28))%nat with n by lia. replace ((n - 28) `min` 128)%nat with 128%nat by lia.
    rewrite (blk_indirect2 _ d) by done.
    replace (seq 0 n) with (seq 0 28 ++ seq 28 128 ++ seq 156 (n - 28 - 128))
      by (rewrite <- (seq_app 128), <- (seq_app 28); f_equal; lia).
    rewrite !fmap_app. simpl indirect2.
    generalize (blk (view s) d <$> seq 0 28), (blk (view s) d <$> seq 28 128), (blk (view s) d <$> seq 156 (n - 28 - 128)),
      (ind (view s) (indirect2 d) <$> seq 0 (subs n)). intros A B C D. clear. simpl. solve_Permutation.
Qed.
End clear_size.

(** ** Reading and writing the bytes of an inode *)

(** The bytes of the data blocks, in order. *)
Definition inode_data (V : Z → list Z) (d : DiskInode) (n : nat) : list Z := concat (V <$> datas V d n).

(** The bytes of the file. *)
Definition file_bytes (V : Z → list Z) (d : DiskInode) : list Z :=
  take (Z.to_nat (size d)) (inode_data V d (nblocks (size d))).

Lemma datas_lookup V d n i : (i < n)%nat → datas V d n !! i = Some (blk V d i).
Proof. intros Hi. unfold datas. rewrite list_lookup_fmap, lookup_seq_lt by done. done. Qed.

Lemma inode_chunks V d n : disk_ok V → Forall (λ b, length b = BLOCK_SZ) (V <$> datas V d n).
Proof. intros HV. apply Forall_fmap, Forall_true. intros c. apply HV. Qed.

Lemma inode_data_length V d n : disk_ok V → length (inode_data V d n) = (512 * n)%nat.
Proof.
  intros HV. unfold inode_data. rewrite (length_chunks 512) by by apply inode_chunks.
  by rewrite length_fmap, datas_length.
Qed.

Lemma datas_fmap_lookup V (V' : Z → list Z) d n i : (i < n)%nat → (V' <$> datas V d n) !!! i = V' (blk V d i).
Proof. intros Hi. rewrite list_lookup_total_alt, list_lookup_fmap, datas_lookup by done. done. Qed.

(** A range of bytes inside block [i]. *)
Lemma inode_read V d n a m : disk_ok V → (a / 512 < n)%nat → (a mod 512 + m <= 512)%nat →
  take m (drop (a mod 512) (V (blk V d (a / 512)))) = take m (drop a (inode_data V d n)).
Proof.
  intros HV Ha Hm. unfold inode_data.
  replace (drop a _) with (drop (512 * (a / 512) + a mod 512) (concat (V <$> datas V d n)))
    by (by rewrite <- Nat.div_mod by lia).
  rewrite (chunk_read 512) by (rewrite ?length_fmap, ?datas_length; (by apply inode_chunks) || lia).
  by rewrite datas_fmap_lookup.
Qed.

(** Block [i] rewritten in place. *)
Lemma inode_write V V' d n a src : disk_ok V → (a / 512 < n)%nat → (a mod 512 + length src <= 512)%nat →
  NoDup (blocks_of V d n) →
  (∀ c, V' c = if decide (c = blk V d (a / 512)) then splice (a mod 512) src (V (blk V d (a / 512))) else V c) →
  datas V' d n = datas V d n ∧ metas V' d n = metas V d n ∧ inode_data V' d n = splice a src (inode_data V d n).
Proof.
  intros HV Ha Hm Hnd HV'. unfold blocks_of in Hnd. apply NoDup_app in Hnd as (Hd & Hdm & _).
  set (i := (a / 512)%nat) in *.
  assert (blk V d i ∈ datas V d n) as Hin by (eapply list_elem_of_lookup_2, datas_lookup; done).
  assert (∀ c, c ∈ metas V d n → V' c = V c) as Hagree.
  { intros c Hc. rewrite HV', decide_False; [done|]. intros ->. by apply (Hdm (blk V d i)). }
  split_and!; [by apply datas_ext|by apply metas_ext|]. unfold inode_data. rewrite (datas_ext V V') by done.
  replace (V' <$> datas V d n) with (<[i := splice (a mod 512) src ((V <$> datas V d n) !!! i)]> (V <$> datas V d n)).
  - rewrite (chunk_write 512) by (rewrite ?length_fmap, ?datas_length; (by apply inode_chunks) || lia).
    unfold i. by rewrite <- Nat.div_mod by lia.
  - rewrite datas_fmap_lookup by done. symmetry. apply list_eq. intros j. destruct (decide (j = i)) as [->|Hj].
    + rewrite list_lookup_insert_eq by (by rewrite length_fmap, datas_length).
      rewrite list_lookup_fmap, datas_lookup by done. simpl. by rewrite HV', decide_True.
    + rewrite list_lookup_insert_ne, !list_lookup_fmap by done. destruct (datas V d n !! j) as [c|] eqn:Hc; [|done].
      simpl. rewrite HV', decide_False; [done|]. intros ->. apply Hj.
      eapply NoDup_lookup; [exact Hd|exact Hc|by apply datas_lookup].
Qed.

Section read_write.
Context {St : Type} {BS : BlockStore St} {ok : St → Prop} {view : St → Z → list Z} {spec : BlockStoreSpec St ok view}.
Implicit Types (s : St) (d : DiskInode).

Lemma wp_get_block_id d i (Q : Z → St → Prop) s : ok s → inode_ok d → (i < MAX_BLOCKS)%nat →
  (∀ s', ok s' → (∀ c, view s' c = view s c) → Q (blk (view s) d i) s') → wp (get_block_id d (Z.of_nat i)) Q s.
Proof.
  intros Hok (_ & Hl & _) Hi HQ. unfold get_block_id, blk, MAX_BLOCKS, INDIRECT1_BOUND, DIRECT_BOUND, INODE_DIRECT_COUNT,
    INODE_INDIRECT1_COUNT in *. destruct (Z.ltb_spec (Z.of_nat i) 28), (Nat.ltb_spec i 28); try lia.
  { apply wp_arr_get; [lia|]. by apply HQ. }
  destruct (Z.ltb_spec (Z.of_nat i) (28 + 128)), (Nat.ltb_spec i 156); try lia.
  - apply wp_bind, wp_bs_get; [done|]. intros s1 Hok1 Hv1. replace (Z.of_nat i - 28) with (Z.of_nat (i - 28)) by lia.
    apply wp_arr_get; [rewrite words_length; lia|]. by apply HQ.
  - apply wp_bind, wp_bs_get; [done|]. intros s1 Hok1 Hv1. replace (Z.of_nat i - (28 + 128)) with (Z.of_nat (i - 156)) by lia.
    rewrite <- (Nat2Z.inj_div _ 128), <- (Nat2Z.inj_mod _ 128). apply wp_bind, wp_arr_get.
    { rewrite words_length. apply Nat.Div0.div_lt_upper_bound. lia. }
    apply wp_bind, wp_bs_get; [done|]. intros s2 Hok2 Hv2. apply wp_arr_get.
    { rewrite words_length. apply Nat.mod_upper_bound. lia. }
    rewrite Hv1. apply HQ; [done|]. intros c. by rewrite Hv2, Hv1.
Qed.

Lemma wp_slice_of (b : list Z) lo len (Q : list Z → St → Prop) s : (lo + len <= length b)%nat →
  Q (take len (drop lo b)) s → wp (slice_of b (Z.of_nat lo) (Z.of_nat len)) Q s.
Proof. intros H HQ. unfold slice_of. rewrite bool_decide_true by lia. by rewrite !Nat2Z.id. Qed.

(** Where the current block ends. *)
Definition block_end (a e : nat) : nat := ((a / 512 + 1) * 512) `min` e.

Lemma block_end_Z a e : Z.min ((Z.of_nat a / 512 + 1) * 512) (Z.of_nat e) = Z.of_nat (block_end a e).
Proof. unfold block_end. by rewrite Nat2Z.inj_min, Nat2Z.inj_mul, Nat2Z.inj_add, Nat2Z.inj_div. Qed.

Lemma block_end_spec a e : (a < e)%nat → (a < block_end a e <= e)%nat ∧ (a mod 512 + (block_end a e - a) <= 512)%nat ∧
  (block_end a e ≠ e → block_end a e / 512 = a / 512 + 1 ∧ e / 512 ≥ a / 512 + 1)%nat.
Proof.
  intros H. unfold block_end. pose proof (Nat.div_mod a 512 ltac:(lia)). pose proof (Nat.mod_upper_bound a 512 ltac:(lia)).
  split; [lia|]. split; [lia|]. intros Hne. replace (((a / 512 + 1) * 512) `min` e)%nat with ((a / 512 + 1) * 512)%nat by lia.
  rewrite Nat.div_mul by lia. split; [done|]. apply Nat.div_le_lower_bound; lia.
Qed.

Lemma wp_read_loop d n fuel : ∀ a e r buf (Q : Z * list Z → St → Prop) s, ok s → disk_ok (view s) → inode_ok d →
  (n <= MAX_BLOCKS)%nat → (a < e <= 512 * n)%nat → (e / 512 - a / 512 < fuel)%nat → (r + (e - a) <= length buf)%nat →
  (∀ s', ok s' → (∀ c, view s' c = view s c) →
     Q (Z.of_nat (r + (e - a)), splice r (take (e - a) (drop a (inode_data (view s) d n))) buf) s') →
  wp (read_loop fuel d (Z.of_nat a) (Z.of_nat (a / 512)) (Z.of_nat e) (Z.of_nat r) buf) Q s.
Proof.
  induction fuel as [|fuel IH]; intros a e r buf Q s Hok Hd Hi Hn Hae Hf Hbuf HQ; [lia|]. cbn [read_loop].
  rewrite block_end_Z. destruct (block_end_spec a e ltac:(lia)) as (B1 & B2 & B3). set (f := block_end a e) in *.
  assert (a / 512 < n)%nat as Hblk by (apply Nat.Div0.div_lt_upper_bound; lia).
  rewrite wrap32_small by (unfold is_u32, U32, MAX_BLOCKS in *; lia).
  replace (Z.of_nat f - Z.of_nat a) with (Z.of_nat (f - a)) by lia.
  change 512 with (Z.of_nat 512). rewrite <- Nat2Z.inj_mod.
  apply wp_bind, wp_get_block_id; [done|done|lia|]. intros s1 Hok1 Hv1.
  apply wp_bind, wp_bs_get; [done|]. intros s2 Hok2 Hv2. rewrite Hv1.
  apply wp_bind, wp_slice_of. { destruct (Hd (blk (view s) d (a / 512))) as [-> _]. unfold BLOCK_SZ. lia. }
  rewrite (inode_read (view s) d n) by done. set (C := inode_data (view s) d n) in *.
  assert (length C = 512 * n)%nat as HC by (by apply inode_data_length).
  assert (length (take (f - a) (drop a C)) = f - a)%nat as Hsl by (rewrite length_take, length_drop; lia).
  rewrite Nat2Z.id. replace (Z.of_nat r + Z.of_nat (f - a)) with (Z.of_nat (r + (f - a))) by lia.
  assert (∀ c, view s2 c = view s c) as Hv by (intros c; by rewrite Hv2, Hv1).
  destruct (Z.eqb_spec (Z.of_nat f) (Z.of_nat e)) as [Ef|Ef].
  - apply wp_ret. assert (f = e) as -> by lia. by apply HQ.
  - destruct (B3 ltac:(lia)) as [B4 B5]. replace (Z.of_nat (a / 512) + 1) with (Z.of_nat (f / 512)) by lia.
    apply IH; try done; [by intros c; rewrite Hv|lia|lia|rewrite splice_length by lia; lia|].
    assert (inode_data (view s2) d n = C) as ->.
    { unfold C, inode_data. rewrite (datas_ext (view s) (view s2)) by naive_solver. f_equal. by apply list_fmap_ext. }
    intros s3 Hok3 Hv3. replace (r + (f - a))%nat with (r + length (take (f - a) (drop a C)))%nat at 2 by lia.
    rewrite splice_app by (rewrite Hsl, length_take, length_drop; lia).
    replace (drop f C) with (drop (f - a) (drop a C)) by (rewrite drop_drop; f_equal; lia). rewrite <- take_add.
    replace (f - a + (e - f))%nat with (e - a)%nat by lia. replace (r + (f - a) + (e - f))%nat with (r + (e - a))%nat by lia.
    apply HQ; [done|]. intros c. by rewrite Hv3, Hv.
Qed.

(** What a write of [src] at [a] does to the disk. *)
Record written d n (a : nat) (src : list Z) (V V' : Z → list Z) : Prop := {
  wt_ok : disk_ok V';
  wt_datas : datas V' d n = datas V d n;
  wt_metas : metas V' d n = metas V d n;
  wt_data : inode_data V' d n = splice a src (inode_data V d n);
  wt_frame c : (c ∉ datas V d n) → V' c = V c;
}.

Lemma wp_write_loop d n fuel : ∀ a e w buf (Q : Z → St → Prop) s, ok s → disk_ok (view s) → inode_ok d →
  Forall is_byte buf → NoDup (blocks_of (view s) d n) →
  (n <= MAX_BLOCKS)%nat → (a < e <= 512 * n)%nat → (e / 512 - a / 512 < fuel)%nat → (w + (e - a) <= length buf)%nat →
  (∀ s', ok s' → written d n a (take (e - a) (drop w buf)) (view s) (view s') → Q (Z.of_nat (w + (e - a))) s') →
  wp (write_loop fuel d (Z.of_nat a) (Z.of_nat (a / 512)) (Z.of_nat e) (Z.of_nat w) buf) Q s.
Proof.
  induction fuel as [|fuel IH]; intros a e w buf Q s Hok Hd Hi Hb Hnd Hn Hae Hf Hbuf HQ; [lia|]. cbn [write_loop].
  rewrite block_end_Z. destruct (block_end_spec a e ltac:(lia)) as (B1 & B2 & B3). set (f := block_end a e) in *.
  assert (a / 512 < n)%nat as Hblk by (apply Nat.Div0.div_lt_upper_bound; lia).
  rewrite wrap32_small by (unfold is_u32, U32, MAX_BLOCKS in *; lia).
  replace (Z.of_nat f - Z.of_nat a) with (Z.of_nat (f - a)) by lia. change 512 with (Z.of_nat 512).
  rewrite <- Nat2Z.inj_mod, Nat2Z.id.
  apply wp_bind, wp_get_block_id; [done|done|lia|]. intros s1 Hok1 Hv1.
  apply wp_bind, wp_bs_get; [done|]. intros s2 Hok2 Hv2. rewrite Hv1. apply wp_bind, wp_slice_of; [lia|].
  set (src := take (f - a) (drop w buf)).
  assert (length src = f - a)%nat as Hsl by (unfold src; rewrite length_take, length_drop; lia).
  assert (Forall is_byte src) as Hsb by by apply Forall_take, Forall_drop.
  assert (block_ok (splice (a mod 512) src (view s (blk (view s) d (a / 512))))) as Hb'.
  { apply splice_ok; [apply Hd|done|rewrite Hsl; unfold BLOCK_SZ; lia]. }
  apply wp_bind, wp_bs_put; [done|apply Hb'|]. intros s3 Hok3 Hv3.
  assert (∀ c, view s3 c = if decide (c = blk (view s) d (a / 512)) then splice (a mod 512) src (view s (blk (view s) d (a / 512)))
            else view s c) as Hv by (intros c; by rewrite Hv3, Hv2, Hv1).
  destruct (inode_write (view s) (view s3) d n a src Hd Hblk ltac:(lia) Hnd Hv) as (Wd & Wm & Wc).
  assert (written d n a src (view s) (view s3)) as HW.
  { split; [|exact Wd|exact Wm|exact Wc|].
    - intros c. rewrite Hv. case_decide; [exact Hb'|apply Hd].
    - intros c Hc. rewrite Hv, decide_False; [done|]. intros ->. apply Hc. by eapply list_elem_of_lookup_2, datas_lookup. }
  replace (Z.of_nat w + Z.of_nat (f - a)) with (Z.of_nat (w + (f - a))) by lia.
  destruct (Z.eqb_spec (Z.of_nat f) (Z.of_nat e)) as [Ef|Ef].
  - apply wp_ret. assert (f = e) as Efe by lia. unfold src in HW. rewrite Efe in *. apply HQ; [done|exact HW].
  - destruct (B3 ltac:(lia)) as [B4 B5]. replace (Z.of_nat (a / 512) + 1) with (Z.of_nat (f / 512)) by lia.
    apply IH; [exact Hok3|apply HW|exact Hi|exact Hb|unfold blocks_of; by rewrite Wd, Wm|exact Hn|lia|lia|lia|]. intros s4 Hok4 [X1 X2 X3 X4 X5].
    replace (w + (f - a) + (e - f))%nat with (w + (e - a))%nat by lia. apply HQ; [done|]. split.
    + done.
    + rewrite X2. exact Wd.
    + rewrite X3. exact Wm.
    + rewrite X4, Wc. replace f with (a + length src)%nat at 1 by lia.
      rewrite splice_app by (rewrite Hsl, length_take, length_drop, inode_data_length; [lia|done]). f_equal.
      replace (e - a)%nat with ((f - a) + (e - f))%nat by lia. by rewrite take_add, drop_drop.
    + intros c Hc. rewrite X5 by (by rewrite Wd). by apply HW.
Qed.

Lemma blocks_between_Z (a e : nat) : blocks_between (Z.of_nat a) (Z.of_nat e) = S (e / 512 - a / 512).
Proof. unfold blocks_between. change 512 with (Z.of_nat 512). rewrite <- !Nat2Z.inj_div. f_equal. lia. Qed.

(** [read_at] copies the bytes of the file from the offset on, as many as fit. *)
Lemma wp_DiskInode_read_at d off buf (Q : Z * list Z → St → Prop) s : ok s → disk_ok (view s) → inode_ok d →
  0 <= size d <= MAX_SIZE → Z.of_nat off + Z.of_nat (length buf) < USIZE →
  (∀ s', ok s' → (∀ c, view s' c = view s c) →
     let r := take (length buf) (drop off (file_bytes (view s) d)) in Q (Z.of_nat (length r), splice 0 r buf) s') →
  wp (DiskInode_read_at d (Z.of_nat off) buf) Q s.
Proof.
  intros Hok Hd Hi Hsz Hlen HQ. unfold DiskInode_read_at. rewrite wrap64_small by (unfold is_usize; lia).
  destruct (nblocks_spec _ Hsz) as [Hn _]. pose proof (nblocks_max _ Hsz) as Hmx.
  set (n := nblocks (size d)) in *. set (sz := Z.to_nat (size d)). set (e := ((off + length buf) `min` sz)%nat).
  replace (Z.min _ _) with (Z.of_nat e) by lia.
  assert (take (length buf) (drop off (file_bytes (view s) d)) = take (e - off) (drop off (inode_data (view s) d n))) as Hr.
  { unfold file_bytes. fold n sz. rewrite skipn_firstn_comm, take_take. f_equal. lia. }
  rewrite Hr in HQ. assert (length (inode_data (view s) d n) = 512 * n)%nat as HC by by apply inode_data_length.
  destruct (Z.leb_spec (Z.of_nat e) (Z.of_nat off)).
  - replace (e - off)%nat with 0%nat in HQ by lia. rewrite take_0 in HQ. apply wp_ret.
    specialize (HQ s Hok (λ _, eq_refl)). cbv zeta in HQ. by rewrite splice_nil in HQ.
  - rewrite blocks_between_Z. change 512 with (Z.of_nat 512). rewrite <- Nat2Z.inj_div. change 0 with (Z.of_nat 0).
    apply (wp_read_loop d n); [done|done|done|done|lia|lia|lia|]. intros s' Hok' Hv'.
    specialize (HQ s' Hok' Hv'). cbv zeta in HQ. rewrite length_take, length_drop, HC in HQ.
    by replace ((e - off) `min` (512 * n - off))%nat with (0 + (e - off))%nat in HQ by lia.
Qed.

(** [write_at] inside the file replaces the bytes at the offset. *)
Lemma wp_DiskInode_write_at d off buf (Q : Z → St → Prop) s : ok s → disk_ok (view s) → inode_ok d →
  0 <= size d <= MAX_SIZE → (0 < length buf)%nat → Z.of_nat off + Z.of_nat (length buf) <= size d →
  Forall is_byte buf → NoDup (blocks_of (view s) d (nblocks (size d))) →
  (∀ s', ok s' → written d (nblocks (size d)) off buf (view s) (view s') → Q (Z.of_nat (length buf)) s') →
  wp (DiskInode_write_at d (Z.of_nat off) buf) Q s.
Proof.
  intros Hok Hd Hi Hsz Hpos Hlen Hb Hnd HQ. unfold DiskInode_write_at.
  destruct (nblocks_spec _ Hsz) as [Hn _]. pose proof (nblocks_max _ Hsz) as Hmx.
  change MAX_SIZE with 8468480 in Hsz. rewrite wrap64_small by (unfold is_usize, USIZE; lia).
  replace (Z.min _ _) with (Z.of_nat (off + length buf)) by lia.
  apply wp_bind, wp_assert; [apply Z.leb_le; lia|].
  rewrite blocks_between_Z. change 512 with (Z.of_nat 512) at 1. rewrite <- Nat2Z.inj_div. change 0 with (Z.of_nat 0).
  apply (wp_write_loop d (nblocks (size d))); [done|done|done|done|done|done|lia|lia|lia|].
  replace (off + length buf - off)%nat with (length buf) by lia. rewrite drop_0, firstn_all. exact HQ.
Qed.
End read_write.
