(* ===== verification/EfsEntry.v ===== *)
(** * Records inside blocks (easy-fs/src/layout.rs)

    The super block, inodes in their slots, and directory entries: each is
    read back as it was stored, and storing one leaves its neighbours alone. *)

From stdpp Require Import base list numbers list_numbers option sets.
From S2P Require Import Prelude EfsCache EfsBitmap EfsInode.

(** ** Fields of a spliced record *)

Lemma rd_splice w off k src b : length b = BLOCK_SZ → (off + length src <= BLOCK_SZ)%nat → (k + w <= length src)%nat →
  rd w (splice off src b) (off + k) = le_get (take w (drop k src)).
Proof.
  intros Hb Hs Hk. unfold rd. f_equal. apply list_eq. intros i. destruct (decide (i < w)%nat).
  - rewrite !lookup_take_lt, !lookup_drop, splice_lookup by lia. rewrite decide_True by lia. f_equal. lia.
  - by rewrite !lookup_take_ge by lia.
Qed.

Lemma rd_splice_ne w off off' src b : length b = BLOCK_SZ → (off + length src <= BLOCK_SZ)%nat →
  (off' + w <= off ∨ off + length src <= off')%nat → rd w (splice off src b) off' = rd w b off'.
Proof. intros Hb Hs Hd. unfold rd. by rewrite splice_read_ne by lia. Qed.

(** ** Inodes in their slots *)

Lemma inode_bytes_length d : inode_ok d → length (inode_bytes d) = 125%nat.
Proof.
  intros (_ & Hl & _). unfold inode_bytes. rewrite !length_app, !le_put_length, unwords_length, Hl. done.
Qed.

Lemma inode_bytes_bytes d : Forall is_byte (inode_bytes d).
Proof.
  unfold inode_bytes. repeat (apply Forall_app; split); try apply le_put_bytes; [apply unwords_bytes|].
  repeat constructor; destruct (type_ d); simpl; lia.
Qed.

Lemma store_inode_ok b off d : block_ok b → inode_ok d → (off + 128 <= BLOCK_SZ)%nat → block_ok (store_inode b off d).
Proof.
  intros Hb Hd Hoff. apply splice_ok; [done|apply inode_bytes_bytes|]. rewrite inode_bytes_length by done. lia.
Qed.

Lemma load_inode_ok b off : block_ok b → (off + 128 <= BLOCK_SZ)%nat → inode_ok (load_inode b off).
Proof.
  intros Hb Hoff. split_and!; cbn [load_inode size direct indirect1 indirect2];
    try (apply (rd_range 4 b); [done|lia]).
  - by rewrite length_fmap, length_seq.
  - apply Forall_fmap, Forall_seq. intros i Hi. apply (rd_range 4 b); [done|lia].
Qed.

(** An inode that was stored is the one loaded. *)
Lemma load_store b off d : block_ok b → inode_ok d → (off + 128 <= BLOCK_SZ)%nat → load_inode (store_inode b off d) off = d.
Proof.
  intros [Hb _] Hd Hoff. pose proof (inode_bytes_length d Hd) as Hlen. destruct Hd as (D1 & D2 & D3 & D4 & D5).
  pose proof (unwords_length (direct d)) as Hul. rewrite D2 in Hul. simpl in Hul.
  assert (∀ w k, (k + w <= 125)%nat → rd w (store_inode b off d) (off + k) = le_get (take w (drop k (inode_bytes d)))) as Hrd.
  { intros w k Hk. apply rd_splice; [done|lia|lia]. }
  assert (∀ k, drop (4 + k) (inode_bytes d) =
    drop k (unwords (direct d) ++ le_put 4 (indirect1 d) ++ le_put 4 (indirect2 d) ++ [type_byte (type_ d)])) as Hdrop.
  { intros k. unfold inode_bytes. rewrite <- drop_drop. by rewrite drop_app_length' by (by rewrite le_put_length). }
  assert (∀ k, drop (116 + k) (inode_bytes d) = drop k (le_put 4 (indirect1 d) ++ le_put 4 (indirect2 d) ++ [type_byte (type_ d)]))
    as Hdrop1.
  { intros k. change (116 + k)%nat with (4 + (112 + k))%nat. rewrite Hdrop, <- drop_drop. by rewrite drop_app_length'. }
  destruct d as [sz dir i1 i2 t]. unfold load_inode. f_equal.
  - rewrite <- (Nat.add_0_r off) at 2. rewrite Hrd by lia. rewrite drop_0. unfold inode_bytes.
    rewrite take_app_exact by apply le_put_length. by apply le_get_put4.
  - apply list_eq_same_length with 28%nat; [done|by rewrite length_fmap, length_seq|]. intros i x y Hi Hx Hy.
    rewrite list_lookup_fmap, lookup_seq_lt in Hx by done. injection Hx as <-. replace (i + (i + (i + (i + 0))))%nat with (4 * i)%nat by lia.
    rewrite <- Nat.add_assoc, Hrd by lia. rewrite Hdrop. simpl direct in *. rewrite drop_app_le, take_app_le
      by (rewrite ?length_drop; lia). rewrite unwords_read by (done || lia). by apply list_lookup_total_correct.
  - rewrite Hrd by lia. rewrite <- (Nat.add_0_r 116) at 1. rewrite Hdrop1, drop_0.
    rewrite take_app_exact by apply le_put_length. by apply le_get_put4.
  - rewrite Hrd by lia. change 120%nat with (116 + 4)%nat. rewrite Hdrop1, drop_app_length' by (by rewrite le_put_length).
    rewrite take_app_exact by apply le_put_length. by apply le_get_put4.
  - rewrite Hrd by lia. change 124%nat with (116 + (4 + 4))%nat. rewrite Hdrop1, <- drop_drop.
    rewrite !drop_app_length' by (by rewrite le_put_length). by destruct t.
Qed.

(** The other slots of the block are as before. *)
Lemma load_store_ne b off off' d : block_ok b → inode_ok d → (off + 128 <= BLOCK_SZ)%nat → (off' + 128 <= off ∨ off + 128 <= off')%nat →
  load_inode (store_inode b off d) off' = load_inode b off'.
Proof.
  intros [Hb _] Hd Hoff Hne. pose proof (inode_bytes_length d Hd) as Hlen. unfold load_inode, store_inode.
  rewrite !rd_splice_ne by lia. f_equal. apply list_fmap_ext. intros i x [-> Hi]%lookup_seq.
  by rewrite rd_splice_ne by lia.
Qed.

(** ** The super block *)

Record SuperBlock : Type := mkSuperBlock {
  magic : Z;
  sb_total_blocks : Z;
  inode_bitmap_blocks : Z;
  inode_area_blocks : Z;
  data_bitmap_blocks : Z;
  data_area_blocks : Z;
}.

Definition load_super (b : list Z) : SuperBlock :=
  mkSuperBlock (rd 4 b 0) (rd 4 b 4) (rd 4 b 8) (rd 4 b 12) (rd 4 b 16) (rd 4 b 20).
Definition super_words (sb : SuperBlock) : list Z :=
  [magic sb; sb_total_blocks sb; inode_bitmap_blocks sb; inode_area_blocks sb; data_bitmap_blocks sb; data_area_blocks sb].
Definition store_super (b : list Z) (sb : SuperBlock) : list Z := splice 0 (unwords (super_words sb)) b.

Definition SuperBlock_initialize (total inode_bitmap inode_area data_bitmap data_area : Z) : SuperBlock :=
  mkSuperBlock EFS_MAGIC total inode_bitmap inode_area data_bitmap data_area.
Definition SuperBlock_is_valid (sb : SuperBlock) : bool := magic sb =? EFS_MAGIC.

Lemma load_store_super b sb : block_ok b → u32s (super_words sb) → load_super (store_super b sb) = sb.
Proof.
  intros [Hb _] Hu.
  assert (∀ i, (i < 6)%nat → rd 4 (store_super b sb) (0 + 4 * i) = super_words sb !!! i) as H.
  { intros i Hi. unfold store_super. rewrite rd_splice; [|done|rewrite unwords_length; unfold BLOCK_SZ; simpl; lia|].
    - by apply unwords_read.
    - rewrite unwords_length. simpl. lia. }
  destruct sb. unfold load_super.
  f_equal; [apply (H 0%nat)|apply (H 1%nat)|apply (H 2%nat)|apply (H 3%nat)|apply (H 4%nat)|apply (H 5%nat)]; lia.
Qed.

Lemma store_super_ok b sb : block_ok b → block_ok (store_super b sb).
Proof. intros Hb. apply splice_ok; [done|apply unwords_bytes|]. rewrite unwords_length. unfold BLOCK_SZ. simpl. lia. Qed.

(** ** UTF-8, as [core::str::from_utf8] accepts it *)

Definition between (lo hi b : Z) : bool := (lo <=? b) && (b <=? hi).
Definition cont : Z → bool := between 0x80 0xBF.
Definition three (b c1 c2 : Z) : bool :=
  (((b =? 0xE0) && between 0xA0 0xBF c1) || (between 0xE1 0xEC b && cont c1) ||
   ((b =? 0xED) && between 0x80 0x9F c1) || (between 0xEE 0xEF b && cont c1)) && cont c2.
Definition four (b c1 c2 c3 : Z) : bool :=
  (((b =? 0xF0) && between 0x90 0xBF c1) || (between 0xF1 0xF3 b && cont c1) ||
   ((b =? 0xF4) && between 0x80 0x8F c1)) && cont c2 && cont c3.

Fixpoint utf8 (l : list Z) : bool :=
  match l with
  | [] => true
  | b :: l1 =>
      if b <? 0x80 then utf8 l1 else
      match l1 with
      | [] => false
      | c1 :: l2 =>
          if between 0xC2 0xDF b && cont c1 then utf8 l2 else
          match l2 with
          | [] => false
          | c2 :: l3 =>
              if three b c1 c2 then utf8 l3 else
              match l3 with
              | [] => false
              | c3 :: l4 => four b c1 c2 c3 && utf8 l4
              end
          end
      end
  end.

(** ** Directory entries *)

Definition DIRENT_SZ : nat := 32.

Record DirEntry : Type := mkDirEntry {
  de_name : list Z;
  inode_id : Z;
}.

Definition DirEntry_empty : DirEntry := mkDirEntry (replicate 28 0) 0.

(** [as_bytes], and the entry behind the bytes of [as_bytes_mut]. *)
Definition as_bytes (e : DirEntry) : list Z := de_name e ++ le_put 4 (inode_id e).
Definition of_bytes (b : list Z) : DirEntry := mkDirEntry (take 28 b) (le_get (take 4 (drop 28 b))).

(** [(0usize..).find(|i| self.name[*i] == 0)]: [None] is the panic of the index past the end. *)
Fixpoint first_nul (l : list Z) : option nat :=
  match l with
  | [] => None
  | b :: l => if b =? 0 then Some O else S <$> first_nul l
  end.

Section dir_entry.
Context {St : Type}.

Definition DirEntry_new (name : list Z) (id : Z) : M St DirEntry :=
  m_assert (bool_decide (length name <= 28)%nat) ;;;
  m_ret (mkDirEntry (splice 0 name (replicate 28 0)) id).

Definition DirEntry_name (e : DirEntry) : M St (list Z) :=
  let! len := m_unwrap (first_nul (de_name e)) in
  m_assert (utf8 (take len (de_name e))) ;;;
  m_ret (take len (de_name e)).
End dir_entry.

(** The names a directory can hold: strings of at most [NAME_LENGTH_LIMIT]
    bytes without a NUL. *)
Record name_ok (name : list Z) : Prop := {
  nk_bytes : Forall (λ b, 0 < b < 256) name;
  nk_length : (length name <= 27)%nat;
  nk_utf8 : utf8 name = true;
}.

Lemma first_nul_app name k : Forall (λ b, 0 < b < 256) name → first_nul (name ++ 0 :: k) = Some (length name).
Proof. induction 1 as [|b name Hb _ IH]; simpl; [done|]. destruct (Z.eqb_spec b 0); [lia|]. by rewrite IH. Qed.

Lemma first_nul_None l : Forall (λ b, 0 < b < 256) l → first_nul l = None.
Proof. induction 1 as [|b l Hb _ IH]; simpl; [done|]. destruct (Z.eqb_spec b 0); [lia|]. by rewrite IH. Qed.

Lemma entry_name_pad name : (length name <= 28)%nat →
  splice 0 name (replicate 28 0) = name ++ replicate (28 - length name) 0.
Proof. intros H. unfold splice. rewrite take_0, drop_replicate. done. Qed.

Definition entry_ok (e : DirEntry) : Prop := length (de_name e) = 28%nat ∧ is_u32 (inode_id e).

Lemma as_bytes_length e : entry_ok e → length (as_bytes e) = DIRENT_SZ.
Proof. intros [H _]. unfold as_bytes. rewrite length_app, le_put_length, H. done. Qed.

Lemma of_as_bytes e : entry_ok e → of_bytes (as_bytes e) = e.
Proof.
  intros [H Hi]. unfold of_bytes, as_bytes. rewrite take_app_exact, drop_app_length' by done.
  rewrite <- (app_nil_r (le_put 4 _)), take_app_exact by apply le_put_length. rewrite le_get_put4 by done. by destruct e.
Qed.

(** The entry of a name gives the name back. *)
Lemma wp_entry_name {St} name id (Q : list Z → St → Prop) s : name_ok name → Q name s →
  wp (let! e := DirEntry_new name id in DirEntry_name e) Q s.
Proof.
  intros [Hb Hl Hu] HQ. apply wp_bind, wp_bind, wp_assert; [apply bool_decide_eq_true; lia|]. apply wp_ret.
  unfold DirEntry_name. cbn [de_name]. rewrite entry_name_pad by lia.
  replace (28 - length name)%nat with (S (27 - length name)) by lia. cbn [replicate].
  apply wp_bind. eapply wp_unwrap; [by apply first_nul_app|]. rewrite take_app_length.
  apply wp_bind, wp_assert; [done|]. by apply wp_ret.
Qed.
