(* ===== verification/EfsFs.v ===== *)
(** * The file system (easy-fs/src/efs.rs, easy-fs/src/vfs.rs)

    [EasyFileSystem] lays a device out into a super block, two bitmaps, inodes
    and data; [Inode] offers files and directories.  The operations are shown
    to refine operations on a map from inode numbers to byte strings. *)

From stdpp Require Import base list numbers list_numbers option sets gmap.
From S2P Require Import Prelude EfsCache EfsBitmap EfsInode EfsEntry.

(** ** efs.rs *)

Record EasyFileSystem : Type := mkEfs {
  inode_bitmap : Bitmap;
  data_bitmap : Bitmap;
  inode_area_start_block : Z;
  data_area_start_block : Z;
}.

(** vfs.rs: where an inode is on the disk. *)
Record Inode : Type := mkInode {
  ino_block_id : Z;
  ino_block_offset : nat;
}.

Definition get_disk_inode_pos (fs : EasyFileSystem) (inode_id : Z) : Z * nat :=
  let inodes_per_block := 4 in
  (wrap32 (inode_area_start_block fs + inode_id / inodes_per_block),
   (Z.to_nat (inode_id mod inodes_per_block) * DISK_INODE_SZ)%nat).

Definition get_data_block_id (fs : EasyFileSystem) (data_block_id : Z) : Z :=
  wrap32 (data_area_start_block fs + data_block_id).

Definition root_inode (fs : EasyFileSystem) : Inode :=
  let '(block_id, block_offset) := get_disk_inode_pos fs 0 in mkInode block_id block_offset.

Section efs.
Context {St : Type} {BS : BlockStore St}.

(** [get_block_cache(id, dev).lock().modify(0, |b| f b)] *)
Definition modify_block (id : Z) (f : list Z → list Z) : M St unit :=
  let! b := bs_get id in bs_put id (f b).

(** [modify(offset, |disk_inode| ..)]: the body works on the inode inside the block. *)
Definition modify_inode {A} (id : Z) (off : nat) (f : DiskInode → M St (A * DiskInode)) : M St A :=
  let! b := bs_get id in
  let! (a, d) := f (load_inode b off) in
  bs_put id (store_inode b off d) ;;;
  m_ret a.
Definition read_inode {A} (id : Z) (off : nat) (f : DiskInode → M St A) : M St A :=
  let! b := bs_get id in f (load_inode b off).

Definition clear_block (b : list Z) : list Z := (λ _, 0) <$> b.

Definition alloc_inode (fs : EasyFileSystem) : M St Z :=
  let! o := Bitmap_alloc (inode_bitmap fs) in
  let! i := m_unwrap o in
  m_ret (wrap32 i).

Definition alloc_data (fs : EasyFileSystem) : M St Z :=
  let! o := Bitmap_alloc (data_bitmap fs) in
  let! i := m_unwrap o in
  m_ret (wrap32 (wrap32 i + data_area_start_block fs)).

Definition dealloc_data (fs : EasyFileSystem) (block_id : Z) : M St unit :=
  modify_block block_id clear_block ;;;
  Bitmap_dealloc (data_bitmap fs) (wrap32 (block_id - data_area_start_block fs)).

Definition initialize_inode (id : Z) (off : nat) (t : DiskInodeType) : M St unit :=
  modify_inode id off (λ d, m_ret (tt, DiskInode_initialize t d)).

Definition EasyFileSystem_create (total_blocks inode_bitmap_blocks : Z) : M St EasyFileSystem :=
  let inode_bitmap := Bitmap_new 1 inode_bitmap_blocks in
  let inode_num := Bitmap_maximum inode_bitmap in
  let inode_area_blocks := wrap32 ((inode_num * 128 + 512 - 1) / 512) in
  let inode_total_blocks := wrap32 (inode_bitmap_blocks + inode_area_blocks) in
  let data_total_blocks := wrap32 (wrap32 (total_blocks - 1) - inode_total_blocks) in
  let data_bitmap_blocks := wrap32 (data_total_blocks + 4096) / 4097 in
  let data_area_blocks := wrap32 (data_total_blocks - data_bitmap_blocks) in
  let data_bitmap := Bitmap_new (wrap32 (wrap32 (1 + inode_bitmap_blocks) + inode_area_blocks)) data_bitmap_blocks in
  let efs := mkEfs inode_bitmap data_bitmap (wrap32 (1 + inode_bitmap_blocks))
               (wrap32 (wrap32 (1 + inode_total_blocks) + data_bitmap_blocks)) in
  m_for (seqZ 0 total_blocks) (λ i, modify_block i clear_block) ;;;
  modify_block 0 (λ b, store_super b (SuperBlock_initialize total_blocks inode_bitmap_blocks inode_area_blocks
                                        data_bitmap_blocks data_area_blocks)) ;;;
  let! root := alloc_inode efs in
  m_assert (root =? 0) ;;;
  let '(root_inode_block_id, root_inode_offset) := get_disk_inode_pos efs 0 in
  initialize_inode root_inode_block_id root_inode_offset Directory ;;;
  bs_sync ;;;
  m_ret efs.

Definition EasyFileSystem_open : M St EasyFileSystem :=
  let! b := bs_get 0 in
  let super_block := load_super b in
  m_assert (SuperBlock_is_valid super_block) ;;;
  let inode_total_blocks := wrap32 (inode_bitmap_blocks super_block + inode_area_blocks super_block) in
  m_ret (mkEfs (Bitmap_new 1 (inode_bitmap_blocks super_block))
           (Bitmap_new (wrap32 (1 + inode_total_blocks)) (data_bitmap_blocks super_block))
           (wrap32 (1 + inode_bitmap_blocks super_block))
           (wrap32 (wrap32 (1 + inode_total_blocks) + data_bitmap_blocks super_block))).

(** ** vfs.rs *)

Definition read_disk_inode {A} (self : Inode) (f : DiskInode → M St A) : M St A :=
  read_inode (ino_block_id self) (ino_block_offset self) f.
Definition modify_disk_inode {A} (self : Inode) (f : DiskInode → M St (A * DiskInode)) : M St A :=
  modify_inode (ino_block_id self) (ino_block_offset self) f.

(** One entry, read over [dirent]. *)
Definition read_dirent (d : DiskInode) (i : nat) (dirent : DirEntry) : M St DirEntry :=
  let! (n, bytes) := DiskInode_read_at d (Z.of_nat (DIRENT_SZ * i)) (as_bytes dirent) in
  m_assert (n =? Z.of_nat DIRENT_SZ) ;;;
  m_ret (of_bytes bytes).

Fixpoint find_loop (name : list Z) (d : DiskInode) (todo : list nat) (dirent : DirEntry) : M St (option Z) :=
  match todo with
  | [] => m_ret None
  | i :: todo =>
      let! dirent := read_dirent d i dirent in
      let! n := DirEntry_name dirent in
      if bool_decide (n = name) then m_ret (Some (inode_id dirent)) else find_loop name d todo dirent
  end.

Definition file_count (d : DiskInode) : nat := Z.to_nat (size d / 32).

Definition find_inode_id (name : list Z) (d : DiskInode) : M St (option Z) :=
  m_assert (is_dir d) ;;;
  find_loop name d (seq 0 (file_count d)) DirEntry_empty.

Definition inode_of (fs : EasyFileSystem) (id : Z) : Inode :=
  let '(block_id, block_offset) := get_disk_inode_pos fs id in mkInode block_id block_offset.

Definition Inode_find (fs : EasyFileSystem) (self : Inode) (name : list Z) : M St (option Inode) :=
  read_disk_inode self (λ d, let! o := find_inode_id name d in m_ret (inode_of fs <$> o)).

Definition Inode_is_dir (self : Inode) : M St bool := read_disk_inode self (λ d, m_ret (is_dir d)).
Definition Inode_is_file (self : Inode) : M St bool := read_disk_inode self (λ d, m_ret (is_file d)).

(** [for _ in 0..blocks_needed { v.push(fs.alloc_data()) }] *)
Fixpoint alloc_blocks (fs : EasyFileSystem) (n : nat) (v : list Z) : M St (list Z) :=
  match n with
  | O => m_ret v
  | S n => let! x := alloc_data fs in alloc_blocks fs n (v ++ [x])
  end.

Definition Inode_increase_size (fs : EasyFileSystem) (new_size : Z) (d : DiskInode) : M St DiskInode :=
  if new_size <? size d then m_ret d
  else
    let! blocks_needed := blocks_num_needed d new_size in
    let! v := alloc_blocks fs (Z.to_nat blocks_needed) [] in
    DiskInode_increase_size d new_size v.

(** [create] and [create_dir] differ in the type of the new inode. *)
Definition create_node (t : DiskInodeType) (fs : EasyFileSystem) (self : Inode) (name : list Z) : M St (option Inode) :=
  let! found := read_disk_inode self (λ d, m_assert (is_dir d) ;;; find_inode_id name d) in
  match found with
  | Some _ => m_ret None
  | None =>
      let! new_inode_id := alloc_inode fs in
      let '(new_inode_block_id, new_inode_block_offset) := get_disk_inode_pos fs new_inode_id in
      initialize_inode new_inode_block_id new_inode_block_offset t ;;;
      modify_disk_inode self (λ d,
        let count := file_count d in
        let new_size := wrap32 (Z.of_nat ((count + 1) * DIRENT_SZ)) in
        let! d := Inode_increase_size fs new_size d in
        let! dirent := DirEntry_new name new_inode_id in
        let! _ := DiskInode_write_at d (Z.of_nat (count * DIRENT_SZ)) (as_bytes dirent) in
        m_ret (tt, d)) ;;;
      bs_sync ;;;
      m_ret (Some (inode_of fs new_inode_id))
  end.
Definition Inode_create := create_node File.
Definition Inode_create_dir := create_node Directory.

Fixpoint ls_loop (d : DiskInode) (todo : list nat) (v : list (list Z)) : M St (list (list Z)) :=
  match todo with
  | [] => m_ret v
  | i :: todo =>
      let! dirent := read_dirent d i DirEntry_empty in
      let! n := DirEntry_name dirent in
      ls_loop d todo (v ++ [n])
  end.
Definition Inode_ls (self : Inode) : M St (list (list Z)) :=
  read_disk_inode self (λ d, ls_loop d (seq 0 (file_count d)) []).

Definition Inode_read_at (self : Inode) (offset : Z) (buf : list Z) : M St (Z * list Z) :=
  read_disk_inode self (λ d, DiskInode_read_at d offset buf).
Definition Inode_size (self : Inode) : M St Z := read_disk_inode self (λ d, m_ret (size d)).

Definition Inode_write_at (fs : EasyFileSystem) (self : Inode) (offset : Z) (buf : list Z) : M St Z :=
  let! n := modify_disk_inode self (λ d,
    let! d := Inode_increase_size fs (wrap32 (offset +w Z.of_nat (length buf))) d in
    let! n := DiskInode_write_at d offset buf in
    m_ret (n, d)) in
  bs_sync ;;;
  m_ret n.

Definition Inode_clear (fs : EasyFileSystem) (self : Inode) : M St unit :=
  modify_disk_inode self (λ d,
    let sz := size d in
    let! (data_blocks_dealloc, d) := clear_size d in
    m_assert (Z.of_nat (length data_blocks_dealloc) =? total_blocks sz) ;;;
    m_for data_blocks_dealloc (dealloc_data fs) ;;;
    m_ret (tt, d)) ;;;
  bs_sync.
End efs.

(** ** The file system on disk

    [nd] is the number of data blocks, [data_area_blocks] of the super block. *)

Definition zero_block : list Z := replicate BLOCK_SZ 0.

Section layout.
Context (fs : EasyFileSystem) (nd : Z).
Implicit Types (V : Z → list Z) (d : DiskInode) (c i k : Z).

Record geometry : Prop := {
  geo_ib : start_block_id (inode_bitmap fs) = 1;
  geo_ibn : 0 < bm_blocks (inode_bitmap fs);
  geo_ia : inode_area_start_block fs = 1 + bm_blocks (inode_bitmap fs);
  geo_db : start_block_id (data_bitmap fs) = inode_area_start_block fs + 1024 * bm_blocks (inode_bitmap fs);
  geo_dbn : 0 <= bm_blocks (data_bitmap fs);
  geo_da : data_area_start_block fs = start_block_id (data_bitmap fs) + bm_blocks (data_bitmap fs);
  geo_nd : 0 <= nd <= Bitmap_maximum (data_bitmap fs);
  geo_u32 : data_area_start_block fs + nd < U32;
  geo_inum : Bitmap_maximum (inode_bitmap fs) <= U32;
}.

(** Inode [i], and the blocks it owns. *)
Definition inode_at V i : DiskInode := let '(b, off) := get_disk_inode_pos fs i in load_inode (V b) off.
Definition inode_blocks V d : list Z := blocks_of V d (nblocks (size d)).
Definition own V i : list Z := inode_blocks V (inode_at V i).

Definition in_data c : Prop := data_area_start_block fs <= c < data_area_start_block fs + nd.
Definition ibit V i : bool := bm_bit V (inode_bitmap fs) i.
Definition dbit V c : bool := bm_bit V (data_bitmap fs) (c - data_area_start_block fs).
(** Bit [k] of the data bitmap is past the data area. *)
Definition pad k : Prop := nd <= k < Bitmap_maximum (data_bitmap fs).
Definition inode_num : Z := Bitmap_maximum (inode_bitmap fs).

(** An inode holds a file of type [t] with contents [bytes]; the rest of its
    last block is zero. *)
Record inode_rel V d (t : DiskInodeType) (bytes : list Z) : Prop := {
  ir_ok : inode_ok d;
  ir_type : type_ d = t;
  ir_size : size d = Z.of_nat (length bytes);
  ir_max : Z.of_nat (length bytes) <= MAX_SIZE;
  ir_data : inode_data V d (nblocks (size d)) = bytes ++ replicate (512 * nblocks (size d) - length bytes) 0;
}.

(** The super block describes the layout. *)
Record super_ok V : Prop := {
  so_valid : SuperBlock_is_valid (load_super (V 0)) = true;
  so_ib : inode_bitmap_blocks (load_super (V 0)) = bm_blocks (inode_bitmap fs);
  so_ia : inode_area_blocks (load_super (V 0)) = 1024 * bm_blocks (inode_bitmap fs);
  so_db : data_bitmap_blocks (load_super (V 0)) = bm_blocks (data_bitmap fs);
  so_da : data_area_blocks (load_super (V 0)) = nd;
}.

(** The file system shows the files [σ]. *)
Record fs_ok V (σ : gmap Z (DiskInodeType * list Z)) : Prop := {
  fo_disk : disk_ok V;
  fo_super : super_ok V;
  fo_dom i : 0 <= i < inode_num → (ibit V i = true ↔ is_Some (σ !! i));
  fo_range i : is_Some (σ !! i) → 0 <= i < inode_num;
  fo_inode i t bytes : σ !! i = Some (t, bytes) → inode_rel V (inode_at V i) t bytes;
  fo_nodup i : is_Some (σ !! i) → NoDup (own V i);
  fo_disj i j c : is_Some (σ !! i) → is_Some (σ !! j) → c ∈ own V i → c ∈ own V j → i = j;
  fo_used i c : is_Some (σ !! i) → c ∈ own V i → in_data c ∧ dbit V c = true;
  fo_leak c : in_data c → dbit V c = true → ∃ i, is_Some (σ !! i) ∧ c ∈ own V i;
  fo_free c : in_data c → dbit V c = false → V c = zero_block;
  fo_pad k : pad k → bm_bit V (data_bitmap fs) k = false;
}.

Context (geo : geometry).

(** The regions of the disk do not meet. *)
Lemma inode_pos_region i : 0 <= i < inode_num → let '(b, off) := get_disk_inode_pos fs i in
  b = inode_area_start_block fs + i / 4 ∧ inode_area_start_block fs <= b < start_block_id (data_bitmap fs) ∧
  off = (128 * Z.to_nat (i mod 4))%nat ∧ (off + 128 <= BLOCK_SZ)%nat.
Proof.
  destruct geo as [G1 G2 G3 G4 G5 G6 G7 G8 G9]. unfold inode_num, Bitmap_maximum, BLOCK_BITS. intros Hi.
  unfold get_disk_inode_pos, DISK_INODE_SZ, BLOCK_SZ.
  assert (0 <= i / 4 < 1024 * bm_blocks (inode_bitmap fs)) by (Z.div_mod_to_equations; lia).
  assert (0 <= i mod 4 < 4) by (apply Z.mod_pos_bound; lia).
  rewrite wrap32_small by (unfold is_u32; lia). lia.
Qed.

Lemma region_inode c : inode_area_start_block fs <= c < start_block_id (data_bitmap fs) →
  ¬ bm_block (inode_bitmap fs) c ∧ ¬ bm_block (data_bitmap fs) c ∧ ¬ in_data c.
Proof. destruct geo as [G1 G2 G3 G4 G5 G6 G7 G8 G9]. unfold bm_block, in_data. lia. Qed.

Lemma region_data c : in_data c → ¬ bm_block (inode_bitmap fs) c ∧ ¬ bm_block (data_bitmap fs) c.
Proof. destruct geo as [G1 G2 G3 G4 G5 G6 G7 G8 G9]. unfold bm_block, in_data. lia. Qed.

Lemma region_bitmap c : bm_block (data_bitmap fs) c → ¬ bm_block (inode_bitmap fs) c ∧ ¬ in_data c.
Proof. destruct geo as [G1 G2 G3 G4 G5 G6 G7 G8 G9]. unfold bm_block, in_data. lia. Qed.

Lemma region_ibitmap c : bm_block (inode_bitmap fs) c → ¬ bm_block (data_bitmap fs) c ∧ ¬ in_data c.
Proof. destruct geo as [G1 G2 G3 G4 G5 G6 G7 G8 G9]. unfold bm_block, in_data. lia. Qed.

Lemma region_super : ¬ bm_block (inode_bitmap fs) 0 ∧ ¬ bm_block (data_bitmap fs) 0 ∧ ¬ in_data 0 ∧ 0 < inode_area_start_block fs.
Proof. destruct geo as [G1 G2 G3 G4 G5 G6 G7 G8 G9]. unfold bm_block, in_data. lia. Qed.

(** A bitmap depends on its own blocks. *)
Lemma bm_bit_ext V V' bm i : (∀ c, bm_block bm c → V' c = V c) → 0 <= i < Bitmap_maximum bm → bm_bit V' bm i = bm_bit V bm i.
Proof.
  intros H Hi. destruct (bm_index bm i Hi) as [Hq _]. unfold bm_bit. rewrite H; [done|]. unfold bm_block. lia.
Qed.

Lemma dbit_ext V V' c : (∀ b, bm_block (data_bitmap fs) b → V' b = V b) → in_data c → dbit V' c = dbit V c.
Proof. intros H Hc. apply bm_bit_ext; [done|]. pose proof (geo_nd geo). unfold in_data in Hc. lia. Qed.

Lemma pad_ext V V' k : (∀ b, bm_block (data_bitmap fs) b → V' b = V b) → pad k →
  bm_bit V' (data_bitmap fs) k = bm_bit V (data_bitmap fs) k.
Proof. intros H Hk. apply bm_bit_ext; [done|]. pose proof (geo_nd geo). unfold pad in Hk. lia. Qed.

(** An inode depends on its block, and its contents on the blocks it owns. *)
Lemma inode_at_ext V V' i : 0 <= i < inode_num →
  (∀ c, inode_area_start_block fs <= c < start_block_id (data_bitmap fs) → V' c = V c) → inode_at V' i = inode_at V i.
Proof.
  intros Hi H. pose proof (inode_pos_region i Hi) as Hp. unfold inode_at. destruct (get_disk_inode_pos fs i) as [b off].
  by rewrite H by tauto.
Qed.

Lemma inode_blocks_ext V V' d : (∀ c, c ∈ inode_blocks V d → V' c = V c) → inode_blocks V' d = inode_blocks V d.
Proof.
  intros H. unfold inode_blocks, blocks_of in *. rewrite (datas_ext V V'), (metas_ext V V'); [done| |];
    intros c Hc; apply H, elem_of_app; by right.
Qed.

Lemma inode_data_ext V V' d n : (∀ c, c ∈ blocks_of V d n → V' c = V c) → inode_data V' d n = inode_data V d n.
Proof.
  intros H. unfold inode_data, blocks_of in *. rewrite (datas_ext V V') by (intros c Hc; apply H, elem_of_app; by right).
  f_equal. apply list_fmap_ext. intros j c Hc. apply H, elem_of_app. left. by eapply list_elem_of_lookup_2.
Qed.

Lemma inode_rel_ext V V' d t bytes : (∀ c, c ∈ inode_blocks V d → V' c = V c) →
  inode_rel V d t bytes → inode_rel V' d t bytes.
Proof. intros H [A B C D E]. split; try done. by rewrite (inode_data_ext V V'). Qed.

(** The bytes of a related inode. *)
Lemma inode_rel_bytes V d t bytes : inode_rel V d t bytes → file_bytes V d = bytes.
Proof. intros [A B C D E]. unfold file_bytes. rewrite E, C, Nat2Z.id. apply take_app_length. Qed.
End layout.

Lemma fs_ok_ext fs nd V V' σ : (∀ c, V' c = V c) → fs_ok fs nd V σ → fs_ok fs nd V' σ.
Proof.
  intros H [A S B C D E F G I J K].
  assert (∀ i, inode_at fs V' i = inode_at fs V i) as Hat.
  { intros i. unfold inode_at. destruct (get_disk_inode_pos fs i). by rewrite H. }
  assert (∀ i, own fs V' i = own fs V i) as Hown by (intros i; unfold own; rewrite Hat; apply inode_blocks_ext; intros; apply H).
  assert (∀ c, dbit fs V' c = dbit fs V c) as Hdb by (intros c; unfold dbit, bm_bit; by rewrite H).
  split.
  - intros c. rewrite H. apply A.
  - destruct S. split; by rewrite H.
  - intros i. unfold ibit, bm_bit. rewrite H. apply B.
  - done.
  - intros i t bytes Hi. rewrite Hat. eapply inode_rel_ext; [intros; apply H|by apply D].
  - intros i. rewrite Hown. apply E.
  - intros i j c. rewrite !Hown. apply F.
  - intros i c. rewrite Hown, Hdb. apply G.
  - intros c Hc. rewrite Hdb. intros Hb. destruct (I c Hc Hb) as (i & Hi & Hin). exists i. by rewrite Hown.
  - intros c Hc. rewrite Hdb, H. by apply J.
  - intros k Hk. unfold bm_bit. rewrite H. by apply K.
Qed.

(** ** One inode changes

    What an operation on inode [i] must do for the other files to be as
    before: the blocks of [i] go from [old] to [own V' i]. *)

Section update.
Context (fs : EasyFileSystem) (nd : Z) (geo : geometry fs nd).
Implicit Types (V : Z → list Z) (σ : gmap Z (DiskInodeType * list Z)) (c i j : Z).
Local Abbreviation own := (own fs).
Local Abbreviation dbit := (dbit fs).
Local Abbreviation ibit := (ibit fs).
Local Abbreviation in_data := (in_data fs nd).
Local Abbreviation inode_at := (inode_at fs).
Local Abbreviation inode_num := (inode_num fs).
Local Abbreviation fs_ok := (fs_ok fs nd).

Record inode_changed V V' σ i (old : list Z) : Prop := {
  ic_range : 0 <= i < inode_num;
  ic_old : (σ !! i = None ∧ old = []) ∨ (is_Some (σ !! i) ∧ old = own V i);
  ic_disk : disk_ok V';
  ic_super : V' 0 = V 0;
  ic_data c : in_data c → (c ∉ old) → (c ∉ own V' i) → V' c = V c;
  ic_inodes j : 0 <= j < inode_num → j ≠ i → inode_at V' j = inode_at V j;
  ic_ibit j : 0 <= j < inode_num → (ibit V' j = true ↔ j = i ∨ ibit V j = true);
  ic_nodup : NoDup (own V' i);
  ic_new c : c ∈ own V' i → in_data c ∧ (c ∈ old ∨ dbit V c = false);
  ic_dbit c : in_data c → (dbit V' c = true ↔ c ∈ own V' i ∨ (dbit V c = true ∧ (c ∉ old)));
  ic_zero c : c ∈ old → (c ∉ own V' i) → V' c = zero_block;
  ic_pad k : pad fs nd k → bm_bit V' (data_bitmap fs) k = bm_bit V (data_bitmap fs) k;
}.

Lemma other_blocks V V' σ i old j c : fs_ok V σ → inode_changed V V' σ i old → is_Some (σ !! j) → j ≠ i →
  c ∈ own V j → (c ∉ old) ∧ (c ∉ own V' i) ∧ V' c = V c.
Proof.
  intros Hok HC Hj Hji Hc. destruct (fo_used _ _ _ _ Hok j c Hj Hc) as [Hd Hb].
  assert (c ∉ old) as Hold.
  { destruct (ic_old _ _ _ _ _ HC) as [[_ ->]|[Hi ->]]; [apply not_elem_of_nil|]. intros Hc'. apply Hji.
    by apply (fo_disj _ _ _ _ Hok j i c). }
  assert (c ∉ own V' i) as Hnew.
  { intros Hn. destruct (ic_new _ _ _ _ _ HC c Hn) as [_ [?|E]]; [done|]. by rewrite Hb in E. }
  split_and!; [done|done|]. by apply (ic_data _ _ _ _ _ HC).
Qed.

Lemma other_own V V' σ i old j : fs_ok V σ → inode_changed V V' σ i old → is_Some (σ !! j) → j ≠ i → own V' j = own V j.
Proof.
  intros Hok HC Hj Hji. unfold EfsFs.own. rewrite (ic_inodes _ _ _ _ _ HC) by (done || by apply (fo_range _ _ _ _ Hok)).
  apply inode_blocks_ext. intros c Hc. by eapply other_blocks.
Qed.

Lemma fs_ok_update V V' σ i t bytes old : fs_ok V σ → inode_changed V V' σ i old → inode_rel V' (inode_at V' i) t bytes →
  fs_ok V' (<[i := (t, bytes)]> σ).
Proof.
  intros Hok HC Hrel. pose proof (ic_range _ _ _ _ _ HC) as Hi.
  assert (∀ j, is_Some (<[i := (t, bytes)]> σ !! j) → j = i ∨ (j ≠ i ∧ is_Some (σ !! j) ∧ own V' j = own V j)) as Hcase.
  { intros j Hj. destruct (decide (j = i)) as [|Hne]; [by left|]. rewrite lookup_insert_ne in Hj by done.
    right. split_and!; [done|done|]. by eapply other_own. }
  assert (∀ j c, j ≠ i → is_Some (σ !! j) → own V' j = own V j → c ∈ own V' j → (c ∉ own V' i) ∧ (c ∉ old) ∧ in_data c ∧ dbit V c = true) as Hother.
  { intros j c Hne Hj E Hc. rewrite E in Hc. destruct (other_blocks V V' σ i old j c Hok HC Hj Hne Hc) as (H1 & H2 & _).
    by destruct (fo_used _ _ _ _ Hok j c Hj Hc). }
  split.
  - apply HC.
  - destruct (fo_super _ _ _ _ Hok). split; by rewrite (ic_super _ _ _ _ _ HC).
  - intros j Hj. rewrite (ic_ibit _ _ _ _ _ HC) by done. rewrite (fo_dom _ _ _ _ Hok) by done.
    destruct (decide (j = i)) as [->|Hne]; [rewrite lookup_insert_eq; naive_solver|]. rewrite lookup_insert_ne by done. naive_solver.
  - intros j [->|(_ & Hj & _)]%Hcase; [done|]. by apply (fo_range _ _ _ _ Hok).
  - intros j t' b' Hj. destruct (decide (j = i)) as [->|Hne].
    + rewrite lookup_insert_eq in Hj. by injection Hj as <- <-.
    + rewrite lookup_insert_ne in Hj by done. assert (is_Some (σ !! j)) as Hs by eauto.
      rewrite (ic_inodes _ _ _ _ _ HC) by (done || by apply (fo_range _ _ _ _ Hok)).
      eapply inode_rel_ext; [|by apply (fo_inode _ _ _ _ Hok)]. intros c Hc. by eapply other_blocks.
  - intros j [->|(_ & Hj & ->)]%Hcase; [apply HC|]. by apply (fo_nodup _ _ _ _ Hok).
  - intros j j' c [->|(Hn & Hj & E)]%Hcase [->|(Hn' & Hj' & E')]%Hcase Hc Hc'; [done| | |].
    + by destruct (Hother j' c Hn' Hj' E' Hc').
    + by destruct (Hother j c Hn Hj E Hc).
    + rewrite E in Hc. rewrite E' in Hc'. by apply (fo_disj _ _ _ _ Hok j j' c).
  - intros j c [->|(Hn & Hj & E)]%Hcase Hc.
    + destruct (ic_new _ _ _ _ _ HC c Hc) as [Hd _]. split; [done|]. apply (ic_dbit _ _ _ _ _ HC); auto.
    + destruct (Hother j c Hn Hj E Hc) as (_ & H2 & H3 & H4). split; [done|]. apply (ic_dbit _ _ _ _ _ HC); auto.
  - intros c Hc [Hin|[Hb Ho]]%(ic_dbit _ _ _ _ _ HC); [exists i; by rewrite lookup_insert_eq| |done].
    destruct (fo_leak _ _ _ _ Hok c Hc Hb) as (j & Hj & Hcj). exists j.
    assert (j ≠ i) as Hne. { intros ->. destruct (ic_old _ _ _ _ _ HC) as [[E _]|[_ ->]]; [by rewrite E in Hj; destruct Hj|done]. }
    rewrite lookup_insert_ne by done. split; [done|]. by erewrite other_own.
  - intros c Hc Hb. destruct (decide (c ∈ own V' i)) as [Hin|Hin].
    { assert (dbit V' c = true) as E by (apply (ic_dbit _ _ _ _ _ HC); auto). by rewrite Hb in E. }
    destruct (decide (c ∈ old)) as [Ho|Ho]; [by apply (ic_zero _ _ _ _ _ HC)|].
    rewrite (ic_data _ _ _ _ _ HC) by done. apply (fo_free _ _ _ _ Hok); [done|].
    destruct (dbit V c) eqn:E; [|done]. assert (dbit V' c = true) as E' by (apply (ic_dbit _ _ _ _ _ HC); auto).
    by rewrite Hb in E'.
  - intros k Hk. rewrite (ic_pad _ _ _ _ _ HC) by done. by apply (fo_pad _ _ _ _ Hok).
Qed.
End update.
