(* ===== verification/EfsOps.v ===== *)
(** * The operations of the file system, verified

    Every operation of easy-fs/src/vfs.rs against the files it shows: growing,
    writing, reading, clearing and creating change the file they are meant to
    change, as they should, and no other. *)

From stdpp Require Import base list numbers list_numbers option sets gmap.
From S2P Require Import Prelude EfsCache EfsBitmap EfsInode EfsEntry EfsFs.

(** The contents of a file after a write: a gap before the offset reads as zeros. *)
Definition write_bytes (off : nat) (buf bytes : list Z) : list Z :=
  splice off buf (bytes ++ replicate (off + length buf - length bytes) 0).

Lemma write_bytes_length off buf bytes : length (write_bytes off buf bytes) = Nat.max (length bytes) (off + length buf).
Proof. unfold write_bytes. rewrite splice_length by (rewrite length_app, length_replicate; lia). rewrite length_app, length_replicate. lia. Qed.

Lemma write_bytes_pad off buf bytes n : (off + length buf <= n)%nat → (length bytes <= n)%nat →
  splice off buf (bytes ++ replicate (n - length bytes) 0) =
  write_bytes off buf bytes ++ replicate (n - length (write_bytes off buf bytes)) 0.
Proof.
  intros H1 H2. rewrite write_bytes_length. unfold write_bytes.
  rewrite <- splice_app_l by (rewrite length_app, length_replicate; lia). f_equal.
  rewrite <- app_assoc, <- replicate_add. do 2 f_equal. lia.
Qed.

Section operations.
Context {St : Type} {BS : BlockStore St} {ok : St → Prop} {view : St → Z → list Z} {spec : BlockStoreSpec St ok view}.
Context (fs : EasyFileSystem) (nd : Z) (geo : geometry fs nd).
Implicit Types (s : St) (V : Z → list Z) (σ : gmap Z (DiskInodeType * list Z)) (c i j : Z) (d : DiskInode).
Local Abbreviation own := (own fs).
Local Abbreviation dbit := (dbit fs).
Local Abbreviation ibit := (ibit fs).
Local Abbreviation in_data := (in_data fs nd).
Local Abbreviation inode_at := (inode_at fs).
Local Abbreviation inode_num := (inode_num fs).
Local Abbreviation fs_ok := (fs_ok fs nd).

(** ** Allocation of data blocks *)

(** The free data blocks. *)
Definition free_blocks V : list Z := filter (λ c, dbit V c = false) (seqZ (data_area_start_block fs) nd).

Lemma elem_of_free V c : c ∈ free_blocks V ↔ in_data c ∧ dbit V c = false.
Proof. unfold free_blocks, EfsFs.in_data. rewrite list_elem_of_filter, elem_of_seqZ. lia || tauto. Qed.

Lemma free_nodup V : NoDup (free_blocks V).
Proof. apply NoDup_filter, NoDup_seqZ. Qed.

(** [v] went from free to used. *)
Record allocated V (v : list Z) V' : Prop := {
  al_disk : disk_ok V';
  al_nodup : NoDup v;
  al_free c : c ∈ v → in_data c ∧ dbit V c = false;
  al_bit c : in_data c → (dbit V' c = true ↔ c ∈ v ∨ dbit V c = true);
  al_frame c : ¬ bm_block (data_bitmap fs) c → V' c = V c;
  al_pad k : pad fs nd k → bm_bit V' (data_bitmap fs) k = bm_bit V (data_bitmap fs) k;
}.

Lemma allocated_free V v V' : allocated V v V' → length (free_blocks V) = (length v + length (free_blocks V'))%nat.
Proof.
  intros [A B C D E _]. rewrite <- length_app. apply Permutation_length, NoDup_Permutation; [apply free_nodup| |].
  - apply NoDup_app. split_and!; [done| |apply free_nodup]. intros c Hc [Hd Hb]%elem_of_free.
    assert (dbit V' c = true) as E' by (apply D; auto). by rewrite Hb in E'.
  - intros c. rewrite elem_of_app, !elem_of_free. split.
    + intros [Hd Hb]. destruct (decide (c ∈ v)); [by left|]. right. split; [done|]. apply not_true_is_false.
      intros [?|Hb']%D; [done| |done]. by rewrite Hb in Hb'.
    + intros [Hc|[Hd Hb]]; [by apply C|]. split; [done|]. apply not_true_is_false. intros Hb'.
      assert (dbit V' c = true) as E' by (apply D; auto). by rewrite Hb in E'.
Qed.

(** [alloc_data] takes a free block while there is one. *)
Lemma wp_alloc_data V v s (Q : Z → St → Prop) : ok s → allocated V v (view s) → (0 < length (free_blocks (view s)))%nat →
  (∀ x s', ok s' → allocated V (v ++ [x]) (view s') → Q x s') → wp (alloc_data fs) Q s.
Proof.
  intros Hok [A B C D E P] Hfree HQ. destruct geo as [G1 G2 G3 G4 G5 G6 G7 G8 G9].
  destruct (free_blocks (view s)) as [|y l] eqn:Hf; [simpl in Hfree; lia|]. clear Hfree.
  assert (y ∈ free_blocks (view s)) as Hy by (rewrite Hf; by left). apply elem_of_free in Hy as [Hyd Hyb].
  unfold alloc_data. apply wp_bind. eapply wp_mono; [by apply wp_Bitmap_alloc|]. intros [k|] s' [Hok' Hpost].
  - destruct Hpost as (Hk & Hkb & Hbelow & [U1 U2 U3]). apply wp_bind, wp_ret, wp_ret.
    assert (k < nd) as Hkn.
    { unfold EfsFs.in_data in Hyd. destruct (decide (k <= y - data_area_start_block fs)); [lia|].
      unfold EfsFs.dbit in Hyb. rewrite Hbelow in Hyb by lia. done. }
    assert (is_u32 k) by (unfold is_u32; lia). rewrite (wrap32_small k) by done.
    rewrite wrap32_small by (unfold is_u32; lia).
    assert (in_data (k + data_area_start_block fs)) as Hx by (unfold EfsFs.in_data; lia).
    assert (dbit (view s) (k + data_area_start_block fs) = false) as Hxb.
    { unfold EfsFs.dbit. by replace (k + data_area_start_block fs - data_area_start_block fs) with k by lia. }
    assert (k + data_area_start_block fs ∉ v) as Hxv.
    { intros Hin. assert (dbit (view s) (k + data_area_start_block fs) = true) by (apply D; auto). congruence. }
    apply HQ; [done|]. split.
    + done.
    + apply NoDup_app. split_and!; [done|set_solver|apply NoDup_singleton].
    + intros c [Hc|Hc]%elem_of_app; [by apply C|]. apply list_elem_of_singleton in Hc as ->. split; [done|].
      apply not_true_is_false. intros Hb. assert (dbit (view s) (k + data_area_start_block fs) = true) by (apply D; auto). congruence.
    + intros c Hc. rewrite elem_of_app, list_elem_of_singleton. specialize (D c Hc). unfold EfsFs.dbit in D |- *.
      rewrite U2 by (unfold EfsFs.in_data in Hc; lia). case_decide as Hck; [split; [intros _; left; right; lia|done]|].
      rewrite D. split; [tauto|]. intros [[?|?]|?]; [tauto|lia|tauto].
    + intros c Hc. by rewrite U3, E.
    + intros j Hj. unfold pad in Hj. rewrite U2, decide_False by lia. by apply P.
  - destruct Hpost as [Hall _]. unfold EfsFs.dbit in Hyb. rewrite Hall in Hyb; [done|]. unfold EfsFs.in_data in Hyd. lia.
Qed.

Lemma wp_alloc_blocks n : ∀ V v s (Q : list Z → St → Prop), ok s → allocated V v (view s) →
  (n <= length (free_blocks (view s)))%nat →
  (∀ v' s', ok s' → length v' = n → allocated V (v ++ v') (view s') → Q (v ++ v') s') → wp (alloc_blocks fs n v) Q s.
Proof.
  induction n as [|n IH]; intros V v s Q Hok HA Hf HQ; cbn [alloc_blocks].
  - apply wp_ret. rewrite <- (app_nil_r v). apply HQ; [done|done|]. by rewrite app_nil_r.
  - apply wp_bind, (wp_alloc_data V v); [done|done|lia|]. intros x s' Hok' HA'.
    apply (IH V); [done|done| |].
    + pose proof (allocated_free _ _ _ HA) as E1. pose proof (allocated_free _ _ _ HA') as E2.
      rewrite length_app in E2. simpl in E2. lia.
    + intros v' s'' Hok'' Hl HA''. rewrite <- app_assoc. rewrite <- app_assoc in HA''. apply HQ; [done|simpl; lia|done].
Qed.

(** ** Growing a file *)

(** The inode [d] of [V], with contents [bytes], became [d'] in [V']: it has
    the old blocks and blocks [v] that were free, and shows [bytes] and zeros. *)
Record extended V d bytes (new_size : Z) d' V' (v : list Z) : Prop := {
  ex_disk : disk_ok V';
  ex_inode : inode_ok d';
  ex_type : type_ d' = type_ d;
  ex_size : size d' = Z.max (size d) new_size;
  ex_blocks : inode_blocks V' d' ≡ₚ inode_blocks V d ++ v;
  ex_nodup : NoDup (inode_blocks V' d');
  ex_free c : c ∈ v → in_data c ∧ dbit V c = false;
  ex_bit c : in_data c → (dbit V' c = true ↔ c ∈ v ∨ dbit V c = true);
  ex_frame c : ¬ bm_block (data_bitmap fs) c → (c ∉ inode_blocks V' d') → V' c = V c;
  ex_pad k : pad fs nd k → bm_bit V' (data_bitmap fs) k = bm_bit V (data_bitmap fs) k;
  ex_data : inode_data V' d' (nblocks (size d')) = bytes ++ replicate (512 * nblocks (size d') - length bytes) 0;
}.

Definition blocks_needed (old new : Z) : nat := tot (nblocks new) - tot (nblocks old).

Lemma wp_blocks_num_needed d new_size s (Q : Z → St → Prop) : 0 <= size d <= new_size → new_size <= MAX_SIZE →
  Q (Z.of_nat (blocks_needed (size d) new_size)) s → wp (blocks_num_needed d new_size) Q s.
Proof.
  intros H Hm HQ. unfold blocks_num_needed. apply wp_bind, wp_assert; [apply Z.leb_le; lia|]. apply wp_ret.
  rewrite !total_blocks_tot by lia. pose proof (tot_mono _ _ (nblocks_mono _ _ H Hm)) as Hle.
  rewrite <- Nat2Z.inj_sub by done. rewrite wrap32_small; [done|].
  destruct (nblocks_spec new_size ltac:(lia)) as [_ Hn].
  assert (tot (nblocks new_size) <= 2 * nblocks new_size + 4)%nat; [|unfold is_u32, U32; lia]. unfold tot, subs.
  assert ((nblocks new_size - 156 + 127) / 128 <= S (nblocks new_size))%nat by (apply Nat.Div0.div_le_upper_bound; lia).
  destruct (28 <? nblocks new_size)%nat, (156 <? nblocks new_size)%nat; lia.
Qed.

(** The blocks of a file are data blocks in use. *)
Lemma own_data V σ i t bytes c : fs_ok V σ → σ !! i = Some (t, bytes) → c ∈ own V i → in_data c ∧ dbit V c = true.
Proof. intros Hok Hi. apply (fo_used _ _ _ _ Hok). eauto. Qed.

Lemma grown_extended V V1 V2 σ i t bytes new_size d' v : fs_ok V σ → σ !! i = Some (t, bytes) → let d := inode_at V i in
  allocated V v V1 → size d <= new_size → size d' = new_size →
  grown V1 d (nblocks (size d)) (nblocks new_size) V2 d' v [] →
  NoDup (blocks_of V1 d (nblocks (size d)) ++ v) →
  extended V d bytes new_size d' V2 v.
Proof.
  intros Hok Hi d HA Hle Hsz HG Hnd. pose proof (fo_inode _ _ _ _ Hok i t bytes Hi) as Hrel. fold d in Hrel.
  set (n0 := nblocks (size d)) in *. set (n1 := nblocks new_size) in *.
  assert (∀ c, in_data c → V1 c = V c) as HV1.
  { intros c Hc. apply (al_frame _ _ _ HA). by destruct (region_data _ _ geo c Hc). }
  assert (blocks_of V1 d n0 = blocks_of V d n0) as Eb.
  { apply (inode_blocks_ext V V1 d). intros c Hc. by apply HV1, (own_data V σ i t bytes). }
  pose proof (grown_nodup V1 d n0 v Hnd _ _ _ _ _ [] HG (eq_sym (app_nil_r v))) as Hnd2.
  rewrite !app_nil_r in Hnd2. fold (blocks_of V2 d' n1) in Hnd2.
  destruct HG as [(xs & ms & Ex & Em & Ep) G2 G3 G4 G5]. rewrite app_nil_r in Ep.
  assert (blocks_of V2 d' n1 ≡ₚ blocks_of V d n0 ++ v) as Hperm.
  { rewrite <- Eb, Ep. unfold blocks_of. rewrite Ex, Em. solve_Permutation. }
  assert (∀ c, c ∈ blocks_of V2 d' n1 → in_data c) as Hdata.
  { intros c. rewrite Hperm, elem_of_app. intros [Hc|Hc]; [by eapply own_data|]. by apply (al_free _ _ _ HA). }
  assert (inode_blocks V2 d' = blocks_of V2 d' n1) as Eib by (unfold inode_blocks; by rewrite Hsz).
  assert (∀ b, bm_block (data_bitmap fs) b → V2 b = V1 b) as Hbm.
  { intros b Hb. apply G3; [|apply not_elem_of_nil]. intros Hm. destruct (region_bitmap _ _ geo b Hb) as [_ Hn].
    apply Hn, Hdata, elem_of_app. by right. }
  split; try (rewrite ?Eib; done).
  - rewrite Hsz. lia.
  - apply HA.
  - intros c Hc. rewrite (dbit_ext fs nd geo V1 V2 c Hbm Hc). by apply HA.
  - rewrite Eib. intros c Hbm' Hc. rewrite G3, (al_frame _ _ _ HA); [done|done| |apply not_elem_of_nil].
    intros Hm. apply Hc, elem_of_app. by right.
  - intros k Hk. rewrite (pad_ext fs nd geo V1 V2 k Hbm Hk). by apply HA.
  - rewrite Hsz. fold n1. unfold inode_data. rewrite Ex, fmap_app, concat_app.
    unfold blocks_of in Hnd2. rewrite Ex in Hnd2. apply NoDup_app in Hnd2 as (_ & Hnd2 & _).
    assert (∀ c, c ∈ datas V1 d n0 ++ xs → V2 c = V c) as Hsame.
    { intros c Hc. rewrite G3; [apply HV1, Hdata, elem_of_app; left; by rewrite Ex| |apply not_elem_of_nil]. by apply Hnd2. }
    assert (V2 <$> datas V1 d n0 = V <$> datas V d n0) as ->.
    { rewrite <- (datas_ext V V1 d n0).
      - apply list_fmap_ext. intros j c Hc. apply Hsame, elem_of_app. left. by eapply list_elem_of_lookup_2.
      - intros c Hc. apply HV1. apply (own_data V σ i t bytes); [done|done|]. apply elem_of_app. by right. }
    fold (inode_data V d n0). pose proof (ir_data _ _ _ _ Hrel) as Hdt. fold n0 in Hdt.
    rewrite Hdt, <- app_assoc. f_equal.
    assert (concat (V2 <$> xs) = replicate (512 * length xs) 0) as ->.
    { assert (∀ c, c ∈ xs → V2 c = zero_block) as Hz.
      { intros c Hc. rewrite Hsame by (apply elem_of_app; by right). assert (c ∈ v) as Hv by (rewrite Ep; apply elem_of_app; by left).
        destruct (al_free _ _ _ HA c Hv). by apply (fo_free _ _ _ _ Hok). }
      clear -Hz. induction xs as [|x xs IH]; [done|]. rewrite fmap_cons. cbn [concat].
      rewrite IH, Hz by set_solver. unfold zero_block. rewrite <- replicate_add. f_equal. unfold BLOCK_SZ. simpl length. lia. }
    rewrite <- replicate_add. f_equal. apply (f_equal length) in Ex. rewrite length_app, !datas_length in Ex.
    pose proof (nblocks_spec (size d) ltac:(rewrite (ir_size _ _ _ _ Hrel); pose proof (ir_max _ _ _ _ Hrel); lia)) as [Hn0 _].
    rewrite (ir_size _ _ _ _ Hrel) in Hn0 at 1. unfold n0 in *. lia.
Qed.

Lemma extended_refl V σ i t bytes new_size : fs_ok V σ → σ !! i = Some (t, bytes) → new_size < size (inode_at V i) →
  extended V (inode_at V i) bytes new_size (inode_at V i) V [].
Proof.
  intros Hok Hi Hlt. pose proof (fo_inode _ _ _ _ Hok i t bytes Hi) as [A B C D E].
  split; [apply Hok|exact A|reflexivity|lia|by rewrite app_nil_r|apply (fo_nodup _ _ _ _ Hok); eauto| | |reflexivity|reflexivity|exact E].
  - intros c Hc. by apply elem_of_nil in Hc.
  - intros c _. rewrite elem_of_nil. tauto.
Qed.

Lemma inode_size_range V σ i t bytes : fs_ok V σ → σ !! i = Some (t, bytes) →
  size (inode_at V i) = Z.of_nat (length bytes) ∧ 0 <= size (inode_at V i) <= MAX_SIZE.
Proof. intros Hok Hi. destruct (fo_inode _ _ _ _ Hok i t bytes Hi) as [_ _ E D _]. lia. Qed.

Lemma wp_Inode_increase_size σ i t bytes new_size s s0 (Q : DiskInode → St → Prop) : ok s → (∀ c, view s c = view s0 c) →
  fs_ok (view s0) σ → σ !! i = Some (t, bytes) → 0 <= new_size <= MAX_SIZE → let d := inode_at (view s0) i in
  (blocks_needed (size d) new_size <= length (free_blocks (view s0)))%nat →
  (∀ d' v s', ok s' → extended (view s0) d bytes new_size d' (view s') v → Q d' s') →
  wp (Inode_increase_size fs new_size d) Q s.
Proof.
  intros Hok Hv Hfs Hi Hnew d Hfree HQ. destruct (inode_size_range _ _ _ _ _ Hfs Hi) as [Esz Hsz]. fold d in Esz, Hsz.
  pose proof (fo_inode _ _ _ _ Hfs i t bytes Hi) as Hrel. fold d in Hrel. unfold Inode_increase_size.
  destruct (Z.ltb_spec new_size (size d)) as [Hlt|Hge].
  { apply wp_ret. apply (HQ d []); [done|]. destruct (extended_refl _ _ _ _ _ _ Hfs Hi Hlt) as [A B C D E F G H I P J].
    assert (inode_blocks (view s) d = inode_blocks (view s0) d) as Eb by (apply inode_blocks_ext; intros; apply Hv).
    split; [|exact B|exact C|exact D|rewrite Eb; exact E|rewrite Eb; exact F|exact G| |intros; apply Hv|intros k Hk; by apply (pad_ext fs nd geo)|].
    - intros c. rewrite Hv. apply A.
    - intros c Hc. rewrite (dbit_ext fs nd geo (view s0)) by (done || intros; apply Hv). by apply H.
    - rewrite (inode_data_ext (view s0)) by (intros; apply Hv). exact J. }
  apply wp_bind, wp_blocks_num_needed; [lia|lia|]. rewrite Nat2Z.id.
  apply wp_bind. eapply (wp_alloc_blocks _ (view s0) []); [done| | |].
  - split; [intros c; rewrite Hv; apply (fo_disk _ _ _ _ Hfs)|apply NoDup_nil_2|by intros c Hc%elem_of_nil| |intros; apply Hv|intros k Hk; by apply (pad_ext fs nd geo)].
    intros c Hc. rewrite (dbit_ext fs nd geo (view s0)) by (done || intros; apply Hv). rewrite elem_of_nil. tauto.
  - assert (free_blocks (view s) = free_blocks (view s0)) as ->; [|done].
    unfold free_blocks. apply filter_ext_in. intros c Hc%elem_of_seqZ.
    rewrite (dbit_ext fs nd geo (view s0)); [done|intros; apply Hv|unfold EfsFs.in_data; lia].
  - intros v s1 Hok1 Hl HA. rewrite app_nil_l in HA |- *.
    assert (∀ c, in_data c → view s1 c = view s0 c) as HV1.
    { intros c Hc. apply (al_frame _ _ _ HA). by destruct (region_data _ _ geo c Hc). }
    assert (blocks_of (view s1) d (nblocks (size d)) = own (view s0) i) as Eb.
    { apply (inode_blocks_ext (view s0)). intros c Hc. by apply HV1, (own_data (view s0) σ i t bytes). }
    assert (NoDup (blocks_of (view s1) d (nblocks (size d)) ++ v)) as Hnd.
    { rewrite Eb. apply NoDup_app. split_and!; [apply (fo_nodup _ _ _ _ Hfs); eauto| |apply HA].
      intros c Hc Hcv. destruct (own_data _ _ _ _ _ _ Hfs Hi Hc) as [_ E1]. destruct (al_free _ _ _ HA c Hcv). congruence. }
    assert (u32s v) as Hu.
    { apply Forall_forall. intros c Hc. destruct (al_free _ _ _ HA c Hc) as [Hd _].
      destruct geo as [G1 G2 G3 G4 G5 G6 G7 G8 G9]. unfold EfsFs.in_data in Hd. unfold is_u32. lia. }
    pose proof (tot_mono _ _ (nblocks_mono (size d) new_size ltac:(lia) ltac:(lia))) as Hm.
    apply (wp_increase_size (view s1) d (nblocks (size d)) (nblocks new_size) v); [exact Hnd|exact Hu| | |exact Hok1|reflexivity| | | | |reflexivity|reflexivity|].
    + rewrite Hl. unfold blocks_needed. lia.
    + apply nblocks_max. lia.
    + apply HA.
    + apply Hrel.
    + lia.
    + lia.
    + intros d' s2 Hok2 HG Hsz'. apply (HQ d' v); [done|].
      by apply (grown_extended (view s0) (view s1) (view s2) σ i t bytes new_size d' v).
Qed.

(** ** Writing an inode back *)

(** [V'] is [V3] with inode [i] of [V] replaced by [d]. *)
Definition inode_put V V3 i d V' : Prop :=
  let '(b, off) := get_disk_inode_pos fs i in ∀ c, V' c = if decide (c = b) then store_inode (V b) off d else V3 c.

Lemma inode_slots i j : 0 <= i < inode_num → 0 <= j < inode_num → i ≠ j →
  let '(b, off) := get_disk_inode_pos fs i in let '(b', off') := get_disk_inode_pos fs j in
  b = b' → (off + 128 <= off' ∨ off' + 128 <= off)%nat.
Proof.
  intros Hi Hj Hne. pose proof (inode_pos_region fs nd geo i Hi) as H1. pose proof (inode_pos_region fs nd geo j Hj) as H2.
  destruct (get_disk_inode_pos fs i) as [b off], (get_disk_inode_pos fs j) as [b' off'].
  destruct H1 as (-> & _ & -> & _), H2 as (-> & _ & -> & _). intros E.
  assert (i / 4 = j / 4) by lia. assert (i mod 4 ≠ j mod 4) by (Z.div_mod_to_equations; lia).
  pose proof (Z.mod_pos_bound i 4). pose proof (Z.mod_pos_bound j 4). lia.
Qed.

Record stored V V3 i d V' : Prop := {
  st_disk : disk_ok V';
  st_super : V' 0 = V3 0;
  st_at : inode_at V' i = d;
  st_others j : 0 <= j < inode_num → j ≠ i → inode_at V' j = inode_at V j;
  st_ibit j : 0 <= j < inode_num → ibit V' j = ibit V3 j;
  st_dbit c : in_data c → dbit V' c = dbit V3 c;
  st_data c : in_data c → V' c = V3 c;
  st_pad k : pad fs nd k → bm_bit V' (data_bitmap fs) k = bm_bit V3 (data_bitmap fs) k;
}.

Lemma inode_put_stored V V3 i d V' : disk_ok V → disk_ok V3 → inode_ok d → 0 <= i < inode_num →
  (∀ c, inode_area_start_block fs <= c < start_block_id (data_bitmap fs) → V3 c = V c) →
  inode_put V V3 i d V' → stored V V3 i d V'.
Proof.
  intros HV HV3 Hd Hi Hsame Hput. pose proof (inode_pos_region fs nd geo i Hi) as Hp. unfold inode_put in Hput.
  pose proof (λ j, inode_slots i j Hi) as Hslot.
  assert (∀ j, inode_at V' j = let '(b, off) := get_disk_inode_pos fs j in load_inode (V' b) off) as Hat by done.
  destruct (get_disk_inode_pos fs i) as [b off] eqn:Epos. destruct Hp as (_ & Hb & _ & Hoff).
  destruct (region_inode fs nd geo b Hb) as (R1 & R2 & R3). split.
  - intros c. rewrite Hput. case_decide; [|apply HV3]. apply store_inode_ok; [apply HV|done|done].
  - rewrite Hput, decide_False; [done|]. pose proof (region_super fs nd geo). lia.
  - rewrite Hat, Epos, Hput, decide_True by done. apply load_store; [apply HV|done|done].
  - intros j Hj Hji. specialize (Hslot j Hj ltac:(congruence)). pose proof (inode_pos_region fs nd geo j Hj) as Hpj.
    rewrite Hat. unfold EfsFs.inode_at. destruct (get_disk_inode_pos fs j) as [b' off']. destruct Hpj as (_ & Hb' & _ & _).
    rewrite Hput. case_decide as E.
    + rewrite E in *. apply load_store_ne; [apply HV|done|done|]. specialize (Hslot eq_refl). lia.
    + by rewrite Hsame.
  - intros j Hj. apply bm_bit_ext; [|done]. intros c Hc. rewrite Hput, decide_False; [done|]. intros ->. by apply R1.
  - intros c Hc. apply (dbit_ext fs nd geo); [|done]. intros c' Hc'. rewrite Hput, decide_False; [done|]. intros ->. by apply R2.
  - intros c Hc. rewrite Hput, decide_False; [done|]. intros ->. by apply R3.
  - intros k Hk. apply (pad_ext fs nd geo); [|done]. intros c' Hc'. rewrite Hput, decide_False; [done|]. intros ->. by apply R2.
Qed.

Lemma wp_modify_inode {A} i (f : DiskInode → M St (A * DiskInode)) (Q : A → St → Prop) s : ok s → disk_ok (view s) → 0 <= i < inode_num →
  (∀ s1, ok s1 → (∀ c, view s1 c = view s c) →
    wp (f (inode_at (view s) i)) (λ '(a, d) s3, ok s3 ∧ inode_ok d ∧
      ∀ s4, ok s4 → inode_put (view s) (view s3) i d (view s4) → Q a s4) s1) →
  wp (modify_disk_inode (inode_of fs i) f) Q s.
Proof.
  intros Hok Hd Hi Hf. pose proof (inode_pos_region fs nd geo i Hi) as Hp.
  unfold modify_disk_inode, inode_of, modify_inode, EfsFs.inode_at, inode_put in *.
  destruct (get_disk_inode_pos fs i) as [b off]. simpl. destruct Hp as (_ & _ & _ & Hoff).
  apply wp_bind, wp_bs_get; [done|]. intros s1 Hok1 Hv1. apply wp_bind. eapply wp_mono; [by apply Hf|].
  intros [a d] s3 (Hok3 & Hid & HQ).
  apply wp_bind, wp_bs_put; [done|by apply store_inode_ok|]. intros s4 Hok4 Hv4. apply wp_ret. by apply HQ.
Qed.

Lemma wp_read_inode {A} i (f : DiskInode → M St A) (Q : A → St → Prop) s : ok s →
  (∀ s1, ok s1 → (∀ c, view s1 c = view s c) → wp (f (inode_at (view s) i)) Q s1) →
  wp (read_disk_inode (inode_of fs i) f) Q s.
Proof.
  intros Hok Hf. unfold read_disk_inode, inode_of, read_inode, EfsFs.inode_at in *. destruct (get_disk_inode_pos fs i) as [b off].
  apply wp_bind, wp_bs_get; [done|]. intros s1 Hok1 Hv1. by apply Hf.
Qed.

(** ** Writing *)

Lemma written_changed V V2 V3 V4 σ i t bytes new_size d v off buf : fs_ok V σ → σ !! i = Some (t, bytes) →
  extended V (inode_at V i) bytes new_size d V2 v → written d (nblocks (size d)) off buf V2 V3 →
  inode_put V V3 i d V4 →
  inode_changed fs nd V V4 σ i (own V i) ∧ stored V V3 i d V4 ∧ own V4 i = inode_blocks V2 d ∧
  (∀ c, c ∈ inode_blocks V2 d → V4 c = V3 c).
Proof.
  intros Hok Hi [E1 E2 E3 E4 E5 E6 E7 E8 E9 EP E10] [W1 W2 W3 W4 W5] Hput.
  assert (is_Some (σ !! i)) as Hs by eauto. pose proof (fo_range _ _ _ _ Hok i Hs) as Hr.
  assert (∀ c, c ∈ inode_blocks V2 d → in_data c) as Hdata.
  { intros c. rewrite E5, elem_of_app. intros [Hc|Hc]; [by eapply own_data|by apply E7]. }
  assert (∀ c, ¬ bm_block (data_bitmap fs) c → (c ∉ inode_blocks V2 d) → V3 c = V c) as Hframe.
  { intros c Hb Hc. rewrite W5, E9; [done|done|done|]. intros Hd. apply Hc, elem_of_app. by left. }
  assert (stored V V3 i d V4) as HS.
  { apply inode_put_stored; [apply Hok|done|done|done| |done]. intros c Hc.
    destruct (region_inode fs nd geo c Hc) as (_ & R2 & R3). apply Hframe; [done|]. intros Hin. by apply R3, Hdata. }
  assert (∀ c, c ∈ inode_blocks V2 d → V4 c = V3 c) as H43 by (intros c Hc; by apply (st_data _ _ _ _ _ HS), Hdata).
  assert (inode_blocks V3 d = inode_blocks V2 d) as E32 by (unfold inode_blocks, blocks_of; by rewrite W2, W3).
  assert (own V4 i = inode_blocks V2 d) as Eown.
  { unfold EfsFs.own. rewrite (st_at _ _ _ _ _ HS), <- E32. apply inode_blocks_ext. rewrite E32. exact H43. }
  assert (∀ b, bm_block (data_bitmap fs) b → V3 b = V2 b) as H32.
  { intros b Hb. apply W5. intros Hin. destruct (region_bitmap fs nd geo b Hb) as [_ Hn].
    apply Hn, Hdata, elem_of_app. by left. }
  assert (∀ c, in_data c → (dbit V4 c = true ↔ c ∈ v ∨ dbit V c = true)) as Hdb.
  { intros c Hc. rewrite (st_dbit _ _ _ _ _ HS) by done. rewrite <- (E8 c Hc).
    by rewrite (dbit_ext fs nd geo V2 V3). }
  assert (∀ j, 0 <= j < inode_num → ibit V4 j = ibit V j) as Hib.
  { intros j Hj. rewrite (st_ibit _ _ _ _ _ HS) by done. apply bm_bit_ext; [|done]. intros b Hb.
    destruct (region_ibitmap fs nd geo b Hb) as [H1 H2]. apply Hframe; [done|]. intros Hin. by apply H2, Hdata. }
  split; [|by split_and!]. split; rewrite ?Eown.
  - exact Hr.
  - by right.
  - apply HS.
  - rewrite (st_super _ _ _ _ _ HS). destruct (region_super fs nd geo) as (_ & H1 & H2 & _). apply Hframe; [done|].
    intros Hin. by apply H2, Hdata.
  - intros c Hc _ Hn. rewrite (st_data _ _ _ _ _ HS) by done. apply Hframe; [by apply (region_data fs nd geo)|done].
  - apply HS.
  - intros j Hj. rewrite Hib by done. split; [by right|]. intros [->|?]; [|done]. by apply (fo_dom _ _ _ _ Hok).
  - exact E6.
  - intros c Hc. split; [by apply Hdata|]. rewrite E5, elem_of_app in Hc. destruct Hc as [Hc|Hc]; [by left|]. right. by apply E7.
  - intros c Hc. rewrite Hdb by done. rewrite E5, elem_of_app. split.
    + intros [?|?]; [auto|]. destruct (decide (c ∈ own V i)); auto.
    + intros [[Ho|?]|[? _]]; [|auto|auto]. right. by eapply own_data.
  - intros c Hc []. rewrite E5, elem_of_app. by left.
  - intros k Hk. rewrite (st_pad _ _ _ _ _ HS), (pad_ext fs nd geo V2 V3) by done. by apply EP.
Qed.

Lemma written_fs_ok V V2 V3 V4 σ i t bytes d v off buf : fs_ok V σ → σ !! i = Some (t, bytes) →
  Z.of_nat (off + length buf) <= MAX_SIZE →
  extended V (inode_at V i) bytes (Z.of_nat (off + length buf)) d V2 v → written d (nblocks (size d)) off buf V2 V3 →
  inode_put V V3 i d V4 → fs_ok V4 (<[i := (t, write_bytes off buf bytes)]> σ).
Proof.
  intros Hok Hi Hmax HE HW Hput.
  destruct (written_changed _ _ _ _ _ _ _ _ _ _ _ _ _ Hok Hi HE HW Hput) as (HC & HS & Eown & H43).
  destruct (inode_size_range _ _ _ _ _ Hok Hi) as [Hsz Hmx]. pose proof (fo_inode _ _ _ _ Hok i t bytes Hi) as Hrel.
  apply (fs_ok_update fs nd V V4 σ i t _ (own V i)); [done|done|]. rewrite (st_at _ _ _ _ _ HS).
  pose proof (ex_size _ _ _ _ _ _ _ HE) as Esz. rewrite Hsz in Esz.
  assert (size d = Z.of_nat (length (write_bytes off buf bytes))) as Esz' by (rewrite write_bytes_length; lia).
  destruct (nblocks_spec (size d) ltac:(lia)) as [Hn _].
  split.
  - apply HE.
  - rewrite (ex_type _ _ _ _ _ _ _ HE). apply Hrel.
  - done.
  - lia.
  - assert (inode_data V4 d (nblocks (size d)) = inode_data V3 d (nblocks (size d))) as ->.
    { apply inode_data_ext. unfold blocks_of. rewrite (wt_datas _ _ _ _ _ _ HW), (wt_metas _ _ _ _ _ _ HW). exact H43. }
    rewrite (wt_data _ _ _ _ _ _ HW), (ex_data _ _ _ _ _ _ _ HE). apply write_bytes_pad; lia.
Qed.

(** [increase_size] followed by [write_at], the inode being open. *)
Lemma wp_extend_write {A} (K : Z → DiskInode → M St A) σ i t bytes off buf (Q : A → St → Prop) s s1 :
  ok s1 → (∀ c, view s1 c = view s c) → fs_ok (view s) σ → σ !! i = Some (t, bytes) →
  (0 < length buf)%nat → Z.of_nat (off + length buf) <= MAX_SIZE → Forall is_byte buf →
  (blocks_needed (Z.of_nat (length bytes)) (Z.of_nat (off + length buf)) <= length (free_blocks (view s)))%nat →
  (∀ d s3, ok s3 → inode_ok d →
     (∀ V4, inode_put (view s) (view s3) i d V4 → fs_ok V4 (<[i := (t, write_bytes off buf bytes)]> σ)) →
     wp (K (Z.of_nat (length buf)) d) Q s3) →
  wp (Inode_increase_size fs (Z.of_nat (off + length buf)) (inode_at (view s) i))
    (λ d, wp (let! n := DiskInode_write_at d (Z.of_nat off) buf in K n d) Q) s1.
Proof.
  intros Hok1 Hv1 Hok Hi Hpos Hmax Hb Hfree HK. destruct (inode_size_range _ _ _ _ _ Hok Hi) as [Hsz Hmx].
  apply (wp_Inode_increase_size σ i t bytes _ s1 s); [done|done|done|done|lia|by rewrite Hsz|].
  intros d v s2 Hok2 HE. pose proof (ex_size _ _ _ _ _ _ _ HE) as Esz.
  apply wp_bind, (wp_DiskInode_write_at d off buf); [done|apply HE|apply HE|lia|done|lia|done|apply HE|].
  intros s3 Hok3 HW. apply HK; [done|apply HE|]. intros V4 Hput. by eapply written_fs_ok.
Qed.

(** [Inode::write_at] writes the bytes at the offset; the other files are as before. *)
Lemma wp_Inode_write_at σ i t bytes off buf s (Q : Z → St → Prop) : ok s → fs_ok (view s) σ → σ !! i = Some (t, bytes) →
  (0 < length buf)%nat → Z.of_nat (off + length buf) <= MAX_SIZE → Forall is_byte buf →
  (blocks_needed (Z.of_nat (length bytes)) (Z.of_nat (off + length buf)) <= length (free_blocks (view s)))%nat →
  (∀ s', ok s' → fs_ok (view s') (<[i := (t, write_bytes off buf bytes)]> σ) → Q (Z.of_nat (length buf)) s') →
  wp (Inode_write_at fs (inode_of fs i) (Z.of_nat off) buf) Q s.
Proof.
  intros Hok Hfs Hi Hpos Hmax Hb Hfree HQ. unfold Inode_write_at. change MAX_SIZE with 8468480 in Hmax.
  rewrite wrap64_small by (unfold is_usize, USIZE; lia). rewrite wrap32_small by (unfold is_u32, U32; lia).
  rewrite <- Nat2Z.inj_add. apply wp_bind, wp_modify_inode; [done|apply Hfs|apply (fo_range _ _ _ _ Hfs); eauto|].
  intros s1 Hok1 Hv1. apply wp_bind, (wp_extend_write (λ n d, m_ret (n, d)) σ i t bytes off buf _ s); [done|done|done|done|done|done|done|done|].
  intros d s3 Hok3 Hd Hput. apply wp_ret. split_and!; [done|done|]. intros s4 Hok4 Hput4.
  apply wp_bind, wp_bs_sync; [done|]. intros s5 Hok5 Hv5. apply wp_ret, HQ; [done|].
  apply Hput. unfold inode_put in *. destruct (get_disk_inode_pos fs i). intros c. by rewrite Hv5, Hput4.
Qed.

(** [Inode::read_at] copies the bytes from the offset on. *)
Lemma wp_Inode_read_at σ i t bytes off buf s (Q : Z * list Z → St → Prop) : ok s → fs_ok (view s) σ → σ !! i = Some (t, bytes) →
  Z.of_nat off + Z.of_nat (length buf) < USIZE →
  (∀ s', ok s' → (∀ c, view s' c = view s c) →
     let r := take (length buf) (drop off bytes) in Q (Z.of_nat (length r), splice 0 r buf) s') →
  wp (Inode_read_at (inode_of fs i) (Z.of_nat off) buf) Q s.
Proof.
  intros Hok Hfs Hi Hlen HQ. pose proof (fo_inode _ _ _ _ Hfs i t bytes Hi) as Hrel.
  destruct (inode_size_range _ _ _ _ _ Hfs Hi) as [Hsz Hmx]. apply wp_read_inode; [done|]. intros s1 Hok1 Hv1.
  apply wp_DiskInode_read_at; [done|intros c; rewrite Hv1; apply Hfs|apply Hrel|done|done|]. intros s2 Hok2 Hv2.
  assert (file_bytes (view s1) (inode_at (view s) i) = bytes) as ->.
  { rewrite <- (inode_rel_bytes (view s) _ t bytes Hrel). unfold file_bytes. f_equal. apply inode_data_ext.
    intros; apply Hv1. }
  apply HQ; [done|]. intros c. by rewrite Hv2, Hv1.
Qed.

(** ** Clearing *)

(** The blocks [v] are free again, and zero. *)
Record deallocated V (v : list Z) V' : Prop := {
  de_disk : disk_ok V';
  de_in c : c ∈ v → in_data c;
  de_zero c : c ∈ v → V' c = zero_block;
  de_bit c : in_data c → (dbit V' c = true ↔ dbit V c = true ∧ (c ∉ v));
  de_frame c : ¬ bm_block (data_bitmap fs) c → (c ∉ v) → V' c = V c;
  de_pad k : pad fs nd k → bm_bit V' (data_bitmap fs) k = bm_bit V (data_bitmap fs) k;
}.

Lemma clear_block_zero b : length b = BLOCK_SZ → clear_block b = zero_block.
Proof. intros Hb. unfold clear_block, zero_block. rewrite <- Hb. clear. induction b; simpl; [done|]. by f_equal. Qed.

Lemma zero_block_ok : block_ok zero_block.
Proof. split; [apply length_replicate|]. apply Forall_replicate. unfold is_byte. lia. Qed.

Lemma wp_modify_block id f (Q : unit → St → Prop) s : ok s → length (f (view s id)) = BLOCK_SZ →
  (∀ s', ok s' → (∀ c, view s' c = if decide (c = id) then f (view s id) else view s c) → Q tt s') →
  wp (modify_block id f) Q s.
Proof.
  intros Hok Hl HQ. apply wp_bind, wp_bs_get; [done|]. intros s1 Hok1 Hv1. apply wp_bs_put; [done|done|].
  intros s2 Hok2 Hv2. apply HQ; [done|]. intros c. by rewrite Hv2, Hv1.
Qed.

Lemma wp_dealloc_data V v c (Q : unit → St → Prop) s : ok s → deallocated V v (view s) → in_data c → dbit V c = true → (c ∉ v) →
  (∀ s', ok s' → deallocated V (v ++ [c]) (view s') → Q tt s') → wp (dealloc_data fs c) Q s.
Proof.
  intros Hok [A I B C D P] Hc Hb Hcv HQ. destruct (region_data fs nd geo c Hc) as [_ R]. pose proof (geo_nd _ _ geo) as Hnd.
  unfold dealloc_data. assert (clear_block (view s c) = zero_block) as Hz by (apply clear_block_zero, A).
  apply wp_bind, wp_modify_block; [done|rewrite Hz; apply zero_block_ok|]. intros s1 Hok1 Hv1. rewrite Hz in Hv1.
  assert (disk_ok (view s1)) as Hd1 by (intros b; rewrite Hv1; case_decide; [apply zero_block_ok|apply A]).
  assert (∀ b, bm_block (data_bitmap fs) b → view s1 b = view s b) as Hbm.
  { intros b Hbm. rewrite Hv1, decide_False; [done|]. by intros ->. }
  assert (∀ b, in_data b → dbit (view s1) b = dbit (view s) b) as Hdb by (intros b Hb'; by apply (dbit_ext fs nd geo)).
  assert (0 <= c - data_area_start_block fs < nd) as Hk by (unfold EfsFs.in_data in Hc; lia).
  rewrite wrap32_small.
  2: { destruct geo as [G1 G2 G3 G4 G5 G6 G7 G8 G9]. unfold is_u32. lia. }
  eapply wp_mono; [apply wp_Bitmap_dealloc; [done|done|lia|]|].
  { fold (dbit (view s1) c). rewrite Hdb by done. apply C; auto. }
  intros [] s2 [Hok2 [U1 U2 U3]]. apply HQ; [done|]. split.
  - done.
  - intros b [Hb'|Hb']%elem_of_app; [by apply I|]. by apply list_elem_of_singleton in Hb' as ->.
  - intros b [Hb'|Hb']%elem_of_app.
    + destruct (region_data fs nd geo b (I b Hb')) as [_ R']. rewrite U3, Hv1 by done. case_decide; [done|by apply B].
    + apply list_elem_of_singleton in Hb' as ->. rewrite U3 by done. by rewrite Hv1, decide_True.
  - intros b Hb'. rewrite not_elem_of_app, list_elem_of_singleton.
    assert (0 <= b - data_area_start_block fs < nd) as Hk' by (unfold EfsFs.in_data in Hb'; lia).
    unfold EfsFs.dbit at 1. rewrite U2 by lia. case_decide as E.
    + assert (b = c) as -> by lia. naive_solver.
    + fold (dbit (view s1) b). rewrite Hdb, C by done. assert (b ≠ c) by lia. naive_solver.
  - intros b Hbm' Hb'. rewrite not_elem_of_app, list_elem_of_singleton in Hb'.
    rewrite U3, Hv1, decide_False by tauto. apply D; tauto.
  - intros k Hk'. unfold pad in Hk'. rewrite U2, decide_False by lia. rewrite (pad_ext fs nd geo (view s)) by done. by apply P.
Qed.

Lemma wp_dealloc_all V v (Q : unit → St → Prop) s : ok s → (∀ c, view s c = V c) → disk_ok V → NoDup v →
  (∀ c, c ∈ v → in_data c ∧ dbit V c = true) →
  (∀ s', ok s' → deallocated V v (view s') → Q tt s') → wp (m_for v (dealloc_data fs)) Q s.
Proof.
  intros Hok Hv HV Hnd Hin HQ.
  eapply wp_mono; [apply (wp_for v _ (λ done s', ok s' ∧ deallocated V done (view s')))|].
  - split; [done|]. split; [intros c; rewrite Hv; apply HV|by intros c Hc%elem_of_nil|by intros c Hc%elem_of_nil| |intros; apply Hv|
      intros k Hk; apply (pad_ext fs nd geo); [intros; apply Hv|done]].
    intros c Hc. rewrite (dbit_ext fs nd geo V) by (done || intros; apply Hv). rewrite elem_of_nil. tauto.
  - intros before x after s' E [Hok' HD]. assert (x ∈ v) as Hx by (rewrite E; set_solver). destruct (Hin x Hx).
    rewrite E in Hnd. apply NoDup_app in Hnd as (_ & Hnd & _).
    apply (wp_dealloc_data V before); [done|done|done|done| |by intros; split].
    intros Hb. apply (Hnd x Hb). by left.
  - intros [] s' [Hok' HD]. by apply HQ.
Qed.

Lemma nblocks_0 : nblocks 0 = 0%nat.
Proof. done. Qed.

Lemma cleared_changed V V3 V4 σ i t bytes d v : fs_ok V σ → σ !! i = Some (t, bytes) → deallocated V v V3 → v ≡ₚ own V i →
  inode_ok d → size d = 0 → inode_put V V3 i d V4 →
  inode_changed fs nd V V4 σ i (own V i) ∧ stored V V3 i d V4.
Proof.
  intros Hok Hi [A I B C D P] Hv Hd Hsz Hput. assert (is_Some (σ !! i)) as Hs by eauto.
  pose proof (fo_range _ _ _ _ Hok i Hs) as Hr.
  assert (stored V V3 i d V4) as HS.
  { apply inode_put_stored; [apply Hok|done|done|done| |done]. intros c Hc.
    destruct (region_inode fs nd geo c Hc) as (_ & R2 & R3). apply D; [done|]. intros Hin. by apply R3, I. }
  assert (own V4 i = []) as Eown.
  { unfold EfsFs.own, inode_blocks. by rewrite (st_at _ _ _ _ _ HS), Hsz, nblocks_0. }
  split; [|done]. split; rewrite ?Eown.
  - done.
  - by right.
  - apply HS.
  - rewrite (st_super _ _ _ _ _ HS). destruct (region_super fs nd geo) as (_ & H1 & H2 & _). apply D; [done|].
    intros Hin. by apply H2, I.
  - intros c Hc Ho _. rewrite (st_data _ _ _ _ _ HS) by done. apply D; [by apply (region_data fs nd geo)|by rewrite Hv].
  - apply HS.
  - intros j Hj. rewrite (st_ibit _ _ _ _ _ HS) by done.
    assert (ibit V3 j = ibit V j) as ->.
    { apply bm_bit_ext; [|done]. intros b Hb. destruct (region_ibitmap fs nd geo b Hb) as [H1 H2]. apply D; [done|].
      intros Hin. by apply H2, I. }
    split; [by right|]. intros [->|?]; [|done]. by apply (fo_dom _ _ _ _ Hok).
  - apply NoDup_nil_2.
  - by intros c Hc%elem_of_nil.
  - intros c Hc. rewrite (st_dbit _ _ _ _ _ HS), C, Hv, elem_of_nil by done. tauto.
  - intros c Hc _. assert (in_data c) by (by eapply own_data). rewrite (st_data _ _ _ _ _ HS) by done. apply B. by rewrite Hv.
  - intros k Hk. rewrite (st_pad _ _ _ _ _ HS) by done. by apply P.
Qed.

(** [Inode::clear] empties the file and frees its blocks. *)
Lemma wp_Inode_clear σ i t bytes s (Q : unit → St → Prop) : ok s → fs_ok (view s) σ → σ !! i = Some (t, bytes) →
  (∀ s', ok s' → fs_ok (view s') (<[i := (t, [])]> σ) →
     (∀ c, c ∈ own (view s) i → dbit (view s') c = false) → Q tt s') →
  wp (Inode_clear fs (inode_of fs i)) Q s.
Proof.
  intros Hok Hfs Hi HQ. pose proof (fo_inode _ _ _ _ Hfs i t bytes Hi) as Hrel.
  destruct (inode_size_range _ _ _ _ _ Hfs Hi) as [Hsz Hmx]. unfold Inode_clear.
  apply wp_bind, wp_modify_inode; [done|apply Hfs|apply (fo_range _ _ _ _ Hfs); eauto|]. intros s1 Hok1 Hv1.
  apply wp_bind, wp_clear_size; [done|apply Hrel|done|]. intros v d s2 Hok2 Hv2 Hp Hd Hd0 Hdt.
  assert (v ≡ₚ own (view s) i) as Hp'.
  { rewrite Hp. unfold EfsFs.own. by rewrite <- (inode_blocks_ext (view s) (view s1)) by (intros; apply Hv1). }
  apply wp_bind, wp_assert.
  { apply Z.eqb_eq. rewrite total_blocks_tot by done. rewrite Hp'.
    unfold EfsFs.own, inode_blocks. by rewrite blocks_of_length. }
  apply wp_bind, (wp_dealloc_all (view s) v); [done|by intros c; rewrite Hv2, Hv1|apply Hfs| | |].
  { rewrite Hp'. apply (fo_nodup _ _ _ _ Hfs). eauto. }
  { intros c. rewrite Hp'. by apply (own_data _ σ i t bytes). }
  intros s3 Hok3 HD. apply wp_ret. split_and!; [done|done|]. intros s4 Hok4 Hput.
  apply wp_bs_sync; [done|]. intros s5 Hok5 Hv5.
  assert (inode_put (view s) (view s3) i d (view s5)) as Hput5.
  { unfold inode_put in *. destruct (get_disk_inode_pos fs i). intros c. by rewrite Hv5, Hput. }
  destruct (cleared_changed (view s) (view s3) (view s5) σ i t bytes d v) as [HC HS]; try done.
  apply HQ; [done| |].
  - apply (fs_ok_update fs nd (view s) (view s5) σ i t [] (own (view s) i)); [done|done|].
    rewrite (st_at _ _ _ _ _ HS). split; [done|rewrite Hdt; apply Hrel|done|simpl; lia|].
    rewrite Hd0, nblocks_0. done.
  - intros c Hc. assert (in_data c) by (by eapply own_data). rewrite (st_dbit _ _ _ _ _ HS) by done.
    apply not_true_is_false. intros [_ Hn]%(de_bit _ _ _ HD); [|done]. apply Hn. by rewrite Hp'.
Qed.
End operations.
