(* ===== verification/EfsDir.v ===== *)
(** * Directories and making a file system (easy-fs/src/vfs.rs, efs.rs)

    A directory is the list of its entries.  [find], [ls], [create] and
    [create_dir] are shown against that list, and [EasyFileSystem::create] to
    produce an empty file system that [EasyFileSystem::open] opens. *)

From stdpp Require Import base list numbers list_numbers option sets gmap.
From S2P Require Import Prelude EfsCache EfsBitmap EfsInode EfsEntry EfsFs EfsOps.

(** ** The bytes of a directory *)

Definition entry_of (e : list Z * Z) : DirEntry := mkDirEntry (splice 0 e.1 (replicate 28 0)) e.2.
Definition dir_bytes (es : list (list Z * Z)) : list Z := concat ((λ e, as_bytes (entry_of e)) <$> es).

(** The entries of a directory: names it can hold, and inode numbers. *)
Definition entries_ok (es : list (list Z * Z)) : Prop := Forall (λ e, name_ok e.1 ∧ is_u32 e.2) es.

(** The first entry of a name. *)
Definition dir_find (name : list Z) (es : list (list Z * Z)) : option Z :=
  snd <$> List.find (λ e, bool_decide (e.1 = name)) es.

Lemma entry_of_ok e : name_ok e.1 → is_u32 e.2 → entry_ok (entry_of e).
Proof.
  intros [_ Hl _] Hu. split; [|done]. simpl. rewrite entry_name_pad, length_app, length_replicate by lia. lia.
Qed.

Lemma entry_bytes e : name_ok e.1 → Forall is_byte (as_bytes (entry_of e)).
Proof.
  intros [Hb Hl _]. unfold as_bytes. apply Forall_app. split; [|apply le_put_bytes]. simpl. rewrite entry_name_pad by lia.
  apply Forall_app. split; [eapply Forall_impl; [exact Hb|]; unfold is_byte; simpl; lia|].
  apply Forall_replicate. unfold is_byte. lia.
Qed.

Lemma dir_chunks es : entries_ok es → Forall (λ b, length b = DIRENT_SZ) ((λ e, as_bytes (entry_of e)) <$> es).
Proof.
  intros H. apply Forall_fmap. eapply Forall_impl; [exact H|]. intros e [H1 H2]. by apply as_bytes_length, entry_of_ok.
Qed.

Lemma dir_bytes_length es : entries_ok es → length (dir_bytes es) = (DIRENT_SZ * length es)%nat.
Proof. intros H. unfold dir_bytes. rewrite (length_chunks DIRENT_SZ) by by apply dir_chunks. by rewrite length_fmap. Qed.

Lemma dir_bytes_entry es k e : entries_ok es → es !! k = Some e →
  take DIRENT_SZ (drop (DIRENT_SZ * k) (dir_bytes es)) = as_bytes (entry_of e).
Proof.
  intros H Hk. pose proof (lookup_lt_Some _ _ _ Hk) as Hlt. unfold dir_bytes. rewrite <- (Nat.add_0_r (DIRENT_SZ * k)).
  rewrite (chunk_read DIRENT_SZ) by (rewrite ?length_fmap; (by apply dir_chunks) || lia || done).
  rewrite drop_0, list_lookup_total_alt, list_lookup_fmap, Hk. simpl default.
  destruct (Forall_lookup_1 _ _ _ _ H Hk) as [H1 H2].
  rewrite <- (as_bytes_length (entry_of e)) at 1 by by apply entry_of_ok. apply firstn_all.
Qed.

Lemma dir_bytes_snoc es e : dir_bytes (es ++ [e]) = dir_bytes es ++ as_bytes (entry_of e).
Proof. unfold dir_bytes. rewrite fmap_app, concat_app. simpl. by rewrite app_nil_r. Qed.

(** Writing one entry past the end appends it. *)
Lemma write_bytes_append bytes buf : write_bytes (length bytes) buf bytes = bytes ++ buf.
Proof.
  unfold write_bytes, splice. rewrite take_app_length, drop_ge; [by rewrite app_nil_r|].
  rewrite length_app, length_replicate. lia.
Qed.

Section directories.
Context {St : Type} {BS : BlockStore St} {ok : St → Prop} {view : St → Z → list Z} {spec : BlockStoreSpec St ok view}.
Context (fs : EasyFileSystem) (nd : Z) (geo : geometry fs nd).
Implicit Types (s : St) (V : Z → list Z) (σ : gmap Z (DiskInodeType * list Z)) (c i j : Z) (d : DiskInode).
Implicit Types (es : list (list Z * Z)) (name : list Z).
Local Abbreviation inode_at := (inode_at fs).
Local Abbreviation fs_ok := (fs_ok fs nd).

Lemma wp_DirEntry_name e (Q : list Z → St → Prop) s : name_ok e.1 → Q e.1 s → wp (DirEntry_name (entry_of e)) Q s.
Proof.
  intros [Hb Hl Hu] HQ. unfold DirEntry_name. simpl de_name. rewrite entry_name_pad by lia.
  replace (28 - length e.1)%nat with (S (27 - length e.1)) by lia. cbn [replicate].
  apply wp_bind. eapply wp_unwrap; [by apply first_nul_app|]. rewrite take_app_length.
  apply wp_bind, wp_assert; [done|]. by apply wp_ret.
Qed.

Lemma wp_DirEntry_new name id (Q : DirEntry → St → Prop) s : (length name <= 28)%nat → Q (entry_of (name, id)) s →
  wp (DirEntry_new name id) Q s.
Proof. intros Hl HQ. apply wp_bind, wp_assert; [by apply bool_decide_eq_true|]. by apply wp_ret. Qed.

(** Reading entry [k] of a directory over any entry. *)
Lemma wp_read_dirent σ i es k e dirent s0 s (Q : DirEntry → St → Prop) : ok s → (∀ c, view s c = view s0 c) →
  fs_ok (view s0) σ → σ !! i = Some (Directory, dir_bytes es) → entries_ok es → entry_ok dirent → es !! k = Some e →
  (∀ s', ok s' → (∀ c, view s' c = view s0 c) → Q (entry_of e) s') →
  wp (read_dirent (inode_at (view s0) i) k dirent) Q s.
Proof.
  intros Hok Hv Hfs Hi Hes Hde Hk HQ. pose proof (fo_inode _ _ _ _ Hfs i _ _ Hi) as Hrel.
  destruct (inode_size_range fs nd _ _ _ _ _ Hfs Hi) as [Hsz Hmx].
  destruct (Forall_lookup_1 _ _ _ _ Hes Hk) as [He1 He2]. pose proof (entry_of_ok e He1 He2) as Heok.
  pose proof (lookup_lt_Some _ _ _ Hk) as Hlt. pose proof (dir_bytes_length es Hes) as Hdl.
  change MAX_SIZE with 8468480 in Hmx. unfold read_dirent. apply wp_bind.
  apply wp_DiskInode_read_at; [done|intros c; rewrite Hv; apply Hfs|apply Hrel|done| |].
  { rewrite as_bytes_length by done. unfold DIRENT_SZ, USIZE in *. lia. }
  intros s1 Hok1 Hv1. cbv zeta. rewrite as_bytes_length by done.
  assert (file_bytes (view s) (inode_at (view s0) i) = dir_bytes es) as ->.
  { rewrite <- (inode_rel_bytes _ _ _ _ Hrel). unfold file_bytes. f_equal. apply inode_data_ext. intros; apply Hv. }
  rewrite (dir_bytes_entry es k e Hes Hk), as_bytes_length by done. apply wp_ret.
  assert (splice 0 (as_bytes (entry_of e)) (as_bytes dirent) = as_bytes (entry_of e)) as ->.
  { unfold splice. rewrite take_0, drop_ge, app_nil_r; [done|]. by rewrite !as_bytes_length. }
  rewrite of_as_bytes by done. apply HQ; [done|]. intros c. by rewrite Hv1, Hv.
Qed.

Lemma wp_find_loop σ i es name s0 : fs_ok (view s0) σ → σ !! i = Some (Directory, dir_bytes es) → entries_ok es →
  ∀ n k dirent s (Q : option Z → St → Prop), ok s → (∀ c, view s c = view s0 c) → entry_ok dirent → (k + n = length es)%nat →
  (∀ s', ok s' → (∀ c, view s' c = view s0 c) → Q (dir_find name (drop k es)) s') →
  wp (find_loop name (inode_at (view s0) i) (seq k n) dirent) Q s.
Proof.
  intros Hfs Hi Hes. induction n as [|n IH]; intros k dirent s Q Hok Hv Hde Hkn HQ.
  - simpl. apply wp_ret. rewrite drop_ge in HQ by lia. by apply HQ.
  - destruct (lookup_lt_is_Some_2 es k ltac:(lia)) as [e He]. rewrite (drop_S es e k He) in HQ.
    destruct (Forall_lookup_1 _ _ _ _ Hes He) as [He1 He2]. cbn [seq find_loop].
    apply wp_bind, (wp_read_dirent σ i es k e); try done. intros s1 Hok1 Hv1.
    apply wp_bind, wp_DirEntry_name; [done|]. unfold dir_find in HQ. cbn [List.find] in HQ.
    destruct (bool_decide (e.1 = name)) eqn:En.
    + apply wp_ret. by apply HQ.
    + apply IH; [done|done|by apply entry_of_ok|lia|done].
Qed.

Lemma file_count_dir σ i es V : fs_ok V σ → σ !! i = Some (Directory, dir_bytes es) → entries_ok es →
  file_count (inode_at V i) = length es.
Proof.
  intros Hfs Hi Hes. destruct (inode_size_range fs nd _ _ _ _ _ Hfs Hi) as [Hsz _]. unfold file_count.
  rewrite Hsz, dir_bytes_length by done. unfold DIRENT_SZ.
  replace (Z.of_nat (32 * length es)) with (Z.of_nat (length es) * 32) by lia. rewrite Z.div_mul by lia. apply Nat2Z.id.
Qed.

Lemma wp_find_inode_id σ i es name s0 s (Q : option Z → St → Prop) : ok s → (∀ c, view s c = view s0 c) →
  fs_ok (view s0) σ → σ !! i = Some (Directory, dir_bytes es) → entries_ok es →
  (∀ s', ok s' → (∀ c, view s' c = view s0 c) → Q (dir_find name es) s') →
  wp (find_inode_id name (inode_at (view s0) i)) Q s.
Proof.
  intros Hok Hv Hfs Hi Hes HQ. unfold find_inode_id. apply wp_bind, wp_assert.
  { apply bool_decide_eq_true. apply (fo_inode _ _ _ _ Hfs i _ _ Hi). }
  rewrite (file_count_dir σ i es) by done. apply (wp_find_loop σ i es name s0); try done.
Qed.

(** [Inode::find]: the first entry of that name. *)
Lemma wp_Inode_find σ i es name s (Q : option Inode → St → Prop) : ok s →
  fs_ok (view s) σ → σ !! i = Some (Directory, dir_bytes es) → entries_ok es →
  (∀ s', ok s' → (∀ c, view s' c = view s c) → Q (inode_of fs <$> dir_find name es) s') →
  wp (Inode_find fs (inode_of fs i) name) Q s.
Proof.
  intros Hok Hfs Hi Hes HQ. apply wp_read_inode; [done|]. intros s1 Hok1 Hv1.
  apply wp_bind, (wp_find_inode_id σ i es name s); [done|done|done|done|done|]. intros s2 Hok2 Hv2. apply wp_ret. by apply HQ.
Qed.

Lemma wp_ls_loop σ i es s0 : fs_ok (view s0) σ → σ !! i = Some (Directory, dir_bytes es) → entries_ok es →
  ∀ n k v s (Q : list (list Z) → St → Prop), ok s → (∀ c, view s c = view s0 c) → (k + n = length es)%nat →
  (∀ s', ok s' → (∀ c, view s' c = view s0 c) → Q (v ++ (fst <$> drop k es)) s') →
  wp (ls_loop (inode_at (view s0) i) (seq k n) v) Q s.
Proof.
  intros Hfs Hi Hes. induction n as [|n IH]; intros k v s Q Hok Hv Hkn HQ.
  - simpl. apply wp_ret. rewrite drop_ge in HQ by lia. simpl in HQ. rewrite app_nil_r in HQ. by apply HQ.
  - destruct (lookup_lt_is_Some_2 es k ltac:(lia)) as [e He]. rewrite (drop_S es e k He) in HQ.
    destruct (Forall_lookup_1 _ _ _ _ Hes He) as [He1 He2]. cbn [seq ls_loop].
    apply wp_bind, (wp_read_dirent σ i es k e); try done. intros s1 Hok1 Hv1.
    apply wp_bind, wp_DirEntry_name; [done|]. apply IH; [done|done|lia|]. intros s2 Hok2 Hv2.
    rewrite <- app_assoc. by apply HQ.
Qed.

(** [Inode::ls]: the names, in order. *)
Lemma wp_Inode_ls σ i es s (Q : list (list Z) → St → Prop) : ok s →
  fs_ok (view s) σ → σ !! i = Some (Directory, dir_bytes es) → entries_ok es →
  (∀ s', ok s' → (∀ c, view s' c = view s c) → Q (fst <$> es) s') → wp (Inode_ls (inode_of fs i)) Q s.
Proof.
  intros Hok Hfs Hi Hes HQ. apply wp_read_inode; [done|]. intros s1 Hok1 Hv1.
  rewrite (file_count_dir σ i es) by done. by apply (wp_ls_loop σ i es s).
Qed.

(** ** New inodes *)

Lemma fresh_inode V V1 V2 σ x t d : fs_ok V σ → σ !! x = None → 0 <= x < inode_num fs →
  bm_updated (inode_bitmap fs) x true V V1 → inode_ok d → size d = 0 → type_ d = t → inode_put fs V1 V1 x d V2 →
  fs_ok V2 (<[x := (t, [])]> σ) ∧ free_blocks fs nd V2 = free_blocks fs nd V.
Proof.
  intros Hok Hx Hr [U1 U2 U3] Hd Hsz Ht Hput.
  assert (stored fs nd V1 V1 x d V2) as HS by (by apply (inode_put_stored fs nd geo)).
  assert (own fs V2 x = []) as Eown.
  { unfold own, inode_blocks. by rewrite (st_at _ _ _ _ _ _ _ HS), Hsz, nblocks_0. }
  assert (∀ c, in_data fs nd c → dbit fs V2 c = dbit fs V c) as Hdb.
  { intros c Hc. rewrite (st_dbit _ _ _ _ _ _ _ HS) by done. apply (dbit_ext fs nd geo); [|done].
    intros b Hb. apply U3. by apply (region_bitmap fs nd geo). }
  split.
  - apply (fs_ok_update fs nd V V2 σ x t [] []); [done| |].
    + split; rewrite ?Eown.
      * done.
      * by left.
      * apply HS.
      * rewrite (st_super _ _ _ _ _ _ _ HS). apply U3. by apply (region_super fs nd geo).
      * intros c Hc _ _. rewrite (st_data _ _ _ _ _ _ _ HS) by done. apply U3. by apply (region_data fs nd geo).
      * intros j Hj Hjx. rewrite (st_others _ _ _ _ _ _ _ HS) by done. apply (inode_at_ext fs nd geo); [done|].
        intros c Hc. apply U3. by apply (region_inode fs nd geo).
      * intros j Hj. rewrite (st_ibit _ _ _ _ _ _ _ HS) by done. unfold ibit at 1. rewrite U2 by done.
        fold (ibit fs V j). case_decide; naive_solver.
      * apply NoDup_nil_2.
      * by intros c Hc%elem_of_nil.
      * intros c Hc. rewrite Hdb, !elem_of_nil by done. tauto.
      * by intros c Hc%elem_of_nil.
      * intros k Hk. rewrite (st_pad _ _ _ _ _ _ _ HS) by done. apply (pad_ext fs nd geo); [|done].
        intros b Hb. apply U3. by apply (region_bitmap fs nd geo).
    + rewrite (st_at _ _ _ _ _ _ _ HS). split; [done|done|done|done|]. rewrite Hsz, nblocks_0. done.
  - apply filter_ext_in. intros c Hc%elem_of_seqZ. rewrite Hdb; [done|]. unfold in_data. lia.
Qed.

Lemma wp_alloc_inode σ s (Q : Z → St → Prop) : ok s → fs_ok (view s) σ → (∃ j, 0 <= j < inode_num fs ∧ σ !! j = None) →
  (∀ x s', ok s' → 0 <= x < inode_num fs → σ !! x = None → (∀ j, 0 <= j < x → is_Some (σ !! j)) →
     bm_updated (inode_bitmap fs) x true (view s) (view s') → Q x s') →
  wp (alloc_inode fs) Q s.
Proof.
  intros Hok Hfs (j & Hj & Hjn) HQ. unfold alloc_inode. pose proof (geo_ibn _ _ geo). pose proof (geo_inum _ _ geo) as Hnum.
  apply wp_bind. eapply wp_mono; [apply wp_Bitmap_alloc; [done|apply Hfs|lia]|].
  intros [x|] s' [Hok' Hpost].
  - destruct Hpost as (Hx & Hxb & Hbelow & HU). apply wp_bind, wp_ret, wp_ret. rewrite wrap32_small by (unfold is_u32; lia).
    apply HQ; [done|done| | |done].
    2: { intros k Hk. apply (fo_dom _ _ _ _ Hfs); [unfold inode_num in *; lia|]. by apply Hbelow. }
    apply eq_None_not_Some. intros Hs. apply (fo_dom _ _ _ _ Hfs) in Hs; [|done].
    unfold ibit in Hs. congruence.
  - destruct Hpost as [Hall _]. assert (is_Some (σ !! j)) as [? ?]; [|congruence].
    apply (fo_dom _ _ _ _ Hfs); [done|]. by apply Hall.
Qed.

(** [initialize] of a new inode: an empty file. *)
Lemma wp_init_inode σ V x t s : ok s → fs_ok V σ → σ !! x = None → 0 <= x < inode_num fs →
  bm_updated (inode_bitmap fs) x true V (view s) →
  wp (let '(b, off) := get_disk_inode_pos fs x in initialize_inode b off t)
    (λ _ s', ok s' ∧ fs_ok (view s') (<[x := (t, [])]> σ) ∧ free_blocks fs nd (view s') = free_blocks fs nd V) s.
Proof.
  intros Hok Hfs Hxn Hx HU. set (P := λ (_ : unit) s', ok s' ∧ _).
  assert (wp (modify_disk_inode (inode_of fs x) (λ d, m_ret (tt, DiskInode_initialize t d))) P s) as Hmod.
  { apply (wp_modify_inode fs nd geo); [done|apply HU|done|]. intros s2 Hok2 Hv2. apply wp_ret.
    assert (inode_ok (inode_at (view s) x)) as (_ & D2 & _).
    { pose proof (inode_pos_region fs nd geo x Hx) as Hp. unfold EfsFs.inode_at. destruct (get_disk_inode_pos fs x).
      apply load_inode_ok; [apply HU|apply Hp]. }
    assert (inode_ok (DiskInode_initialize t (inode_at (view s) x))) as Hd'.
    { split; [done|]. split; [by cbn [DiskInode_initialize direct]; rewrite length_fmap|].
      split; [by apply Forall_fmap, Forall_true|done]. }
    split_and!; [done|done|]. intros s3 Hok3 Hput. split; [done|].
    apply (fresh_inode V (view s) (view s3) σ x t (DiskInode_initialize t (inode_at (view s) x))); try done.
    unfold inode_put in *. destruct (get_disk_inode_pos fs x). intros c. by rewrite Hput, Hv2. }
  unfold inode_of, modify_disk_inode in Hmod. destruct (get_disk_inode_pos fs x) as [b off]. exact Hmod.
Qed.

(** [alloc_inode] and [initialize]: a new empty file. *)
Lemma wp_new_inode {A} (K : Z → M St A) t σ s (Q : A → St → Prop) : ok s → fs_ok (view s) σ →
  (∃ j, 0 <= j < inode_num fs ∧ σ !! j = None) →
  (∀ x s', ok s' → 0 <= x < inode_num fs → σ !! x = None → fs_ok (view s') (<[x := (t, [])]> σ) →
     free_blocks fs nd (view s') = free_blocks fs nd (view s) → wp (K x) Q s') →
  wp (let! x := alloc_inode fs in
      let '(b, off) := get_disk_inode_pos fs x in
      initialize_inode b off t ;;; K x) Q s.
Proof.
  intros Hok Hfs Hex HK. apply wp_bind, (wp_alloc_inode σ); [done|done|done|]. intros x s1 Hok1 Hx Hxn _ HU.
  pose proof (wp_init_inode σ (view s) x t s1 Hok1 Hfs Hxn Hx HU) as Hinit. destruct (get_disk_inode_pos fs x) as [b off].
  apply wp_bind. eapply wp_mono; [exact Hinit|]. intros [] s2 (Hok2 & Hfs2 & Hf2). by apply HK.
Qed.

Lemma free_blocks_ext V V' : (∀ c, V' c = V c) → free_blocks fs nd V' = free_blocks fs nd V.
Proof. intros H. apply filter_ext_in. intros c _. unfold dbit, bm_bit. by rewrite H. Qed.

(** An entry is appended to a directory. *)
Lemma wp_append_entry σ i es name x s : ok s → fs_ok (view s) σ → σ !! i = Some (Directory, dir_bytes es) → entries_ok es →
  name_ok name → is_u32 x → Z.of_nat (DIRENT_SZ * (length es + 1)) <= MAX_SIZE →
  (blocks_needed (Z.of_nat (DIRENT_SZ * length es)) (Z.of_nat (DIRENT_SZ * (length es + 1))) <=
     length (free_blocks fs nd (view s)))%nat →
  wp (modify_disk_inode (inode_of fs i) (λ d,
        let count := file_count d in
        let new_size := wrap32 (Z.of_nat ((count + 1) * DIRENT_SZ)) in
        let! d := Inode_increase_size fs new_size d in
        let! dirent := DirEntry_new name x in
        let! _ := DiskInode_write_at d (Z.of_nat (count * DIRENT_SZ)) (as_bytes dirent) in
        m_ret (tt, d)))
    (λ _ s', ok s' ∧ fs_ok (view s') (<[i := (Directory, dir_bytes (es ++ [(name, x)]))]> σ)) s.
Proof.
  intros Hok Hfs Hi Hes Hname Hx32 Hmax Hfree.
  pose proof (dir_bytes_length es Hes) as Hdl. pose proof (as_bytes_length _ (entry_of_ok (name, x) Hname Hx32)) as Hel.
  apply (wp_modify_inode fs nd geo); [done|apply Hfs|apply (fo_range _ _ _ _ Hfs); eauto|]. intros s1 Hok1 Hv1.
  cbv zeta. rewrite (file_count_dir σ i es) by done. apply wp_bind.
  assert (wrap32 (Z.of_nat ((length es + 1) * DIRENT_SZ)) =
    Z.of_nat (length (dir_bytes es) + length (as_bytes (entry_of (name, x))))) as ->.
  { rewrite Hdl, Hel. change MAX_SIZE with 8468480 in Hmax. unfold DIRENT_SZ in *.
    rewrite wrap32_small by (unfold is_u32, U32; lia). lia. }
  replace (length es * DIRENT_SZ)%nat with (length (dir_bytes es)) by lia.
  eapply wp_mono; [|intros d s2 Hwp; destruct Hname; apply wp_bind, wp_DirEntry_new; [lia|exact Hwp]].
  apply (wp_extend_write fs nd geo (λ _ d, m_ret (tt, d)) σ i Directory (dir_bytes es)); try done.
  - rewrite Hel. unfold DIRENT_SZ. lia.
  - rewrite Hdl, Hel. lia.
  - by apply (entry_bytes (name, x)).
  - rewrite Hdl, Hel. replace (DIRENT_SZ * length es + DIRENT_SZ)%nat with (DIRENT_SZ * (length es + 1))%nat by lia. done.
  - intros d s2 Hok2 Hd Hput. apply wp_ret. split_and!; [exact Hok2|exact Hd|]. intros s3 Hok3 Hput3. split; [done|].
    specialize (Hput _ Hput3). by rewrite write_bytes_append, <- dir_bytes_snoc in Hput.
Qed.

(** [create] and [create_dir]: a new inode and an entry for it; nothing if the
    name is taken. *)
Lemma wp_create_node_taken t σ i es name s (Q : option Inode → St → Prop) : ok s →
  fs_ok (view s) σ → σ !! i = Some (Directory, dir_bytes es) → entries_ok es → is_Some (dir_find name es) →
  (∀ s', ok s' → (∀ c, view s' c = view s c) → Q None s') →
  wp (create_node t fs (inode_of fs i) name) Q s.
Proof.
  intros Hok Hfs Hi Hes [x Hx] HQ. apply wp_bind, wp_read_inode; [done|]. intros s1 Hok1 Hv1.
  apply wp_bind, wp_assert. { apply bool_decide_eq_true. apply (fo_inode _ _ _ _ Hfs i _ _ Hi). }
  apply (wp_find_inode_id σ i es name s); try done. intros s2 Hok2 Hv2. rewrite Hx. by apply wp_ret, HQ.
Qed.

Lemma wp_create_node t σ i es name s (Q : option Inode → St → Prop) : ok s →
  fs_ok (view s) σ → σ !! i = Some (Directory, dir_bytes es) → entries_ok es → dir_find name es = None →
  name_ok name → (∃ j, 0 <= j < inode_num fs ∧ σ !! j = None) →
  Z.of_nat (DIRENT_SZ * (length es + 1)) <= MAX_SIZE →
  (blocks_needed (Z.of_nat (DIRENT_SZ * length es)) (Z.of_nat (DIRENT_SZ * (length es + 1))) <=
     length (free_blocks fs nd (view s)))%nat →
  (∀ x s', ok s' → σ !! x = None → 0 <= x < inode_num fs →
     fs_ok (view s') (<[i := (Directory, dir_bytes (es ++ [(name, x)]))]> (<[x := (t, [])]> σ)) →
     Q (Some (inode_of fs x)) s') →
  wp (create_node t fs (inode_of fs i) name) Q s.
Proof.
  intros Hok Hfs Hi Hes Hnone Hname Hex Hmax Hfree HQ. apply wp_bind, wp_read_inode; [done|]. intros s1 Hok1 Hv1.
  apply wp_bind, wp_assert. { apply bool_decide_eq_true. apply (fo_inode _ _ _ _ Hfs i _ _ Hi). }
  apply (wp_find_inode_id σ i es name s); try done. intros s2 Hok2 Hv2. rewrite Hnone.
  apply (wp_new_inode _ t σ); [done|by eapply fs_ok_ext|done|]. intros x s3 Hok3 Hx Hxn Hfs3 Efree.
  assert (x ≠ i) as Hxi by (intros ->; congruence).
  assert (<[x := (t, [])]> σ !! i = Some (Directory, dir_bytes es)) as Hi3 by (by rewrite lookup_insert_ne).
  assert (is_u32 x) as Hx32 by (pose proof (geo_inum _ _ geo); unfold inode_num in Hx; unfold is_u32; lia).
  apply wp_bind. eapply wp_mono; [apply (wp_append_entry (<[x := (t, [])]> σ) i es name x); try done|].
  - rewrite Efree. erewrite free_blocks_ext; [exact Hfree|exact Hv2].
  - intros [] s4 [Hok4 Hfs4]. apply wp_bind, wp_bs_sync; [done|]. intros s5 Hok5 Hv5. apply wp_ret.
    apply HQ; [done|done|done|]. by eapply fs_ok_ext.
Qed.
End directories.
