(* ===== verification/EfsMake.v ===== *)
(** * Making, opening and using a file system

    [EasyFileSystem::create] makes an empty file system; [open] opens what
    [create] made, at any later time.  The theorems on files and directories
    are stated here, over any block store and, in their witnesses, over the
    block cache in front of a device. *)

From stdpp Require Import base list numbers list_numbers option sets gmap.
From S2P Require Import Prelude EfsCache EfsBitmap EfsInode EfsEntry EfsFs EfsOps EfsDir.

(** ** A cleared disk *)

Lemma le_get_zeros n : le_get (replicate n 0) = 0.
Proof. induction n as [|n IH]; [done|]. cbn [replicate le_get]. rewrite IH. done. Qed.

Lemma rd_zero w off : rd w zero_block off = 0.
Proof. unfold rd, zero_block. rewrite drop_replicate, take_replicate. apply le_get_zeros. Qed.

Lemma bm_bit_zero V bm i : V (i / BLOCK_BITS + start_block_id bm) = zero_block → bm_bit V bm i = false.
Proof. intros E. unfold bm_bit, block_bit. rewrite E, rd_zero. apply Z.testbit_0_l. Qed.

(** The layout for a device of [total] blocks with [ib] blocks of inode bitmap. *)
Definition made_data_total (total ib : Z) : Z := total - 1 - 1025 * ib.
Definition made_bitmap (total ib : Z) : Z := (made_data_total total ib + 4096) / 4097.
Definition made_area (total ib : Z) : Z := made_data_total total ib - made_bitmap total ib.
Definition made_fs (total ib : Z) : EasyFileSystem :=
  mkEfs (mkBitmap 1 ib) (mkBitmap (1 + 1025 * ib) (made_bitmap total ib)) (1 + ib) (1 + 1025 * ib + made_bitmap total ib).

(** The sizes a file system can be made with. *)
Definition made_ok (total ib : Z) : Prop := 1 <= ib <= 2 ^ 20 ∧ 1 + 1025 * ib <= total < U32 - 4096.

Lemma made_sizes total ib : made_ok total ib →
  0 <= made_data_total total ib ∧ 0 <= made_bitmap total ib ∧ 0 <= made_area total ib <= 4096 * made_bitmap total ib.
Proof.
  intros [H1 H2]. unfold made_area, made_bitmap. assert (0 <= made_data_total total ib) as Hd by (unfold made_data_total; lia).
  split; [done|]. Z.div_mod_to_equations. lia.
Qed.

Lemma made_geometry total ib : made_ok total ib → geometry (made_fs total ib) (made_area total ib).
Proof.
  intros H. pose proof (made_sizes total ib H) as (S1 & S2 & S3). destruct H as [H1 H2].
  split; unfold made_fs, Bitmap_maximum, BLOCK_BITS; simpl; try lia.
  - unfold made_area, made_data_total in *. lia.
  - unfold U32. lia.
Qed.

Section make.
Context {St : Type} {BS : BlockStore St} {ok : St → Prop} {view : St → Z → list Z} {spec : BlockStoreSpec St ok view}.
Implicit Types (s : St) (V : Z → list Z).

Lemma wp_clear_all total s (Q : unit → St → Prop) : ok s →
  (∀ s', ok s' → (∀ c, view s' c = if decide (0 <= c < total) then zero_block else view s c) → Q tt s') →
  wp (m_for (seqZ 0 total) (λ i, modify_block i clear_block)) Q s.
Proof.
  intros Hok HQ. eapply wp_mono.
  - apply (wp_for _ _ (λ done s', ok s' ∧ ∀ c, view s' c = if decide (c ∈ done) then zero_block else view s c)).
    + split; [done|]. intros c. rewrite decide_False; [done|]. apply not_elem_of_nil.
    + intros before x after s' _ [Hok' Hv']. assert (length (view s' x) = BLOCK_SZ) as Hl by (by eapply view_length).
      apply wp_modify_block; [done|rewrite clear_block_zero by done; apply zero_block_ok|].
      intros s'' Hok'' Hv''. split; [done|]. intros c. rewrite Hv'', clear_block_zero by done.
      destruct (decide (c = x)) as [->|Hne]; [by rewrite decide_True by set_solver|].
      rewrite Hv'. destruct (decide (c ∈ before)); [by rewrite decide_True by set_solver|]. by rewrite decide_False by set_solver.
  - intros [] s' [Hok' Hv']. apply HQ; [done|]. intros c. rewrite Hv'. destruct (decide (0 <= c < total)).
    + rewrite decide_True; [done|]. apply elem_of_seqZ. lia.
    + rewrite decide_False; [done|]. rewrite elem_of_seqZ. lia.
Qed.

(** A cleared disk with its super block is an empty file system without a root. *)
Lemma cleared_fs_ok total ib V : made_ok total ib → disk_ok V →
  let sb := SuperBlock_initialize total ib (1024 * ib) (made_bitmap total ib) (made_area total ib) in
  V 0 = store_super zero_block sb → (∀ c, 0 < c < total → V c = zero_block) →
  fs_ok (made_fs total ib) (made_area total ib) V ∅ ∧
  length (free_blocks (made_fs total ib) (made_area total ib) V) = Z.to_nat (made_area total ib).
Proof.
  intros Hm HV sb H0 Hz. pose proof (made_sizes total ib Hm) as (S1 & S2 & S3). pose proof Hm as [H1 H2].
  assert (made_area total ib = total - 1 - 1025 * ib - made_bitmap total ib) as Ea by done.
  assert (load_super (V 0) = sb) as Hsb.
  { rewrite H0. apply load_store_super; [apply zero_block_ok|]. unfold sb, u32s, super_words, is_u32, U32 in *. simpl.
    rewrite !Forall_cons. unfold EFS_MAGIC. split_and!; (done || lia). }
  assert (∀ c, in_data (made_fs total ib) (made_area total ib) c → dbit (made_fs total ib) V c = false) as Hdb.
  { intros c Hc. unfold in_data in Hc. apply bm_bit_zero, Hz. simpl in *. unfold BLOCK_BITS. Z.div_mod_to_equations. lia. }
  split.
  - split.
    + done.
    + split; rewrite Hsb; done.
    + intros i Hi. rewrite lookup_empty. unfold inode_num, Bitmap_maximum in Hi. simpl in Hi.
      unfold ibit. rewrite bm_bit_zero; [by split; [|intros [? ?]]|]. apply Hz. simpl.
      unfold BLOCK_BITS in *. Z.div_mod_to_equations. lia.
    + intros i [? E]. by rewrite lookup_empty in E.
    + intros i t bytes E. by rewrite lookup_empty in E.
    + intros i [? E]. by rewrite lookup_empty in E.
    + intros i j c [? E]. by rewrite lookup_empty in E.
    + intros i c [? E]. by rewrite lookup_empty in E.
    + intros c Hc Hb. by rewrite Hdb in Hb.
    + intros c Hc _. apply Hz. unfold in_data in Hc. simpl in Hc. lia.
    + intros k Hk. unfold pad, Bitmap_maximum in Hk. apply bm_bit_zero, Hz. simpl in *. unfold BLOCK_BITS in *.
      Z.div_mod_to_equations. lia.
  - unfold free_blocks. rewrite <- (length_seqZ (data_area_start_block (made_fs total ib)) (made_area total ib)).
    f_equal. apply filter_all_in. intros c Hc%elem_of_seqZ. apply Hdb. unfold in_data. lia.
Qed.

(** [EasyFileSystem::create] makes an empty file system. *)
Lemma wp_EasyFileSystem_create total ib s (Q : EasyFileSystem → St → Prop) : ok s → disk_ok (view s) → made_ok total ib →
  (∀ s', ok s' → fs_ok (made_fs total ib) (made_area total ib) (view s') {[0 := (Directory, [])]} →
     length (free_blocks (made_fs total ib) (made_area total ib) (view s')) = Z.to_nat (made_area total ib) →
     Q (made_fs total ib) s') →
  wp (EasyFileSystem_create total ib) Q s.
Proof.
  intros Hok Hd Hm HQ. pose proof (made_sizes total ib Hm) as (S1 & S2 & S3). pose proof Hm as [H1 H2].
  pose proof (made_geometry total ib Hm) as geo.
  assert (∀ z, 0 <= z <= total → wrap32 z = z) as Hw by (intros z Hz; apply wrap32_small; unfold is_u32; lia).
  assert ((Bitmap_maximum (mkBitmap 1 ib) * 128 + 512 - 1) / 512 = 1024 * ib) as Eia.
  { unfold Bitmap_maximum, BLOCK_BITS. simpl. Z.div_mod_to_equations. lia. }
  unfold EasyFileSystem_create, Bitmap_new. rewrite Eia. assert (made_data_total total ib = total - 1 - 1025 * ib) as Edt by done.
  assert (made_area total ib = made_data_total total ib - made_bitmap total ib) as Ear by done.
  rewrite (Hw (1024 * ib)), (Hw (ib + 1024 * ib)), (Hw (total - 1)), (Hw (1 + ib)), (Hw (1 + ib + 1024 * ib)), (Hw (1 + (ib + 1024 * ib))) by lia.
  replace (total - 1 - (ib + 1024 * ib)) with (made_data_total total ib) by lia.
  rewrite (Hw (made_data_total total ib)) by lia.
  rewrite (wrap32_small (made_data_total total ib + 4096)) by (unfold is_u32; lia).
  fold (made_bitmap total ib). rewrite <- Ear, (Hw (made_area total ib)), (Hw (1 + (ib + 1024 * ib) + made_bitmap total ib)) by lia.
  replace (1 + ib + 1024 * ib) with (1 + 1025 * ib) by lia. replace (1 + (ib + 1024 * ib)) with (1 + 1025 * ib) by lia.
  fold (made_fs total ib). apply wp_bind, wp_clear_all; [done|]. intros s1 Hok1 Hv1.
  assert (disk_ok (view s1)) as Hd1 by (intros c; rewrite Hv1; case_decide; [apply zero_block_ok|apply Hd]).
  set (sb := SuperBlock_initialize _ _ _ _ _).
  assert (view s1 0 = zero_block) as E0 by (by rewrite Hv1, decide_True by lia).
  apply wp_bind, wp_modify_block; [done|apply store_super_ok, Hd1|]. intros s2 Hok2 Hv2. rewrite E0 in Hv2.
  assert (disk_ok (view s2)) as Hd2 by (intros c; rewrite Hv2; case_decide; [apply store_super_ok, zero_block_ok|apply Hd1]).
  destruct (cleared_fs_ok total ib (view s2)) as [Hfs2 Hf2]; [done|done|by rewrite Hv2, decide_True|
    intros c Hc; rewrite Hv2, decide_False, Hv1, decide_True by lia; done|].
  assert (0 < inode_num (made_fs total ib)) as Hin by (unfold inode_num, Bitmap_maximum, BLOCK_BITS; simpl; lia).
  apply wp_bind, (wp_alloc_inode (made_fs total ib) (made_area total ib) geo ∅); [done|done|exists 0; by split; [lia|]|].
  intros x s3 Hok3 Hx Hxn Hbelow HU.
  assert (x = 0) as ->.
  { destruct (decide (x = 0)); [done|]. destruct (Hbelow 0 ltac:(lia)) as [? E]. by rewrite lookup_empty in E. }
  apply wp_bind, wp_assert; [done|].
  pose proof (wp_init_inode _ _ geo ∅ (view s2) 0 Directory s3 Hok3 Hfs2 Hxn Hx HU) as Hinit.
  destruct (get_disk_inode_pos (made_fs total ib) 0) as [b off].
  apply wp_bind. eapply wp_mono; [exact Hinit|]. intros [] s4 (Hok4 & Hfs4 & Hf4).
  apply wp_bind, wp_bs_sync; [done|]. intros s5 Hok5 Hv5. apply wp_ret, HQ; [done|by eapply fs_ok_ext|].
  by rewrite (free_blocks_ext _ _ (view s4)), Hf4.
Qed.

(** [EasyFileSystem::open] reads the layout back. *)
Lemma wp_EasyFileSystem_open fs nd σ s (Q : EasyFileSystem → St → Prop) : ok s → geometry fs nd → fs_ok fs nd (view s) σ →
  (∀ s', ok s' → (∀ c, view s' c = view s c) → Q fs s') → wp EasyFileSystem_open Q s.
Proof.
  intros Hok [G1 G2 G3 G4 G5 G6 G7 G8 G9] Hfs HQ. unfold EasyFileSystem_open. apply wp_bind, wp_bs_get; [done|].
  intros s1 Hok1 Hv1. destruct (fo_super _ _ _ _ Hfs) as [A B C D E]. apply wp_bind, wp_assert; [done|]. rewrite B, C, D.
  apply wp_ret. assert (∀ z, 0 <= z <= data_area_start_block fs + nd → wrap32 z = z) as Hw
    by (intros z Hz; apply wrap32_small; unfold is_u32; lia).
  set (n := bm_blocks (inode_bitmap fs)) in *. rewrite (Hw (n + 1024 * n)), (Hw (1 + (n + 1024 * n))), (Hw (1 + n)) by lia.
  rewrite Hw by lia. unfold Bitmap_new, n in *.
  replace (1 + (bm_blocks (inode_bitmap fs) + 1024 * bm_blocks (inode_bitmap fs))) with (start_block_id (data_bitmap fs)) by lia.
  rewrite <- G3, <- G6, <- G1. destruct fs as [[a b] [c e] f g]. simpl in *. by apply HQ.
Qed.
End make.

(** ** Files and directories *)

Section files.
Context {St : Type} {BS : BlockStore St} {ok : St → Prop} {view : St → Z → list Z} {spec : BlockStoreSpec St ok view}.
Implicit Types (s : St) (σ : gmap Z (DiskInodeType * list Z)) (fs : EasyFileSystem).

(** [C20] [EasyFileSystem::create] makes a file system that shows exactly an
    empty root directory, with every block of its data area free, and
    [EasyFileSystem::open] then returns the same layout. *)
Theorem efs_make_open total ib s : ok s → disk_ok (view s) → made_ok total ib →
  wp (let! fs := EasyFileSystem_create total ib in let! fs' := EasyFileSystem_open in m_ret (fs, fs'))
    (λ r s', r = (made_fs total ib, made_fs total ib) ∧ ok s' ∧
       fs_ok (made_fs total ib) (made_area total ib) (view s') {[0 := (Directory, [])]} ∧
       length (free_blocks (made_fs total ib) (made_area total ib) (view s')) = Z.to_nat (made_area total ib)) s.
Proof.
  intros Hok Hd Hm. apply wp_bind, wp_EasyFileSystem_create; [done|done|done|]. intros s1 Hok1 Hfs1 Hf1.
  apply wp_bind. eapply wp_EasyFileSystem_open; [done|by apply made_geometry|done|]. intros s2 Hok2 Hv2.
  apply wp_ret. split_and!; [done|done|by eapply fs_ok_ext|]. by rewrite (free_blocks_ext _ _ (view s1)).
Qed.

(** [C2] [Inode::write_at]: with room on the disk, the file gets the bytes at
    the offset, a gap before the offset reads as zeros, all other files are
    unchanged, and the bitmap holds exactly the blocks in use. *)
Theorem efs_write_exact fs nd σ i t bytes off buf s : geometry fs nd → ok s → fs_ok fs nd (view s) σ →
  σ !! i = Some (t, bytes) → (0 < length buf)%nat → Forall is_byte buf → Z.of_nat (off + length buf) <= MAX_SIZE →
  (blocks_needed (Z.of_nat (length bytes)) (Z.of_nat (off + length buf)) <= length (free_blocks fs nd (view s)))%nat →
  wp (Inode_write_at fs (inode_of fs i) (Z.of_nat off) buf)
    (λ n s', n = Z.of_nat (length buf) ∧ ok s' ∧ fs_ok fs nd (view s') (<[i := (t, write_bytes off buf bytes)]> σ)) s.
Proof. intros geo Hok Hfs Hi Hpos Hb Hmax Hfree. by apply (wp_Inode_write_at fs nd geo σ i t bytes). Qed.

(** [Inode::read_at] copies the bytes of the file from the offset on, as
    many as there are and fit, leaves the rest of the buffer, and changes
    nothing on the disk. *)
Theorem efs_read_exact fs nd σ i t bytes off buf s : ok s → fs_ok fs nd (view s) σ →
  σ !! i = Some (t, bytes) → Z.of_nat off + Z.of_nat (length buf) < USIZE →
  wp (Inode_read_at (inode_of fs i) (Z.of_nat off) buf)
    (λ r s', let read := take (length buf) (drop off bytes) in
       r = (Z.of_nat (length read), read ++ drop (length read) buf) ∧ ok s' ∧ ∀ c, view s' c = view s c) s.
Proof. intros Hok Hfs Hi Hlen. by apply (wp_Inode_read_at fs nd σ i t bytes). Qed.

(** [C21] [Inode::clear] leaves an empty file, frees every block the file had,
    and changes no other file. *)
Theorem efs_clear_exact fs nd σ i t bytes s : geometry fs nd → ok s → fs_ok fs nd (view s) σ → σ !! i = Some (t, bytes) →
  wp (Inode_clear fs (inode_of fs i))
    (λ _ s', ok s' ∧ fs_ok fs nd (view s') (<[i := (t, [])]> σ) ∧
       ∀ c, c ∈ own fs (view s) i → dbit fs (view s') c = false) s.
Proof. intros geo Hok Hfs Hi. by apply (wp_Inode_clear fs nd geo σ i t bytes). Qed.

Lemma dir_find_snoc name es x : dir_find name es = None → dir_find name (es ++ [(name, x)]) = Some x.
Proof.
  unfold dir_find. induction es as [|e es IH]; simpl; [by rewrite bool_decide_true|].
  destruct (bool_decide (e.1 = name)); [done|]. apply IH.
Qed.

(** [C22] [Inode::create] on a directory without the name makes a new empty file
    under an inode number that was not in use and appends its entry; [find]
    then returns the new inode, and all other files are unchanged. *)
Theorem efs_create_find fs nd σ i es name s : geometry fs nd → ok s → fs_ok fs nd (view s) σ →
  σ !! i = Some (Directory, dir_bytes es) → entries_ok es → dir_find name es = None → name_ok name →
  (∃ j, 0 <= j < inode_num fs ∧ σ !! j = None) → Z.of_nat (DIRENT_SZ * (length es + 1)) <= MAX_SIZE →
  (blocks_needed (Z.of_nat (DIRENT_SZ * length es)) (Z.of_nat (DIRENT_SZ * (length es + 1))) <=
     length (free_blocks fs nd (view s)))%nat →
  wp (let! r := Inode_create fs (inode_of fs i) name in
      let! found := Inode_find fs (inode_of fs i) name in m_ret (r, found))
    (λ r s', ∃ x, r = (Some (inode_of fs x), Some (inode_of fs x)) ∧ σ !! x = None ∧ 0 <= x < inode_num fs ∧ ok s' ∧
       fs_ok fs nd (view s') (<[i := (Directory, dir_bytes (es ++ [(name, x)]))]> (<[x := (File, [])]> σ))) s.
Proof.
  intros geo Hok Hfs Hi Hes Hnone Hname Hex Hmax Hfree.
  apply wp_bind, (wp_create_node fs nd geo File σ i es name); try done. intros x s1 Hok1 Hxn Hx Hfs1.
  assert (is_u32 x) as Hx32 by (pose proof (geo_inum _ _ geo); unfold inode_num in Hx; unfold is_u32; lia).
  apply wp_bind. eapply (wp_Inode_find fs nd _ i (es ++ [(name, x)])); [done|exact Hfs1|by rewrite lookup_insert_eq| |].
  { apply Forall_app. split; [done|]. by apply Forall_singleton. }
  intros s2 Hok2 Hv2. rewrite dir_find_snoc by done. apply wp_ret. exists x. split_and!; try done; [lia|lia|].
  by eapply fs_ok_ext.
Qed.

(** [C40] When every block of the data area is in use, [alloc_data] does not
    fail as long as the bitmap has bits past the data area: it returns the
    block right after the data area, which is past the end of the device. *)
Theorem efs_alloc_past_end fs nd σ s : geometry fs nd → ok s → fs_ok fs nd (view s) σ →
  free_blocks fs nd (view s) = [] → nd < Bitmap_maximum (data_bitmap fs) →
  wp (alloc_data fs) (λ x _, x = data_area_start_block fs + nd) s.
Proof.
  intros [G1 G2 G3 G4 G5 G6 G7 G8 G9] Hok Hfs Hfull Hnd. unfold alloc_data. apply wp_bind.
  assert (bm_bit (view s) (data_bitmap fs) nd = false) as Hbit by (apply (fo_pad _ _ _ _ Hfs); unfold pad; lia).
  eapply wp_mono; [apply wp_Bitmap_alloc; [done|apply Hfs|lia]|]. intros [k|] s' [_ Hpost].
  - destruct Hpost as (Hk & Hkb & Hbelow & _). apply wp_bind, wp_ret, wp_ret.
    assert (k = nd) as ->.
    { destruct (decide (k < nd)) as [Hlt|Hge].
      - assert (data_area_start_block fs + k ∈ free_blocks fs nd (view s)) as Hin; [|by rewrite Hfull in Hin; apply elem_of_nil in Hin].
        apply elem_of_free. unfold in_data, dbit. split; [lia|].
        by replace (data_area_start_block fs + k - data_area_start_block fs) with k by lia.
      - destruct (decide (k = nd)); [done|]. rewrite Hbelow in Hbit by lia. done. }
    rewrite !wrap32_small by (unfold is_u32; rewrite ?wrap32_small; unfold is_u32; lia). lia.
  - destruct Hpost as [Hall _]. rewrite Hall in Hbit by lia. done.
Qed.
End files.

(** ** Witnesses: the file system over the block cache *)

Definition blank : BlockCacheManager (gmap Z (list Z)) := mkManager ∅ [].

Lemma blank_ok : cache_ok [] blank ∧ disk_ok (cache_view blank).
Proof.
  split; [apply (empty_cache_ok (D := gmap Z (list Z)) ∅)|]. intros c. apply zero_block_ok.
Qed.

Lemma demo_sizes total : 1027 <= total <= 1100 → made_ok total 1.
Proof. intros H. unfold made_ok, U32. lia. Qed.

(** A file system made on a blank device. *)
Lemma demo_made total : 1027 <= total <= 1100 →
  ∃ s, cache_ok [] s ∧ fs_ok (made_fs total 1) (made_area total 1) (cache_view s) {[0 := (Directory, [])]} ∧
    length (free_blocks (made_fs total 1) (made_area total 1) (cache_view s)) = Z.to_nat (made_area total 1).
Proof.
  intros H. destruct blank_ok as [H1 H2].
  destruct (wp_det (EasyFileSystem_create total 1) (λ _ s, cache_ok [] s ∧
    fs_ok (made_fs total 1) (made_area total 1) (cache_view s) {[0 := (Directory, [])]} ∧
    length (free_blocks (made_fs total 1) (made_area total 1) (cache_view s)) = Z.to_nat (made_area total 1)) blank)
    as (fs & s & _ & Hs); [|by exists s].
  apply wp_EasyFileSystem_create; [done|done|by apply demo_sizes|done].
Qed.

Lemma efs_make_open_witness :
  wp (let! fs := EasyFileSystem_create 1100 1 in let! fs' := EasyFileSystem_open in m_ret (fs, fs'))
    (λ r s', r = (made_fs 1100 1, made_fs 1100 1) ∧ cache_ok [] s' ∧
       fs_ok (made_fs 1100 1) (made_area 1100 1) (cache_view s') {[0 := (Directory, [])]} ∧
       length (free_blocks (made_fs 1100 1) (made_area 1100 1) (cache_view s')) = Z.to_nat (made_area 1100 1)) blank.
Proof. apply (efs_make_open 1100 1 blank); [apply blank_ok|apply blank_ok|by apply demo_sizes]. Defined.

(** Three bytes at offset 600 of the empty root: a gap, over two blocks. *)
Lemma efs_write_exact_witness :
  ∃ s, wp (Inode_write_at (made_fs 1100 1) (inode_of (made_fs 1100 1) 0) 600 [1; 2; 3])
    (λ n s', n = 3 ∧ cache_ok [] s' ∧ fs_ok (made_fs 1100 1) (made_area 1100 1) (cache_view s')
       (<[0 := (Directory, write_bytes 600 [1; 2; 3] [])]> {[0 := (Directory, [])]})) s.
Proof.
  destruct (demo_made 1100 ltac:(lia)) as (s & Hok & Hfs & Hfree). exists s.
  apply (efs_write_exact (made_fs 1100 1) (made_area 1100 1) {[0 := (Directory, [])]} 0 Directory [] 600 [1; 2; 3] s);
    [by apply made_geometry, demo_sizes|done|done|done|simpl; lia|by repeat constructor|vm_compute; discriminate|].
  rewrite Hfree. vm_compute. lia.
Defined.

Lemma efs_read_exact_witness :
  ∃ s, wp (Inode_read_at (inode_of (made_fs 1100 1) 0) 0 [7; 8])
    (λ r s', r = (0, [7; 8]) ∧ cache_ok [] s' ∧ ∀ c, cache_view s' c = cache_view s c) s.
Proof.
  destruct (demo_made 1100 ltac:(lia)) as (s & Hok & Hfs & Hfree). exists s.
  apply (efs_read_exact (made_fs 1100 1) (made_area 1100 1) {[0 := (Directory, [])]} 0 Directory [] 0 [7; 8] s); done.
Defined.

Lemma efs_clear_exact_witness :
  ∃ s, wp (Inode_clear (made_fs 1100 1) (inode_of (made_fs 1100 1) 0))
    (λ _ s', cache_ok [] s' ∧ fs_ok (made_fs 1100 1) (made_area 1100 1) (cache_view s') (<[0 := (Directory, [])]> {[0 := (Directory, [])]}) ∧
       ∀ c, c ∈ own (made_fs 1100 1) (cache_view s) 0 → dbit (made_fs 1100 1) (cache_view s') c = false) s.
Proof.
  destruct (demo_made 1100 ltac:(lia)) as (s & Hok & Hfs & Hfree). exists s.
  apply (efs_clear_exact (made_fs 1100 1) (made_area 1100 1) {[0 := (Directory, [])]} 0 Directory [] s);
    [by apply made_geometry, demo_sizes|done|done|done].
Defined.

(** The file [a] in the root. *)
Lemma efs_create_find_witness :
  ∃ s, wp (let! r := Inode_create (made_fs 1100 1) (inode_of (made_fs 1100 1) 0) [97] in
           let! found := Inode_find (made_fs 1100 1) (inode_of (made_fs 1100 1) 0) [97] in m_ret (r, found))
    (λ r s', ∃ x, r = (Some (inode_of (made_fs 1100 1) x), Some (inode_of (made_fs 1100 1) x)) ∧
       ({[0 := (Directory, [])]} : gmap Z (DiskInodeType * list Z)) !! x = None ∧ 0 <= x < inode_num (made_fs 1100 1) ∧ cache_ok [] s' ∧
       fs_ok (made_fs 1100 1) (made_area 1100 1) (cache_view s')
         (<[0 := (Directory, dir_bytes [([97], x)])]> (<[x := (File, [])]> {[0 := (Directory, [])]}))) s.
Proof.
  destruct (demo_made 1100 ltac:(lia)) as (s & Hok & Hfs & Hfree). exists s.
  apply (efs_create_find (made_fs 1100 1) (made_area 1100 1) {[0 := (Directory, [])]} 0 [] [97] s);
    [by apply made_geometry, demo_sizes|done|done|done|constructor|done| | |vm_compute; discriminate|].
  - split; [repeat constructor; lia|simpl; lia|done].
  - exists 1. split; [vm_compute; split; [discriminate|done]|done].
  - rewrite Hfree. vm_compute. lia.
Defined.

(** A device of 1027 blocks has a bitmap block and no data block: the first
    data block handed out is number 1027. *)
Lemma efs_alloc_past_end_witness :
  ∃ s, wp (alloc_data (made_fs 1027 1)) (λ x _, x = 1027) s.
Proof.
  destruct (demo_made 1027 ltac:(lia)) as (s & Hok & Hfs & Hfree). exists s.
  apply (efs_alloc_past_end (made_fs 1027 1) (made_area 1027 1) {[0 := (Directory, [])]} s);
    [by apply made_geometry, demo_sizes|done|done|by apply nil_length_inv|done].
Defined.
